(** * Weather ingestion-and-archival pipeline: a shallow embedding

    The development follows the backend of the weather map: the helper
    functions ([helpers.js]), the Mongoose models, the repository
    ([weatherRepository.js]), the grid and port collectors and the
    orchestrator ([runAllCollectors.js]).

    Conventions of the embedding.
    - A JavaScript [Date] is its time value, the number of milliseconds
      since the epoch: an integer, of absolute value 8.64e15 at most; an
      Invalid Date, where one can arise, is [None].  Coordinates are only
      ever copied and compared for equality, so an integer (a fixed-point
      number of degrees) stands for them.
      The other numbers are doubles, each given by its exact value, a
      rational: an arithmetic operation yields the double nearest to the
      exact result, ties to the even significand (module [Numbers]).
    - An [async] function is a computation in the monad [M]: it reads its
      environment (the wall clock, the outcome of every store operation and
      of every HTTP request, the configuration), threads the state of the
      world (the six collections, counters, the trace of what was done) and
      completes normally, with a thrown error, or never.
    - The environment is an oracle: the [k]-th reading of the clock, the
      [k]-th store operation and the [k]-th HTTP request get what the
      environment says, so a statement for every environment covers every
      behaviour of the clock, the database and the providers; it also
      gives the time zone of the process. *)

From Stdlib Require Import String Ascii ZArith QArith Qround Qpower Bool Arith Lia List.
From Stdlib Require Floats.SpecFloat.
Import ListNotations.

Set Implicit Arguments.

Set Warnings "-register-all".

Local Open Scope string_scope.
Local Open Scope list_scope.
Local Open Scope Z_scope.

(* ================================================================== *)
(** * JavaScript values *)
(* ================================================================== *)

Module JS.

(** The provider payloads are opaque JSON; this is the part of the
    JavaScript value universe the code inspects. *)
Inductive value : Type :=
| VUndefined
| VNull
| VBool (b : bool)
| VNum (n : Z)
| VStr (s : string)
| VDate (ms : Z)
| VArr (items : list value)
| VObj (fields : list (string * value)).

(** Truthiness, as used by [if (x)], [x && y] and [x || y]. *)
Definition truthy (v : value) : bool :=
  match v with
  | VUndefined | VNull => false
  | VBool b => b
  | VNum n => negb (n =? 0)
  | VStr s => negb (s =? "")%string
  | VDate _ | VArr _ | VObj _ => true
  end.

(** [a || b] on values. *)
Definition or_else (a b : value) : value := if truthy a then a else b.

Fixpoint lookup_field (k : string) (fields : list (string * value)) : value :=
  match fields with
  | [] => VUndefined
  | (k', v) :: rest => if (k =? k')%string then v else lookup_field k rest
  end.

(** An error value: what the code reads of it is [error.message]. *)
Record Error : Type := mkError { message : string }.

(** Property access [v.k]: a [TypeError] on [null] and [undefined], the
    field of an object, [undefined] otherwise. *)
Definition get_property (v : value) (k : string) : Error + value :=
  match v with
  | VUndefined | VNull =>
      inl (mkError ("Cannot read properties of undefined (reading '" ++ k ++ "')")%string)
  | VObj fields => inr (lookup_field k fields)
  | _ => inr VUndefined
  end.

(** [Array.prototype.slice(start, end)] with its treatment of negative
    and out-of-range indices. *)
Definition slice {A : Type} (array : list A) (start end_ : Z) : list A :=
  let len := Z.of_nat (length array) in
  let k := if start <? 0 then Z.max (len + start) 0 else Z.min start len in
  let final := if end_ <? 0 then Z.max (len + end_) 0 else Z.min end_ len in
  firstn (Z.to_nat (final - k)) (skipn (Z.to_nat k) array).

(** [String.prototype.toLowerCase] on the ASCII letters. *)
Definition lower_ascii (c : ascii) : ascii :=
  let n := nat_of_ascii c in
  if ((65 <=? n) && (n <=? 90))%nat then ascii_of_nat (n + 32) else c.

Fixpoint toLowerCase (s : string) : string :=
  match s with
  | EmptyString => EmptyString
  | String c rest => String (lower_ascii c) (toLowerCase rest)
  end.

(** [String.prototype.includes]. *)
Fixpoint includes (s sub : string) : bool :=
  if prefix sub s then true
  else match s with
       | EmptyString => false
       | String _ rest => includes rest sub
       end.

(** Decimal rendering of an integer inside a template literal. *)
Definition digit_of (d : Z) : ascii := ascii_of_nat (48 + Z.to_nat d).

Fixpoint digits_fuel (fuel : nat) (n : Z) (acc : string) : string :=
  match fuel with
  | O => acc
  | S fuel' =>
      let acc' := String (digit_of (n mod 10)) acc in
      if n / 10 =? 0 then acc' else digits_fuel fuel' (n / 10) acc'
  end.

Definition string_of_Z (n : Z) : string :=
  if n <? 0 then ("-" ++ digits_fuel (S (Z.to_nat (Z.log2 (- n)))) (- n) "")%string
  else digits_fuel (S (Z.to_nat (Z.log2 n))) n "".

End JS.
Export JS.

(* ================================================================== *)
(** * Documents and collections ([models/*.js]) *)
(* ================================================================== *)

Module Models.

(** A city or grid snapshot as the collectors build it; [CityWeather.js]
    and [GridWeather.js] declare the same fields. *)
Record PointSnapshot : Type := mkPoint {
  name : string;
  lat : Z;
  lon : Z;
  coordinates : value;
  weather_data : value
}.

(** A port snapshot ([PortWeather.js]); [status] is the string tag
    ['success'], ['failed'] or ['error'], and [error] is absent ([None])
    from a snapshot that does not set it. *)
Record PortSnapshot : Type := mkPort {
  port_name : string;
  slug : string;
  port_coordinates : Z * Z;
  port_weather_data : value;
  fetched_at : Z;
  status : string;
  error : option string
}.

(** A document of a current collection: the snapshot's fields, the
    store-assigned [_id] ([None] while [undefined]) and [updated_at]. *)
Record Document (S : Type) : Type := mkDocument {
  _id : option nat;
  fields : S;
  updated_at : Z
}.

(** A document of a history collection ([WeatherHistory.js]): the copy
    [{...doc}] of a current document with [archived_at] and
    [original_updated_at] added. *)
Record HistoryDocument (S : Type) : Type := mkHistory {
  h_id : option nat;
  h_fields : S;
  h_updated_at : Z;
  archived_at : Z;
  original_updated_at : Z
}.

(** The database: one current and one history collection per class.  A
    collection is the list of its documents in insertion order; the
    schemas of [city_weather] and [grid_weather] declare no unique index,
    so the same identity may occur more than once. *)
Record Db : Type := mkDb {
  city_weather : list (Document PointSnapshot);
  city_weather_history : list (HistoryDocument PointSnapshot);
  grid_weather : list (Document PointSnapshot);
  grid_weather_history : list (HistoryDocument PointSnapshot);
  port_weather : list (Document PortSnapshot);
  port_weather_history : list (HistoryDocument PortSnapshot)
}.

End Models.
Export Models.

(* ================================================================== *)
(** * The world, the environment and the monad of async functions *)
(* ================================================================== *)

Module Runtime.

(** The messages the modelled code logs, one constructor per statement,
    carrying the interpolated values. *)
Inductive LogMessage : Type :=
| Text (s : string)
| ArchivedRecords (class : string) (count : Z)
| SavedRecords (class : string) (count : Z)
| RetryAttempt (attempt maxRetries delay : Z)
| ErrorFetchingBatch (msg : string)
| ProcessingLocations (count batchSize : Z)
| TotalBatches (total : Z)
| EstimatedTime (seconds : Z)
| BatchStart (batch total count : Z)
| BatchCompleted (batch count : Z)
| BatchTimes (batch : Z)
| BatchFailedAttempt (batch attempt maxRetries : Z)
| RateLimitHit (batch delay : Z)
| BatchError (batch : Z) (msg : string)
| BatchFailedAfter (batch maxRetries : Z)
| WaitingBeforeNextBatch (ms : Z)
| CompletedAllBatches
| TotalProcessed (processed total : Z)
| SuccessRate (processed total : Z)
| Fetching (port slug : string)
| Processing (index total : Z) (port : string)
| PortSuccess
| PortFailed (msg : string)
| Progress (done total : Z)
| ProgressCounts (successful failed : Z)
| CollectorStarting (collector : string)
| CollectorSuccess (collector : string)
| CollectorFailed (collector msg : string)
| Running (collector : string)
| Summary (collector : string) (success : bool)
| OrchestratorSuccessRate (successCount totalCount : Z)
| FatalError (msg : string).

Inductive Event : Type :=
| EvSleep (ms : Z)
| EvLog (timestamp : Z) (level : string) (msg : LogMessage)
| EvConsole (msg : LogMessage)
| EvHttpGet (url : string) (timeout : option Z).

(** The outcome of [axios.get]: a response, or a rejection. *)
Inductive HttpOutcome : Type :=
| Resolved (status : Z) (data : value)
| Rejected (e : Error).

Record Config : Type := mkConfig {
  openMeteoUrl : string;
  bmkgPortUrl : string;
  batchSize : Z;
  requestDelayMs : Z;
  maxRetries : Z
}.

(** The environment.  [store_fault k] is the fate of the [k]-th store
    operation: [None], it succeeds; [Some n], it throws, an operation on
    many documents after it was applied to the first [n] of them.
    [LocalTZA t isUTC] is the offset in milliseconds of the local time of
    the process from UTC, as ECMAScript has it: at the UTC time [t] when
    [isUTC] is true, at the local time [t] when it is false. *)
Record Env : Type := mkEnv {
  clock : nat -> Z;
  store_fault : nat -> option nat;
  axios_get : nat -> HttpOutcome;
  config : Config;
  LocalTZA : Z -> bool -> Z
}.

(** The state of the world: the database, the module-level flag
    [isConnected] of [database.js], the counters of the oracles consumed so
    far and of the identifiers assigned, and the trace. *)
Record World : Type := mkWorld {
  db : Db;
  isConnected : bool;
  next_id : nat;
  ticks : nat;
  store_ops : nat;
  requests : nat;
  trace : list Event
}.

Definition set_db (d : Db) (w : World) : World :=
  mkWorld d (isConnected w) (next_id w) (ticks w) (store_ops w) (requests w) (trace w).
Definition set_isConnected (b : bool) (w : World) : World :=
  mkWorld (db w) b (next_id w) (ticks w) (store_ops w) (requests w) (trace w).
Definition set_next_id (n : nat) (w : World) : World :=
  mkWorld (db w) (isConnected w) n (ticks w) (store_ops w) (requests w) (trace w).
Definition set_ticks (n : nat) (w : World) : World :=
  mkWorld (db w) (isConnected w) (next_id w) n (store_ops w) (requests w) (trace w).
Definition set_store_ops (n : nat) (w : World) : World :=
  mkWorld (db w) (isConnected w) (next_id w) (ticks w) n (requests w) (trace w).
Definition set_requests (n : nat) (w : World) : World :=
  mkWorld (db w) (isConnected w) (next_id w) (ticks w) (store_ops w) n (trace w).
Definition set_trace (t : list Event) (w : World) : World :=
  mkWorld (db w) (isConnected w) (next_id w) (ticks w) (store_ops w) (requests w) t.

(** How a computation completes. *)
Inductive Completion (A : Type) : Type :=
| Ok (a : A)
| Throw (e : Error)
| Hang.

Arguments Ok {A} a.
Arguments Throw {A} e.
Arguments Hang {A}.

Definition M (A : Type) : Type := Env -> World -> Completion A * World.

Definition ret {A : Type} (a : A) : M A := fun _ w => (Ok a, w).

Definition bind {A B : Type} (m : M A) (k : A -> M B) : M B :=
  fun env w =>
    match m env w with
    | (Ok a, w') => k a env w'
    | (Throw e, w') => (Throw e, w')
    | (Hang, w') => (Hang, w')
    end.

Definition throw {A : Type} (e : Error) : M A := fun _ w => (Throw e, w).

Definition hang {A : Type} : M A := fun _ w => (Hang, w).

(** [try { m } catch (error) { handler error }]. *)
Definition try_catch {A : Type} (m : M A) (handler : Error -> M A) : M A :=
  fun env w =>
    match m env w with
    | (Throw e, w') => handler e env w'
    | other => other
    end.

Definition ask : M Env := fun env w => (Ok env, w).

Definition emit (e : Event) : M unit :=
  fun _ w => (Ok tt, set_trace (trace w ++ [e]) w).

Declare Scope monad_scope.
Delimit Scope monad_scope with monad.
Notation "x <- m ;; k" := (bind m (fun x => k))
  (at level 61, m at next level, right associativity) : monad_scope.
Notation "m ;; k" := (bind m (fun _ => k))
  (at level 61, right associativity) : monad_scope.
Local Open Scope monad_scope.

(** [new Date()] and [Date.now()]: the next reading of the clock. *)
Definition new_Date : M Z :=
  fun env w => (Ok (clock env (ticks w)), set_ticks (S (ticks w)) w).

Definition Date_now : M Z := new_Date.

(** [console.log]. *)
Definition console_log (msg : LogMessage) : M unit := emit (EvConsole msg).

(** The fate of the next store operation. *)
Definition store_op : M (option nat) :=
  fun env w => (Ok (store_fault env (store_ops w)), set_store_ops (S (store_ops w)) w).

(** [axios.get(url, { timeout })]: the request is recorded and the next
    outcome of the environment is delivered; a rejection is thrown. *)
Definition axios_get_ (url : string) (timeout : option Z) : M (Z * value) :=
  fun env w =>
    let w' := set_requests (S (requests w)) (set_trace (trace w ++ [EvHttpGet url timeout]) w) in
    match axios_get env (requests w) with
    | Resolved st data => (Ok (st, data), w')
    | Rejected e => (Throw e, w')
    end.

(** [array.map(async/sync f)] and sequential iteration, left to right. *)
Fixpoint mapM {A B : Type} (f : A -> M B) (l : list A) : M (list B) :=
  match l with
  | [] => ret []
  | a :: rest => b <- f a ;; bs <- mapM f rest ;; ret (b :: bs)
  end.

End Runtime.
Export Runtime.

Local Open Scope monad_scope.

(* ================================================================== *)
(** * JavaScript numbers *)
(* ================================================================== *)

(** A finite double is given by its exact value.  [to_double x] is the
    double nearest to [x], ties going to the even significand: what an
    arithmetic operation whose exact result is [x] returns.  A double has
    53 significant bits: for [x] in the binade [2^e <= |x| < 2^(e+1)] the
    doubles are the multiples of [2^(e-52)].  The numbers rounded here
    are differences of two time values and their quotients by 3 600 000;
    time values are bounded by 8.64e15, so these stay far inside the
    exponent range of doubles, which is not modelled. *)
Module Numbers.

(** [2^e], for an exponent of either sign. *)
Definition two_power (e : Z) : Q := ((2 # 1) ^ e)%Q.

(** The integer nearest to [x], the even one of the two when [x] is half
    way between them. *)
Definition round_half_even (x : Q) : Z :=
  let f := Qfloor x in
  match (x - inject_Z f ?= 1 # 2)%Q with
  | Lt => f
  | Gt => f + 1
  | Eq => if Z.even f then f else f + 1
  end.

(** The exponent [e] with [2^e <= a < 2^(e+1)], for a positive [a]: the
    difference of the bit lengths of the numerator and the denominator,
    or one less. *)
Definition binade (a : Q) : Z :=
  let e := Z.log2 (Qnum a) - Z.log2 (Zpos (Qden a)) in
  if Qle_bool (two_power e) a then e else e - 1.

Definition round_positive (a : Q) : Q :=
  let ulp := two_power (binade a - 52) in
  (inject_Z (round_half_even (a / ulp)) * ulp)%Q.

Definition to_double (x : Q) : Q :=
  match (x ?= 0)%Q with
  | Eq => 0%Q
  | Gt => round_positive x
  | Lt => (- round_positive (- x))%Q
  end.

(** For comparison: the quotient of two integers as the division of
    binary64 returns it in the specification of IEEE 754 of the standard
    library ([None] when it is not finite). *)
Definition binary64_of_Z (z : Z) : SpecFloat.spec_float :=
  SpecFloat.binary_normalize 53 1024 z 0 false.

Definition binary64_value (x : SpecFloat.spec_float) : option Q :=
  match x with
  | SpecFloat.S754_zero _ => Some 0%Q
  | SpecFloat.S754_finite s m e =>
      Some ((if s then - inject_Z (Zpos m) else inject_Z (Zpos m)) * two_power e)%Q
  | _ => None
  end.

Definition binary64_quotient (a b : Z) : option Q :=
  binary64_value (SpecFloat.SFdiv 53 1024 (binary64_of_Z a) (binary64_of_Z b)).

Definition same_number (x : option Q) (y : Q) : bool :=
  match x with
  | Some q => Qeq_bool q y
  | None => false
  end.

End Numbers.
Export Numbers.

(* ================================================================== *)
(** * [utils/helpers.js] *)
(* ================================================================== *)

Module Helpers.

(** [sleep(ms)]: a suspension point; the duration is recorded. *)
Definition sleep (ms : Z) : M unit := emit (EvSleep ms).

(** [logWithTimestamp(message, level)] stamps the line with
    [new Date()]. *)
Definition logWithTimestamp (msg : LogMessage) (level : string) : M unit :=
  timestamp <- new_Date ;;
  emit (EvLog timestamp level msg).

(** [hoursSince(date)]; [None] is [null].  The subtraction and the
    division are those of doubles. *)
Definition hoursSince (date : option Z) : M (option Q) :=
  match date with
  | None => ret None
  | Some d =>
      now <- new_Date ;;
      let diffMs := to_double (inject_Z (now - d)) in
      ret (Some (to_double (diffMs / inject_Z (1000 * 60 * 60))))
  end.

(** [isDataFresh(fetchedAt, maxAgeHours)]; [maxAgeHours] is the exact
    value of the double passed, a finite one ([NaN], under which nothing
    is fresh, has no value to be given by). *)
Definition isDataFresh (fetchedAt : option Z) (maxAgeHours : Q) : M bool :=
  match fetchedAt with
  | None => ret false
  | Some _ =>
      age <- hoursSince fetchedAt ;;
      ret (match age with
           | None => false
           | Some a => Qle_bool a maxAgeHours
           end)
  end.

(** The loop of [batchArray], from index [i] with the batches pushed so
    far.  [fuel] bounds the number of iterations; [None] says the bound
    was reached with the loop condition still true. *)
Fixpoint batchArray_loop {A : Type} (fuel : nat) (array : list A) (size : Z)
    (i : Z) (batches : list (list A)) : option (list (list A)) :=
  match fuel with
  | O => if i <? Z.of_nat (length array) then None else Some batches
  | S fuel' =>
      if i <? Z.of_nat (length array)
      then batchArray_loop fuel' array size (i + size)
             (batches ++ [slice array i (i + size)])
      else Some batches
  end.

(** ⌈n / b⌉ over the integers, for a positive [b]. *)
Definition ceil_div (n b : Z) : Z := (n + b - 1) / b.

(** [batchArray(array, size)].  One iteration per element is enough
    whenever the loop ends at all (see [batchArray_loop_stable] and
    [batchArray_loop_never_ends]), so [None] means the loop runs for
    ever. *)
Definition batchArray {A : Type} (array : list A) (size : Z) : option (list (list A)) :=
  batchArray_loop (length array) array size 0 [].

(** The loop of [retryWithBackoff]: [remaining] iterations are left, the
    loop variable is [attempt].  Leaving the loop returns [undefined]
    ([None]). *)
Fixpoint retryWithBackoff_loop {A : Type} (fn : M A) (maxRetries baseDelay : Z)
    (remaining : nat) (attempt : Z) : M (option A) :=
  match remaining with
  | O => ret None
  | S remaining' =>
      try_catch
        (r <- fn ;; ret (Some r))
        (fun error =>
           if attempt =? maxRetries then throw error
           else
             let delay := baseDelay * 2 ^ (attempt - 1) in
             console_log (RetryAttempt attempt maxRetries delay) ;;
             sleep delay ;;
             retryWithBackoff_loop fn maxRetries baseDelay remaining' (attempt + 1))
  end.

(** [retryWithBackoff(fn, maxRetries = 3, baseDelay = 1000)]: the loop
    [for (attempt = 1; attempt <= maxRetries; attempt++)] makes
    [maxRetries] iterations at most. *)
Definition retryWithBackoff {A : Type} (fn : M A) (maxRetries baseDelay : Z) : M (option A) :=
  retryWithBackoff_loop fn maxRetries baseDelay (Z.to_nat maxRetries) 1.

End Helpers.
Export Helpers.

(* ================================================================== *)
(** * The store: Mongoose models and their operations *)
(* ================================================================== *)

Module Store.

(** A Mongoose model: the collection it reads and writes, and how the
    store assigns an [_id] to a document that has none. *)
Record Model (D : Type) : Type := mkModel {
  collection : Db -> list D;
  replace : list D -> Db -> Db;
  doc_id : D -> option nat;
  with_id : nat -> D -> D
}.

Definition CityWeather : Model (Document PointSnapshot) :=
  mkModel city_weather
    (fun l d => mkDb l (city_weather_history d) (grid_weather d)
                  (grid_weather_history d) (port_weather d) (port_weather_history d))
    (@_id _)
    (fun n doc => mkDocument (Some n) (fields doc) (updated_at doc)).

Definition CityWeatherHistory : Model (HistoryDocument PointSnapshot) :=
  mkModel city_weather_history
    (fun l d => mkDb (city_weather d) l (grid_weather d)
                  (grid_weather_history d) (port_weather d) (port_weather_history d))
    (@h_id _)
    (fun n doc => mkHistory (Some n) (h_fields doc) (h_updated_at doc)
                    (archived_at doc) (original_updated_at doc)).

Definition GridWeather : Model (Document PointSnapshot) :=
  mkModel grid_weather
    (fun l d => mkDb (city_weather d) (city_weather_history d) l
                  (grid_weather_history d) (port_weather d) (port_weather_history d))
    (@_id _)
    (fun n doc => mkDocument (Some n) (fields doc) (updated_at doc)).

Definition GridWeatherHistory : Model (HistoryDocument PointSnapshot) :=
  mkModel grid_weather_history
    (fun l d => mkDb (city_weather d) (city_weather_history d) (grid_weather d)
                  l (port_weather d) (port_weather_history d))
    (@h_id _)
    (fun n doc => mkHistory (Some n) (h_fields doc) (h_updated_at doc)
                    (archived_at doc) (original_updated_at doc)).

Definition PortWeather : Model (Document PortSnapshot) :=
  mkModel port_weather
    (fun l d => mkDb (city_weather d) (city_weather_history d) (grid_weather d)
                  (grid_weather_history d) l (port_weather_history d))
    (@_id _)
    (fun n doc => mkDocument (Some n) (fields doc) (updated_at doc)).

Definition PortWeatherHistory : Model (HistoryDocument PortSnapshot) :=
  mkModel port_weather_history
    (fun l d => mkDb (city_weather d) (city_weather_history d) (grid_weather d)
                  (grid_weather_history d) (port_weather d) l)
    (@h_id _)
    (fun n doc => mkHistory (Some n) (h_fields doc) (h_updated_at doc)
                    (archived_at doc) (original_updated_at doc)).

(** The error a failing store operation throws. *)
Definition store_error : Error := mkError "MongoServerError".

(** Insertion of one document at the end of a collection; the store
    assigns the next identifier when the document has none. *)
Definition insert_doc {D : Type} (m : Model D) (st : list D * nat) (doc : D) : list D * nat :=
  let (coll, next) := st in
  match doc_id m doc with
  | Some _ => (coll ++ [doc], next)
  | None => (coll ++ [with_id m next doc], S next)
  end.

Definition insert_docs {D : Type} (m : Model D) (st : list D * nat) (docs : list D)
    : list D * nat :=
  fold_left (insert_doc m) docs st.

(** [Model.find(filter).lean()]. *)
Definition find {D : Type} (m : Model D) (filter : D -> bool) : M (list D) :=
  fault <- store_op ;;
  match fault with
  | Some _ => throw store_error
  | None => fun _ w => (Ok (List.filter filter (collection m (db w))), w)
  end.

(** [Model.insertMany(docs)]: ordered; a failure leaves the documents
    inserted before it. *)
Definition insertMany {D : Type} (m : Model D) (docs : list D) : M unit :=
  fault <- store_op ;;
  let accepted := match fault with None => docs | Some n => firstn n docs end in
  (fun _ w =>
     let (coll, next) := insert_docs m (collection m (db w), next_id w) accepted in
     (Ok tt, set_next_id next (set_db (replace m coll (db w)) w))) ;;
  match fault with
  | None => ret tt
  | Some _ => throw store_error
  end.

(** The collection without the first [n] documents that [f] selects. *)
Fixpoint delete_first {D : Type} (f : D -> bool) (n : nat) (l : list D) : list D :=
  match l with
  | [] => []
  | d :: rest =>
      if f d then
        match n with
        | O => d :: rest
        | S n' => delete_first f n' rest
        end
      else d :: delete_first f n rest
  end.

(** [Model.deleteMany(filter)], returning [deletedCount]; a failure leaves
    the documents deleted before it deleted. *)
Definition deleteMany {D : Type} (m : Model D) (filter : D -> bool) : M Z :=
  fault <- store_op ;;
  match fault with
  | Some n =>
      (fun _ w =>
         (Ok tt, set_db (replace m (delete_first filter n (collection m (db w))) (db w)) w)) ;;
      throw store_error
  | None =>
      fun _ w =>
        let coll := collection m (db w) in
        let deleted := List.filter filter coll in
        let kept := List.filter (fun doc => negb (filter doc)) coll in
        (Ok (Z.of_nat (length deleted)), set_db (replace m kept (db w)) w)
  end.

(** One [updateOne] operation of a bulk write: [op_filter] selects,
    [op_update] is the effect of the [$set] on the first selected document,
    and [op_upsert] is the document inserted when none is selected (the
    fields of the filter and of the [$set]); [None] is [upsert: false]. *)
Record UpdateOne (D : Type) : Type := mkUpdateOne {
  op_filter : D -> bool;
  op_update : D -> D;
  op_upsert : option D
}.

Fixpoint update_first {D : Type} (f : D -> bool) (u : D -> D) (l : list D) : option (list D) :=
  match l with
  | [] => None
  | d :: rest =>
      if f d then Some (u d :: rest)
      else match update_first f u rest with
           | Some rest' => Some (d :: rest')
           | None => None
           end
  end.

Definition apply_updateOne {D : Type} (m : Model D) (st : list D * nat) (op : UpdateOne D)
    : list D * nat :=
  match update_first (op_filter op) (op_update op) (fst st) with
  | Some coll' => (coll', snd st)
  | None =>
      match op_upsert op with
      | Some doc => insert_doc m st doc
      | None => st
      end
  end.

(** [Model.bulkWrite(operations)]: ordered; a failure leaves the
    operations applied before it. *)
Definition bulkWrite {D : Type} (m : Model D) (operations : list (UpdateOne D)) : M unit :=
  fault <- store_op ;;
  let applied := match fault with None => operations | Some n => firstn n operations end in
  (fun _ w =>
     let (coll, next) :=
       fold_left (apply_updateOne m) applied (collection m (db w), next_id w) in
     (Ok tt, set_next_id next (set_db (replace m coll (db w)) w))) ;;
  match fault with
  | None => ret tt
  | Some _ => throw store_error
  end.

(** [Promise.all([a, b, c])]: the three operations are all started, in
    the order of the array, and each runs to its end whatever the others
    do; the result is their three values, or the first rejection in that
    order. *)
Definition Promise_all3 {A B C : Type} (a : M A) (b : M B) (c : M C) : M (A * B * C) :=
  fun env w =>
    let (ra, w1) := a env w in
    let (rb, w2) := b env w1 in
    let (rc, w3) := c env w2 in
    match ra, rb, rc with
    | Throw e, _, _ => (Throw e, w3)
    | _, Throw e, _ => (Throw e, w3)
    | _, _, Throw e => (Throw e, w3)
    | Ok x, Ok y, Ok z => (Ok (x, y, z), w3)
    | _, _, _ => (Hang, w3)
    end.

End Store.
Export Store.

(* ================================================================== *)
(** * [utils/weatherRepository.js] *)
(* ================================================================== *)

Module WeatherRepository.

(** ** Historical data operations *)

(** [archiveCityWeather(cityNames)]; the argument is an array here, so
    [names] is [cityNames]. *)
Definition archiveCityWeather (cityNames : list string) : M Z :=
  let names := cityNames in
  currentData <- find CityWeather
                   (fun doc => existsb (String.eqb (name (fields doc))) names) ;;
  if Z.of_nat (length currentData) =? 0 then ret 0
  else
    historyDocs <- mapM (fun doc =>
                           now <- new_Date ;;
                           ret (mkHistory None (fields doc) (updated_at doc)
                                  now (updated_at doc)))
                        currentData ;;
    insertMany CityWeatherHistory historyDocs ;;
    ret (Z.of_nat (length historyDocs)).

(** Equality of two grid points, as the [$or] of [{ lat, lon }] filters
    tests it. *)
Definition same_point (p q : Z * Z) : bool := (fst p =? fst q) && (snd p =? snd q).

(** [archiveGridWeather(gridPoints)]. *)
Definition archiveGridWeather (gridPoints : list (Z * Z)) : M Z :=
  if Z.of_nat (length gridPoints) =? 0 then ret 0
  else
    currentData <- find GridWeather
                     (fun doc => existsb (same_point (lat (fields doc), lon (fields doc)))
                                   gridPoints) ;;
    if Z.of_nat (length currentData) =? 0 then ret 0
    else
      historyDocs <- mapM (fun doc =>
                             now <- new_Date ;;
                             ret (mkHistory None (fields doc) (updated_at doc)
                                    now (updated_at doc)))
                          currentData ;;
      insertMany GridWeatherHistory historyDocs ;;
      ret (Z.of_nat (length historyDocs)).

(** [archivePortWeather(portSlugs)]. *)
Definition archivePortWeather (portSlugs : list string) : M Z :=
  let slugs := portSlugs in
  currentData <- find PortWeather
                   (fun doc => existsb (String.eqb (slug (fields doc))) slugs) ;;
  if Z.of_nat (length currentData) =? 0 then ret 0
  else
    historyDocs <- mapM (fun doc =>
                           now <- new_Date ;;
                           ret (mkHistory None (fields doc) (updated_at doc)
                                  now (updated_at doc)))
                        currentData ;;
    insertMany PortWeatherHistory historyDocs ;;
    ret (Z.of_nat (length historyDocs)).

(** ** Weather data operations *)

(** [saveCityWeatherData(data)].  The [$set] of [{...city, updated_at}]
    writes every field of a city snapshot, which always has them all. *)
Definition saveCityWeatherData (data : list PointSnapshot) : M unit :=
  if Z.of_nat (length data) =? 0 then ret tt
  else
    let cityNames := map name data in
    archivedCount <- archiveCityWeather cityNames ;;
    (if archivedCount >? 0 then console_log (ArchivedRecords "city" archivedCount)
     else ret tt) ;;
    operations <- mapM (fun city =>
                          now <- new_Date ;;
                          ret (mkUpdateOne
                                 (fun doc => String.eqb (name (fields doc)) (name city))
                                 (fun doc => mkDocument (_id doc) city now)
                                 (Some (mkDocument None city now))))
                       data ;;
    bulkWrite CityWeather operations ;;
    console_log (SavedRecords "city" (Z.of_nat (length data))).

(** [saveGridWeatherData(data)]. *)
Definition saveGridWeatherData (data : list PointSnapshot) : M unit :=
  if Z.of_nat (length data) =? 0 then ret tt
  else
    let gridPoints := map (fun point => (lat point, lon point)) data in
    archivedCount <- archiveGridWeather gridPoints ;;
    (if archivedCount >? 0 then console_log (ArchivedRecords "grid" archivedCount)
     else ret tt) ;;
    deleteMany GridWeather (fun _ => true) ;;
    documents <- mapM (fun point =>
                         now <- new_Date ;;
                         ret (mkDocument None point now))
                      data ;;
    insertMany GridWeather documents ;;
    console_log (SavedRecords "grid" (Z.of_nat (length data))).

(** The effect of [$set: {...port}] on the fields of a stored port
    document: every field the new snapshot has is written; [error], which
    a successful snapshot does not have, keeps its stored value then. *)
Definition set_port_fields (port stored : PortSnapshot) : PortSnapshot :=
  mkPort (port_name port) (slug port) (port_coordinates port) (port_weather_data port)
    (fetched_at port) (status port)
    (match error port with
     | Some e => Some e
     | None => error stored
     end).

(** [savePortWeatherData(data)]. *)
Definition savePortWeatherData (data : list PortSnapshot) : M unit :=
  if Z.of_nat (length data) =? 0 then ret tt
  else
    let portSlugs := map slug data in
    archivedCount <- archivePortWeather portSlugs ;;
    (if archivedCount >? 0 then console_log (ArchivedRecords "port" archivedCount)
     else ret tt) ;;
    operations <- mapM (fun port =>
                          now <- new_Date ;;
                          ret (mkUpdateOne
                                 (fun doc => String.eqb (slug (fields doc)) (slug port))
                                 (fun doc => mkDocument (_id doc)
                                               (set_port_fields port (fields doc)) now)
                                 (Some (mkDocument None port now))))
                       data ;;
    bulkWrite PortWeather operations ;;
    console_log (SavedRecords "port" (Z.of_nat (length data))).

(** ** Retention *)

(** [TimeClip]: a time value beyond 8.64e15 ms is not a time: the date
    is an Invalid Date ([None]). *)
Definition TimeClip (time : Z) : option Z :=
  if Z.abs time <=? 8640000000000000 then Some time else None.

(** [date.setDate(date.getDate() - days)] on a valid [date], for a whole
    number of [days], in the time zone [tza]: the same local time of day
    [days] calendar days earlier.  By the steps of ECMAScript: [t] is
    [LocalTime(date)]; the day [MakeDay(YearFromTime(t), MonthFromTime(t),
    DateFromTime(t) - days)] is [Day(t) - days], so that [newDate], which
    is [MakeDate] of that day and [TimeWithinDay(t)], is [t] less [days]
    times [msPerDay]; the result is [TimeClip(UTC(newDate))]. *)
Definition setDate_back (tza : Z -> bool -> Z) (date days : Z) : option Z :=
  let t := date + tza date true in
  let newDate := t - days * 86400000 in
  TimeClip (newDate - tza newDate false).

(** [Model.deleteMany({ archived_at: { $lt: cutoffDate } })] on a history
    model.  The history schemas declare [archived_at] a [Date], and
    Mongoose refuses to cast an Invalid Date: the query is then rejected
    before it reaches the store. *)
Definition cast_error : Error := mkError "CastError".

Definition deleteMany_archived_before {S : Type} (m : Model (HistoryDocument S))
    (cutoffDate : option Z) : M Z :=
  match cutoffDate with
  | Some cutoff => deleteMany m (fun doc => archived_at doc <? cutoff)
  | None => throw cast_error
  end.

Record DeletionCounts : Type := mkCounts {
  city : Z;
  grid : Z;
  port : Z;
  total : Z
}.

(** [cleanupOldHistory(daysToKeep = 90)]. *)
Definition cleanupOldHistory (daysToKeep : Z) : M DeletionCounts :=
  now <- new_Date ;;
  env <- ask ;;
  let cutoffDate := setDate_back (LocalTZA env) now daysToKeep in
  results <- Promise_all3
               (deleteMany_archived_before CityWeatherHistory cutoffDate)
               (deleteMany_archived_before GridWeatherHistory cutoffDate)
               (deleteMany_archived_before PortWeatherHistory cutoffDate) ;;
  let '(cityResult, gridResult, portResult) := results in
  ret (mkCounts cityResult gridResult portResult (cityResult + gridResult + portResult)).

End WeatherRepository.
Export WeatherRepository.

(* ================================================================== *)
(** * The archive-then-write protocol, once for the three classes *)
(* ================================================================== *)

(** The three [archive...] functions and the two upserting [save...]
    functions of the repository are copies of one another up to the model
    they address and the identity they filter on.  They are written once
    more here over a description of a class, and shown equal to the
    functions above ([archiveCityWeather_generic] and the like), so that
    the protocol is verified once. *)
Module Protocol.

Record WeatherClass (S Key : Type) : Type := mkClass {
  class_label : string;
  Current : Model (Document S);
  History : Model (HistoryDocument S);
  key : S -> Key;
  key_eqb : Key -> Key -> bool;
  set_fields : S -> S -> S
}.

Section Generic.

Variables S Key : Type.
Variable c : WeatherClass S Key.

(** The documents a filter on the identities [keys] selects. *)
Definition selects (keys : list Key) (doc : Document S) : bool :=
  existsb (key_eqb c (key c (fields doc))) keys.

Definition history_copy (doc : Document S) (now : Z) : HistoryDocument S :=
  mkHistory None (fields doc) (updated_at doc) now (updated_at doc).

Definition archive (keys : list Key) : M Z :=
  currentData <- find (Current c) (selects keys) ;;
  if Z.of_nat (length currentData) =? 0 then ret 0
  else
    historyDocs <- mapM (fun doc => now <- new_Date ;; ret (history_copy doc now))
                        currentData ;;
    insertMany (History c) historyDocs ;;
    ret (Z.of_nat (length historyDocs)).

Definition upsert_operation (s : S) (now : Z) : UpdateOne (Document S) :=
  mkUpdateOne
    (fun doc => key_eqb c (key c (fields doc)) (key c s))
    (fun doc => mkDocument (_id doc) (set_fields c s (fields doc)) now)
    (Some (mkDocument None s now)).

Definition save_upsert (data : list S) : M unit :=
  if Z.of_nat (length data) =? 0 then ret tt
  else
    archivedCount <- archive (map (key c) data) ;;
    (if archivedCount >? 0 then console_log (ArchivedRecords (class_label c) archivedCount)
     else ret tt) ;;
    operations <- mapM (fun s => now <- new_Date ;; ret (upsert_operation s now)) data ;;
    bulkWrite (Current c) operations ;;
    console_log (SavedRecords (class_label c) (Z.of_nat (length data))).

Definition save_replace (data : list S) : M unit :=
  if Z.of_nat (length data) =? 0 then ret tt
  else
    archivedCount <- archive (map (key c) data) ;;
    (if archivedCount >? 0 then console_log (ArchivedRecords (class_label c) archivedCount)
     else ret tt) ;;
    deleteMany (Current c) (fun _ => true) ;;
    documents <- mapM (fun s => now <- new_Date ;; ret (mkDocument None s now)) data ;;
    insertMany (Current c) documents ;;
    console_log (SavedRecords (class_label c) (Z.of_nat (length data))).

End Generic.

Definition CityClass : WeatherClass PointSnapshot string :=
  mkClass "city" CityWeather CityWeatherHistory name String.eqb (fun city _ => city).

Definition GridClass : WeatherClass PointSnapshot (Z * Z) :=
  mkClass "grid" GridWeather GridWeatherHistory
    (fun point => (lat point, lon point)) same_point (fun point _ => point).

Definition PortClass : WeatherClass PortSnapshot string :=
  mkClass "port" PortWeather PortWeatherHistory slug String.eqb set_port_fields.

End Protocol.
Export Protocol.

(* ================================================================== *)
(** * [utils/database.js] *)
(* ================================================================== *)

Module Database.

Definition read_isConnected : M bool := fun _ w => (Ok (isConnected w), w).

Definition write_isConnected (b : bool) : M unit :=
  fun _ w => (Ok tt, set_isConnected b w).

(** [mongoose.connect] and [mongoose.disconnect] are store operations:
    the environment says whether they throw. *)
Definition mongoose_call : M unit :=
  fault <- store_op ;;
  match fault with
  | Some _ => throw store_error
  | None => ret tt
  end.

(** [connectDatabase()]. *)
Definition connectDatabase : M unit :=
  connected <- read_isConnected ;;
  if connected then console_log (Text "Using existing database connection")
  else
    try_catch
      (mongoose_call ;;
       write_isConnected true ;;
       console_log (Text "MongoDB connected successfully") ;;
       console_log (Text "Database") ;;
       console_log (Text "URI"))
      (fun error =>
         console_log (FatalError (message error)) ;;
         throw error).

(** [disconnectDatabase()]. *)
Definition disconnectDatabase : M unit :=
  connected <- read_isConnected ;;
  if negb connected then ret tt
  else
    try_catch
      (mongoose_call ;;
       write_isConnected false ;;
       console_log (Text "MongoDB disconnected"))
      (fun error =>
         console_log (FatalError (message error)) ;;
         throw error).

End Database.
Export Database.

(* ================================================================== *)
(** * [collectors/gridWeatherCollector.js] *)
(* ================================================================== *)

Module GridWeatherCollector.

(** A grid point as [loadGridCoordinates] returns it. *)
Record GridLocation : Type := mkGridLocation {
  g_name : string;
  g_lat : Z;
  g_lon : Z
}.

(** Property access inside an async function: a [TypeError] is thrown. *)
Definition prop (v : value) (k : string) : M value :=
  match get_property v k with
  | inl e => throw e
  | inr x => ret x
  end.

(** The body of the loop over [response.data] in
    [fetchWeatherDataBatch], for [locationData = response.data[i]] and
    [location = locations[i]]. *)
Definition process_location (locationData : value) (location : GridLocation)
    (processedData : list PointSnapshot) : M (list PointSnapshot) :=
  current <- prop locationData "current" ;;
  if truthy current then
    latitude <- prop locationData "latitude" ;;
    longitude <- prop locationData "longitude" ;;
    elevation <- prop locationData "elevation" ;;
    temperature_2m <- prop current "temperature_2m" ;;
    relative_humidity_2m <- prop current "relative_humidity_2m" ;;
    weather_code <- prop current "weather_code" ;;
    wind_speed_10m <- prop current "wind_speed_10m" ;;
    wind_direction_10m <- prop current "wind_direction_10m" ;;
    time <- prop current "time" ;;
    timezone <- prop locationData "timezone" ;;
    utc_offset_seconds <- prop locationData "utc_offset_seconds" ;;
    now <- new_Date ;;
    ret (processedData ++
         [mkPoint (g_name location) (g_lat location) (g_lon location)
            (VObj [("latitude", or_else latitude (VNum (g_lat location)));
                   ("longitude", or_else longitude (VNum (g_lon location)));
                   ("elevation", or_else elevation (VNum 0))])
            (VObj [("temperature_2m", temperature_2m);
                   ("relative_humidity_2m", relative_humidity_2m);
                   ("weather_code", weather_code);
                   ("wind_speed_10m", wind_speed_10m);
                   ("wind_direction_10m", wind_direction_10m);
                   ("timestamp", time);
                   ("timezone", timezone);
                   ("utc_offset_seconds", utc_offset_seconds);
                   ("fetched_at", VDate now)])])
  else ret processedData.

(** The loop [for (i = 0; i < response.data.length && i < locations.length;
    i++)]. *)
Fixpoint process_response (data : list value) (locations : list GridLocation)
    (processedData : list PointSnapshot) : M (list PointSnapshot) :=
  match data, locations with
  | locationData :: data', location :: locations' =>
      processedData' <- process_location locationData location processedData ;;
      process_response data' locations' processedData'
  | _, _ => ret processedData
  end.

(** [fetchWeatherDataBatch(locations)]. *)
Definition fetchWeatherDataBatch (locations : list GridLocation) : M (list PointSnapshot) :=
  if Z.of_nat (length locations) =? 0 then ret []
  else
    try_catch
      (env <- ask ;;
       response <- axios_get_ (openMeteoUrl (config env)) None ;;
       let processedData := [] in
       match snd response with
       | VArr data => process_response data locations processedData
       | _ => ret processedData
       end)
      (fun error =>
         logWithTimestamp (ErrorFetchingBatch (message error)) "error" ;;
         ret []).

(** How an iteration of the retry loop ends: [break], or on to the next
    iteration with the delay it leaves in [retryDelay]. *)
Inductive Iteration : Type :=
| Break (allProcessedData : list PointSnapshot)
| Next (retryDelay : Z).

(** The loop [for (retry = 0; retry < maxRetries; retry++)] of
    [fetchWeatherDataBatched], over the function [fetch] it calls;
    [remaining] iterations are left.  The two readings [Date.now()] of a
    completed batch are taken; the times derived from them only appear in
    the log line [BatchTimes]. *)
Fixpoint retry_loop (fetch : list GridLocation -> M (list PointSnapshot))
    (batchNum maxRetries_ : Z) (batchLocations : list GridLocation)
    (remaining : nat) (retry retryDelay : Z) (allProcessedData : list PointSnapshot)
    : M (list PointSnapshot) :=
  match remaining with
  | O => ret allProcessedData
  | S remaining' =>
      iteration <-
        try_catch
          (batchData <- fetch batchLocations ;;
           if Z.of_nat (length batchData) >? 0 then
             batchTime <- Date_now ;;
             totalTime <- Date_now ;;
             logWithTimestamp (BatchCompleted (batchNum + 1) (Z.of_nat (length batchData)))
               "info" ;;
             logWithTimestamp (BatchTimes (batchNum + 1)) "info" ;;
             ret (Break (allProcessedData ++ batchData))
           else
             logWithTimestamp (BatchFailedAttempt (batchNum + 1) (retry + 1) maxRetries_)
               "warn" ;;
             ret (Next retryDelay))
          (fun error =>
             let errorMsg := toLowerCase (message error) in
             retryDelay' <-
               (if includes errorMsg "rate limit" || includes errorMsg "minutely" then
                  logWithTimestamp (RateLimitHit (batchNum + 1) retryDelay) "warn" ;;
                  sleep retryDelay ;;
                  ret (retryDelay * 2)
                else
                  logWithTimestamp (BatchError (batchNum + 1) (message error)) "error" ;;
                  ret retryDelay) ;;
             (if retry =? maxRetries_ - 1 then
                logWithTimestamp (BatchFailedAfter (batchNum + 1) maxRetries_) "error"
              else ret tt) ;;
             ret (Next retryDelay')) ;;
      match iteration with
      | Break allProcessedData' => ret allProcessedData'
      | Next retryDelay' =>
          retry_loop fetch batchNum maxRetries_ batchLocations remaining'
            (retry + 1) retryDelay' allProcessedData
      end
  end.

(** The loop [for (batchNum = 0; batchNum < totalBatches; batchNum++)]. *)
Fixpoint batch_loop (fetch : list GridLocation -> M (list PointSnapshot))
    (totalBatches : Z) (batches : list (list GridLocation)) (batchNum : Z)
    (allProcessedData : list PointSnapshot) : M (list PointSnapshot) :=
  match batches with
  | [] => ret allProcessedData
  | batchLocations :: batches' =>
      batchStartTime <- Date_now ;;
      logWithTimestamp
        (BatchStart (batchNum + 1) totalBatches (Z.of_nat (length batchLocations))) "info" ;;
      env <- ask ;;
      let maxRetries_ := maxRetries (config env) in
      let retryDelay := 60000 in
      allProcessedData' <-
        retry_loop fetch batchNum maxRetries_ batchLocations (Z.to_nat maxRetries_)
          0 retryDelay allProcessedData ;;
      (if batchNum <? totalBatches - 1 then
         let waitTime := requestDelayMs (config env) * 10 in
         logWithTimestamp (WaitingBeforeNextBatch waitTime) "info" ;;
         sleep waitTime
       else ret tt) ;;
      batch_loop fetch totalBatches batches' (batchNum + 1) allProcessedData'
  end.

(** [fetchWeatherDataBatched(locations, batchSize)], over the function it
    calls for one batch. *)
Definition fetchWeatherDataBatched_with
    (fetch : list GridLocation -> M (list PointSnapshot))
    (locations : list GridLocation) (batchSize_ : Z) : M (list PointSnapshot) :=
  if Z.of_nat (length locations) =? 0 then ret []
  else
    match batchArray locations batchSize_ with
    | None => hang
    | Some batches =>
        let totalBatches := Z.of_nat (length batches) in
        logWithTimestamp (ProcessingLocations (Z.of_nat (length locations)) batchSize_)
          "info" ;;
        logWithTimestamp (TotalBatches totalBatches) "info" ;;
        logWithTimestamp (EstimatedTime (totalBatches * 10)) "info" ;;
        logWithTimestamp (Text "============================================================")
          "info" ;;
        let allProcessedData := [] in
        startTime <- Date_now ;;
        allProcessedData' <-
          batch_loop fetch totalBatches batches 0 allProcessedData ;;
        totalTime <- Date_now ;;
        logWithTimestamp (Text "============================================================")
          "info" ;;
        logWithTimestamp CompletedAllBatches "info" ;;
        logWithTimestamp
          (TotalProcessed (Z.of_nat (length allProcessedData')) (Z.of_nat (length locations)))
          "info" ;;
        logWithTimestamp
          (SuccessRate (Z.of_nat (length allProcessedData')) (Z.of_nat (length locations)))
          "info" ;;
        ret allProcessedData'
    end.

(** [fetchWeatherDataBatched(locations, batchSize = config.collector.batchSize)]
    as the source has it: each batch goes to [fetchWeatherDataBatch]. *)
Definition fetchWeatherDataBatched (locations : list GridLocation) (batchSize_ : Z)
    : M (list PointSnapshot) :=
  fetchWeatherDataBatched_with fetchWeatherDataBatch locations batchSize_.

End GridWeatherCollector.
Export GridWeatherCollector.

(* ================================================================== *)
(** * [collectors/portWeatherCollector.js] *)
(* ================================================================== *)

Module PortWeatherCollector.

(** A port as [loadPortData] returns it. *)
Record Port : Type := mkPortLocation {
  p_id : string;
  p_name : string;
  p_lat : Z;
  p_lon : Z;
  p_slug : string
}.

(** [fetchPortWeather(port)]. *)
Definition fetchPortWeather (port : Port) : M PortSnapshot :=
  try_catch
    (env <- ask ;;
     let apiUrl := (bmkgPortUrl (config env) ++ "?slug=" ++ p_slug port)%string in
     logWithTimestamp (Fetching (p_name port) (p_slug port)) "info" ;;
     response <- axios_get_ apiUrl (Some 30000) ;;
     let (response_status, response_data) := response in
     if (response_status =? 200) && truthy response_data then
       now <- new_Date ;;
       ret (mkPort (p_name port) (p_slug port) (p_lat port, p_lon port)
              response_data now "success" None)
     else
       now <- new_Date ;;
       ret (mkPort (p_name port) (p_slug port) (p_lat port, p_lon port)
              VNull now "failed" (Some ("HTTP " ++ string_of_Z response_status)%string)))
    (fun error =>
       now <- new_Date ;;
       ret (mkPort (p_name port) (p_slug port) (p_lat port, p_lon port)
              VNull now "error" (Some (message error)))).

(** [result.error || 'Unknown error']. *)
Definition error_or_unknown (result : PortSnapshot) : string :=
  match error result with
  | Some e => if (e =? "")%string then "Unknown error" else e
  | None => "Unknown error"
  end.

(** The loop [for (i = 0; i < ports.length; i++)] of [main], over the
    ports from index [i] on; [total] is [ports.length]. *)
Fixpoint main_loop (ports : list Port) (total i : Z)
    (results : list PortSnapshot) (successful failed : Z)
    : M (list PortSnapshot * Z * Z) :=
  match ports with
  | [] => ret (results, successful, failed)
  | port :: ports' =>
      logWithTimestamp (Processing (i + 1) total (p_name port)) "info" ;;
      result <- fetchPortWeather port ;;
      let results' := results ++ [result] in
      counts <-
        (if (status result =? "success")%string then
           logWithTimestamp PortSuccess "info" ;;
           ret (successful + 1, failed)
         else
           logWithTimestamp (PortFailed (error_or_unknown result)) "warn" ;;
           ret (successful, failed + 1)) ;;
      let (successful', failed') := counts in
      (if (i + 1) mod 50 =? 0 then
         logWithTimestamp (Progress (i + 1) total) "info" ;;
         logWithTimestamp (ProgressCounts successful' failed') "info"
       else ret tt) ;;
      env <- ask ;;
      sleep (requestDelayMs (config env)) ;;
      main_loop ports' total (i + 1) results' successful' failed'
  end.

(** The collection phase of [main]: [results = []], [successful = 0],
    [failed = 0], then the loop. *)
Definition collect (ports : list Port) : M (list PortSnapshot * Z * Z) :=
  main_loop ports (Z.of_nat (length ports)) 0 [] 0 0.

End PortWeatherCollector.
Export PortWeatherCollector.

(* ================================================================== *)
(** * [collectors/runAllCollectors.js] *)
(* ================================================================== *)

Module RunAllCollectors.

(** An entry of [COLLECTORS]: a name and the collector's [main], which
    resolves to an exit code. *)
Record Collector : Type := mkCollector {
  collector_name : string;
  fn : M Z
}.

(** [runCollectorWithRetry(collector, maxRetries = 3)]. *)
Definition runCollectorWithRetry (collector : Collector) (maxRetries_ : Z) : M bool :=
  logWithTimestamp (CollectorStarting (collector_name collector)) "info" ;;
  try_catch
    (retryWithBackoff
       (exitCode <- fn collector ;;
        if negb (exitCode =? 0) then
          throw (mkError ("Collector returned exit code " ++ string_of_Z exitCode)%string)
        else ret tt)
       maxRetries_
       5000 ;;
     logWithTimestamp (CollectorSuccess (collector_name collector)) "info" ;;
     ret true)
    (fun error =>
       logWithTimestamp (CollectorFailed (collector_name collector) (message error)) "error" ;;
       ret false).

(** The loop [for (const collector of COLLECTORS)] of [main]; the test
    [collector !== COLLECTORS[COLLECTORS.length - 1]] holds for every
    entry but the last, and the timer awaited there is the one of
    [sleep]. *)
Fixpoint run_collectors (collectors : list Collector) (results : list (string * bool))
    : M (list (string * bool)) :=
  match collectors with
  | [] => ret results
  | collector :: rest =>
      logWithTimestamp (Running (collector_name collector)) "info" ;;
      success <- runCollectorWithRetry collector 3 ;;
      let results' := results ++ [(collector_name collector, success)] in
      (match rest with
       | [] => ret tt
       | _ :: _ =>
           logWithTimestamp (Text "Waiting 5 seconds before next collector...") "info" ;;
           sleep 5000
       end) ;;
      run_collectors rest results'
  end.

(** The summary of [main]: what its [try] block does once the collectors
    have run, from the banner of the summary to the exit code. *)
Definition summarize (results : list (string * bool)) : M Z :=
  logWithTimestamp (Text "============================================================") "info" ;;
  logWithTimestamp (Text "--- Summary ---") "info" ;;
  logWithTimestamp (Text "============================================================") "info" ;;
  mapM (fun result => logWithTimestamp (Summary (fst result) (snd result)) "info")
       results ;;
  finished <- Date_now ;;
  let successCount := Z.of_nat (length (List.filter (fun r => snd r) results)) in
  let totalCount := Z.of_nat (length results) in
  logWithTimestamp (Text "============================================================") "info" ;;
  logWithTimestamp (Text "Orchestrator finished") "info" ;;
  logWithTimestamp (OrchestratorSuccessRate successCount totalCount) "info" ;;
  logWithTimestamp (Text "============================================================") "info" ;;
  disconnectDatabase ;;
  ret (if successCount =? totalCount then 0 else 1).

(** The [catch] block of [main]. *)
Definition on_fatal_error (error : Error) : M Z :=
  logWithTimestamp (FatalError (message error)) "error" ;;
  console_log (FatalError (message error)) ;;
  try_catch disconnectDatabase (fun _ => ret tt) ;;
  ret 1.

(** The lines [main] logs before its [try] block. *)
Definition announce : M unit :=
  startTime <- Date_now ;;
  logWithTimestamp (Text "============================================================") "info" ;;
  logWithTimestamp (Text "Weather Data Collection Orchestrator started") "info" ;;
  started <- new_Date ;;
  logWithTimestamp (Text "Started at") "info" ;;
  logWithTimestamp (Text "============================================================") "info".

(** [main()], over the list [COLLECTORS]. *)
Definition main (COLLECTORS : list Collector) : M Z :=
  announce ;;
  try_catch
    (connectDatabase ;;
     results <- run_collectors COLLECTORS [] ;;
     summarize results)
    on_fatal_error.

End RunAllCollectors.

(* ================================================================== *)
(** * Vocabulary of the statements *)
(* ================================================================== *)

Module Observations.

(** The history documents a cleanup with cutoff [cutoff] keeps, and the
    number of those it deletes. *)
Definition retained {S : Type} (cutoff : Z) (history : list (HistoryDocument S))
    : list (HistoryDocument S) :=
  List.filter (fun doc => negb (archived_at doc <? cutoff)) history.

Definition expired_count {S : Type} (cutoff : Z) (history : list (HistoryDocument S)) : Z :=
  Z.of_nat (length (List.filter (fun doc => archived_at doc <? cutoff) history)).

(** The age in hours, at the clock reading [now], of what was fetched at
    [fetched], as [hoursSince] computes it: the difference and its
    quotient are doubles. *)
Definition age_hours (now fetched : Z) : Q :=
  to_double (to_double (inject_Z (now - fetched)) / inject_Z 3600000).

(** A rational that is the value of a double. *)
Definition is_double (q : Q) : Prop := (to_double q == q)%Q.

(** C4 as stated: for every timestamp and every threshold, the data is
    stale whenever now − fetchedAt, in hours, exceeds the threshold. *)
Definition stale_whenever_older : Prop :=
  forall (env : Env) (w : World) (fetchedAt : Z) (maxAgeHours : Q),
    is_double maxAgeHours ->
    (maxAgeHours < inject_Z (clock env (ticks w) - fetchedAt) / inject_Z 3600000)%Q ->
    fst (isDataFresh (Some fetchedAt) maxAgeHours env w) = Ok false.




(** The list [l] stamped with consecutive readings of the clock, from
    reading number [tick]: what [l.map(x => g(x, new Date()))] builds. *)
Fixpoint stamp {A B : Type} (g : A -> Z -> B) (env : Env) (tick : nat) (l : list A) : list B :=
  match l with
  | [] => []
  | a :: rest => g a (clock env tick) :: stamp g env (S tick) rest
  end.

(** The world after one more store operation was issued. *)
Definition bump_ops (w : World) : World := set_store_ops (S (store_ops w)) w.

Section Classes.

Variables S Key : Type.
Variable c : WeatherClass S Key.

(** A document of the identity [k]. *)
Definition has_key (k : Key) (doc : Document S) : bool :=
  key_eqb c (key c (fields doc)) k.

(** What a history document keeps of the current document it copies:
    the snapshot's fields and the time it was last written. *)
Definition copy_of (h : HistoryDocument S) : S * Z * Z :=
  (h_fields h, h_updated_at h, original_updated_at h).

Definition content (doc : Document S) : S * Z * Z :=
  (fields doc, updated_at doc, updated_at doc).

(** The history document [h] is a record of the current document [doc]. *)
Definition records (h : HistoryDocument S) (doc : Document S) : Prop :=
  copy_of h = content doc.

(** What the proofs need of a class: the identity test decides equality,
    the [$set] keeps the identity, the two models address two distinct
    collections, and the store only fills [_id] in. *)
Record Lawful : Prop := mkLawful {
  key_eqb_eq : forall a b, key_eqb c a b = true <-> a = b;
  set_fields_key : forall s stored, key c (set_fields c s stored) = key c s;
  current_get_put : forall l d, collection (Current c) (replace (Current c) l d) = l;
  history_get_put : forall l d, collection (History c) (replace (History c) l d) = l;
  current_put_history :
    forall l d, collection (Current c) (replace (History c) l d) = collection (Current c) d;
  history_put_current :
    forall l d, collection (History c) (replace (Current c) l d) = collection (History c) d;
  current_doc_id : forall doc, doc_id (Current c) doc = _id doc;
  current_with_id :
    forall n doc, with_id (Current c) n doc = mkDocument (Some n) (fields doc) (updated_at doc);
  history_with_id :
    forall n h, copy_of (with_id (History c) n h) = copy_of h
}.

End Classes.

(** ** The properties of a class's write path *)

Section Properties.

Variables Snap Key : Type.

(** The identity of a snapshot, the identity test of the store, and the
    current and the history collection of the class. *)
Variable identity : Snap -> Key.
Variable same_identity : Key -> Key -> bool.
Variable current : Db -> list (Document Snap).
Variable history : Db -> list (HistoryDocument Snap).

(** The documents of the identity [k] in a collection, in their order. *)
Definition of_identity (k : Key) (coll : list (Document Snap)) : list (Document Snap) :=
  List.filter (fun doc => same_identity (identity (fields doc)) k) coll.

(** Some history document of [log] is a record equal to the current
    document [doc]: it has its fields and its write time, the latter also
    as [original_updated_at]. *)
Definition recorded_in (doc : Document Snap) (log : list (HistoryDocument Snap)) : Prop :=
  exists h, In h log
            /\ h_fields h = fields doc
            /\ h_updated_at h = updated_at doc
            /\ original_updated_at h = updated_at doc.

(** Archive before write.  For a non-empty [data]: when the archival throws,
    the save throws the same error from the same world, in which the
    current collection is as before; and however the save ends, the
    history only grows, and if the current collection was written at all
    (or the save returned), every document that was current under an
    identity of [data] is recorded in what the history gained. *)
Definition archives_before_writing (archive : list Key -> M Z) (save : list Snap -> M unit)
    : Prop :=
  forall env w data, data <> [] ->
    (forall e w1,
        archive (map identity data) env w = (Throw e, w1) ->
        save data env w = (Throw e, w1) /\ current (db w1) = current (db w))
    /\ (forall r w',
          save data env w = (r, w') ->
          exists added,
            history (db w') = history (db w) ++ added
            /\ (current (db w') <> current (db w) \/ r = Ok tt ->
                forall doc, In doc (current (db w)) ->
                            In (identity (fields doc)) (map identity data) ->
                            recorded_in doc added)).

(** Two writes to the same identity [k]: after the first, a document is
    current under [k]; and once the second has written the current
    collection (or returned), every document the first left current under
    [k] is recorded in the history. *)
Definition first_recorded_before_second_current (save : list Snap -> M unit) : Prop :=
  forall env w data1 data2 w1 r2 w2 k,
    In k (map identity data1) -> In k (map identity data2) ->
    save data1 env w = (Ok tt, w1) ->
    save data2 env w1 = (r2, w2) ->
    (exists doc, In doc (current (db w1)) /\ identity (fields doc) = k)
    /\ (current (db w2) <> current (db w1) \/ r2 = Ok tt ->
        forall doc, In doc (current (db w1)) -> identity (fields doc) = k ->
                    recorded_in doc (history (db w2))).

(** The save returns whenever no store operation fails. *)
Definition returns_when_store_works (save : list Snap -> M unit) : Prop :=
  forall env w data,
    (forall k, store_fault env k = None) -> exists w', save data env w = (Ok tt, w').

(** The frame of a write: whatever its outcome, the documents of an
    identity that is not in [data] are the same documents afterwards. *)
Definition leaves_other_identities (save : list Snap -> M unit) : Prop :=
  forall env w data r w',
    save data env w = (r, w') ->
    (forall k, ~ In k (map identity data) ->
               of_identity k (current (db w')) = of_identity k (current (db w)))
    /\ (forall doc, In doc (current (db w)) ->
                    ~ In (identity (fields doc)) (map identity data) ->
                    In doc (current (db w'))).

(** Upsert keyed by identity, for a snapshot [s] that is the only one of
    its identity in [data], when the save returns: if no document of that
    identity was stored, one is inserted, with the fields of [s]; if some
    were, the first is rewritten by the [$set], the fields being
    [written s stored], and no document is added. *)
Definition upserts_by_identity (written : Snap -> Snap -> Snap)
    (save : list Snap -> M unit) : Prop :=
  forall env w w' pre s post,
    ~ In (identity s) (map identity pre) ->
    ~ In (identity s) (map identity post) ->
    save (pre ++ s :: post) env w = (Ok tt, w') ->
    exists id tick,
      of_identity (identity s) (current (db w'))
      = match of_identity (identity s) (current (db w)) with
        | [] => [mkDocument (Some id) s (clock env tick)]
        | doc :: rest =>
            mkDocument (_id doc) (written s (fields doc)) (clock env tick) :: rest
        end.

(** Overwrite as the specification words it: after a save that returned,
    the document stored under the identity of [s] holds the snapshot [s]. *)
Definition overwrites_with_new_snapshot (save : list Snap -> M unit) : Prop :=
  forall env w w' pre s post,
    ~ In (identity s) (map identity pre) ->
    ~ In (identity s) (map identity post) ->
    save (pre ++ s :: post) env w = (Ok tt, w') ->
    exists doc, In doc (current (db w')) /\ fields doc = s.

(** Full-collection replace, when the save of a non-empty [data] returns:
    the current collection holds one new document per snapshot of [data],
    in order, and nothing else. *)
Definition replaces_collection (save : list Snap -> M unit) : Prop :=
  forall env w data w',
    data <> [] ->
    save data env w = (Ok tt, w') ->
    map (@fields Snap) (current (db w')) = data
    /\ (exists tick, map (@updated_at Snap) (current (db w'))
                     = map (clock env) (seq tick (length data)))
    /\ Forall (fun doc => _id doc <> None) (current (db w')).

End Properties.

(** ** The per-item fetcher *)

(** How [result] is tagged for the outcome of its request: ['success']
    with the payload on a response of status 200 with data; ['failed']
    with a null payload and the status as error text on any other
    response; ['error'] with a null payload and the error's message on a
    rejection. *)
Definition tagged_for (outcome : HttpOutcome) (result : PortSnapshot) : Prop :=
  match outcome with
  | Resolved st data =>
      if (st =? 200) && truthy data then
        status result = "success"
        /\ port_weather_data result = data
        /\ error result = None
      else
        status result = "failed"
        /\ port_weather_data result = VNull
        /\ error result = Some ("HTTP " ++ string_of_Z st)%string
  | Rejected e =>
      status result = "error"
      /\ port_weather_data result = VNull
      /\ error result = Some (message e)
  end.

(** The snapshot is that of the port. *)
Definition snapshot_of (port : Port) (result : PortSnapshot) : Prop :=
  port_name result = p_name port
  /\ slug result = p_slug port
  /\ port_coordinates result = (p_lat port, p_lon port).

Definition is_success (result : PortSnapshot) : bool := (status result =? "success")%string.

(** The tagging as the specification words it: any 2xx response with data
    gives a snapshot tagged ['success']. *)
Definition tags_every_2xx_success : Prop :=
  forall env w port st data,
    axios_get env (requests w) = Resolved st data ->
    200 <= st < 300 ->
    truthy data = true ->
    exists result w',
      fetchPortWeather port env w = (Ok result, w') /\ status result = "success".

(** ** The batched fetcher *)

(** The durations of the sleeps of a trace, in order. *)
Fixpoint sleeps_of (events : list Event) : list Z :=
  match events with
  | [] => []
  | EvSleep ms :: rest => ms :: sleeps_of rest
  | _ :: rest => sleeps_of rest
  end.

(** The test of the retry loop for an error that signals rate-limiting. *)
Definition is_rate_limit (e : Error) : bool :=
  includes (toLowerCase (message e)) "rate limit"
  || includes (toLowerCase (message e)) "minutely".

Definition location_of (snapshot : PointSnapshot) : GridLocation :=
  mkGridLocation (name snapshot) (lat snapshot) (lon snapshot).

(** The locations of a batch for which the array [data] of a response has
    an entry with a [current] object; [None] when reading an entry throws
    (a [null] entry). *)
Fixpoint usable (data : list value) (batch : list GridLocation) : option (list GridLocation) :=
  match data, batch with
  | locationData :: data', location :: batch' =>
      match get_property locationData "current" with
      | inl _ => None
      | inr current =>
          match usable data' batch' with
          | None => None
          | Some rest => Some (if truthy current then location :: rest else rest)
          end
      end
  | _, _ => Some []
  end.

(** The locations of the batch that a request with this outcome serves:
    none when the request is rejected or its response is not an array
    that reads well. *)
Definition served (outcome : HttpOutcome) (batch : list GridLocation) : list GridLocation :=
  match outcome with
  | Resolved _ (VArr data) =>
      match usable data batch with
      | Some locations => locations
      | None => []
      end
  | _ => []
  end.

Definition serves_none (outcome : HttpOutcome) (batch : list GridLocation) : bool :=
  match served outcome batch with
  | [] => true
  | _ :: _ => false
  end.

(** The first of the [attempts] requests numbered from [k] that serves
    some location of the batch. *)
Fixpoint first_served (env : Env) (batch : list GridLocation) (attempts k : nat) : option nat :=
  match attempts with
  | O => None
  | S attempts' =>
      if serves_none (axios_get env k) batch
      then first_served env batch attempts' (S k)
      else Some k
  end.

(** What a run over [batches] delivers with a budget of [R] attempts per
    batch, when the next request is number [k]: each batch is requested
    until a request serves it, and delivers what that request serves; a
    batch that [R] requests in a row do not serve delivers nothing, and
    the run goes on with the next batch. *)
Fixpoint delivered (env : Env) (R : nat) (batches : list (list GridLocation)) (k : nat)
    : list GridLocation :=
  match batches with
  | [] => []
  | batch :: rest =>
      match first_served env batch R k with
      | Some j => served (axios_get env j) batch ++ delivered env R rest (S j)
      | None => delivered env R rest (k + R)
      end
  end.

(** The number of requests of that run. *)
Fixpoint requests_issued (env : Env) (R : nat) (batches : list (list GridLocation)) (k : nat)
    : nat :=
  match batches with
  | [] => 0
  | batch :: rest =>
      match first_served env batch R k with
      | Some j => (S j - k) + requests_issued env R rest (S j)
      | None => R + requests_issued env R rest (k + R)
      end
  end.

(** The retry policy as the specification words it, in its weakest
    reading: when the requests for a batch fail, a backoff sleep precedes
    the next attempt.  For a run of one batch, whose trace has no wait
    between batches, some sleep is then in the trace. *)
Definition backs_off_after_every_error : Prop :=
  forall env w locations,
    trace w = [] ->
    locations <> [] ->
    Z.of_nat (length locations) <= batchSize (config env) ->
    1 < maxRetries (config env) ->
    (forall k, exists e, axios_get env k = Rejected e) ->
    sleeps_of (trace (snd (fetchWeatherDataBatched locations
                             (batchSize (config env)) env w))) <> [].

(** ** The orchestrator *)

Import RunAllCollectors.

(** The world after a line was logged. *)
Definition logged (env : Env) (msg : LogMessage) (level : string) (w : World) : World :=
  snd (logWithTimestamp msg level env w).

(** The world after the pause between two collectors. *)
Definition paused (env : Env) (w : World) : World :=
  snd ((logWithTimestamp (Text "Waiting 5 seconds before next collector...") "info" ;;
        sleep 5000) env w).

(** The world after the wait that follows the failed attempt number
    [attempt] of a collector: the delay is 5 s for the first attempt and
    doubles at each further one. *)
Definition backed_off (attempt : Z) (w : World) : World :=
  set_trace (trace w ++ [EvConsole (RetryAttempt attempt 3 (5000 * 2 ^ (attempt - 1)));
                         EvSleep (5000 * 2 ^ (attempt - 1))]) w.

(** An attempt of a collector fails when its flow resolves to an exit code
    other than 0, or throws. *)
Definition failed_attempt (r : Completion Z) : Prop :=
  match r with
  | Ok code => code <> 0
  | Throw _ => True
  | Hang => False
  end.

Definition never_hangs {A : Type} (m : M A) : Prop :=
  forall env w, fst (m env w) <> Hang.

(** Retry of a collector's whole flow: up to three attempts, the wait
    after a failed attempt being 5 s, then 10 s; success at the first
    attempt that resolves to 0; failure after the third failed attempt. *)
Definition retried_up_to_three_times (collector : Collector) : Prop :=
  forall env w,
    let run := runCollectorWithRetry collector 3 env w in
    let succeeded w' :=
      (Ok true, logged env (CollectorSuccess (collector_name collector)) "info" w') in
    let w0 := logged env (CollectorStarting (collector_name collector)) "info" w in
    forall r1 w1, fn collector env w0 = (r1, w1) ->
      (r1 = Ok 0 -> run = succeeded w1)
      /\ (failed_attempt r1 ->
          forall r2 w2, fn collector env (backed_off 1 w1) = (r2, w2) ->
            (r2 = Ok 0 -> run = succeeded w2)
            /\ (failed_attempt r2 ->
                forall r3 w3, fn collector env (backed_off 2 w2) = (r3, w3) ->
                  (r3 = Ok 0 -> run = succeeded w3)
                  /\ (failed_attempt r3 ->
                      exists msg,
                        run = (Ok false,
                               logged env (CollectorFailed (collector_name collector) msg)
                                 "error" w3)))).

(** The classes run one after the other: each collector starts in the
    world the one before left, after the pause of 5 s. *)
Definition run_in_sequence (c1 c2 c3 : Collector) : Prop :=
  forall env w,
    exists s1 w1 s2 w2 s3 w3,
      runCollectorWithRetry c1 3 env (logged env (Running (collector_name c1)) "info" w)
      = (Ok s1, w1)
      /\ runCollectorWithRetry c2 3 env
           (logged env (Running (collector_name c2)) "info" (paused env w1))
         = (Ok s2, w2)
      /\ runCollectorWithRetry c3 3 env
           (logged env (Running (collector_name c3)) "info" (paused env w2))
         = (Ok s3, w3)
      /\ run_collectors [c1; c2; c3] [] env w
         = (Ok [(collector_name c1, s1); (collector_name c2, s2); (collector_name c3, s3)],
            w3).

(** The outcome of the connection to the database with which [main]
    opens its [try] block, after the lines it logs first. *)
Definition opened (env : Env) (w : World) : Completion unit * World :=
  (announce ;; connectDatabase) env w.

(** The exit status and the report of [main]: it always resolves, to 0 or
    to 1; once the database is connected, every class has its line in the
    summary logged after the collectors have run, whatever the outcomes,
    and the status is 0 only if the three classes succeeded — and it is 0
    then, unless disconnecting fails. *)
Definition reports_and_exits (c1 c2 c3 : Collector) : Prop :=
  forall env w,
    exists code w',
      main [c1; c2; c3] env w = (Ok code, w')
      /\ (code = 0 \/ code = 1)
      /\ forall w0, opened env w = (Ok tt, w0) ->
           exists s1 s2 s3 w3,
             run_collectors [c1; c2; c3] [] env w0
             = (Ok [(collector_name c1, s1); (collector_name c2, s2);
                    (collector_name c3, s3)], w3)
             /\ (exists summary t1 t2 t3,
                   trace w' = trace w3 ++ summary
                   /\ In (EvLog t1 "info" (Summary (collector_name c1) s1)) summary
                   /\ In (EvLog t2 "info" (Summary (collector_name c2) s2)) summary
                   /\ In (EvLog t3 "info" (Summary (collector_name c3) s3)) summary)
             /\ (code = 0 -> s1 = true /\ s2 = true /\ s3 = true)
             /\ (s1 = true -> s2 = true -> s3 = true ->
                 code = 0 \/ exists k, store_fault env k <> None).

(** The retry as the specification words it: one fixed delay separates
    the attempts. *)
Definition retries_with_fixed_delay : Prop :=
  forall env w collector,
    trace w = [] ->
    (forall env' w', trace (snd (fn collector env' w')) = trace w') ->
    exists delay,
      forall ms, In ms (sleeps_of (trace (snd (runCollectorWithRetry collector 3 env w)))) ->
                 ms = delay.

End Observations.
Export Observations.

(* ================================================================== *)
(** * Concrete environments and worlds *)
(* ================================================================== *)

Module Samples.

Definition empty_db : Db := mkDb [] [] [] [] [] [].

Definition world_of (d : Db) : World := mkWorld d false 0 0 0 0 [].

Definition world0 : World := world_of empty_db.

Definition config0 : Config :=
  mkConfig "https://api.open-meteo.com/v1/forecast"
    "https://maritim.bmkg.go.id/api/pelabuhan" 50 500 3.

(** The zone of UTC. *)
Definition utc : Z -> bool -> Z := fun _ _ => 0.

(** An environment in the time zone [zone] whose clock stands at [now],
    whose store never fails and whose HTTP requests get the outcomes
    [http]; and the same in the zone of UTC. *)
Definition env_in (zone : Z -> bool -> Z) (now : Z) (http : nat -> HttpOutcome) : Env :=
  mkEnv (fun _ => now) (fun _ => None) http config0 zone.

Definition env_of (now : Z) (http : nat -> HttpOutcome) : Env := env_in utc now http.

(** A zone five hours behind UTC that moves its clocks one hour forward
    at the UTC time [transition]; a local time that the change skips is
    read with the offset before it. *)
Definition eastern (transition : Z) : Z -> bool -> Z :=
  fun t isUTC =>
    if isUTC
    then if t <? transition then -18000000 else -14400000
    else if t <? transition - 14400000 then -18000000 else -14400000.

Definition network_down : nat -> HttpOutcome :=
  fun _ => Rejected (mkError "Network Error").

Definition day : Z := 86400000.

(** A history document of a city archived at [t]. *)
Definition archived_city (n : nat) (label : string) (t : Z) : HistoryDocument PointSnapshot :=
  mkHistory (Some n) (mkPoint label 0 0 VNull VNull) (t - 1) t (t - 1).

(** The retention scenario: now is day 1000; three history documents were
    archived 100, 50 and 10 days ago. *)
Definition retention_now : Z := 1000 * day.

Definition retention_db : Db :=
  mkDb []
    [archived_city 1 "Jakarta" (retention_now - 100 * day);
     archived_city 2 "Jakarta" (retention_now - 50 * day);
     archived_city 3 "Jakarta" (retention_now - 10 * day)]
    [] [] [] [].

(** Across a change of the clock: the local clock moved forward 45 days
    ago, and a document was archived 90 days of 24 hours ago less half an
    hour. *)
Definition spring_db : Db :=
  mkDb [] [archived_city 1 "Jakarta" (retention_now - 90 * day + 1800000)] [] [] [] [].

Definition spring_zone : Z -> bool -> Z := eastern (retention_now - 45 * day).

(** The double that the literal [0.3] denotes. *)
Definition three_tenths : Q := 5404319552844595 # 18014398509481984.

(** Two runs of the city collector for the same two cities. *)
Definition city_snapshot (label : string) (temperature : Z) : PointSnapshot :=
  mkPoint label 0 0 VNull (VObj [("temperature_2m", VNum temperature)]).

Definition first_run : list PointSnapshot :=
  [city_snapshot "Jakarta" 30; city_snapshot "Bandung" 24].

Definition second_run : list PointSnapshot :=
  [city_snapshot "Jakarta" 31; city_snapshot "Bandung" 25].

(** A port whose last fetch timed out, as [fetchPortWeather] reported it
    and [savePortWeatherData] stored it, and the snapshot of a later fetch
    that succeeded: built by [fetchPortWeather], it has no [error] field. *)
Definition sabang_timed_out : Document PortSnapshot :=
  mkDocument (Some 7%nat)
    (mkPort "Pelabuhan Sabang" "pelabuhan-sabang" (58933, 953214) VNull 1000 "error"
       (Some "timeout of 30000ms exceeded"))
    1001.

Definition sabang_success : PortSnapshot :=
  mkPort "Pelabuhan Sabang" "pelabuhan-sabang" (58933, 953214)
    (VObj [("wave", VNum 1)]) 5000 "success" None.

Definition port_db : Db := mkDb [] [] [] [] [sabang_timed_out] [].

(** A grid of two stored points, and a new set that covers only one. *)
Definition grid_point (x y : Z) (temperature : Z) : PointSnapshot :=
  mkPoint "grid" x y VNull (VObj [("temperature_2m", VNum temperature)]).

Definition grid_db : Db :=
  mkDb [] []
    [mkDocument (Some 1%nat) (grid_point (-6) 106 29) 100;
     mkDocument (Some 2%nat) (grid_point (-6) 107 28) 100]
    [] [] [].

Definition grid_update : list PointSnapshot := [grid_point (-6) 106 30].

(** A port, and a provider that answers 201 Created with a payload. *)
Definition sabang : Port :=
  mkPortLocation "PORT_001" "Pelabuhan Sabang" 58933 953214 "pelabuhan-sabang".

Definition answers_201 : nat -> HttpOutcome :=
  fun _ => Resolved 201 (VObj [("wave", VNum 1)]).

(** Ten ports, of which the provider fails the third (HTTP 500, which the
    HTTP client rejects), the sixth (a timeout) and the ninth (an empty
    body). *)
Definition ten_ports : list Port :=
  map (fun i => mkPortLocation "PORT" "Pelabuhan" (Z.of_nat i) 0 "pelabuhan") (seq 0 10).

Definition three_failures : nat -> HttpOutcome :=
  fun k =>
    match k with
    | 2%nat => Rejected (mkError "Request failed with status code 500")
    | 5%nat => Rejected (mkError "timeout of 30000ms exceeded")
    | 8%nat => Resolved 200 (VStr "")
    | _ => Resolved 200 (VObj [("wave", VNum 1)])
    end.

(** The grid scenario of the specification: 120 locations in batches of
    50; the provider answers a request with one entry per location of the
    batch, except that the three requests for the second batch fail. *)
Definition grid_locations : list GridLocation :=
  map (fun i => mkGridLocation "point" (Z.of_nat i) 100) (seq 0 120).

Definition entry : value :=
  VObj [("latitude", VNum 1); ("longitude", VNum 100); ("elevation", VNum 0);
        ("timezone", VStr "Asia/Jakarta"); ("utc_offset_seconds", VNum 25200);
        ("current", VObj [("time", VStr "2024-01-15T18:00"); ("temperature_2m", VNum 30)])].

Definition second_batch_fails : nat -> HttpOutcome :=
  fun k =>
    match k with
    | 1%nat | 2%nat | 3%nat => Rejected (mkError "Request failed with status code 500")
    | _ => Resolved 200 (VArr (repeat entry 50))
    end.

Definition one_location : list GridLocation := [mkGridLocation "point" 0 100].

(** A provider that rejects every request with its rate-limit message. *)
Definition rate_limited : nat -> HttpOutcome :=
  fun _ => Rejected (mkError "Minutely API request limit exceeded. Please try again in one minute.").

(** A batch function that throws what it is told to, as the [catch] of the
    retry loop expects of the function it calls. *)
Definition throwing_fetch (e : Error) : list GridLocation -> M (list PointSnapshot) :=
  fun _ => throw e.

(** Three collectors: two whose flows succeed, and one whose flow always
    ends with exit code 1. *)
Definition city_ok : RunAllCollectors.Collector :=
  RunAllCollectors.mkCollector "City Weather" (ret 0).

Definition grid_failing : RunAllCollectors.Collector :=
  RunAllCollectors.mkCollector "Grid Weather" (ret 1).

Definition port_ok : RunAllCollectors.Collector :=
  RunAllCollectors.mkCollector "Port Weather" (ret 0).

End Samples.
Export Samples.

(* ================================================================== *)
(** * More vocabulary *)
(* ================================================================== *)

Module Backoff.

(** What [retryWithBackoff] leaves in the trace for [n] waits in a row,
    the first after the failed attempt number [first]: before each wait
    the line it logs, the delay doubling from one wait to the next. *)
Definition backoff_events (maxRetries baseDelay first : Z) (n : nat) : list Event :=
  flat_map (fun j =>
              let attempt := first + Z.of_nat j in
              let delay := baseDelay * 2 ^ (attempt - 1) in
              [EvConsole (RetryAttempt attempt maxRetries delay); EvSleep delay])
           (seq 0 n).

(** A computation that leaves the trace as it finds it. *)
Definition silent {A : Type} (m : M A) (env : Env) : Prop :=
  forall w, trace (snd (m env w)) = trace w.

End Backoff.
Export Backoff.

Module RepositoryObservations.

(** The archival counts what it copies: when it returns [count], the
    current collection is as before and the history has gained [count]
    documents, one record of each current document of one of the
    identities [keys], in the order of the current collection. *)
Definition counts_what_it_copies {Snap Key : Type} (identity : Snap -> Key)
    (same_identity : Key -> Key -> bool)
    (current : Db -> list (Document Snap)) (history : Db -> list (HistoryDocument Snap))
    (archive : list Key -> M Z) : Prop :=
  forall env w keys count w',
    archive keys env w = (Ok count, w') ->
    current (db w') = current (db w)
    /\ exists added,
         history (db w') = history (db w) ++ added
         /\ count = Z.of_nat (length added)
         /\ Forall2 (@records Snap) added
              (List.filter (fun doc => existsb (same_identity (identity (fields doc))) keys)
                 (current (db w))).

(** What a cleanup with cutoff [cutoff] leaves of a history collection
    when its deletion meets the fate [fault]. *)
Definition after_deletion {S : Type} (cutoff : Z) (fault : option nat)
    (history : list (HistoryDocument S)) : list (HistoryDocument S) :=
  match fault with
  | None => retained cutoff history
  | Some n => delete_first (fun doc => archived_at doc <? cutoff) n history
  end.

(** The identities of [given] that are not among [stored], each once, in
    the order in which they first occur. *)
Fixpoint new_identities {Key : Type} (same_identity : Key -> Key -> bool)
    (stored given : list Key) : list Key :=
  match given with
  | [] => []
  | k :: rest =>
      if existsb (fun k' => same_identity k' k) stored
      then new_identities same_identity stored rest
      else k :: new_identities same_identity (stored ++ [k]) rest
  end.

(** An upserting write at the level of identities.  However the write
    ends, the identities stored afterwards are those stored before, in
    their order, followed by the new identities of the snapshots written
    — all of [data] when the write returns, its first few when it
    throws; so no document is deleted, and identities that were stored
    once each are still stored once each. *)
Definition extends_identities {Snap Key : Type} (identity : Snap -> Key)
    (same_identity : Key -> Key -> bool) (current : Db -> list (Document Snap))
    (save : list Snap -> M unit) : Prop :=
  forall env w data r w',
    save data env w = (r, w') ->
    let stored d := map (fun doc => identity (fields doc)) (current d) in
    (exists n,
        (r = Ok tt -> firstn n data = data)
        /\ stored (db w')
           = stored (db w)
             ++ new_identities same_identity (stored (db w)) (map identity (firstn n data)))
    /\ (NoDup (stored (db w)) -> NoDup (stored (db w'))).

End RepositoryObservations.
Export RepositoryObservations.

Module Frames.

(** The HTTP requests of a trace, in order: the URL and the timeout. *)
Fixpoint gets_of (events : list Event) : list (string * option Z) :=
  match events with
  | [] => []
  | EvHttpGet url timeout :: rest => (url, timeout) :: gets_of rest
  | _ :: rest => gets_of rest
  end.

(** A write path that leaves a part of the database alone, however it
    ends. *)
Definition leaves_alone {A X : Type} (part : Db -> X) (save : A -> M unit) : Prop :=
  forall data env w, part (db (snd (save data env w))) = part (db w).

(** The collections of the classes other than the city class, the grid
    class and the port class. *)
Definition all_but_city (d : Db) :=
  (grid_weather d, grid_weather_history d, port_weather d, port_weather_history d).

Definition all_but_grid (d : Db) :=
  (city_weather d, city_weather_history d, port_weather d, port_weather_history d).

Definition all_but_port (d : Db) :=
  (city_weather d, city_weather_history d, grid_weather d, grid_weather_history d).

(** A computation that leaves the whole database alone. *)
Definition keeps_db {A : Type} (m : M A) : Prop :=
  forall env w, db (snd (m env w)) = db w.

(** A computation that issues no request. *)
Definition keeps_traffic {A : Type} (m : M A) : Prop :=
  forall env w,
    requests (snd (m env w)) = requests w
    /\ gets_of (trace (snd (m env w))) = gets_of (trace w).

End Frames.
Export Frames.

Module CollectorObservations.

(** [l] is [l'] with some elements left out, the order kept. *)
Inductive subsequence {A : Type} : list A -> list A -> Prop :=
| subsequence_nil : subsequence [] []
| subsequence_skip (a : A) (l l' : list A) : subsequence l l' -> subsequence l (a :: l')
| subsequence_take (a : A) (l l' : list A) : subsequence l l' -> subsequence (a :: l) (a :: l').

(** The request [fetchPortWeather] issues for a port. *)
Definition request_for (env : Env) (port : Port) : string * option Z :=
  ((bmkgPortUrl (config env) ++ "?slug=" ++ p_slug port)%string, Some 30000).

End CollectorObservations.
Export CollectorObservations.

(* ================================================================== *)
(** * More of [utils/helpers.js]: [createSlug] *)
(* ================================================================== *)

Module Slugs.

(** ['='.repeat(n)]. *)
Fixpoint rule (n : nat) : string :=
  match n with
  | O => EmptyString
  | S n' => String "=" (rule n')
  end.

(** The classes of the two regular expressions of [createSlug], on ASCII
    characters, which is what strings are made of here: [[a-z0-9]], and
    the white space of [\s] (tab, line feed, vertical tab, form feed,
    carriage return, space). *)
Definition is_lower_alnum (c : ascii) : bool :=
  let n := nat_of_ascii c in
  ((97 <=? n) && (n <=? 122) || (48 <=? n) && (n <=? 57))%nat.

Definition is_space (c : ascii) : bool :=
  let n := nat_of_ascii c in
  ((9 <=? n) && (n <=? 13) || (n =? 32))%nat.

Fixpoint map_chars (f : ascii -> ascii) (s : string) : string :=
  match s with
  | EmptyString => EmptyString
  | String c rest => String (f c) (map_chars f rest)
  end.

(** [.replace(/[^a-z0-9\s]/g, ' ')]. *)
Definition blank_others (s : string) : string :=
  map_chars (fun c => if is_lower_alnum c || is_space c then c else " "%char) s.

(** [.replace(/\s+/g, '-')]: every maximal run of white space becomes
    one hyphen; [in_run] says that the character before was white
    space. *)
Fixpoint dash_runs (in_run : bool) (s : string) : string :=
  match s with
  | EmptyString => EmptyString
  | String c rest =>
      if is_space c
      then if in_run then dash_runs true rest else String "-" (dash_runs true rest)
      else String c (dash_runs false rest)
  end.

(** [.trim()]: white space is removed from both ends. *)
Fixpoint trim_start (s : string) : string :=
  match s with
  | EmptyString => EmptyString
  | String c rest => if is_space c then trim_start rest else s
  end.

Fixpoint trim_end (s : string) : string :=
  match s with
  | EmptyString => EmptyString
  | String c rest =>
      match trim_end rest with
      | EmptyString => if is_space c then EmptyString else String c EmptyString
      | kept => String c kept
      end
  end.

Definition trim (s : string) : string := trim_end (trim_start s).

(** [createSlug(text)]. *)
Definition createSlug (text : string) : string :=
  trim (dash_runs false (blank_others (toLowerCase text))).

(** What [blank_others] leaves: lower-case letters, digits, white space. *)
Definition clean_char (c : ascii) : bool := is_lower_alnum c || is_space c.

(** The characters of a slug: lower-case letters, digits and hyphens. *)
Definition is_slug_char (c : ascii) : bool := is_lower_alnum c || (c =? "-")%char.

Fixpoint all_chars (p : ascii -> bool) (s : string) : bool :=
  match s with
  | EmptyString => true
  | String c rest => p c && all_chars p rest
  end.

(** No two hyphens in a row. *)
Fixpoint no_double_hyphen (s : string) : bool :=
  match s with
  | String a ((String b _) as rest) =>
      negb ((a =? "-")%char && (b =? "-")%char) && no_double_hyphen rest
  | _ => true
  end.

End Slugs.
Export Slugs.

(* ================================================================== *)
(** * More of [utils/weatherRepository.js]: the freshness of the ports *)
(* ================================================================== *)

Module PortFreshness.

(** The first document of [l] whose sort key is the greatest. *)
Fixpoint greatest {D : Type} (sort_key : D -> Z) (l : list D) : option D :=
  match l with
  | [] => None
  | d :: rest =>
      match greatest sort_key rest with
      | Some d' => if sort_key d <? sort_key d' then Some d' else Some d
      | None => Some d
      end
  end.

(** [Model.findOne(filter).sort({ key: -1 }).lean()]: a selected document
    with the greatest sort key, [null] ([None]) when the filter selects
    none. *)
Definition findOne_sorted_desc {D : Type} (m : Model D) (filter : D -> bool)
    (sort_key : D -> Z) : M (option D) :=
  fault <- store_op ;;
  match fault with
  | Some _ => throw store_error
  | None => fun _ w => (Ok (greatest sort_key (List.filter filter (collection m (db w)))), w)
  end.

(** [getLatestPortTime()].  Every port document has a [fetched_at], a
    date, so the filter [{ fetched_at: { $exists: true } }] selects them
    all and [doc?.fetched_at || null] is the date of the document
    found. *)
Definition getLatestPortTime : M (option Z) :=
  doc <- findOne_sorted_desc PortWeather (fun _ => true) (fun doc => fetched_at (fields doc)) ;;
  ret (match doc with
       | Some found => Some (fetched_at (fields found))
       | None => None
       end).

(** [isPortWeatherFresh(maxAgeHours = config.freshness.port)]; the
    threshold is the argument. *)
Definition isPortWeatherFresh (maxAgeHours : Q) : M bool :=
  latest <- getLatestPortTime ;;
  isDataFresh latest maxAgeHours.

End PortFreshness.
Export PortFreshness.

(* ================================================================== *)
(** * More of [collectors/portWeatherCollector.js]: the whole run *)
(* ================================================================== *)

Module PortWeatherMain.

(** [checkDataFreshness()].  [freshness_port] is [config.freshness.port],
    the default threshold of [isPortWeatherFresh], which [Config] does
    not carry. *)
Definition checkDataFreshness (freshness_port : Q) : M bool :=
  try_catch
    (fresh <- isPortWeatherFresh freshness_port ;;
     (if fresh
      then logWithTimestamp (Text "Port weather data is still fresh (<= 6 hours old)") "info"
      else logWithTimestamp (Text "Port weather data is stale or missing. Update required.")
             "info") ;;
     ret fresh)
    (fun error =>
       logWithTimestamp (Text ("Error checking data freshness: " ++ message error)) "error" ;;
       ret false).

(** [main()].  [loadPortData] reads and seeds the collection
    [port_metadata], which is not among the collections of [Db]: the
    call is the parameter [loadPortData].  The [return 1] inside the
    [catch] of the save is the [false] of [saved].  The text of a logged
    line is given without the line break or the pictograph it starts
    with. *)
Definition main (freshness_port : Q) (loadPortData : M (list Port)) : M Z :=
  logWithTimestamp (Text "Port Weather Data Fetcher") "info" ;;
  logWithTimestamp (Text (rule 50)) "info" ;;
  try_catch
    (connectDatabase ;;
     fresh <- checkDataFreshness freshness_port ;;
     if fresh then
       logWithTimestamp (Text "Port weather data is still fresh. No update needed.") "info" ;;
       ret 0
     else
       ports <- loadPortData ;;
       let ports_length := Z.of_nat (length ports) in
       if ports_length =? 0 then
         logWithTimestamp (Text "No ports found. Exiting.") "error" ;;
         ret 1
       else
         logWithTimestamp
           (Text ("Found " ++ string_of_Z ports_length ++ " ports to process")) "info" ;;
         logWithTimestamp
           (Text ("Estimated time: ~" ++ string_of_Z (ceil_div ports_length 120)
                  ++ " minutes (with 500ms delays)")) "info" ;;
         logWithTimestamp (Text "Starting data collection...") "info" ;;
         collected <- collect ports ;;
         let '(results, successful, failed) := collected in
         logWithTimestamp (Text (rule 50)) "info" ;;
         logWithTimestamp (Text "FINAL RESULTS") "info" ;;
         logWithTimestamp (Text (rule 50)) "info" ;;
         logWithTimestamp (Text ("Total ports processed: " ++ string_of_Z ports_length)) "info" ;;
         logWithTimestamp (Text ("Successful: " ++ string_of_Z successful)) "info" ;;
         logWithTimestamp (Text ("Failed: " ++ string_of_Z failed)) "info" ;;
         logWithTimestamp (SuccessRate successful ports_length) "info" ;;
         saved <-
           try_catch
             (savePortWeatherData results ;;
              logWithTimestamp
                (Text ("Saved " ++ string_of_Z (Z.of_nat (length results))
                       ++ " port entries to MongoDB port_weather collection")) "info" ;;
              ret true)
             (fun error =>
                logWithTimestamp
                  (Text ("Failed to save port data to MongoDB: " ++ message error)) "error" ;;
                ret false) ;;
         if negb saved then ret 1
         else if successful >? 0 then
           logWithTimestamp
             (Text ("Ready to integrate " ++ string_of_Z successful
                    ++ " ports into your weather map!")) "info" ;;
           ret 0
         else
           logWithTimestamp
             (Text "No successful data collected. Check your internet connection and API status.")
             "warn" ;;
           ret 1)
    (fun error =>
       logWithTimestamp
         (Text ("Error during port weather data update: " ++ message error)) "error" ;;
       console_log (FatalError (message error)) ;;
       ret 1).

End PortWeatherMain.

(* ================================================================== *)
(** * More of [collectors/gridWeatherCollector.js]: the whole run *)
(* ================================================================== *)

Module GridWeatherMain.

(** [main()].  Two of the functions it calls are parameters:
    [checkDataFreshness], which reads the date [weather_data.fetched_at]
    inside a value the model keeps opaque, and [loadGridCoordinates],
    which reads and seeds the collection [grid_metadata], not among the
    collections of [Db].  [process.stdout.write] is a line on the console.
    The text of a logged line is given without the line break or the
    pictograph it starts with. *)
Definition main (checkDataFreshness : M bool) (loadGridCoordinates : M (list GridLocation))
    : M Z :=
  console_log (Text "Starting grid weather collector...") ;;
  logWithTimestamp (Text "OpenMeteo Grid Weather Data Fetcher") "info" ;;
  logWithTimestamp (Text (rule 60)) "info" ;;
  logWithTimestamp (Text "Using 1-degree grid resolution for higher detail") "info" ;;
  logWithTimestamp (Text (rule 60)) "info" ;;
  try_catch
    (logWithTimestamp (Text "Connecting to MongoDB...") "info" ;;
     connectDatabase ;;
     logWithTimestamp (Text "Connected to MongoDB") "info" ;;
     logWithTimestamp (Text "Checking data freshness...") "info" ;;
     fresh <- checkDataFreshness ;;
     if fresh then
       logWithTimestamp (Text "Grid weather data is still fresh. No update needed.") "info" ;;
       console_log (Text "Grid data is fresh. Exiting.") ;;
       ret 0
     else
       logWithTimestamp (Text "Fetching 1-degree grid weather data...") "info" ;;
       gridPoints <- loadGridCoordinates ;;
       if Z.of_nat (length gridPoints) =? 0 then
         logWithTimestamp (Text "No grid points loaded. Cannot proceed with update.") "error" ;;
         ret 1
       else
         env <- ask ;;
         gridWeatherData <- fetchWeatherDataBatched gridPoints (batchSize (config env)) ;;
         if Z.of_nat (length gridWeatherData) >? 0 then
           saveGridWeatherData gridWeatherData ;;
           logWithTimestamp
             (Text ("Saved " ++ string_of_Z (Z.of_nat (length gridWeatherData))
                    ++ " grid points to MongoDB grid_weather collection")) "info" ;;
           logWithTimestamp (Text "Grid weather data collection complete!") "info" ;;
           ret 0
         else
           logWithTimestamp (Text "Failed to fetch grid weather data") "error" ;;
           ret 1)
    (fun error =>
       logWithTimestamp
         (Text ("Error during grid weather data update: " ++ message error)) "error" ;;
       console_log (FatalError (message error)) ;;
       ret 1).

End GridWeatherMain.

(* ================================================================== *)
(** * [utils/cleanupHistory.js] *)
(* ================================================================== *)

Module CleanupHistory.

Definition DEFAULT_DAYS_TO_KEEP : Z := 90.

(** [parseInt(process.argv[2]) || DEFAULT_DAYS_TO_KEEP], where [None] is
    the [NaN] of an argument that is absent or not a number. *)
Definition days_to_keep (argument : option Z) : Z :=
  match argument with
  | Some n => if n =? 0 then DEFAULT_DAYS_TO_KEEP else n
  | None => DEFAULT_DAYS_TO_KEEP
  end.

(** [date.toISOString()]: a [RangeError] on an Invalid Date; the text of
    a date is given as its number of milliseconds. *)
Definition toISOString (date : option Z) : M string :=
  match date with
  | Some time => ret (string_of_Z time)
  | None => throw (mkError "Invalid time value")
  end.

(** [main()], for the parsed command-line argument.  The cutoff it
    computes is only logged, its text being built before the line is;
    [cleanupOldHistory] computes its own. *)
Definition main (argument : option Z) : M Z :=
  let daysToKeep := days_to_keep argument in
  logWithTimestamp (Text "Historical Data Cleanup Utility") "info" ;;
  logWithTimestamp (Text (rule 50)) "info" ;;
  logWithTimestamp
    (Text ("Retention policy: Keep last " ++ string_of_Z daysToKeep ++ " days")) "info" ;;
  logWithTimestamp (Text "") "info" ;;
  try_catch
    (connectDatabase ;;
     logWithTimestamp (Text "Connected to MongoDB") "info" ;;
     now <- new_Date ;;
     env <- ask ;;
     let cutoffDate := setDate_back (LocalTZA env) now daysToKeep in
     cutoffText <- toISOString cutoffDate ;;
     logWithTimestamp (Text ("Deleting records older than: " ++ cutoffText)) "info" ;;
     logWithTimestamp (Text "") "info" ;;
     logWithTimestamp (Text "Starting cleanup...") "info" ;;
     result <- cleanupOldHistory daysToKeep ;;
     logWithTimestamp (Text (rule 50)) "info" ;;
     logWithTimestamp (Text "Cleanup Results:") "info" ;;
     logWithTimestamp (Text (rule 50)) "info" ;;
     logWithTimestamp
       (Text ("City weather history deleted: " ++ string_of_Z (city result))) "info" ;;
     logWithTimestamp
       (Text ("Grid weather history deleted: " ++ string_of_Z (grid result))) "info" ;;
     logWithTimestamp
       (Text ("Port weather history deleted: " ++ string_of_Z (port result))) "info" ;;
     logWithTimestamp
       (Text ("Total records deleted: " ++ string_of_Z (total result))) "info" ;;
     logWithTimestamp (Text (rule 50)) "info" ;;
     (if total result >? 0
      then logWithTimestamp
             (Text ("Successfully cleaned up " ++ string_of_Z (total result) ++ " old records"))
             "info"
      else logWithTimestamp (Text "No old records found to delete") "info") ;;
     disconnectDatabase ;;
     ret 0)
    (fun error =>
       logWithTimestamp (Text ("Error during cleanup: " ++ message error)) "error" ;;
       console_log (FatalError (message error)) ;;
       try_catch disconnectDatabase (fun _ => ret tt) ;;
       ret 1).

End CleanupHistory.

Module FreshnessObservations.

(** Some stored port snapshot is at most [maxAgeHours] old at [now], by
    the age that [hoursSince] computes. *)
Definition some_port_within (maxAgeHours : Q) (now : Z) (d : Db) : Prop :=
  exists doc, In doc (port_weather d)
              /\ (age_hours now (fetched_at (fields doc)) <= maxAgeHours)%Q.

End FreshnessObservations.
Export FreshnessObservations.

Module PortRunObservations.

(** What is asked of the function that loads the ports, standing for
    [loadPortData]: it returns some ports, and — the collection it reads
    and seeds not being one of [Db] — it leaves the database and the
    connection flag as they are and issues no request. *)
Definition loads_ports (loadPortData : M (list Port)) (env : Env) : Prop :=
  forall w, exists ports w',
    loadPortData env w = (Ok ports, w')
    /\ ports <> []
    /\ db w' = db w
    /\ isConnected w' = isConnected w
    /\ requests w' = requests w
    /\ gets_of (trace w') = gets_of (trace w).

(** What a step of a run leaves alone: the database and the requests
    issued. *)
Definition quiet (w w' : World) : Prop :=
  db w' = db w /\ requests w' = requests w /\ gets_of (trace w') = gets_of (trace w).

(** Any two readings of the clock are at most [window] hours apart, by
    the age that [hoursSince] computes. *)
Definition clock_within (window : Q) (env : Env) : Prop :=
  forall i j, (age_hours (clock env j) (clock env i) <= window)%Q.

(** The port collector as an entry of [COLLECTORS]. *)
Definition port_collector (freshness_port : Q) (loadPortData : M (list Port))
    : RunAllCollectors.Collector :=
  RunAllCollectors.mkCollector "Port Weather" (PortWeatherMain.main freshness_port loadPortData).

(** A loader that returns the one port [sabang]. *)
Definition load_sabang : M (list Port) := ret [sabang].

End PortRunObservations.
Export PortRunObservations.

Module CleanupObservations.

(** The three current collections of a database. *)
Definition current_collections (d : Db) :=
  (city_weather d, grid_weather d, port_weather d).

(** The three history collections of [d'] are what a cleanup with cutoff
    [cutoff] keeps of those of [d]. *)
Definition cleaned (cutoff : Z) (d d' : Db) : Prop :=
  city_weather_history d' = retained cutoff (city_weather_history d)
  /\ grid_weather_history d' = retained cutoff (grid_weather_history d)
  /\ port_weather_history d' = retained cutoff (port_weather_history d).

(** Some store operation of the environment fails. *)
Definition store_fails (env : Env) : Prop :=
  exists k, store_fault env k <> None.

(** At some reading of the clock the cutoff of a cleanup keeping [days]
    days is not a date. *)
Definition cutoff_invalid (env : Env) (days : Z) : Prop :=
  exists t, setDate_back (LocalTZA env) (clock env t) days = None.

End CleanupObservations.
Export CleanupObservations.

Module GridRunObservations.

(** In the environment [env], the computation [m] changes the database
    only by one call of [saveGridWeatherData], on a list of snapshots that
    is not empty and that [fetchWeatherDataBatched] returned, with the
    configured batch size, in a run that started on the database as it
    was. *)
Definition saves_only_what_it_fetched {A : Type} (env : Env) (m : M A) : Prop :=
  forall w,
    db (snd (m env w)) = db w
    \/ exists locations w0 data w1,
         fetchWeatherDataBatched locations (batchSize (config env)) env w0 = (Ok data, w1)
         /\ data <> []
         /\ db w0 = db w
         /\ db (snd (m env w)) = db (snd (saveGridWeatherData data env w1)).

(** The provider rejects every request. *)
Definition all_rejected (env : Env) : Prop :=
  forall k, exists e, axios_get env k = Rejected e.

End GridRunObservations.
Export GridRunObservations.

(* ================================================================== *)
(** * Facts about doubles *)
(* ================================================================== *)

Unset Implicit Arguments.

Lemma two_power_pos (e : Z) : (0 < two_power e)%Q.
Proof. apply Qpower_0_lt. reflexivity. Qed.

Lemma two_power_add (a b : Z) : (two_power (a + b) == two_power a * two_power b)%Q.
Proof. apply Qpower_plus. discriminate. Qed.

Lemma two_power_le (a b : Z) : a <= b -> (two_power a <= two_power b)%Q.
Proof. intros H. apply Qpower_le_compat_l; [exact H|discriminate]. Qed.

Lemma two_power_lt (a b : Z) : a < b -> (two_power a < two_power b)%Q.
Proof. intros H. apply Qpower_lt_compat_l; [exact H|reflexivity]. Qed.

Lemma two_power_lt_inv (a b : Z) : (two_power a < two_power b)%Q -> a < b.
Proof. intros H. apply (Qpower_lt_compat_l_inv (2 # 1)); [exact H|reflexivity]. Qed.

Lemma two_power_Z (n : Z) : 0 <= n -> (two_power n == inject_Z (2 ^ n))%Q.
Proof. intros H. unfold two_power. rewrite (Zpower_Qpower 2 n H). reflexivity. Qed.

Lemma Qeq_le (a b : Q) : (a == b)%Q -> (a <= b)%Q.
Proof. unfold Qeq, Qle. lia. Qed.

Lemma Qeq_ge (a b : Q) : (a == b)%Q -> (b <= a)%Q.
Proof. unfold Qeq, Qle. lia. Qed.

(** ** Rounding to an integer *)

Lemma round_half_even_bounds (x : Q) :
  Qfloor x <= round_half_even x <= Qfloor x + 1.
Proof.
  unfold round_half_even. destruct (_ ?= _)%Q; [destruct (Z.even _)| |]; lia.
Qed.

Lemma round_half_even_le (x y : Q) : (x <= y)%Q -> round_half_even x <= round_half_even y.
Proof.
  intros Hxy.
  pose proof (Qfloor_resp_le x y Hxy) as Hf.
  pose proof (round_half_even_bounds x) as Bx.
  pose proof (round_half_even_bounds y) as By.
  destruct (Z.eq_dec (Qfloor x) (Qfloor y)) as [E|NE]; [|lia].
  unfold round_half_even in *. rewrite <- E in *.
  assert (Hr : (x - inject_Z (Qfloor x) <= y - inject_Z (Qfloor x))%Q).
  { apply Qplus_le_l with (z := inject_Z (Qfloor x)). ring_simplify. exact Hxy. }
  destruct (Qcompare_spec (x - inject_Z (Qfloor x)) (1 # 2)) as [Hx|Hx|Hx];
    destruct (Qcompare_spec (y - inject_Z (Qfloor x)) (1 # 2)) as [Hy|Hy|Hy];
    try destruct (Z.even (Qfloor x)); try lia; exfalso;
    first [ apply (Qlt_not_le _ _ (Qlt_le_trans _ _ _ Hy (Qeq_ge _ _ Hx)) Hr)
          | apply (Qlt_not_le _ _ (Qle_lt_trans _ _ _ (Qeq_le _ _ Hy) Hx) Hr)
          | apply (Qlt_not_le _ _ (Qlt_trans _ _ _ Hy Hx) Hr) ].
Qed.

Lemma round_half_even_Z (n : Z) : round_half_even (inject_Z n) = n.
Proof.
  unfold round_half_even. rewrite Qfloor_Z.
  assert (H : (inject_Z n - inject_Z n ?= 1 # 2)%Q = Lt).
  { apply Qlt_alt. setoid_replace (inject_Z n - inject_Z n)%Q with 0%Q by ring. reflexivity. }
  rewrite H. reflexivity.
Qed.

Lemma round_half_even_comp (x y : Q) : (x == y)%Q -> round_half_even x = round_half_even y.
Proof.
  intros H. apply Z.le_antisymm; apply round_half_even_le; [apply Qeq_le|apply Qeq_ge]; exact H.
Qed.

(** ** The binade of a positive number *)

Lemma Qmake_pos (a : Q) : (0 < a)%Q -> 0 < Qnum a.
Proof. unfold Qlt. cbn. lia. Qed.

Lemma binade_rough (a : Q) :
  (0 < a)%Q ->
  let e := Z.log2 (Qnum a) - Z.log2 (Zpos (Qden a)) in
  (two_power (e - 1) <= a)%Q /\ (a < two_power (e + 1))%Q.
Proof.
  intros Ha e. pose proof (Qmake_pos a Ha) as Hp.
  destruct a as [p q]. cbn [Qnum Qden] in *.
  set (lp := Z.log2 p) in *. set (lq := Z.log2 (Zpos q)) in *.
  pose proof (Z.log2_spec p Hp) as [Hp1 Hp2]. fold lp in Hp1, Hp2.
  pose proof (Z.log2_spec (Zpos q) eq_refl) as [Hq1 Hq2]. fold lq in Hq1, Hq2.
  assert (Hlp : 0 <= lp) by apply Z.log2_nonneg.
  assert (Hlq : 0 <= lq) by apply Z.log2_nonneg.
  assert (HP1 : (two_power lp <= inject_Z p)%Q)
    by (rewrite two_power_Z by lia; rewrite <- Zle_Qle; exact Hp1).
  assert (HP2 : (inject_Z p < two_power (lp + 1))%Q).
  { rewrite two_power_Z by lia. rewrite <- Zlt_Qlt. replace (lp + 1) with (Z.succ lp) by lia.
    exact Hp2. }
  assert (HQ1 : (two_power lq <= inject_Z (Zpos q))%Q)
    by (rewrite two_power_Z by lia; rewrite <- Zle_Qle; exact Hq1).
  assert (HQ2 : (inject_Z (Zpos q) < two_power (lq + 1))%Q).
  { rewrite two_power_Z by lia. rewrite <- Zlt_Qlt. replace (lq + 1) with (Z.succ lq) by lia.
    exact Hq2. }
  assert (Hq0 : (0 < inject_Z (Zpos q))%Q) by reflexivity.
  assert (Ha' : (p # q == inject_Z p / inject_Z (Zpos q))%Q) by apply Qmake_Qdiv.
  split.
  - rewrite Ha'. apply Qle_shift_div_l; [exact Hq0|].
    apply Qle_trans with (two_power (e - 1) * two_power (lq + 1))%Q.
    + apply Qmult_le_l; [apply two_power_pos|]. apply Qlt_le_weak. exact HQ2.
    + rewrite <- two_power_add. replace (e - 1 + (lq + 1)) with lp by (unfold e; lia).
      exact HP1.
  - rewrite Ha'. apply Qlt_shift_div_r; [exact Hq0|].
    apply Qlt_le_trans with (two_power (e + 1) * two_power lq)%Q.
    + rewrite <- two_power_add. replace (e + 1 + lq) with (lp + 1) by (unfold e; lia).
      exact HP2.
    + apply Qmult_le_l; [apply two_power_pos|]. exact HQ1.
Qed.

Lemma binade_spec (a : Q) :
  (0 < a)%Q -> (two_power (binade a) <= a)%Q /\ (a < two_power (binade a + 1))%Q.
Proof.
  intros Ha. destruct (binade_rough a Ha) as [Hlo Hhi]. unfold binade.
  set (e := Z.log2 (Qnum a) - Z.log2 (Zpos (Qden a))) in *.
  destruct (Qle_bool (two_power e) a) eqn:E.
  - split; [apply Qle_bool_iff; exact E|exact Hhi].
  - split; [exact Hlo|]. replace (e - 1 + 1) with e by lia.
    apply Qnot_le_lt. intros H. apply Qle_bool_iff in H. congruence.
Qed.

Lemma binade_unique (a : Q) (e : Z) :
  (two_power e <= a)%Q -> (a < two_power (e + 1))%Q -> binade a = e.
Proof.
  intros Hlo Hhi.
  assert (Ha : (0 < a)%Q) by (eapply Qlt_le_trans; [apply two_power_pos|exact Hlo]).
  destruct (binade_spec a Ha) as [Blo Bhi].
  pose proof (two_power_lt_inv _ _ (Qle_lt_trans _ _ _ Hlo Bhi)).
  pose proof (two_power_lt_inv _ _ (Qle_lt_trans _ _ _ Blo Hhi)).
  lia.
Qed.

Lemma binade_le (a b : Q) : (0 < a)%Q -> (a <= b)%Q -> binade a <= binade b.
Proof.
  intros Ha Hab.
  assert (Hb : (0 < b)%Q) by (eapply Qlt_le_trans; eassumption).
  destruct (binade_spec a Ha) as [Alo _]. destruct (binade_spec b Hb) as [_ Bhi].
  pose proof (two_power_lt_inv _ _ (Qle_lt_trans _ _ _ (Qle_trans _ _ _ Alo Hab) Bhi)).
  lia.
Qed.

(** ** Rounding to a double *)

Lemma Qdiv_le_r (a b u : Q) : (0 < u)%Q -> (a <= b)%Q -> (a / u <= b / u)%Q.
Proof.
  intros Hu Hab. apply Qle_shift_div_l; [exact Hu|].
  setoid_replace (a / u * u)%Q with a by (field; intros E; rewrite E in Hu; discriminate Hu).
  exact Hab.
Qed.

Lemma two_power_quotient (e j : Z) : (two_power e / two_power (e - j) == two_power j)%Q.
Proof.
  unfold Qdiv. rewrite <- (Qpower_opp (2 # 1)). fold (two_power (- (e - j))).
  rewrite <- two_power_add. replace (e + - (e - j)) with j by lia. reflexivity.
Qed.

Lemma round_positive_bounds (a : Q) :
  (0 < a)%Q ->
  (two_power (binade a) <= round_positive a)%Q
  /\ (round_positive a <= two_power (binade a + 1))%Q.
Proof.
  intros Ha. destruct (binade_spec a Ha) as [Hlo Hhi]. unfold round_positive.
  set (e := binade a) in *. set (u := two_power (e - 52)).
  assert (Hu : (0 < u)%Q) by apply two_power_pos.
  assert (H52 : (two_power e / u == inject_Z (2 ^ 52))%Q).
  { unfold u. rewrite two_power_quotient. apply two_power_Z. lia. }
  assert (H53 : (two_power (e + 1) / u == inject_Z (2 ^ 53))%Q).
  { unfold u. replace (e - 52) with (e + 1 - 53) by lia. rewrite two_power_quotient.
    apply two_power_Z. lia. }
  assert (Hu52 : (inject_Z (2 ^ 52) * u == two_power e)%Q).
  { unfold u. rewrite <- two_power_Z by lia. rewrite <- two_power_add.
    replace (52 + (e - 52)) with e by lia. reflexivity. }
  assert (Hu53 : (inject_Z (2 ^ 53) * u == two_power (e + 1))%Q).
  { unfold u. rewrite <- two_power_Z by lia. rewrite <- two_power_add.
    replace (53 + (e - 52)) with (e + 1) by lia. reflexivity. }
  split.
  - rewrite <- Hu52. apply Qmult_le_compat_r; [|apply Qlt_le_weak; exact Hu].
    rewrite <- Zle_Qle. rewrite <- (round_half_even_Z (2 ^ 52)).
    apply round_half_even_le. apply Qle_trans with (two_power e / u)%Q.
    + apply Qeq_ge. exact H52.
    + apply Qdiv_le_r; assumption.
  - rewrite <- Hu53. apply Qmult_le_compat_r; [|apply Qlt_le_weak; exact Hu].
    rewrite <- Zle_Qle. rewrite <- (round_half_even_Z (2 ^ 53)).
    apply round_half_even_le. apply Qle_trans with (two_power (e + 1) / u)%Q.
    + apply Qdiv_le_r; [exact Hu|]. apply Qlt_le_weak. exact Hhi.
    + apply Qeq_le. exact H53.
Qed.

Lemma round_positive_pos (a : Q) : (0 < a)%Q -> (0 < round_positive a)%Q.
Proof.
  intros Ha. eapply Qlt_le_trans; [apply two_power_pos|].
  apply (round_positive_bounds a Ha).
Qed.

Lemma round_positive_le (a b : Q) :
  (0 < a)%Q -> (a <= b)%Q -> (round_positive a <= round_positive b)%Q.
Proof.
  intros Ha Hab.
  assert (Hb : (0 < b)%Q) by (eapply Qlt_le_trans; eassumption).
  pose proof (binade_le a b Ha Hab) as He.
  destruct (Z.eq_dec (binade a) (binade b)) as [E|NE].
  - unfold round_positive. rewrite E.
    apply Qmult_le_compat_r; [|apply Qlt_le_weak; apply two_power_pos].
    rewrite <- Zle_Qle. apply round_half_even_le.
    apply Qdiv_le_r; [apply two_power_pos|exact Hab].
  - apply Qle_trans with (two_power (binade a + 1)); [apply (round_positive_bounds a Ha)|].
    apply Qle_trans with (two_power (binade b)); [|apply (round_positive_bounds b Hb)].
    apply two_power_le. lia.
Qed.

Lemma Qopp_lt_0 (x : Q) : (x < 0)%Q -> (0 < - x)%Q.
Proof. unfold Qlt. cbn. lia. Qed.

Lemma round_negative_le_0 (x : Q) : (x < 0)%Q -> (- round_positive (- x) <= 0)%Q.
Proof.
  intros Hx. pose proof (round_positive_pos (- x) (Qopp_lt_0 x Hx)) as H.
  revert H. generalize (round_positive (- x)). intros r. unfold Qlt, Qle. cbn. lia.
Qed.

(** Rounding is monotone. *)
Lemma to_double_le (x y : Q) : (x <= y)%Q -> (to_double x <= to_double y)%Q.
Proof.
  intros Hxy. unfold to_double.
  destruct (Qcompare_spec x 0) as [Hx|Hx|Hx]; destruct (Qcompare_spec y 0) as [Hy|Hy|Hy].
  - apply Qle_refl.
  - exfalso. apply (Qlt_not_le _ _ Hy). eapply Qle_trans; [apply Qeq_ge; exact Hx|exact Hxy].
  - apply Qlt_le_weak. apply round_positive_pos. exact Hy.
  - apply round_negative_le_0. exact Hx.
  - apply Qopp_le_compat. apply round_positive_le; [apply Qopp_lt_0; exact Hy|].
    apply Qopp_le_compat. exact Hxy.
  - apply Qle_trans with 0%Q; [apply round_negative_le_0; exact Hx|].
    apply Qlt_le_weak. apply round_positive_pos. exact Hy.
  - exfalso. apply (Qlt_not_le _ _ Hx). eapply Qle_trans; [exact Hxy|apply Qeq_le; exact Hy].
  - exfalso. apply (Qlt_not_le _ _ (Qlt_trans _ _ _ Hy Hx)). exact Hxy.
  - apply round_positive_le; assumption.
Qed.

Lemma to_double_comp (x y : Q) : (x == y)%Q -> (to_double x == to_double y)%Q.
Proof.
  intros H. apply Qle_antisym; apply to_double_le; [apply Qeq_le|apply Qeq_ge]; exact H.
Qed.

Lemma round_positive_comp (a b : Q) :
  (0 < a)%Q -> (a == b)%Q -> (round_positive a == round_positive b)%Q.
Proof.
  intros Ha H.
  assert (Hb : (0 < b)%Q) by (eapply Qlt_le_trans; [exact Ha|apply Qeq_le; exact H]).
  apply Qle_antisym; apply round_positive_le;
    [exact Ha|apply Qeq_le; exact H|exact Hb|apply Qeq_ge; exact H].
Qed.

Lemma inject_Z_pos (m : Z) : 0 < m -> (0 < inject_Z m)%Q.
Proof. intros H. unfold Qlt. cbn. lia. Qed.

Lemma inject_Z_nonneg (m : Z) : 0 <= m -> (0 <= inject_Z m)%Q.
Proof. intros H. unfold Qle. cbn. lia. Qed.

(** A number of 53 significant bits is a double. *)
Lemma round_positive_exact (m k : Z) :
  0 < m < 2 ^ 53 ->
  (round_positive (inject_Z m * two_power k) == inject_Z m * two_power k)%Q.
Proof.
  intros [Hm0 Hm].
  set (a := (inject_Z m * two_power k)%Q).
  assert (Hmq : (0 < inject_Z m)%Q) by (apply inject_Z_pos; exact Hm0).
  assert (Ha : (0 < a)%Q) by (apply Qmult_lt_0_compat; [exact Hmq|apply two_power_pos]).
  destruct (binade_spec a Ha) as [Hlo _].
  assert (Hhi : (a < two_power (53 + k))%Q).
  { unfold a. rewrite two_power_add. apply Qmult_lt_compat_r; [apply two_power_pos|].
    rewrite two_power_Z by lia. rewrite <- Zlt_Qlt. exact Hm. }
  pose proof (two_power_lt_inv _ _ (Qle_lt_trans _ _ _ Hlo Hhi)) as He.
  unfold round_positive. fold a. set (e := binade a) in *.
  set (j := k - (e - 52)).
  assert (Hj : 0 <= j) by (unfold j; lia).
  assert (Hq : (a / two_power (e - 52) == inject_Z (m * 2 ^ j))%Q).
  { unfold a, Qdiv. rewrite <- (Qpower_opp (2 # 1)). fold (two_power (- (e - 52))).
    rewrite <- Qmult_assoc, <- two_power_add.
    replace (k + - (e - 52)) with j by (unfold j; lia).
    rewrite two_power_Z by exact Hj. rewrite inject_Z_mult. reflexivity. }
  rewrite (round_half_even_comp _ _ Hq), round_half_even_Z.
  rewrite inject_Z_mult, <- two_power_Z by exact Hj.
  rewrite <- Qmult_assoc, <- two_power_add.
  replace (j + (e - 52)) with k by (unfold j; lia). reflexivity.
Qed.

Lemma to_double_exact (m k : Z) :
  - 2 ^ 53 < m < 2 ^ 53 ->
  (to_double (inject_Z m * two_power k) == inject_Z m * two_power k)%Q.
Proof.
  intros Hm. unfold to_double.
  pose proof (two_power_pos k) as Hk.
  destruct (Qcompare_spec (inject_Z m * two_power k) 0) as [H|H|H].
  - symmetry. exact H.
  - assert (Hneg : m < 0).
    { destruct (Z_lt_le_dec m 0) as [|Hge]; [assumption|]. exfalso.
      apply (Qlt_not_le _ _ H). apply Qmult_le_0_compat; [|apply Qlt_le_weak; exact Hk].
      apply inject_Z_nonneg. exact Hge. }
    assert (E : (- (inject_Z m * two_power k) == inject_Z (- m) * two_power k)%Q)
      by (rewrite inject_Z_opp; ring).
    rewrite (round_positive_comp _ _ (Qopp_lt_0 _ H) E).
    rewrite round_positive_exact by lia. rewrite inject_Z_opp. ring.
  - assert (Hpos : 0 < m).
    { destruct (Z_lt_le_dec 0 m) as [|Hle]; [assumption|]. exfalso.
      apply (Qlt_not_le _ _ H).
      setoid_replace (inject_Z m * two_power k)%Q with (- (inject_Z (- m) * two_power k))%Q
        by (rewrite inject_Z_opp; ring).
      change 0%Q with (- 0)%Q. apply Qopp_le_compat.
      apply Qmult_le_0_compat; [|apply Qlt_le_weak; exact Hk].
      apply inject_Z_nonneg. lia. }
    apply round_positive_exact. lia.
Qed.

Lemma to_double_Z (z : Z) :
  - 2 ^ 53 < z < 2 ^ 53 -> (to_double (inject_Z z) == inject_Z z)%Q.
Proof.
  intros Hz. pose proof (to_double_exact z 0 Hz) as H.
  assert (E : (inject_Z z * two_power 0 == inject_Z z)%Q) by (unfold two_power; cbn; ring).
  rewrite <- E at 2. rewrite <- H. apply to_double_comp. symmetry. exact E.
Qed.

Lemma to_double_nonpos (x : Q) : (x <= 0)%Q -> (to_double x <= 0)%Q.
Proof. intros H. apply (to_double_le x 0 H). Qed.

(** The age in hours of [d] milliseconds, as [hoursSince] computes it,
    against a whole number of hours. *)
Lemma double_age_whole_hours (d N : Z) :
  - 2 ^ 30 <= N <= 2 ^ 30 ->
  (to_double (to_double (inject_Z d) / inject_Z 3600000) <= inject_Z N)%Q
  <-> d <= N * 3600000.
Proof.
  intros HN.
  assert (H36 : (0 < inject_Z 3600000)%Q) by reflexivity.
  assert (HNx : (to_double (inject_Z N) == inject_Z N)%Q) by (apply to_double_Z; lia).
  split.
  - intros Hle. destruct (Z_le_gt_dec d (N * 3600000)) as [|Hgt]; [assumption|exfalso].
    assert (Hc : (inject_Z (N * 3600000 + 1) <= to_double (inject_Z d))%Q).
    { rewrite <- (to_double_Z (N * 3600000 + 1)) by lia.
      apply to_double_le. rewrite <- Zle_Qle. lia. }
    set (g := (inject_Z (N * 2 ^ 22 + 1) * two_power (- 22))%Q).
    assert (Hg : (to_double g == g)%Q) by (apply to_double_exact; lia).
    assert (HgN : (inject_Z N < g)%Q).
    { unfold g, two_power. unfold Qlt. cbn. lia. }
    assert (Hgq : (g <= to_double (inject_Z d) / inject_Z 3600000)%Q).
    { apply Qle_shift_div_l; [exact H36|].
      eapply Qle_trans; [|exact Hc]. unfold g, two_power, Qle. cbn. lia. }
    apply (Qlt_not_le _ _ HgN). eapply Qle_trans; [|exact Hle].
    rewrite <- Hg. apply to_double_le. exact Hgq.
  - intros Hd. rewrite <- HNx. apply to_double_le.
    apply Qle_shift_div_r; [exact H36|].
    rewrite <- inject_Z_mult. rewrite <- (to_double_Z (N * 3600000)) by lia.
    apply to_double_le. rewrite <- Zle_Qle. exact Hd.
Qed.

(** The rounding, compared with the division of binary64 of the standard
    library on some quotients: ages in milliseconds over 3 600 000, among
    them 0.3 hours and 2^32 hours and a millisecond, and the integers
    about 2^53 that are half way between two doubles. *)
Example to_double_agrees_with_binary64 :
  forallb (fun d => same_number (binary64_quotient d 3600000)
                      (to_double (to_double (inject_Z d) / inject_Z 3600000)))
    [1080000; 2 ^ 32 * 3600000 + 1; 21600000; 21600001; 1; 7; -1080000; 123456789;
     8640000000000000; 17280000000000000; 2 ^ 53 + 1; 2 ^ 53 + 3; 2 ^ 54 + 2; 2 ^ 54 + 6]
  = true
  /\ forallb (fun z => same_number (binary64_value (binary64_of_Z z)) (to_double (inject_Z z)))
       [2 ^ 53 + 1; 2 ^ 53 + 3; 2 ^ 54 + 2; 2 ^ 54 + 6; - (2 ^ 53 + 1); 17280000000000001]
     = true.
Proof. vm_compute. split; reflexivity. Qed.

Set Implicit Arguments.

(* ================================================================== *)
(** * Facts about [helpers.js] *)
(* ================================================================== *)

(** ⌈n / b⌉ for a positive [b]. *)
Lemma ceil_div_step (n b : Z) :
  0 < b -> 0 < n -> ceil_div n b = 1 + ceil_div (n - b) b.
Proof.
  intros Hb Hn. unfold ceil_div.
  replace (n + b - 1) with ((n - b + b - 1) + 1 * b) by lia.
  rewrite Z.div_add by lia. lia.
Qed.

Lemma ceil_div_nonpos (n b : Z) : 0 < b -> n <= 0 -> ceil_div n b <= 0.
Proof.
  intros Hb Hn. unfold ceil_div.
  assert (H : (n + b - 1) / b < 1) by (apply Z.div_lt_upper_bound; lia).
  lia.
Qed.

Lemma ceil_div_nonneg (n b : Z) : 0 < b -> 0 < n -> 0 <= ceil_div (n - b) b.
Proof.
  intros Hb Hn. unfold ceil_div. apply Z.div_pos; lia.
Qed.

(** A slice that starts inside the array. *)
Lemma slice_inside (A : Type) (array : list A) (i size : Z) :
  0 <= i -> 0 < size -> i < Z.of_nat (length array) ->
  slice array i (i + size)
  = firstn (Z.to_nat (Z.min (i + size) (Z.of_nat (length array)) - i))
      (skipn (Z.to_nat i) array).
Proof.
  intros Hi Hs Hlt. unfold slice.
  destruct (Z.ltb_spec i 0); [lia|].
  destruct (Z.ltb_spec (i + size) 0); [lia|].
  rewrite (Z.min_l i) by lia. reflexivity.
Qed.

Lemma skipn_past (A : Type) (l : list A) (n : nat) :
  (length l <= n)%nat -> skipn n l = [].
Proof. intros H. apply skipn_all2. exact H. Qed.

(** The invariant of the loop: from index [i] the loop pushes the
    consecutive slices of width [size] that cover the rest of the array. *)
Lemma batchArray_loop_spec (A : Type) (array : list A) (size : Z) :
  0 < size ->
  forall (fuel : nat) (i : Z) (batches : list (list A)),
    0 <= i ->
    Z.of_nat (length array) - i <= Z.of_nat fuel ->
    exists rest,
      batchArray_loop fuel array size i batches = Some (batches ++ rest)
      /\ concat rest = skipn (Z.to_nat i) array
      /\ Z.of_nat (length rest) = Z.max 0 (ceil_div (Z.of_nat (length array) - i) size)
      /\ (forall k, (k < length rest)%nat ->
            nth k rest [] = slice array (i + Z.of_nat k * size) (i + (Z.of_nat k + 1) * size))
      /\ Forall (fun batch => batch <> []) rest.
Proof.
  intros Hsize. induction fuel as [|fuel IH]; intros i batches Hi Hfuel.
  - exists []. cbn [batchArray_loop].
    destruct (Z.ltb_spec i (Z.of_nat (length array))); [lia|].
    rewrite app_nil_r. repeat split.
    + cbn. symmetry. apply skipn_past. lia.
    + cbn [length]. pose proof (ceil_div_nonpos (n := Z.of_nat (length array) - i) Hsize). lia.
    + cbn. intros k Hk. lia.
    + constructor.
  - cbn [batchArray_loop].
    destruct (Z.ltb_spec i (Z.of_nat (length array))) as [Hlt|Hge].
    + destruct (IH (i + size) (batches ++ [slice array i (i + size)]))
        as (rest & Heq & Hcat & Hlen & Hnth & Hne); [lia|lia|].
      exists (slice array i (i + size) :: rest). repeat split.
      * rewrite Heq. rewrite <- app_assoc. reflexivity.
      * cbn [concat]. rewrite Hcat. rewrite slice_inside by lia.
        rewrite <- (firstn_skipn (Z.to_nat (Z.min (i + size) (Z.of_nat (length array)) - i))
                      (skipn (Z.to_nat i) array)) at 2.
        f_equal. rewrite skipn_skipn.
        destruct (Z.le_ge_cases (i + size) (Z.of_nat (length array))) as [Hin|Hout].
        -- f_equal. lia.
        -- rewrite !skipn_past; [reflexivity| |]; lia.
      * cbn [length]. rewrite Nat2Z.inj_succ, Hlen.
        rewrite (ceil_div_step (n := Z.of_nat (length array) - i)) by lia.
        replace (Z.of_nat (length array) - (i + size)) with (Z.of_nat (length array) - i - size) by lia.
        pose proof (ceil_div_nonneg (n := Z.of_nat (length array) - i) Hsize). lia.
      * intros [|k] Hk.
        -- cbn [nth]. f_equal; lia.
        -- cbn [nth]. cbn [length] in Hk. rewrite Hnth by lia. f_equal; lia.
      * constructor; [|exact Hne].
        rewrite slice_inside by lia. intros Hnil.
        apply (f_equal (@length A)) in Hnil.
        rewrite length_firstn, length_skipn in Hnil. cbn [length] in Hnil. lia.
    + exists []. rewrite app_nil_r. repeat split.
      * cbn. symmetry. apply skipn_past. lia.
      * cbn [length]. pose proof (ceil_div_nonpos (n := Z.of_nat (length array) - i) Hsize). lia.
      * cbn. intros k Hk. lia.
      * constructor.
Qed.

(** More fuel than the loop needs changes nothing. *)
Lemma batchArray_loop_stable (A : Type) (array : list A) (size : Z) :
  forall (fuel : nat) (i : Z) (batches result : list (list A)),
    batchArray_loop fuel array size i batches = Some result ->
    forall extra : nat,
      batchArray_loop (fuel + extra) array size i batches = Some result.
Proof.
  induction fuel as [|fuel IH]; intros i batches result H extra.
  - cbn [batchArray_loop] in H.
    destruct (Z.ltb_spec i (Z.of_nat (length array))); [discriminate|].
    destruct extra; cbn [Nat.add batchArray_loop];
      destruct (Z.ltb_spec i (Z.of_nat (length array))); try lia; exact H.
  - cbn [Nat.add batchArray_loop] in *.
    destruct (Z.ltb_spec i (Z.of_nat (length array))); [|exact H].
    apply IH. exact H.
Qed.

(** With a batch size that is not positive the loop of a non-empty array
    never ends: no number of iterations is enough. *)
Lemma batchArray_loop_never_ends (A : Type) (array : list A) (size : Z) :
  size <= 0 -> array <> [] ->
  forall (fuel : nat) (i : Z) (batches : list (list A)),
    i <= 0 -> batchArray_loop fuel array size i batches = None.
Proof.
  intros Hsize Hne.
  assert (Hlen : 0 < Z.of_nat (length array)) by (destruct array; [congruence|cbn [length]; lia]).
  induction fuel as [|fuel IH]; intros i batches Hi; cbn [batchArray_loop];
    destruct (Z.ltb_spec i (Z.of_nat (length array))); try lia.
  - reflexivity.
  - apply IH. lia.
Qed.

(** With a positive batch size the loop ends. *)
Lemma batchArray_returns (A : Type) (array : list A) (size : Z) :
  0 < size -> exists batches, batchArray array size = Some batches.
Proof.
  intros Hsize.
  destruct (batchArray_loop_spec array Hsize (length array) (i := 0) [])
    as (rest & Heq & _); [lia|lia|].
  exists rest. exact Heq.
Qed.

(** No batch is empty. *)
Lemma batchArray_nonempty (A : Type) (array : list A) (size : Z) (batches : list (list A)) :
  0 < size -> batchArray array size = Some batches ->
  Forall (fun batch => batch <> []) batches.
Proof.
  intros Hsize H.
  destruct (batchArray_loop_spec array Hsize (length array) (i := 0) [])
    as (rest & Heq & _ & _ & _ & Hne); [lia|lia|].
  unfold batchArray in H. rewrite Heq in H. injection H as <-. exact Hne.
Qed.

(** C7 — Batch partition round trip.  For every list of N locations and
    every batch size B > 0, [batchArray] returns ⌈N/B⌉ batches; the k-th
    batch is the contiguous slice of the input from index k·B to
    (k+1)·B, so the order of the input is kept; and the concatenation of
    the batches, in order, is the input list. *)
Theorem batchArray_partition (A : Type) (array : list A) (size : Z) :
  0 < size ->
  exists batches,
    batchArray array size = Some batches
    /\ Z.of_nat (length batches) = ceil_div (Z.of_nat (length array)) size
    /\ (forall k, (k < length batches)%nat ->
          nth k batches [] = slice array (Z.of_nat k * size) ((Z.of_nat k + 1) * size))
    /\ concat batches = array.
Proof.
  intros Hsize.
  destruct (batchArray_loop_spec array Hsize (length array) (i := 0) [])
    as (rest & Heq & Hcat & Hlen & Hnth & _); [lia|lia|].
  exists rest. unfold batchArray. cbn [app] in Heq. repeat split.
  - exact Heq.
  - rewrite Hlen, Z.sub_0_r.
    assert (0 <= ceil_div (Z.of_nat (length array)) size)
      by (unfold ceil_div; apply Z.div_pos; lia).
    lia.
  - intros k Hk. rewrite (Hnth k Hk). f_equal; lia.
  - rewrite Hcat. reflexivity.
Qed.

Lemma batchArray_partition_witness :
  0 < 2 /\
  exists batches,
    batchArray [1; 2; 3; 4; 5] 2 = Some batches
    /\ Z.of_nat (length batches) = ceil_div (Z.of_nat (length [1; 2; 3; 4; 5])) 2
    /\ (forall k, (k < length batches)%nat ->
          nth k batches [] = slice [1; 2; 3; 4; 5] (Z.of_nat k * 2) ((Z.of_nat k + 1) * 2))
    /\ concat batches = [1; 2; 3; 4; 5].
Proof.
  split; [lia | apply (@batchArray_partition Z [1; 2; 3; 4; 5] 2); lia].
Defined.

(** The scenario of the specification: 120 locations in batches of 50
    give batches of 50, 50 and 20. *)
Example batchArray_120_by_50 :
  option_map (map (@length nat)) (batchArray (seq 0 120) 50) = Some [50; 50; 20]%nat.
Proof. vm_compute. reflexivity. Qed.

(* ================================================================== *)
(** * The freshness gate ([isDataFresh]) *)
(* ================================================================== *)

Lemma age_hours_whole_hours (now fetchedAt hours : Z) :
  - 2 ^ 30 <= hours <= 2 ^ 30 ->
  Qle_bool (age_hours now fetchedAt) (inject_Z hours) = (now - fetchedAt <=? hours * 3600000).
Proof.
  intros Hh. pose proof (double_age_whole_hours (now - fetchedAt) hours Hh) as H.
  fold (age_hours now fetchedAt) in H.
  destruct (Z.leb_spec (now - fetchedAt) (hours * 3600000)) as [Hle|Hgt].
  - apply Qle_bool_iff. apply H. exact Hle.
  - destruct (Qle_bool _ _) eqn:E; [|reflexivity].
    apply Qle_bool_iff in E. apply H in E. lia.
Qed.

Lemma isDataFresh_run (env : Env) (w : World) (fetchedAt : Z) (maxAgeHours : Q) :
  isDataFresh (Some fetchedAt) maxAgeHours env w
  = (Ok (Qle_bool (age_hours (clock env (ticks w)) fetchedAt) maxAgeHours),
     set_ticks (S (ticks w)) w).
Proof. reflexivity. Qed.

(** C4, as stated, fails.  The age is computed in doubles: 1 080 000 ms
    are 0.3 hours, which is more than the double that [0.3] denotes, and
    yet [isDataFresh] returns true for that threshold, the quotient being
    rounded to the same double. *)
Lemma isDataFresh_fresh_beyond_threshold : ~ stale_whenever_older.
Proof.
  intros H.
  assert (Hd : is_double three_tenths) by (unfold is_double, Qeq; vm_compute; reflexivity).
  assert (Hlt : (three_tenths
                 < inject_Z (clock (env_of 1080000 network_down) (ticks world0) - 0)
                   / inject_Z 3600000)%Q) by (unfold Qlt; vm_compute; reflexivity).
  specialize (H (env_of 1080000 network_down) world0 0 three_tenths Hd Hlt).
  vm_compute in H. discriminate H.
Qed.

(** C4, amended — Freshness gate.  [isDataFresh(fetchedAt, maxAgeHours)]
    returns false when [fetchedAt] is absent; with a timestamp it returns
    whether the age in hours, as [hoursSince] computes it in doubles, is
    at most [maxAgeHours].  So for a threshold of a whole number of hours,
    up to 2^30, it returns true exactly when now − fetchedAt is at most
    that many hours, and false whenever it exceeds them; for a threshold
    that is a double and a difference below 2^53 ms it returns true
    whenever the exact age is within the threshold (the converse is what
    fails, by the rounding of the quotient).  And it has no effect: it
    reads the clock once and leaves the database, the connection flag and
    the trace as they were. *)
Theorem isDataFresh_gate (env : Env) (w : World) (maxAgeHours : Q) :
  isDataFresh None maxAgeHours env w = (Ok false, w)
  /\ (forall fetchedAt : Z,
        isDataFresh (Some fetchedAt) maxAgeHours env w
        = (Ok (Qle_bool (age_hours (clock env (ticks w)) fetchedAt) maxAgeHours),
           set_ticks (S (ticks w)) w))
  /\ (forall fetchedAt hours : Z,
        - 2 ^ 30 <= hours <= 2 ^ 30 ->
        (maxAgeHours == inject_Z hours)%Q ->
        fst (isDataFresh (Some fetchedAt) maxAgeHours env w)
        = Ok (clock env (ticks w) - fetchedAt <=? hours * 3600000))
  /\ (forall fetchedAt : Z,
        is_double maxAgeHours ->
        - 2 ^ 53 < clock env (ticks w) - fetchedAt < 2 ^ 53 ->
        (inject_Z (clock env (ticks w) - fetchedAt) / inject_Z 3600000 <= maxAgeHours)%Q ->
        fst (isDataFresh (Some fetchedAt) maxAgeHours env w) = Ok true)
  /\ (forall fetchedAt : option Z,
        let w' := snd (isDataFresh fetchedAt maxAgeHours env w) in
        db w' = db w /\ trace w' = trace w /\ isConnected w' = isConnected w
        /\ store_ops w' = store_ops w /\ requests w' = requests w).
Proof.
  split; [reflexivity|]. split; [intros fetchedAt; apply isDataFresh_run|]. split; [|split].
  - intros fetchedAt hours Hh Hmax. rewrite isDataFresh_run. cbn [fst]. f_equal.
    rewrite <- (age_hours_whole_hours _ _ Hh).
    apply Qleb_comp; [reflexivity|exact Hmax].
  - intros fetchedAt Hd Hrange Hle. rewrite isDataFresh_run. cbn [fst]. f_equal.
    apply Qle_bool_iff. unfold age_hours.
    eapply Qle_trans; [|apply Qeq_le; exact Hd]. apply to_double_le.
    eapply Qle_trans; [|exact Hle].
    apply Qdiv_le_r; [reflexivity|]. apply Qeq_le. apply to_double_Z. exact Hrange.
  - intros [fetchedAt|]; [rewrite isDataFresh_run|]; cbn; repeat split; reflexivity.
Qed.

Lemma isDataFresh_gate_witness :
  (- 2 ^ 30 <= 6 <= 2 ^ 30 /\ (6 == inject_Z 6)%Q)
  /\ fst (isDataFresh (Some 0) 6 (env_of 36000000 network_down) world0) = Ok false.
Proof.
  assert (H1 : - 2 ^ 30 <= 6 <= 2 ^ 30) by lia.
  assert (H2 : (6 == inject_Z 6)%Q) by reflexivity.
  split; [split; assumption|].
  exact (proj1 (proj2 (proj2 (isDataFresh_gate (env_of 36000000 network_down) world0 6)))
           0 6 H1 H2).
Defined.

(** Six hours old is still fresh under a threshold of six hours, and a
    millisecond more is stale. *)
Example isDataFresh_at_threshold :
  fst (isDataFresh (Some 0) 6 (env_of 21600000 network_down) world0) = Ok true
  /\ fst (isDataFresh (Some 0) 6 (env_of 21600001 network_down) world0) = Ok false.
Proof. vm_compute. split; reflexivity. Qed.

(** Beyond 2^30 hours a whole threshold is rounded past too: an age of
    2^32 hours and a millisecond is fresh under a threshold of 2^32
    hours. *)
Example isDataFresh_beyond_the_range :
  fst (isDataFresh (Some (- 8640000000000000)) (inject_Z (2 ^ 32))
         (env_of (2 ^ 32 * 3600000 + 1 - 8640000000000000) network_down) world0)
  = Ok true.
Proof. vm_compute. reflexivity. Qed.

(* ================================================================== *)
(** * Facts about retention ([cleanupOldHistory]) *)
(* ================================================================== *)



Lemma retained_idempotent (S : Type) (cutoff : Z) (history : list (HistoryDocument S)) :
  retained cutoff (retained cutoff history) = retained cutoff history.
Proof.
  unfold retained. induction history as [|doc l IH]; [reflexivity|].
  cbn [List.filter]. destruct (archived_at doc <? cutoff) eqn:E; cbn [negb].
  - exact IH.
  - cbn [List.filter]. rewrite E. cbn [negb]. f_equal. exact IH.
Qed.

Lemma expired_count_retained (S : Type) (cutoff : Z) (history : list (HistoryDocument S)) :
  expired_count cutoff (retained cutoff history) = 0.
Proof.
  unfold expired_count, retained. induction history as [|doc l IH]; [reflexivity|].
  cbn [List.filter]. destruct (archived_at doc <? cutoff) eqn:E; cbn [negb].
  - exact IH.
  - cbn [List.filter]. rewrite E. exact IH.
Qed.


(** The database a cleanup with cutoff [cutoff] leaves. *)
Lemma cleanupOldHistory_run (env : Env) (w : World) (daysToKeep cutoff : Z) :
  store_fault env (store_ops w) = None ->
  store_fault env (S (store_ops w)) = None ->
  store_fault env (S (S (store_ops w))) = None ->
  setDate_back (LocalTZA env) (clock env (ticks w)) daysToKeep = Some cutoff ->
  let d := db w in
  cleanupOldHistory daysToKeep env w
  = (Ok (mkCounts (expired_count cutoff (city_weather_history d))
           (expired_count cutoff (grid_weather_history d))
           (expired_count cutoff (port_weather_history d))
           (expired_count cutoff (city_weather_history d)
            + expired_count cutoff (grid_weather_history d)
            + expired_count cutoff (port_weather_history d))),
     mkWorld
       (mkDb (city_weather d) (retained cutoff (city_weather_history d))
          (grid_weather d) (retained cutoff (grid_weather_history d))
          (port_weather d) (retained cutoff (port_weather_history d)))
       (isConnected w) (next_id w) (S (ticks w)) (S (S (S (store_ops w))))
       (requests w) (trace w)).
Proof.
  intros H0 H1 H2 Hcut. cbv zeta.
  unfold cleanupOldHistory, bind at 1, new_Date. unfold bind at 1, ask.
  cbn [ticks set_ticks]. rewrite Hcut.
  unfold Promise_all3, deleteMany_archived_before, deleteMany, bind, store_op, throw, ret.
  cbn. rewrite H0. cbn. rewrite H1. cbn. rewrite H2. cbn. reflexivity.
Qed.

(** A cleanup whose cutoff is not a date: the three queries are rejected
    before they reach the store. *)
Lemma cleanupOldHistory_invalid (env : Env) (w : World) (daysToKeep : Z) :
  setDate_back (LocalTZA env) (clock env (ticks w)) daysToKeep = None ->
  cleanupOldHistory daysToKeep env w = (Throw cast_error, set_ticks (S (ticks w)) w).
Proof.
  intros Hcut.
  unfold cleanupOldHistory, bind at 1, new_Date. unfold bind at 1, ask.
  cbn [ticks set_ticks]. rewrite Hcut. reflexivity.
Qed.




(** The cleanup scenario of the specification, evaluated: of documents
    archived 100, 50 and 10 days ago, a cleanup keeping 90 days deletes
    the first and leaves the other two. *)
Example cleanup_scenario :
  let r := cleanupOldHistory 90 (env_of retention_now network_down) (world_of retention_db) in
  fst r = Ok (mkCounts 1 0 0 1)
  /\ city_weather_history (db (snd r))
     = [archived_city 2 "Jakarta" (retention_now - 50 * day);
        archived_city 3 "Jakarta" (retention_now - 10 * day)].
Proof. vm_compute. split; reflexivity. Qed.

(** Calendar days are not always 24 hours.  In a zone whose clock moved
    one hour forward 45 days ago, the cutoff of a cleanup keeping 90 days
    is 90 days of 24 hours before now less one hour: a document archived
    half an hour after that is deleted; in the zone of UTC it is kept. *)
Example cleanup_across_a_clock_change :
  setDate_back spring_zone retention_now 90 = Some (retention_now - 90 * day + 3600000)
  /\ fst (cleanupOldHistory 90 (env_in spring_zone retention_now network_down)
            (world_of spring_db))
     = Ok (mkCounts 1 0 0 1)
  /\ fst (cleanupOldHistory 90 (env_of retention_now network_down) (world_of spring_db))
     = Ok (mkCounts 0 0 0 0)
  /\ fst (cleanupOldHistory 90 (env_in spring_zone retention_now network_down)
            (world_of retention_db))
     = Ok (mkCounts 1 0 0 1).
Proof. vm_compute. repeat split; reflexivity. Qed.

(** C6 — Retention cleanup idempotence.  For every store and every
    [daysToKeep], when two cleanups run in a row with the same cutoff and
    their deletions succeed, the second deletes nothing: its counts are
    all zero and it leaves the database as the first left it, so what the
    first run deleted was deleted once.  (Where the cutoff is not a date,
    both runs are rejected and neither deletes anything.) *)
Theorem cleanupOldHistory_idempotent (env : Env) (w : World) (daysToKeep : Z) :
  (forall k, (k < 6)%nat -> store_fault env (store_ops w + k) = None) ->
  setDate_back (LocalTZA env) (clock env (S (ticks w))) daysToKeep
  = setDate_back (LocalTZA env) (clock env (ticks w)) daysToKeep ->
  match setDate_back (LocalTZA env) (clock env (ticks w)) daysToKeep with
  | Some _ =>
      exists counts1 w1 w2,
        cleanupOldHistory daysToKeep env w = (Ok counts1, w1)
        /\ cleanupOldHistory daysToKeep env w1 = (Ok (mkCounts 0 0 0 0), w2)
        /\ db w2 = db w1
  | None =>
      exists w1 w2,
        cleanupOldHistory daysToKeep env w = (Throw cast_error, w1)
        /\ cleanupOldHistory daysToKeep env w1 = (Throw cast_error, w2)
        /\ db w1 = db w
        /\ db w2 = db w1
  end.
Proof.
  intros Hfault Hcut.
  destruct (setDate_back (LocalTZA env) (clock env (ticks w)) daysToKeep) as [cutoff|] eqn:Hc.
  - assert (F0 : store_fault env (store_ops w) = None)
      by (rewrite <- (Hfault 0%nat) by lia; f_equal; lia).
    assert (F1 : store_fault env (S (store_ops w)) = None)
      by (rewrite <- (Hfault 1%nat) by lia; f_equal; lia).
    assert (F2 : store_fault env (S (S (store_ops w))) = None)
      by (rewrite <- (Hfault 2%nat) by lia; f_equal; lia).
    assert (F3 : store_fault env (S (S (S (store_ops w)))) = None)
      by (rewrite <- (Hfault 3%nat) by lia; f_equal; lia).
    assert (F4 : store_fault env (S (S (S (S (store_ops w))))) = None)
      by (rewrite <- (Hfault 4%nat) by lia; f_equal; lia).
    assert (F5 : store_fault env (S (S (S (S (S (store_ops w)))))) = None)
      by (rewrite <- (Hfault 5%nat) by lia; f_equal; lia).
    pose proof (@cleanupOldHistory_run env w daysToKeep cutoff F0 F1 F2 Hc) as R1.
    cbv zeta in R1.
    eexists. eexists. eexists. split; [exact R1|].
    match type of R1 with _ = (_, ?w1) => set (w1' := w1) end.
    pose proof (@cleanupOldHistory_run env w1' daysToKeep cutoff F3 F4 F5 Hcut) as R2.
    cbv zeta in R2. subst w1'.
    cbn [db ticks city_weather city_weather_history grid_weather grid_weather_history
         port_weather port_weather_history] in R2.
    rewrite !expired_count_retained, !retained_idempotent in R2.
    split; [exact R2|]. reflexivity.
  - eexists. eexists.
    split; [apply (cleanupOldHistory_invalid env w daysToKeep Hc)|].
    split; [apply cleanupOldHistory_invalid; exact Hcut|].
    split; reflexivity.
Qed.

Lemma cleanupOldHistory_idempotent_witness :
  let env := env_of retention_now network_down in
  let w := world_of retention_db in
  exists counts1 w1 w2,
    cleanupOldHistory 90 env w = (Ok counts1, w1)
    /\ cleanupOldHistory 90 env w1 = (Ok (mkCounts 0 0 0 0), w2)
    /\ db w2 = db w1.
Proof.
  cbv zeta.
  apply (@cleanupOldHistory_idempotent (env_of retention_now network_down)
           (world_of retention_db) 90).
  - intros k Hk. reflexivity.
  - reflexivity.
Defined.

(* ================================================================== *)
(** * Facts about the monad and the store operations *)
(* ================================================================== *)

Lemma set_ticks_same (w : World) : set_ticks (ticks w) w = w.
Proof. destruct w; reflexivity. Qed.

Lemma bind_Ok (A B : Type) (m : M A) (k : A -> M B) (env : Env) (w w1 : World) (a : A) :
  m env w = (Ok a, w1) -> bind m k env w = k a env w1.
Proof. intros H. unfold bind. rewrite H. reflexivity. Qed.

Lemma bind_Throw (A B : Type) (m : M A) (k : A -> M B) (env : Env) (w w1 : World) (e : Error) :
  m env w = (Throw e, w1) -> bind m k env w = (Throw e, w1).
Proof. intros H. unfold bind. rewrite H. reflexivity. Qed.

Lemma bind_Hang (A B : Type) (m : M A) (k : A -> M B) (env : Env) (w w1 : World) :
  m env w = (Hang, w1) -> bind m k env w = (Hang, w1).
Proof. intros H. unfold bind. rewrite H. reflexivity. Qed.

Lemma mapM_stamp (A B : Type) (g : A -> Z -> B) (l : list A) (env : Env) :
  forall w,
    mapM (fun a => now <- new_Date ;; ret (g a now)) l env w
    = (Ok (stamp g env (ticks w) l), set_ticks (length l + ticks w) w).
Proof.
  induction l as [|a l IH]; intros w.
  - cbn. rewrite set_ticks_same. reflexivity.
  - cbn [mapM stamp length]. unfold bind at 1. unfold bind at 1. cbn [new_Date ret].
    unfold bind at 1. rewrite IH. cbn [ret ticks set_ticks].
    unfold ret, set_ticks. cbn. do 2 f_equal. lia.
Qed.

Lemma stamp_length (A B : Type) (g : A -> Z -> B) (env : Env) (l : list A) :
  forall tick, length (stamp g env tick l) = length l.
Proof. induction l as [|a l IH]; intros tick; cbn; [reflexivity|]. rewrite IH. reflexivity. Qed.

Lemma find_run (D : Type) (m : Model D) (f : D -> bool) (env : Env) (w : World) :
  find m f env w
  = (match store_fault env (store_ops w) with
     | Some _ => Throw store_error
     | None => Ok (List.filter f (collection m (db w)))
     end, bump_ops w).
Proof.
  unfold find, bind, store_op, throw. destruct (store_fault env (store_ops w)); reflexivity.
Qed.

Lemma insertMany_run (D : Type) (m : Model D) (docs : list D) (env : Env) (w : World) :
  insertMany m docs env w
  = (let fault := store_fault env (store_ops w) in
     let accepted := match fault with None => docs | Some n => firstn n docs end in
     let st := insert_docs m (collection m (db w), next_id w) accepted in
     (match fault with None => Ok tt | Some _ => Throw store_error end,
      set_next_id (snd st) (set_db (replace m (fst st) (db w)) (bump_ops w)))).
Proof.
  unfold insertMany, bind, store_op, throw, ret, bump_ops. cbv zeta.
  destruct (store_fault env (store_ops w)); cbn [db next_id set_store_ops];
    match goal with |- context [insert_docs ?a ?b ?d] => destruct (insert_docs a b d) end;
    reflexivity.
Qed.

Lemma bulkWrite_run (D : Type) (m : Model D) (operations : list (UpdateOne D))
    (env : Env) (w : World) :
  bulkWrite m operations env w
  = (let fault := store_fault env (store_ops w) in
     let applied := match fault with None => operations | Some n => firstn n operations end in
     let st := fold_left (apply_updateOne m) applied (collection m (db w), next_id w) in
     (match fault with None => Ok tt | Some _ => Throw store_error end,
      set_next_id (snd st) (set_db (replace m (fst st) (db w)) (bump_ops w)))).
Proof.
  unfold bulkWrite, bind, store_op, throw, ret, bump_ops. cbv zeta.
  destruct (store_fault env (store_ops w)); cbn [db next_id set_store_ops];
    match goal with |- context [fold_left ?a ?b ?d] => destruct (fold_left a b d) end;
    reflexivity.
Qed.

Lemma deleteMany_run (D : Type) (m : Model D) (f : D -> bool) (env : Env) (w : World) :
  deleteMany m f env w
  = match store_fault env (store_ops w) with
    | Some n =>
        (Throw store_error,
         set_db (replace m (delete_first f n (collection m (db w))) (db w)) (bump_ops w))
    | None =>
        (Ok (Z.of_nat (length (List.filter f (collection m (db w))))),
         set_db (replace m (List.filter (fun doc => negb (f doc)) (collection m (db w))) (db w))
           (bump_ops w))
    end.
Proof.
  unfold deleteMany, bind, store_op, throw. destruct (store_fault env (store_ops w)); reflexivity.
Qed.

(** Inserting documents appends them: a document that has an identifier
    as it is, one that has none with an identifier filled in. *)
Lemma insert_docs_spec (D : Type) (m : Model D) (docs : list D) :
  forall coll next,
    exists added,
      fst (insert_docs m (coll, next) docs) = coll ++ added
      /\ Forall2 (fun a d => (a = d /\ doc_id m d <> None)
                             \/ (doc_id m d = None /\ exists n, a = with_id m n d))
           added docs.
Proof.
  induction docs as [|d docs IH]; intros coll next.
  - exists []. cbn. rewrite app_nil_r. split; [reflexivity|constructor].
  - unfold insert_docs. cbn [fold_left]. unfold insert_doc at 2.
    destruct (doc_id m d) eqn:Hid.
    + destruct (IH (coll ++ [d]) next) as (added & Heq & Hall).
      exists (d :: added). unfold insert_docs in Heq. rewrite Heq, <- app_assoc.
      split; [reflexivity|]. constructor; [|exact Hall].
      left. split; [reflexivity|congruence].
    + destruct (IH (coll ++ [with_id m next d]) (S next)) as (added & Heq & Hall).
      exists (with_id m next d :: added). unfold insert_docs in Heq. rewrite Heq, <- app_assoc.
      split; [reflexivity|]. constructor; [|exact Hall].
      right. split; [exact Hid|]. eexists. reflexivity.
Qed.

(* ================================================================== *)
(** * Facts about the archive-then-write protocol *)
(* ================================================================== *)

Section ProtocolFacts.

Variables Snap Key : Type.
Variable c : WeatherClass Snap Key.
Hypothesis L : Lawful c.

Local Abbreviation cur w := (collection (Current c) (db w)).
Local Abbreviation hist w := (collection (History c) (db w)).

Lemma copy_of_history_copy (doc : Document Snap) (now : Z) :
  copy_of (history_copy doc now) = content doc.
Proof. reflexivity. Qed.

Lemma copy_of_stamp (env : Env) (docs : list (Document Snap)) :
  forall tick, map (@copy_of Snap) (stamp (@history_copy Snap) env tick docs) = map (@content Snap) docs.
Proof.
  induction docs as [|doc docs IH]; intros tick; cbn [stamp map]; [reflexivity|].
  rewrite IH. reflexivity.
Qed.

Lemma copy_of_inserted (added docs : list (HistoryDocument Snap)) :
  Forall2 (fun a d => (a = d /\ doc_id (History c) d <> None)
                      \/ (doc_id (History c) d = None
                          /\ exists n, a = with_id (History c) n d)) added docs ->
  map (@copy_of Snap) added = map (@copy_of Snap) docs.
Proof.
  induction 1 as [|a d added docs Had _ IH]; [reflexivity|].
  cbn [map]. rewrite IH. f_equal.
  destruct Had as [[-> _]|[_ [n ->]]]; [reflexivity|]. apply (history_with_id L).
Qed.

Lemma selects_In (keys : list Key) (doc : Document Snap) :
  selects c keys doc = true <-> In (key c (fields doc)) keys.
Proof.
  unfold selects. rewrite existsb_exists. split.
  - intros (k & Hin & Heq). apply (key_eqb_eq L) in Heq. subst k. exact Hin.
  - intros Hin. exists (key c (fields doc)). split; [exact Hin|]. apply (key_eqb_eq L). reflexivity.
Qed.

Lemma has_key_eq (k : Key) (doc : Document Snap) :
  has_key c k doc = true <-> key c (fields doc) = k.
Proof. unfold has_key. apply (key_eqb_eq L). Qed.

(** ** Archival *)

(** What a run of [archive] does: the current collection is untouched;
    the history collection grows by records of the selected documents, in
    their order — of all of them when the run returns, of the first few
    when the insertion fails. *)
Lemma archive_spec (keys : list Key) (env : Env) (w : World) :
  forall r w', archive c keys env w = (r, w') ->
    cur w' = cur w
    /\ exists added,
         hist w' = hist w ++ added
         /\ (exists n, map (@copy_of Snap) added
                       = firstn n (map (@content Snap) (List.filter (selects c keys) (cur w))))
         /\ match r with
            | Ok count =>
                map (@copy_of Snap) added = map (@content Snap) (List.filter (selects c keys) (cur w))
                /\ count = Z.of_nat (length added)
            | Throw _ => True
            | Hang => False
            end.
Proof.
  intros r w'. unfold archive. unfold bind at 1. rewrite find_run.
  destruct (store_fault env (store_ops w)) as [n|].
  - intros [= <- <-]. split; [reflexivity|]. exists []. split; [rewrite app_nil_r; reflexivity|].
    split; [exists 0%nat; reflexivity|exact I].
  - set (selected := List.filter (selects c keys) (cur w)).
    destruct (Z.eqb_spec (Z.of_nat (length selected)) 0) as [Hz|Hnz].
    + intros [= <- <-]. split; [reflexivity|]. exists [].
      split; [rewrite app_nil_r; reflexivity|].
      assert (selected = []) as -> by (destruct selected; [reflexivity|cbn [length] in Hz; lia]).
      split; [exists 0%nat; reflexivity|]. split; reflexivity.
    + unfold bind at 1. rewrite mapM_stamp. unfold bind at 1. rewrite insertMany_run.
      cbv zeta. cbn [db next_id store_ops set_ticks bump_ops set_store_ops].
      set (docs := stamp (@history_copy Snap) env (ticks w) selected).
      set (fault := store_fault env (S (store_ops w))).
      set (accepted := match fault with None => docs | Some n => firstn n docs end).
      destruct (insert_docs_spec (History c) accepted (hist w) (next_id w)) as (added & Hadd & Hall).
      apply (copy_of_inserted) in Hall.
      assert (Hcur : forall r0 w0,
                 (r0, set_next_id (snd (insert_docs (History c) (hist w, next_id w) accepted))
                        (set_db (replace (History c)
                                   (fst (insert_docs (History c) (hist w, next_id w) accepted))
                                   (db w)) w0)) = (r, w') ->
                 cur w' = cur w /\ hist w' = hist w ++ added).
      { intros r0 w0 [= <- <-]. cbn [db set_next_id set_db].
        rewrite (current_put_history L), (history_get_put L). split; [reflexivity|exact Hadd]. }
      destruct fault as [n|] eqn:Hf; subst accepted.
      * intros H. destruct (Hcur _ _ H) as [Hc Hh]. injection H as <- _.
        split; [exact Hc|]. exists added. split; [exact Hh|].
        split; [|exact I]. exists n. rewrite Hall, <- firstn_map. subst docs.
        rewrite copy_of_stamp. reflexivity.
      * cbn [ret]. unfold ret. intros H. destruct (Hcur _ _ H) as [Hc Hh]. injection H as <- _.
        split; [exact Hc|]. exists added. split; [exact Hh|].
        assert (Hmap : map (@copy_of Snap) added = map (@content Snap) selected)
          by (rewrite Hall; subst docs; apply copy_of_stamp).
        split; [exists (length selected); rewrite Hmap, firstn_all2; [reflexivity|rewrite length_map; lia]|].
        split; [exact Hmap|].
        f_equal. rewrite <- (length_map (@copy_of Snap) added), Hall, length_map.
        subst docs. reflexivity.
Qed.

Lemma archive_no_fault (keys : list Key) (env : Env) (w : World) :
  (forall k, store_fault env k = None) ->
  exists count w', archive c keys env w = (Ok count, w').
Proof.
  intros Hf. unfold archive. unfold bind at 1. rewrite find_run, Hf.
  destruct (Z.of_nat (length (List.filter (selects c keys) (cur w))) =? 0).
  - eexists. eexists. reflexivity.
  - unfold bind at 1. rewrite mapM_stamp. unfold bind at 1. rewrite insertMany_run.
    cbv zeta. cbn [store_ops set_ticks bump_ops set_store_ops]. rewrite Hf.
    eexists. eexists. reflexivity.
Qed.

(** ** The effect of one upsert on the documents of one identity *)

Lemma has_key_updated (k : Key) (s stored : Snap) (now : Z) (id : option nat) :
  has_key c k (mkDocument id (set_fields c s stored) now) = key_eqb c (key c s) k.
Proof.
  unfold has_key. cbn [fields]. rewrite (set_fields_key L). reflexivity.
Qed.

Lemma update_first_hit (k : Key) (s : Snap) (now : Z) :
  forall l l',
    update_first (op_filter (upsert_operation c s now))
      (op_update (upsert_operation c s now)) l = Some l' ->
    List.filter (has_key c k) l'
    = if key_eqb c (key c s) k
      then match List.filter (has_key c k) l with
           | [] => []
           | doc :: rest => mkDocument (_id doc) (set_fields c s (fields doc)) now :: rest
           end
      else List.filter (has_key c k) l.
Proof.
  induction l as [|doc l IH]; intros l' H; [discriminate|].
  cbn [update_first] in H.
  destruct (op_filter (upsert_operation c s now) doc) eqn:Hdoc.
  - injection H as <-. cbn [List.filter]. rewrite has_key_updated.
    change (op_filter (upsert_operation c s now) doc) with (has_key c (key c s) doc) in Hdoc.
    apply has_key_eq in Hdoc.
    destruct (key_eqb c (key c s) k) eqn:Hk.
    + apply (key_eqb_eq L) in Hk.
      assert (Hd : has_key c k doc = true) by (apply has_key_eq; congruence).
      rewrite Hd. reflexivity.
    + assert (Hd : has_key c k doc = false).
      { destruct (has_key c k doc) eqn:E; [|reflexivity].
        apply has_key_eq in E. assert (key_eqb c (key c s) k = true)
          by (apply (key_eqb_eq L); congruence). congruence. }
      rewrite Hd. reflexivity.
  - destruct (update_first _ _ l) as [rest'|] eqn:Hrest; [|discriminate].
    injection H as <-. cbn [List.filter]. rewrite (IH rest' eq_refl).
    change (op_filter (upsert_operation c s now) doc) with (has_key c (key c s) doc) in Hdoc.
    destruct (key_eqb c (key c s) k) eqn:Hk.
    + apply (key_eqb_eq L) in Hk. rewrite <- Hk, Hdoc. reflexivity.
    + destruct (has_key c k doc); reflexivity.
Qed.

Lemma update_first_miss (D : Type) (f : D -> bool) (u : D -> D) :
  forall l, update_first f u l = None -> List.filter f l = [].
Proof.
  induction l as [|d l IH]; intros H; [reflexivity|].
  cbn [update_first] in H. cbn [List.filter].
  destruct (f d); [discriminate|].
  destruct (update_first f u l); [discriminate|]. apply IH. reflexivity.
Qed.

(** Insert if absent, overwrite if present: on the documents of the
    identity [k], an upsert of [s] does nothing when [s] is of another
    identity; otherwise it inserts [s] when there is no document of [k],
    and applies the [$set] to the first one when there is. *)
Lemma apply_updateOne_on_key (k : Key) (s : Snap) (now : Z) (st : list (Document Snap) * nat) :
  List.filter (has_key c k) (fst (apply_updateOne (Current c) st (upsert_operation c s now)))
  = if key_eqb c (key c s) k
    then match List.filter (has_key c k) (fst st) with
         | [] => [mkDocument (Some (snd st)) s now]
         | doc :: rest => mkDocument (_id doc) (set_fields c s (fields doc)) now :: rest
         end
    else List.filter (has_key c k) (fst st).
Proof.
  destruct st as [l next]. unfold apply_updateOne. cbn [fst snd].
  destruct (update_first _ _ l) as [l'|] eqn:Hu.
  - cbn [fst]. rewrite (update_first_hit k _ _ _ Hu).
    destruct (key_eqb c (key c s) k) eqn:Hk; [|reflexivity].
    destruct (List.filter (has_key c k) l) as [|doc rest] eqn:Hf; [|reflexivity].
    exfalso. apply (key_eqb_eq L) in Hk. subst k.
    clear -Hu Hf. revert l' Hu Hf. induction l as [|doc l IH]; intros l' Hu Hf; [discriminate|].
    cbn [update_first] in Hu. cbn [List.filter] in Hf.
    change (op_filter (upsert_operation c s now) doc) with (has_key c (key c s) doc) in Hu.
    destruct (has_key c (key c s) doc); [discriminate|].
    destruct (update_first _ _ l) eqn:E; [|discriminate]. eapply IH; [reflexivity|exact Hf].
  - apply update_first_miss in Hu.
    change (op_filter (upsert_operation c s now)) with (has_key c (key c s)) in Hu.
    cbn [op_upsert upsert_operation]. unfold insert_doc.
    rewrite (current_doc_id L). cbn [_id fst snd]. rewrite (current_with_id L). cbn [fields updated_at].
    rewrite filter_app. cbn [List.filter]. unfold has_key at 2. cbn [fields].
    destruct (key_eqb c (key c s) k) eqn:Hk.
    + apply (key_eqb_eq L) in Hk. subst k. rewrite Hu. reflexivity.
    + rewrite app_nil_r. reflexivity.
Qed.

(** ** A bulk write of upserts, identity by identity *)

Lemma stamp_firstn (A B : Type) (g : A -> Z -> B) (env : Env) (n : nat) :
  forall (l : list A) (tick : nat),
    firstn n (stamp g env tick l) = stamp g env tick (firstn n l).
Proof.
  induction n as [|n IH]; intros [|a l] tick; cbn [firstn stamp]; try reflexivity.
  rewrite IH. reflexivity.
Qed.

Lemma stamp_app (A B : Type) (g : A -> Z -> B) (env : Env) (l1 l2 : list A) :
  forall tick,
    stamp g env tick (l1 ++ l2) = stamp g env tick l1 ++ stamp g env (length l1 + tick) l2.
Proof.
  induction l1 as [|a l1 IH]; intros tick; cbn [app stamp length Nat.add]; [reflexivity|].
  rewrite IH. do 3 f_equal. lia.
Qed.

Lemma In_firstn (A : Type) (a : A) (n : nat) (l : list A) : In a (firstn n l) -> In a l.
Proof.
  rewrite <- (firstn_skipn n l) at 2. intros H. apply in_or_app. left. exact H.
Qed.

Local Abbreviation upserts env tick data st :=
  (fold_left (apply_updateOne (Current c)) (stamp (upsert_operation c) env tick data) st).

Lemma upserts_frame (k : Key) (env : Env) :
  forall data tick st,
    ~ In k (map (key c) data) ->
    List.filter (has_key c k) (fst (upserts env tick data st))
    = List.filter (has_key c k) (fst st).
Proof.
  induction data as [|s data IH]; intros tick st Hk; [reflexivity|].
  cbn [stamp fold_left]. rewrite IH by (intros Hin; apply Hk; right; exact Hin).
  rewrite apply_updateOne_on_key.
  destruct (key_eqb c (key c s) k) eqn:E; [|reflexivity].
  apply (key_eqb_eq L) in E. exfalso. apply Hk. left. exact E.
Qed.

Lemma upserts_hit (env : Env) (s : Snap) (pre post : list Snap) (tick : nat)
    (st : list (Document Snap) * nat) :
  ~ In (key c s) (map (key c) pre) ->
  ~ In (key c s) (map (key c) post) ->
  exists id,
    List.filter (has_key c (key c s)) (fst (upserts env tick (pre ++ s :: post) st))
    = match List.filter (has_key c (key c s)) (fst st) with
      | [] => [mkDocument (Some id) s (clock env (length pre + tick))]
      | doc :: rest =>
          mkDocument (_id doc) (set_fields c s (fields doc)) (clock env (length pre + tick))
          :: rest
      end.
Proof.
  intros Hpre Hpost. rewrite stamp_app, fold_left_app. cbn [stamp fold_left].
  rewrite upserts_frame by exact Hpost. rewrite apply_updateOne_on_key.
  assert (E : key_eqb c (key c s) (key c s) = true) by (apply (key_eqb_eq L); reflexivity).
  rewrite E. rewrite upserts_frame by exact Hpre.
  eexists. reflexivity.
Qed.

Lemma upserts_present (env : Env) (s : Snap) :
  forall data tick st,
    In s data ->
    List.filter (has_key c (key c s)) (fst (upserts env tick data st)) <> [].
Proof.
  assert (Hkeep : forall data tick st,
             List.filter (has_key c (key c s)) (fst st) <> [] ->
             List.filter (has_key c (key c s)) (fst (upserts env tick data st)) <> []).
  { induction data as [|s' data IH]; intros tick st Hne; [exact Hne|].
    cbn [stamp fold_left]. apply IH. rewrite apply_updateOne_on_key.
    destruct (key_eqb c (key c s') (key c s)); [|exact Hne].
    destruct (List.filter (has_key c (key c s)) (fst st)); discriminate. }
  induction data as [|s' data IH]; intros tick st Hin; [contradiction|].
  cbn [stamp fold_left]. destruct Hin as [->|Hin]; [|apply IH; exact Hin].
  apply Hkeep. rewrite apply_updateOne_on_key.
  assert (E : key_eqb c (key c s) (key c s) = true) by (apply (key_eqb_eq L); reflexivity).
  rewrite E. destruct (List.filter (has_key c (key c s)) (fst st)); discriminate.
Qed.

Lemma length_nonzero (A : Type) (l : list A) : l <> [] -> (Z.of_nat (length l) =? 0) = false.
Proof. destruct l; [congruence|]. intros _. cbn [length]. apply Z.eqb_neq. lia. Qed.

(** ** The two ways of saving *)

(** The shape of a run of [save_upsert]: the archival, and if it returned,
    the bulk write of the upserts of [data], or of the first few when the
    write failed, over the current collection the archival left. *)
Lemma save_upsert_run (data : list Snap) (env : Env) (w : World) :
  data <> [] ->
  forall r w', save_upsert c data env w = (r, w') ->
    exists r1 w1,
      archive c (map (key c) data) env w = (r1, w1)
      /\ ((exists e, r1 = Throw e /\ r = Throw e /\ w' = w1)
          \/ (exists count tick next applied,
                r1 = Ok count
                /\ hist w' = hist w1
                /\ cur w' = fst (upserts env tick applied (cur w1, next))
                /\ ((r = Ok tt /\ applied = data)
                    \/ (exists n, r = Throw store_error /\ applied = firstn n data)))).
Proof.
  intros Hne r w'. unfold save_upsert. rewrite (length_nonzero Hne).
  destruct (archive c (map (key c) data) env w) as [r1 w1] eqn:Harch.
  pose proof (archive_spec _ _ _ Harch) as (_ & added0 & _ & _ & Hr1).
  intros H. exists r1, w1. split; [reflexivity|].
  unfold bind at 1 in H. rewrite Harch in H.
  destruct r1 as [count|e|]; [|injection H as <- <-; left; eauto|contradiction].
  right. unfold bind at 1 in H.
  set (w2 := snd ((if count >? 0 then console_log (ArchivedRecords (class_label c) count)
                   else ret tt) env w1)).
  assert (Hw2 : (if count >? 0 then console_log (ArchivedRecords (class_label c) count)
                 else ret tt) env w1 = (Ok tt, w2)) by (subst w2; destruct (count >? 0); reflexivity).
  assert (Hdb : db w2 = db w1 /\ next_id w2 = next_id w1)
    by (subst w2; destruct (count >? 0); split; reflexivity).
  rewrite Hw2 in H. unfold bind at 1 in H. rewrite mapM_stamp in H.
  unfold bind at 1 in H. rewrite bulkWrite_run in H. cbv zeta in H.
  cbn [db next_id store_ops set_ticks] in H.
  destruct Hdb as [Hdb Hnext]. rewrite Hdb in H.
  exists count, (ticks w2), (next_id w2).
  destruct (store_fault env (store_ops w2)) as [n|].
  - injection H as <- <-. exists (firstn n data).
    cbn [db set_next_id set_db bump_ops set_store_ops].
    rewrite (history_put_current L), (current_get_put L), <- stamp_firstn.
    repeat split; try reflexivity. right. exists n. split; reflexivity.
  - unfold console_log, emit in H. injection H as <- <-. exists data.
    cbn [db set_next_id set_db bump_ops set_store_ops set_trace].
    rewrite (history_put_current L), (current_get_put L).
    repeat split; try reflexivity. left. split; reflexivity.
Qed.

Lemma filter_none (A : Type) (l : list A) : List.filter (fun _ => negb true) l = [].
Proof. induction l as [|a l IH]; [reflexivity|exact IH]. Qed.

(** The shape of a run of [save_replace]: the archival, and if it returned,
    the deletion of the whole current collection — the save throws when
    it fails — and the insertion of one document per snapshot of [data],
    or of the first few when the insertion failed. *)
Lemma save_replace_run (data : list Snap) (env : Env) (w : World) :
  data <> [] ->
  forall r w', save_replace c data env w = (r, w') ->
    exists r1 w1,
      archive c (map (key c) data) env w = (r1, w1)
      /\ ((exists e, r1 = Throw e /\ r = Throw e /\ w' = w1)
          \/ (exists count,
                r1 = Ok count
                /\ hist w' = hist w1
                /\ (r = Throw store_error
                    \/ (exists tick next applied,
                          cur w' = fst (insert_docs (Current c) ([], next)
                                          (stamp (fun s now => mkDocument None s now)
                                             env tick applied))
                          /\ ((r = Ok tt /\ applied = data)
                              \/ (exists n, r = Throw store_error
                                            /\ applied = firstn n data)))))).
Proof.
  intros Hne r w'. unfold save_replace. rewrite (length_nonzero Hne).
  destruct (archive c (map (key c) data) env w) as [r1 w1] eqn:Harch.
  pose proof (archive_spec _ _ _ Harch) as (_ & added0 & _ & _ & Hr1).
  intros H. exists r1, w1. split; [reflexivity|].
  unfold bind at 1 in H. rewrite Harch in H.
  destruct r1 as [count|e|]; [|injection H as <- <-; left; eauto|contradiction].
  right. exists count. split; [reflexivity|]. unfold bind at 1 in H.
  set (w2 := snd ((if count >? 0 then console_log (ArchivedRecords (class_label c) count)
                   else ret tt) env w1)).
  assert (Hw2 : (if count >? 0 then console_log (ArchivedRecords (class_label c) count)
                 else ret tt) env w1 = (Ok tt, w2)) by (subst w2; destruct (count >? 0); reflexivity).
  assert (Hdb : db w2 = db w1)
    by (subst w2; destruct (count >? 0); reflexivity).
  rewrite Hw2 in H. unfold bind at 1 in H. rewrite deleteMany_run in H.
  rewrite Hdb in H.
  destruct (store_fault env (store_ops w2)) as [n|].
  - injection H as <- <-. cbn [db set_db bump_ops set_store_ops].
    rewrite (history_put_current L).
    split; [reflexivity|]. left. reflexivity.
  - unfold bind at 1 in H. rewrite mapM_stamp in H.
    unfold bind at 1 in H. rewrite insertMany_run in H. cbv zeta in H.
    cbn [db next_id store_ops set_ticks set_db bump_ops set_store_ops] in H.
    rewrite (current_get_put L), filter_none in H.
    destruct (store_fault env (S (store_ops w2))) as [n|].
    + injection H as <- <-.
      cbn [db set_next_id set_db bump_ops set_store_ops].
      rewrite !(history_put_current L), (current_get_put L), stamp_firstn.
      split; [reflexivity|]. right. exists (ticks w2), (next_id w2), (firstn n data).
      split; [reflexivity|]. right. exists n. split; reflexivity.
    + unfold console_log, emit in H. injection H as <- <-.
      cbn [db set_next_id set_db bump_ops set_store_ops set_trace].
      rewrite !(history_put_current L), (current_get_put L).
      split; [reflexivity|]. right. exists (ticks w2), (next_id w2), data.
      split; [reflexivity|]. left. split; reflexivity.
Qed.

(** What was inserted into an emptied current collection. *)
Lemma inserted_documents (env : Env) (data : list Snap) (tick next : nat) :
  let docs := fst (insert_docs (Current c) ([], next)
                     (stamp (fun s now => mkDocument None s now) env tick data)) in
  map (@fields Snap) docs = data
  /\ map (@updated_at Snap) docs = map (clock env) (seq tick (length data))
  /\ Forall (fun doc => _id doc <> None) docs.
Proof.
  cbv zeta.
  destruct (insert_docs_spec (Current c)
              (stamp (fun s now => mkDocument None s now) env tick data) [] next)
    as (added & -> & Hall).
  cbn [app]. revert tick added Hall.
  induction data as [|s data IH]; intros tick added Hall; cbn [stamp] in Hall.
  - inversion Hall. subst. repeat split; constructor.
  - inversion Hall as [|a d added' docs' Ha Hrest]; subst.
    destruct (IH _ _ Hrest) as (Hf & Hu & Hid).
    destruct Ha as [[_ Hsome]|[_ [n ->]]].
    + exfalso. apply Hsome. rewrite (current_doc_id L). reflexivity.
    + rewrite (current_with_id L). cbn [map length seq fields updated_at].
      rewrite Hf, Hu. repeat split. constructor; [discriminate|exact Hid].
Qed.

(** ** The properties, for any lawful class *)

Local Abbreviation recorded doc log :=
  (recorded_in (Snap := Snap) doc log).

Lemma recorded_of_copies (added : list (HistoryDocument Snap)) (docs : list (Document Snap))
    (doc : Document Snap) :
  map (@copy_of Snap) added = map (@content Snap) docs ->
  In doc docs -> recorded doc added.
Proof.
  intros Hmap Hin.
  assert (Hc : In (content doc) (map (@copy_of Snap) added))
    by (rewrite Hmap; apply in_map; exact Hin).
  apply in_map_iff in Hc. destruct Hc as (h & Hh & Hhin).
  exists h. unfold copy_of, content in Hh. injection Hh as H1 H2 H3.
  repeat split; assumption.
Qed.

Lemma recorded_after_archive (keys : list Key) (env : Env) (w w1 : World) (count : Z) :
  archive c keys env w = (Ok count, w1) ->
  cur w1 = cur w
  /\ exists added,
       hist w1 = hist w ++ added
       /\ forall doc, In doc (cur w) -> In (key c (fields doc)) keys -> recorded doc added.
Proof.
  intros H. destruct (archive_spec _ _ _ H) as (Hcur & added & Hhist & _ & Hmap & _).
  split; [exact Hcur|]. exists added. split; [exact Hhist|].
  intros doc Hin Hk. eapply recorded_of_copies; [exact Hmap|].
  apply filter_In. split; [exact Hin|]. apply selects_In. exact Hk.
Qed.

Lemma archive_throws_current (keys : list Key) (env : Env) (w w1 : World) (e : Error) :
  archive c keys env w = (Throw e, w1) ->
  cur w1 = cur w /\ exists added, hist w1 = hist w ++ added.
Proof.
  intros H. destruct (archive_spec _ _ _ H) as (Hcur & added & Hhist & _).
  split; [exact Hcur|]. exists added. exact Hhist.
Qed.

Theorem save_upsert_archives :
  archives_before_writing (key c) (collection (Current c)) (collection (History c))
    (archive c) (save_upsert c).
Proof.
  intros env w data Hne. split.
  - intros e w1 Harch. split; [|apply (archive_throws_current _ _ _ Harch)].
    unfold save_upsert. rewrite (length_nonzero Hne).
    apply bind_Throw. exact Harch.
  - intros r w' Hsave.
    destruct (save_upsert_run _ _ Hne Hsave) as (r1 & w1 & Harch & [(e & -> & -> & ->)|Hok]).
    + destruct (archive_throws_current _ _ _ Harch) as (Hcur & added & Hhist).
      exists added. split; [exact Hhist|]. intros [Hch|Hr]; [congruence|discriminate].
    + destruct Hok as (count & tick & next & applied & -> & Hh & _ & _).
      destruct (recorded_after_archive _ _ _ Harch) as (_ & added & Hhist & Hrec).
      exists added. split; [congruence|]. intros _. exact Hrec.
Qed.

Theorem save_replace_archives :
  archives_before_writing (key c) (collection (Current c)) (collection (History c))
    (archive c) (save_replace c).
Proof.
  intros env w data Hne. split.
  - intros e w1 Harch. split; [|apply (archive_throws_current _ _ _ Harch)].
    unfold save_replace. rewrite (length_nonzero Hne).
    apply bind_Throw. exact Harch.
  - intros r w' Hsave.
    destruct (save_replace_run _ _ Hne Hsave) as (r1 & w1 & Harch & [(e & -> & -> & ->)|Hok]).
    + destruct (archive_throws_current _ _ _ Harch) as (Hcur & added & Hhist).
      exists added. split; [exact Hhist|]. intros [Hch|Hr]; [congruence|discriminate].
    + destruct Hok as (count & -> & Hh & _).
      destruct (recorded_after_archive _ _ _ Harch) as (_ & added & Hhist & Hrec).
      exists added. split; [congruence|]. intros _. exact Hrec.
Qed.

Lemma In_map_nonempty (A B : Type) (f : A -> B) (b : B) (l : list A) :
  In b (map f l) -> l <> [].
Proof. destruct l; [contradiction|discriminate]. Qed.

Lemma recorded_in_app (doc : Document Snap) (log added : list (HistoryDocument Snap)) :
  recorded doc added -> recorded doc (log ++ added).
Proof.
  intros (h & Hin & H). exists h. split; [apply in_or_app; right; exact Hin|exact H].
Qed.

Lemma filter_nonempty_In (A : Type) (f : A -> bool) (l : list A) :
  List.filter f l <> [] -> exists a, In a l /\ f a = true.
Proof.
  destruct (List.filter f l) as [|a rest] eqn:E; [congruence|]. intros _.
  exists a. apply filter_In. rewrite E. left. reflexivity.
Qed.

Theorem save_upsert_two_writes :
  first_recorded_before_second_current (key c) (collection (Current c))
    (collection (History c)) (save_upsert c).
Proof.
  intros env w data1 data2 w1 r2 w2 k Hk1 Hk2 Hfirst Hsecond. split.
  - destruct (save_upsert_run _ _ (In_map_nonempty _ _ Hk1) Hfirst)
      as (r1 & w0 & _ & [(e & _ & He & _)|Hok]); [discriminate|].
    destruct Hok as (count & tick & next & applied & _ & _ & Hcur & [[_ ->]|(n & Hr & _)]);
      [|discriminate].
    apply in_map_iff in Hk1. destruct Hk1 as (s & <- & Hs).
    pose proof (@upserts_present env s data1 tick (cur w0, next) Hs) as Hne.
    rewrite <- Hcur in Hne. apply filter_nonempty_In in Hne.
    destruct Hne as (doc & Hin & Hkey). exists doc. split; [exact Hin|].
    apply has_key_eq. exact Hkey.
  - intros Hwritten doc Hin Hkey.
    destruct (save_upsert_archives env w1 (In_map_nonempty _ _ Hk2)) as [_ Hrec].
    destruct (Hrec _ _ Hsecond) as (added & -> & Hall).
    apply recorded_in_app. apply Hall; [exact Hwritten|exact Hin|congruence].
Qed.

Theorem save_replace_two_writes :
  first_recorded_before_second_current (key c) (collection (Current c))
    (collection (History c)) (save_replace c).
Proof.
  intros env w data1 data2 w1 r2 w2 k Hk1 Hk2 Hfirst Hsecond. split.
  - destruct (save_replace_run _ _ (In_map_nonempty _ _ Hk1) Hfirst)
      as (r1 & w0 & _ & [(e & _ & He & _)|Hok]); [discriminate|].
    destruct Hok as (count & _ & _ & [Hr|(tick & next & applied & Hcur & [[_ ->]|(n & Hr & _)])]);
      try discriminate.
    destruct (inserted_documents env data1 tick next) as (Hf & _).
    rewrite <- Hcur in Hf.
    apply in_map_iff in Hk1. destruct Hk1 as (s & <- & Hs).
    rewrite <- Hf in Hs. apply in_map_iff in Hs. destruct Hs as (doc & <- & Hin).
    exists doc. split; [exact Hin|reflexivity].
  - intros Hwritten doc Hin Hkey.
    destruct (save_replace_archives env w1 (In_map_nonempty _ _ Hk2)) as [_ Hrec].
    destruct (Hrec _ _ Hsecond) as (added & -> & Hall).
    apply recorded_in_app. apply Hall; [exact Hwritten|exact Hin|congruence].
Qed.

Lemma In_of_filter (k : Key) (l l' : list (Document Snap)) (doc : Document Snap) :
  List.filter (has_key c k) l' = List.filter (has_key c k) l ->
  In doc l -> key c (fields doc) = k -> In doc l'.
Proof.
  intros Heq Hin Hk.
  assert (H : In doc (List.filter (has_key c k) l))
    by (apply filter_In; split; [exact Hin|apply has_key_eq; exact Hk]).
  rewrite <- Heq in H. apply filter_In in H. tauto.
Qed.

Theorem save_upsert_frame :
  leaves_other_identities (key c) (key_eqb c) (collection (Current c)) (save_upsert c).
Proof.
  intros env w data r w' Hsave.
  assert (Hframe : forall k, ~ In k (map (key c) data) ->
            List.filter (has_key c k) (cur w') = List.filter (has_key c k) (cur w)).
  { intros k Hk. destruct data as [|s0 data0] eqn:Hdata.
    - injection Hsave as _ <-. reflexivity.
    - rewrite <- Hdata in *.
      assert (Hne : data <> []) by (rewrite Hdata; discriminate).
      destruct (save_upsert_run _ _ Hne Hsave) as (r1 & w1 & Harch & [(e & _ & _ & ->)|Hok]).
      + destruct (archive_spec _ _ _ Harch) as (-> & _). reflexivity.
      + destruct Hok as (count & tick & next & applied & _ & _ & -> & Happ).
        destruct (archive_spec _ _ _ Harch) as (Hc1 & _).
        rewrite upserts_frame; [cbn [fst]; rewrite Hc1; reflexivity|].
        destruct Happ as [[_ ->]|(n & _ & ->)]; [exact Hk|].
        intros Hin. apply Hk. rewrite <- firstn_map in Hin. eapply In_firstn. exact Hin. }
  split; [exact Hframe|].
  intros doc Hin Hk. eapply In_of_filter; [apply Hframe; exact Hk|exact Hin|reflexivity].
Qed.

Theorem save_upsert_upserts :
  upserts_by_identity (key c) (key_eqb c) (collection (Current c)) (set_fields c)
    (save_upsert c).
Proof.
  intros env w w' pre s post Hpre Hpost Hsave.
  assert (Hne : pre ++ s :: post <> []) by (destruct pre; discriminate).
  destruct (save_upsert_run _ _ Hne Hsave) as (r1 & w1 & Harch & [(e & _ & He & _)|Hok]);
    [discriminate|].
  destruct Hok as (count & tick & next & applied & _ & _ & Hcur & [[_ ->]|(n & Hr & _)]);
    [|discriminate].
  destruct (archive_spec _ _ _ Harch) as (Hc1 & _).
  destruct (@upserts_hit env s pre post tick (cur w1, next) Hpre Hpost) as (id & Hhit).
  exists id, (length pre + tick)%nat.
  unfold of_identity. change (fun doc => key_eqb c (key c (fields doc)) (key c s))
    with (has_key c (key c s)).
  rewrite Hcur, Hhit. cbn [fst]. rewrite Hc1. reflexivity.
Qed.

Theorem save_replace_replaces :
  replaces_collection (collection (Current c)) (save_replace c).
Proof.
  intros env w data w' Hne Hsave.
  destruct (save_replace_run _ _ Hne Hsave) as (r1 & w1 & _ & [(e & _ & He & _)|Hok]);
    [discriminate|].
  destruct Hok as (count & _ & _ & [Hr|(tick & next & applied & Hcur & [[_ ->]|(n & Hr & _)])]);
    try discriminate.
  destruct (inserted_documents env data tick next) as (Hf & Hu & Hid).
  rewrite Hcur. split; [exact Hf|]. split; [exists tick; exact Hu|exact Hid].
Qed.

Theorem save_upsert_returns : returns_when_store_works (save_upsert c).
Proof.
  intros env w data Hf. unfold save_upsert.
  destruct (Z.of_nat (length data) =? 0); [eexists; reflexivity|].
  destruct (archive_no_fault (map (key c) data) env w Hf) as (count & w1 & Harch).
  erewrite bind_Ok; [|exact Harch].
  unfold bind at 1.
  assert (Hw2 : exists w2, (if count >? 0 then console_log (ArchivedRecords (class_label c) count)
                 else ret tt) env w1 = (Ok tt, w2))
    by (destruct (count >? 0); eexists; reflexivity).
  destruct Hw2 as (w2 & ->). unfold bind at 1. rewrite mapM_stamp.
  unfold bind at 1. rewrite bulkWrite_run. cbv zeta. rewrite Hf.
  eexists. reflexivity.
Qed.

Theorem save_replace_returns : returns_when_store_works (save_replace c).
Proof.
  intros env w data Hf. unfold save_replace.
  destruct (Z.of_nat (length data) =? 0); [eexists; reflexivity|].
  destruct (archive_no_fault (map (key c) data) env w Hf) as (count & w1 & Harch).
  erewrite bind_Ok; [|exact Harch].
  unfold bind at 1.
  assert (Hw2 : exists w2, (if count >? 0 then console_log (ArchivedRecords (class_label c) count)
                 else ret tt) env w1 = (Ok tt, w2))
    by (destruct (count >? 0); eexists; reflexivity).
  destruct Hw2 as (w2 & ->). unfold bind at 1. rewrite deleteMany_run, Hf.
  unfold bind at 1. rewrite mapM_stamp.
  unfold bind at 1. rewrite insertMany_run. cbv zeta.
  cbn [store_ops set_ticks set_db bump_ops set_store_ops]. rewrite Hf.
  eexists. reflexivity.
Qed.

(** What a replacing save does to a stored document of an identity that
    is not in the new set: no document of its identity is current
    afterwards, and the history gained records of identities of the new
    set only, so none of it. *)
Theorem save_replace_drops_unmatched (env : Env) (w w' : World) (data : list Snap)
    (doc : Document Snap) :
  data <> [] ->
  save_replace c data env w = (Ok tt, w') ->
  In doc (cur w) ->
  ~ In (key c (fields doc)) (map (key c) data) ->
  (forall doc', In doc' (cur w') -> key c (fields doc') <> key c (fields doc))
  /\ exists added,
       hist w' = hist w ++ added
       /\ (forall h, In h added ->
              In (key c (h_fields h)) (map (key c) data)
              /\ exists stored, In stored (cur w) /\ records h stored)
       /\ (forall h, In h added -> key c (h_fields h) <> key c (fields doc)).
Proof.
  intros Hne Hsave Hin Hk. split.
  - intros doc' Hin' Heq. apply Hk. rewrite <- Heq.
    destruct (save_replace_replaces env w Hne Hsave) as (Hf & _).
    rewrite <- Hf. apply in_map. apply in_map. exact Hin'.
  - destruct (save_replace_run _ _ Hne Hsave) as (r1 & w1 & Harch & [(e & _ & He & _)|Hok]);
      [discriminate|].
    destruct Hok as (count & -> & Hh & _).
    destruct (archive_spec _ _ _ Harch) as (_ & added & Hhist & _ & Hmap & _).
    exists added. split; [congruence|].
    assert (Hsel : forall h, In h added ->
              In (key c (h_fields h)) (map (key c) data)
              /\ exists stored, In stored (cur w) /\ records h stored).
    { intros h Hhin.
      assert (Hc : In (copy_of h) (map (@content Snap) (List.filter (selects c (map (key c) data)) (cur w))))
        by (rewrite <- Hmap; apply in_map; exact Hhin).
      apply in_map_iff in Hc. destruct Hc as (d & Hd & Hdin).
      apply filter_In in Hdin. destruct Hdin as [Hdin Hs]. apply selects_In in Hs.
      split.
      - unfold copy_of, content in Hd. injection Hd as Hd _ _. rewrite <- Hd. exact Hs.
      - exists d. split; [exact Hdin|]. unfold records. symmetry. exact Hd. }
    split; [exact Hsel|]. intros h Hhin Heq. apply Hk. rewrite <- Heq. apply Hsel. exact Hhin.
Qed.

End ProtocolFacts.

(* ================================================================== *)
(** * The three classes of the repository *)
(* ================================================================== *)

Lemma CityClass_lawful : Lawful CityClass.
Proof.
  constructor; try reflexivity.
  intros a b. apply String.eqb_eq.
Qed.

Lemma same_point_eq (p q : Z * Z) : same_point p q = true <-> p = q.
Proof.
  destruct p as [a b], q as [a' b']. unfold same_point. cbn [fst snd].
  rewrite andb_true_iff, !Z.eqb_eq. split; [intros [-> ->]; reflexivity|].
  intros [= -> ->]. split; reflexivity.
Qed.

Lemma GridClass_lawful : Lawful GridClass.
Proof.
  constructor; try reflexivity.
  intros a b. apply same_point_eq.
Qed.

Lemma PortClass_lawful : Lawful PortClass.
Proof.
  constructor; try reflexivity.
  intros a b. apply String.eqb_eq.
Qed.

(** The functions of the repository are the protocol at their class. *)
Lemma archiveCityWeather_generic : archiveCityWeather = archive CityClass.
Proof. reflexivity. Qed.

Lemma archivePortWeather_generic : archivePortWeather = archive PortClass.
Proof. reflexivity. Qed.

Lemma archiveGridWeather_generic (gridPoints : list (Z * Z)) :
  gridPoints <> [] -> archiveGridWeather gridPoints = archive GridClass gridPoints.
Proof.
  intros Hne. unfold archiveGridWeather. rewrite (length_nonzero Hne). reflexivity.
Qed.

Lemma saveCityWeatherData_generic : saveCityWeatherData = save_upsert CityClass.
Proof. reflexivity. Qed.

Lemma savePortWeatherData_generic : savePortWeatherData = save_upsert PortClass.
Proof. reflexivity. Qed.

Lemma saveGridWeatherData_generic (data : list PointSnapshot) :
  saveGridWeatherData data = save_replace GridClass data.
Proof.
  unfold saveGridWeatherData, save_replace.
  destruct data as [|point data]; [reflexivity|].
  rewrite archiveGridWeather_generic by discriminate. reflexivity.
Qed.

Lemma saveGridWeatherData_archives :
  archives_before_writing (fun point => (lat point, lon point)) grid_weather
    grid_weather_history archiveGridWeather saveGridWeatherData.
Proof.
  intros env w data Hne.
  destruct (save_replace_archives GridClass_lawful env w Hne) as [Habort Hrec].
  split.
  - intros e w1 H. rewrite saveGridWeatherData_generic.
    rewrite archiveGridWeather_generic in H by (destruct data; [congruence|discriminate]).
    apply Habort. exact H.
  - intros r w'. rewrite saveGridWeatherData_generic. apply Hrec.
Qed.

(** C1 — Archive-before-write ordering.  For each of the three classes
    and every non-empty list of new snapshots: when the archival throws,
    the save function throws the same error without having touched the
    current collection; however the save ends, if it wrote the current
    collection (or returned), every document that was current under an
    identity of the new snapshots has a record equal to it among the
    history documents the save added; so for two writes to the same
    identity, once the second has written, the history holds a record of
    what the first left current — never none; and the save returns
    whenever the store does not fail. *)
Theorem archive_before_write :
  (archives_before_writing name city_weather city_weather_history
     archiveCityWeather saveCityWeatherData
   /\ first_recorded_before_second_current name city_weather city_weather_history
        saveCityWeatherData
   /\ returns_when_store_works saveCityWeatherData)
  /\ (archives_before_writing (fun point => (lat point, lon point)) grid_weather
        grid_weather_history archiveGridWeather saveGridWeatherData
      /\ first_recorded_before_second_current (fun point => (lat point, lon point))
           grid_weather grid_weather_history saveGridWeatherData
      /\ returns_when_store_works saveGridWeatherData)
  /\ (archives_before_writing slug port_weather port_weather_history
        archivePortWeather savePortWeatherData
      /\ first_recorded_before_second_current slug port_weather port_weather_history
           savePortWeatherData
      /\ returns_when_store_works savePortWeatherData).
Proof.
  split; [|split].
  - split; [exact (save_upsert_archives CityClass_lawful)|].
    split; [exact (save_upsert_two_writes CityClass_lawful)|].
    exact (save_upsert_returns CityClass).
  - split; [exact saveGridWeatherData_archives|]. split.
    + intros env w data1 data2 w1 r2 w2 k Hk1 Hk2.
      rewrite !saveGridWeatherData_generic.
      pose proof (save_replace_two_writes GridClass_lawful) as T.
      unfold first_recorded_before_second_current in T.
      eapply T; [exact Hk1|exact Hk2].
    + intros env w data. rewrite saveGridWeatherData_generic.
      apply (save_replace_returns GridClass).
  - split; [exact (save_upsert_archives PortClass_lawful)|].
    split; [exact (save_upsert_two_writes PortClass_lawful)|].
    exact (save_upsert_returns PortClass).
Qed.

(** The end-to-end scenario of the specification: the first run for a new
    set of cities leaves no history and one current document per city; a
    second run for the same cities leaves one history document per city,
    each a record of what the first run had stored, and the current
    documents overwritten. *)
Example first_and_second_run :
  let env := env_of 1000 network_down in
  let w1 := snd (saveCityWeatherData first_run env world0) in
  let w2 := snd (saveCityWeatherData second_run env w1) in
  city_weather_history (db w1) = []
  /\ map (@fields _) (city_weather (db w1)) = first_run
  /\ map (@h_fields _) (city_weather_history (db w2)) = first_run
  /\ map (@fields _) (city_weather (db w2)) = second_run.
Proof. vm_compute. repeat split; reflexivity. Qed.

Lemma upserts_overwrite (Snap Key : Type) (identity : Snap -> Key)
    (same_identity : Key -> Key -> bool) (current : Db -> list (Document Snap))
    (save : list Snap -> M unit) :
  upserts_by_identity identity same_identity current (fun s _ => s) save ->
  overwrites_with_new_snapshot identity current save.
Proof.
  intros H env w w' pre s post Hpre Hpost Hsave.
  destruct (H env w w' pre s post Hpre Hpost Hsave) as (id & tick & Heq).
  unfold of_identity in Heq.
  match type of Heq with _ = match ?l with _ => _ end => destruct l as [|doc rest] end.
  - exists (mkDocument (Some id) s (clock env tick)). split; [|reflexivity].
    eapply (proj1 (filter_In _ _ _)). rewrite Heq. left. reflexivity.
  - exists (mkDocument (_id doc) s (clock env tick)). split; [|reflexivity].
    eapply (proj1 (filter_In _ _ _)). rewrite Heq. left. reflexivity.
Qed.

(** The write paths as the code has them.  For the city and the port
    class a write is an upsert keyed by identity: whatever its outcome,
    the documents of every identity that is not among the new snapshots
    are left as they were; and when it returns, for a snapshot that is the
    only one of its identity in the new set, a document with its fields
    is inserted if none of that identity was stored, and otherwise the
    first stored one is rewritten by the [$set] — for a city to the new
    snapshot, for a port to [set_port_fields] of it.  For the grid class a
    write that returns replaces the collection: it then holds one new
    document per new snapshot, in order, and nothing else. *)
Theorem write_protocol :
  (leaves_other_identities name String.eqb city_weather saveCityWeatherData
   /\ upserts_by_identity name String.eqb city_weather (fun city _ => city)
        saveCityWeatherData
   /\ overwrites_with_new_snapshot name city_weather saveCityWeatherData)
  /\ (leaves_other_identities slug String.eqb port_weather savePortWeatherData
      /\ upserts_by_identity slug String.eqb port_weather set_port_fields
           savePortWeatherData)
  /\ replaces_collection grid_weather saveGridWeatherData.
Proof.
  split; [|split].
  - split; [exact (save_upsert_frame CityClass_lawful)|].
    split; [exact (save_upsert_upserts CityClass_lawful)|].
    eapply upserts_overwrite. exact (save_upsert_upserts CityClass_lawful).
  - split; [exact (save_upsert_frame PortClass_lawful)|].
    exact (save_upsert_upserts PortClass_lawful).
  - intros env w data w'. rewrite saveGridWeatherData_generic.
    apply (save_replace_replaces GridClass_lawful).
Qed.

(** C8 — Write protocol per class, where the port upsert departs from it.
    A port document stored by a run whose request timed out carries the
    status ['error'] and an error text.  The snapshot of a later
    successful fetch, as [fetchPortWeather] builds it, has no [error]
    field, and the [$set] of the upsert writes only the fields it is
    given.  The save returns, the failed snapshot is archived, and the
    stored document is tagged ['success'] and still holds the old error
    text: it is not the new snapshot, so the port write does not overwrite
    the stored snapshot with the new one. *)
Theorem savePortWeatherData_keeps_stale_error :
  let run := savePortWeatherData [sabang_success] (env_of 6000 network_down)
               (world_of port_db) in
  fst run = Ok tt
  /\ map (@h_fields _) (port_weather_history (db (snd run))) = [fields sabang_timed_out]
  /\ map (@fields _) (port_weather (db (snd run)))
     = [mkPort "Pelabuhan Sabang" "pelabuhan-sabang" (58933, 953214)
          (VObj [("wave", VNum 1)]) 5000 "success" (Some "timeout of 30000ms exceeded")]
  /\ ~ In sabang_success (map (@fields _) (port_weather (db (snd run))))
  /\ ~ overwrites_with_new_snapshot slug port_weather savePortWeatherData.
Proof.
  cbv zeta.
  split; [vm_compute; reflexivity|].
  split; [vm_compute; reflexivity|].
  split; [vm_compute; reflexivity|].
  split.
  - vm_compute. intros [H|[]]. discriminate H.
  - intros H.
    destruct (H (env_of 6000 network_down) (world_of port_db)
                (snd (savePortWeatherData [sabang_success] (env_of 6000 network_down)
                        (world_of port_db)))
                [] sabang_success [] (fun x => x) (fun x => x))
      as (doc & Hin & Hfields).
    + vm_compute. reflexivity.
    + vm_compute in Hin. destruct Hin as [<-|[]]. discriminate Hfields.
Qed.

(** For a port whose stored document has no error text the upsert does
    overwrite: the stored snapshot is the new one. *)
Example port_upsert_after_success :
  let stored := mkDocument (Some 7%nat) sabang_success 5001 in
  let newer := mkPort "Pelabuhan Sabang" "pelabuhan-sabang" (58933, 953214)
                 (VObj [("wave", VNum 2)]) 9000 "success" None in
  map (@fields _)
    (port_weather (db (snd (savePortWeatherData [newer] (env_of 9500 network_down)
                              (world_of (mkDb [] [] [] [] [stored] []))))))
  = [newer].
Proof. vm_compute. reflexivity. Qed.

(** C10 — What the grid write loses.  When [saveGridWeatherData] returns
    for a non-empty new set, the history has gained records of stored grid
    documents whose (lat, lon) is that of some new snapshot, and of those
    only; yet every stored grid document was deleted: for a stored
    document whose (lat, lon) is that of no new snapshot, no document of
    its point is current any more and none of the records added is of its
    point. *)
Theorem saveGridWeatherData_drops_unmatched (env : Env) (w w' : World)
    (data : list PointSnapshot) (doc : Document PointSnapshot) :
  data <> [] ->
  saveGridWeatherData data env w = (Ok tt, w') ->
  In doc (grid_weather (db w)) ->
  ~ In (lat (fields doc), lon (fields doc)) (map (fun point => (lat point, lon point)) data) ->
  (forall doc', In doc' (grid_weather (db w')) ->
                (lat (fields doc'), lon (fields doc')) <> (lat (fields doc), lon (fields doc)))
  /\ exists added,
       grid_weather_history (db w') = grid_weather_history (db w) ++ added
       /\ (forall h, In h added ->
             In (lat (h_fields h), lon (h_fields h))
                (map (fun point => (lat point, lon point)) data)
             /\ exists stored, In stored (grid_weather (db w)) /\ records h stored)
       /\ (forall h, In h added ->
             (lat (h_fields h), lon (h_fields h)) <> (lat (fields doc), lon (fields doc))).
Proof.
  intros Hne Hsave Hin Hk. rewrite saveGridWeatherData_generic in Hsave.
  exact (@save_replace_drops_unmatched _ _ GridClass GridClass_lawful env w w' data doc
           Hne Hsave Hin Hk).
Qed.

Lemma saveGridWeatherData_drops_unmatched_witness :
  let env := env_of 5000 network_down in
  let w := world_of grid_db in
  let w' := snd (saveGridWeatherData grid_update env w) in
  let lost := mkDocument (Some 2%nat) (grid_point (-6) 107 28) 100 in
  (grid_update <> []
   /\ saveGridWeatherData grid_update env w = (Ok tt, w')
   /\ In lost (grid_weather (db w))
   /\ ~ In (lat (fields lost), lon (fields lost))
          (map (fun point => (lat point, lon point)) grid_update))
  /\ (forall doc', In doc' (grid_weather (db w')) ->
                   (lat (fields doc'), lon (fields doc')) <> (-6, 107))
  /\ exists added,
       grid_weather_history (db w') = grid_weather_history (db w) ++ added
       /\ (forall h, In h added ->
             (lat (h_fields h), lon (h_fields h)) <> (-6, 107)).
Proof.
  cbv zeta.
  assert (H1 : grid_update <> []) by discriminate.
  assert (H2 : saveGridWeatherData grid_update (env_of 5000 network_down) (world_of grid_db)
               = (Ok tt, snd (saveGridWeatherData grid_update (env_of 5000 network_down)
                                (world_of grid_db))))
    by (vm_compute; reflexivity).
  assert (H3 : In (mkDocument (Some 2%nat) (grid_point (-6) 107 28) 100)
                 (grid_weather (db (world_of grid_db))))
    by (right; left; reflexivity).
  assert (H4 : ~ In (lat (fields (mkDocument (Some 2%nat) (grid_point (-6) 107 28) 100)),
                     lon (fields (mkDocument (Some 2%nat) (grid_point (-6) 107 28) 100)))
                  (map (fun point => (lat point, lon point)) grid_update))
    by (intros [H|[]]; discriminate H).
  split; [repeat split; assumption|].
  destruct (@saveGridWeatherData_drops_unmatched _ _ _ _ _ H1 H2 H3 H4)
    as (Hcur & added & Hhist & _ & Hnone).
  split; [exact Hcur|]. exists added. split; [exact Hhist|exact Hnone].
Defined.

(** The same scenario evaluated: of the two stored grid points only the
    one that is in the new set is archived; the other is gone from the
    current collection without a record. *)
Example grid_point_lost :
  let w' := snd (saveGridWeatherData grid_update (env_of 5000 network_down)
                   (world_of grid_db)) in
  map (@fields _) (grid_weather (db w')) = [grid_point (-6) 106 30]
  /\ map (@h_fields _) (grid_weather_history (db w')) = [grid_point (-6) 106 29].
Proof. vm_compute. split; reflexivity. Qed.

(* ================================================================== *)
(** * Facts about the port collector *)
(* ================================================================== *)

Lemma logWithTimestamp_run (msg : LogMessage) (level : string) (env : Env) (w : World) :
  logWithTimestamp msg level env w
  = (Ok tt, set_trace (trace w ++ [EvLog (clock env (ticks w)) level msg])
              (set_ticks (S (ticks w)) w)).
Proof. reflexivity. Qed.

(** One fetch: it always returns a snapshot of the port, tagged for the
    outcome of the one request it issues, and leaves the database alone. *)
Lemma fetchPortWeather_spec (port : Port) (env : Env) (w : World) :
  exists result w',
    fetchPortWeather port env w = (Ok result, w')
    /\ requests w' = S (requests w)
    /\ db w' = db w
    /\ snapshot_of port result
    /\ tagged_for (axios_get env (requests w)) result.
Proof.
  unfold tagged_for.
  cbv [fetchPortWeather try_catch bind ask logWithTimestamp axios_get_ new_Date emit ret].
  cbn [requests set_trace set_ticks ticks trace].
  destruct (axios_get env (requests w)) as [st data|e].
  - destruct ((st =? 200) && truthy data); eexists; eexists;
      (split; [reflexivity|]); repeat split; reflexivity.
  - eexists; eexists; (split; [reflexivity|]); repeat split; reflexivity.
Qed.

Lemma main_loop_spec (env : Env) (total : Z) :
  forall (ports : list Port) (w : World) (i : Z) (results : list PortSnapshot)
         (successful failed : Z),
    exists results' successful' failed' w',
      main_loop ports total i results successful failed env w
      = (Ok (results ++ results', successful', failed'), w')
      /\ Forall2 snapshot_of ports results'
      /\ Forall2 tagged_for
           (map (fun j => axios_get env (requests w + j)) (seq 0 (length ports))) results'
      /\ successful' = successful + Z.of_nat (length (List.filter is_success results'))
      /\ successful' + failed' = successful + failed + Z.of_nat (length ports)
      /\ requests w' = (requests w + length ports)%nat
      /\ db w' = db w.
Proof.
  induction ports as [|port ports IH]; intros w i results successful failed.
  - exists [], successful, failed, w. cbn. rewrite app_nil_r.
    repeat split; try constructor; lia.
  - destruct (fetchPortWeather_spec port env
                (set_trace (trace w ++ [EvLog (clock env (ticks w)) "info"
                                           (Processing (i + 1) total (p_name port))])
                   (set_ticks (S (ticks w)) w)))
      as (result & w1 & Hfetch & Hreq & Hdb & Hof & Htag).
    cbn [requests set_trace set_ticks db] in Hreq, Hdb, Htag.
    cbn [main_loop]. unfold bind at 1. rewrite logWithTimestamp_run.
    unfold bind at 1. rewrite Hfetch.
    unfold bind at 1.
    set (counted := (if (status result =? "success")%string
                     then logWithTimestamp PortSuccess "info" ;; ret (successful + 1, failed)
                     else logWithTimestamp (PortFailed (error_or_unknown result)) "warn" ;;
                          ret (successful, failed + 1)) env w1).
    assert (Hc : exists w2, counted
                   = (Ok (if is_success result then (successful + 1, failed)
                          else (successful, failed + 1)), w2)
                     /\ requests w2 = requests w1 /\ db w2 = db w1).
    { subst counted. unfold is_success.
      destruct (status result =? "success")%string; eexists; (split; [reflexivity|]);
        split; reflexivity. }
    destruct Hc as (w2 & -> & Hreq2 & Hdb2).
    set (counts := if is_success result then (successful + 1, failed)
                   else (successful, failed + 1)).
    destruct counts as [successful1 failed1] eqn:Hcounts.
    unfold bind at 1.
    set (progressed := (if (i + 1) mod 50 =? 0
                        then logWithTimestamp (Progress (i + 1) total) "info" ;;
                             logWithTimestamp (ProgressCounts successful1 failed1) "info"
                        else ret tt) env w2).
    assert (Hp : exists w3, progressed = (Ok tt, w3)
                            /\ requests w3 = requests w2 /\ db w3 = db w2).
    { subst progressed. destruct ((i + 1) mod 50 =? 0); eexists; (split; [reflexivity|]);
        split; reflexivity. }
    destruct Hp as (w3 & -> & Hreq3 & Hdb3).
    unfold bind at 1. unfold ask at 1. unfold bind at 1. unfold sleep at 1, emit at 1.
    destruct (IH (set_trace (trace w3 ++ [EvSleep (requestDelayMs (config env))]) w3)
                (i + 1) (results ++ [result]) successful1 failed1)
      as (results' & successful' & failed' & w' & Hloop & Hof' & Htag' & Hs & Hsum & Hreq' & Hdb').
    cbn [requests set_trace db] in Htag', Hreq', Hdb'.
    exists (result :: results'), successful', failed', w'.
    split; [rewrite Hloop, <- app_assoc; reflexivity|].
    split; [constructor; assumption|].
    split.
    { cbn [length seq map]. constructor.
      - rewrite Nat.add_0_r. exact Htag.
      - rewrite <- seq_shift, map_map.
        replace (map (fun j => axios_get env (requests w + S j)) (seq 0 (length ports)))
          with (map (fun j => axios_get env (requests w3 + j)) (seq 0 (length ports)));
          [exact Htag'|].
        apply map_ext. intros j. f_equal. lia. }
    assert (Hcount : successful1 = successful + (if is_success result then 1 else 0)
                     /\ successful1 + failed1 = successful + failed + 1).
    { subst counts. destruct (is_success result); injection Hcounts as <- <-; lia. }
    split.
    { cbn [List.filter]. destruct (is_success result); cbn [length]; lia. }
    split; [cbn [length]; lia|].
    split; [cbn [length]; lia|congruence].
Qed.

(** C3, as stated, fails on a 2xx response other than 200: the test of
    [fetchPortWeather] is [response.status === 200], so a response 201
    with data is tagged ['failed']. *)
Lemma fetchPortWeather_201_not_success : ~ tags_every_2xx_success.
Proof.
  intros H.
  destruct (H (env_of 1000 answers_201) world0 sabang 201 (VObj [("wave", VNum 1)])
              eq_refl ltac:(lia) eq_refl)
    as (result & w' & Hrun & Hstatus).
  vm_compute in Hrun. injection Hrun as <- _. discriminate Hstatus.
Qed.

(** C3, amended — Per-item fetcher totality.  For every list of ports the
    fetch loop returns, with exactly one snapshot per port, in order, each
    the snapshot of its port; the snapshot of the i-th port is tagged for
    the outcome of the i-th request: ['success'] with the payload on a
    response of status 200 with data, ['failed'] on every other response
    and ['error'] on a rejected request, both with a null payload and an
    error text; the two counters add up to the number of ports, and
    [successful] counts the snapshots tagged ['success'].  No outcome
    ends the loop early. *)
Theorem collect_one_snapshot_per_port (env : Env) (w : World) (ports : list Port) :
  exists results successful failed w',
    collect ports env w = (Ok (results, successful, failed), w')
    /\ length results = length ports
    /\ Forall2 snapshot_of ports results
    /\ Forall2 tagged_for
         (map (fun i => axios_get env (requests w + i)) (seq 0 (length ports))) results
    /\ Forall (fun result =>
                 status result = "success"
                 \/ (port_weather_data result = VNull /\ error result <> None))
         results
    /\ successful = Z.of_nat (length (List.filter is_success results))
    /\ successful + failed = Z.of_nat (length ports).
Proof.
  destruct (main_loop_spec env (Z.of_nat (length ports)) ports w 0 [] 0 0)
    as (results & successful & failed & w' & Hloop & Hof & Htag & Hs & Hsum & _).
  exists results, successful, failed, w'. cbn [app] in Hloop.
  split; [exact Hloop|].
  split; [symmetry; eapply Forall2_length; exact Hof|].
  split; [exact Hof|]. split; [exact Htag|].
  split; [|split; lia].
  clear -Htag. induction Htag as [|outcome result outcomes results Ho _ IH]; constructor; [|exact IH].
  unfold tagged_for in Ho. destruct outcome as [st data|e].
  - destruct ((st =? 200) && truthy data).
    + left. tauto.
    + right. destruct Ho as (_ & -> & ->). split; [reflexivity|discriminate].
  - right. destruct Ho as (_ & -> & ->). split; [reflexivity|discriminate].
Qed.

(** The scenario of the specification: of ten ports the provider fails
    three; the loop returns ten snapshots, seven tagged ['success'] and
    three tagged ['failed'] or ['error'], each of these with an error
    text. *)
Example ten_ports_three_failures :
  match fst (collect ten_ports (env_of 1000 three_failures) world0) with
  | Ok (results, successful, failed) =>
      length results = 10%nat /\ successful = 7 /\ failed = 3
      /\ map status results
         = ["success"; "success"; "error"; "success"; "success";
            "error"; "success"; "success"; "failed"; "success"]
      /\ map (@error) (List.filter (fun r => negb (is_success r)) results)
         = [Some "Request failed with status code 500";
            Some "timeout of 30000ms exceeded"; Some "HTTP 200"]
  | _ => False
  end.
Proof. vm_compute. repeat split; reflexivity. Qed.

(* ================================================================== *)
(** * Facts about the grid collector *)
(* ================================================================== *)

Lemma sleeps_of_app (a b : list Event) : sleeps_of (a ++ b) = sleeps_of a ++ sleeps_of b.
Proof.
  induction a as [|e a IH]; [reflexivity|].
  destruct e; cbn [app sleeps_of]; rewrite IH; reflexivity.
Qed.

(** One entry of the response: reading [current] of a [null] entry
    throws; an entry with a [current] object gives a snapshot of the
    location; any other entry gives nothing. *)
Lemma process_location_spec (locationData : value) (location : GridLocation)
    (processedData : list PointSnapshot) (env : Env) (w : World) :
  match get_property locationData "current" with
  | inl e => process_location locationData location processedData env w = (Throw e, w)
  | inr current =>
      if truthy current
      then exists snapshot,
             process_location locationData location processedData env w
             = (Ok (processedData ++ [snapshot]), set_ticks (S (ticks w)) w)
             /\ location_of snapshot = location
      else process_location locationData location processedData env w = (Ok processedData, w)
  end.
Proof.
  unfold process_location, prop. cbv [bind ret throw new_Date].
  destruct locationData as [| |b|n|s|ms|items|entries]; cbn [get_property truthy];
    try reflexivity.
  destruct (lookup_field "current" entries) as [| |b|n|s|ms|items|inner] eqn:Hcur;
    cbn [truthy get_property]; try reflexivity;
    try (match goal with |- context [if ?b then _ else _] => destruct b end;
         try reflexivity);
    eexists; (split; [reflexivity|destruct location; reflexivity]).
Qed.

Lemma process_response_spec (env : Env) :
  forall (data : list value) (batch : list GridLocation) (processedData : list PointSnapshot)
         (w : World),
    match usable data batch with
    | Some locations =>
        exists new w',
          process_response data batch processedData env w = (Ok (processedData ++ new), w')
          /\ map location_of new = locations
          /\ requests w' = requests w /\ trace w' = trace w
    | None =>
        exists e w',
          process_response data batch processedData env w = (Throw e, w')
          /\ requests w' = requests w /\ trace w' = trace w
    end.
Proof.
  induction data as [|locationData data IH]; intros batch processedData w.
  - cbn. exists [], w. rewrite app_nil_r. repeat split; reflexivity.
  - destruct batch as [|location batch].
    + cbn. exists [], w. rewrite app_nil_r. repeat split; reflexivity.
    + cbn [usable process_response].
      pose proof (process_location_spec locationData location processedData env w) as Hloc.
      destruct (get_property locationData "current") as [e|current].
      * exists e, w. unfold bind. rewrite Hloc. repeat split; reflexivity.
      * destruct (truthy current).
        -- destruct Hloc as (snapshot & Hrun & Hof).
           specialize (IH batch (processedData ++ [snapshot]) (set_ticks (S (ticks w)) w)).
           unfold bind. rewrite Hrun.
           destruct (usable data batch) as [rest|].
           ++ destruct IH as (new & w' & -> & Hmap & Hreq & Htr).
              exists (snapshot :: new), w'. rewrite <- app_assoc.
              repeat split; [cbn [map]; congruence|exact Hreq|exact Htr].
           ++ destruct IH as (e & w' & -> & Hreq & Htr).
              exists e, w'. repeat split; assumption.
        -- specialize (IH batch processedData w). unfold bind. rewrite Hloc.
           destruct (usable data batch) as [rest|]; exact IH.
Qed.

(** One request for a batch: [fetchWeatherDataBatch] never throws; it
    issues one request and returns the snapshots of the locations the
    response serves — none when the request was rejected, whatever the
    error — without sleeping. *)
Lemma fetchWeatherDataBatch_spec (batch : list GridLocation) (env : Env) (w : World) :
  batch <> [] ->
  exists data w',
    fetchWeatherDataBatch batch env w = (Ok data, w')
    /\ map location_of data = served (axios_get env (requests w)) batch
    /\ requests w' = S (requests w)
    /\ sleeps_of (trace w') = sleeps_of (trace w).
Proof.
  intros Hne. unfold fetchWeatherDataBatch. rewrite (length_nonzero Hne).
  cbv [try_catch bind ask axios_get_]. unfold served.
  destruct (axios_get env (requests w)) as [st payload|e].
  - destruct payload as [| | | | | |data|];
      try (eexists; eexists; repeat split; cbn [trace set_requests set_trace];
           rewrite ?sleeps_of_app, ?app_nil_r; reflexivity).
    cbn [snd].
    pose proof (process_response_spec env data batch []
                  (set_requests (S (requests w))
                     (set_trace (trace w ++ [EvHttpGet (openMeteoUrl (config env)) None]) w)))
      as Hp.
    destruct (usable data batch) as [locations|].
    + destruct Hp as (new & w' & -> & Hmap & Hreq & Htr).
      exists new, w'. cbn [app]. cbn [requests set_requests set_trace trace] in Hreq, Htr.
      repeat split; [exact Hmap|exact Hreq|].
      rewrite Htr, sleeps_of_app, app_nil_r. reflexivity.
    + destruct Hp as (e & w' & -> & Hreq & Htr).
      cbn [requests set_requests set_trace trace] in Hreq, Htr.
      eexists. eexists. rewrite logWithTimestamp_run. unfold bind, ret.
      repeat split; [exact Hreq|].
      cbn [trace set_trace set_ticks]. rewrite Htr, !sleeps_of_app, !app_nil_r. reflexivity.
  - eexists. eexists. rewrite logWithTimestamp_run. unfold bind, ret.
    repeat split. cbn [trace set_trace set_ticks set_requests].
    rewrite !sleeps_of_app, !app_nil_r. reflexivity.
Qed.

Lemma serves_none_length (outcome : HttpOutcome) (batch : list GridLocation)
    (data : list PointSnapshot) :
  map location_of data = served outcome batch ->
  (Z.of_nat (length data) >? 0) = negb (serves_none outcome batch).
Proof.
  intros H. unfold serves_none. rewrite <- H.
  destruct data; reflexivity.
Qed.

(** The retries of one batch, each attempt going to
    [fetchWeatherDataBatch]: the batch is requested until a request serves
    it, [remaining] times at most; what that request serves is appended;
    when none does, nothing is; and no attempt is followed by a sleep. *)
Lemma retry_loop_spec (env : Env) (batchNum maxRetries_ : Z) (batch : list GridLocation) :
  batch <> [] ->
  forall (remaining : nat) (retry retryDelay : Z) (allProcessedData : list PointSnapshot)
         (w : World),
    exists allProcessedData' w',
      retry_loop fetchWeatherDataBatch batchNum maxRetries_ batch remaining retry retryDelay
        allProcessedData env w
      = (Ok allProcessedData', w')
      /\ map location_of allProcessedData'
         = map location_of allProcessedData
           ++ match first_served env batch remaining (requests w) with
              | Some j => served (axios_get env j) batch
              | None => []
              end
      /\ requests w'
         = match first_served env batch remaining (requests w) with
           | Some j => S j
           | None => (requests w + remaining)%nat
           end
      /\ sleeps_of (trace w') = sleeps_of (trace w).
Proof.
  intros Hne. induction remaining as [|remaining IH]; intros retry retryDelay acc w.
  - exists acc, w. cbn. rewrite app_nil_r. repeat split; lia.
  - destruct (@fetchWeatherDataBatch_spec batch env w Hne) as (data & w1 & Hfetch & Hmap & Hreq & Hsl).
    cbn [retry_loop first_served]. unfold bind at 1. unfold try_catch at 1.
    unfold bind at 1. rewrite Hfetch.
    rewrite (@serves_none_length _ _ _ Hmap).
    destruct (serves_none (axios_get env (requests w)) batch); cbn [negb].
    + unfold bind at 1. rewrite logWithTimestamp_run. cbv beta iota.
      unfold ret at 1. cbv beta iota.
      destruct (IH (retry + 1) retryDelay acc
                  (set_trace (trace w1 ++ [EvLog (clock env (ticks w1)) "warn"
                                              (BatchFailedAttempt (batchNum + 1) (retry + 1)
                                                 maxRetries_)])
                     (set_ticks (S (ticks w1)) w1)))
        as (acc' & w' & Hrun & Hlocs & Hreq' & Hsl').
      cbn [requests trace set_trace set_ticks] in Hlocs, Hreq', Hsl'.
      rewrite Hreq in Hlocs, Hreq'.
      exists acc', w'. split; [exact Hrun|]. split; [exact Hlocs|].
      split.
      * rewrite Hreq'. destruct (first_served env batch remaining (S (requests w))); lia.
      * rewrite Hsl', sleeps_of_app, app_nil_r. exact Hsl.
    + cbv [bind Date_now new_Date logWithTimestamp emit ret].
      eexists. eexists. split; [reflexivity|].
      cbn [requests trace set_trace set_ticks].
      split; [rewrite map_app, Hmap; reflexivity|].
      split; [exact Hreq|].
      rewrite !sleeps_of_app, !app_nil_r. exact Hsl.
Qed.

Lemma first_served_ge (env : Env) (batch : list GridLocation) :
  forall attempts k j, first_served env batch attempts k = Some j -> (k <= j < k + attempts)%nat.
Proof.
  induction attempts as [|attempts IH]; intros k j H; [discriminate|].
  cbn [first_served] in H. destruct (serves_none (axios_get env k) batch).
  - apply IH in H. lia.
  - injection H as <-. lia.
Qed.

Lemma repeat_snoc (A : Type) (a : A) (n : nat) : repeat a n ++ [a] = a :: repeat a n.
Proof. induction n as [|n IH]; [reflexivity|]. cbn [repeat app]. rewrite IH. reflexivity. Qed.

(** The loop over the batches: what it appends is what the run delivers;
    the only sleeps are the waits between two batches. *)
Lemma batch_loop_spec (env : Env) (totalBatches : Z) :
  forall (batches : list (list GridLocation)) (batchNum : Z)
         (allProcessedData : list PointSnapshot) (w : World),
    Forall (fun batch => batch <> []) batches ->
    totalBatches = batchNum + Z.of_nat (length batches) ->
    let R := Z.to_nat (maxRetries (config env)) in
    exists allProcessedData' w',
      batch_loop fetchWeatherDataBatch totalBatches batches batchNum allProcessedData env w
      = (Ok allProcessedData', w')
      /\ map location_of allProcessedData'
         = map location_of allProcessedData ++ delivered env R batches (requests w)
      /\ requests w' = (requests w + requests_issued env R batches (requests w))%nat
      /\ sleeps_of (trace w')
         = sleeps_of (trace w)
           ++ repeat (requestDelayMs (config env) * 10) (pred (length batches)).
Proof.
  induction batches as [|batch batches IH]; intros batchNum acc w Hne Htotal R.
  - exists acc, w. cbn. rewrite !app_nil_r. repeat split; lia.
  - inversion Hne as [|b bs Hb Hbs]; subst b bs.
    cbn [batch_loop]. cbv [Date_now]. unfold bind at 1. unfold new_Date at 1.
    unfold bind at 1. rewrite logWithTimestamp_run.
    unfold bind at 1. unfold ask at 1.
    match goal with
    | |- exists _ _, _ env ?w0 = _ /\ _ =>
        destruct (@retry_loop_spec env batchNum (maxRetries (config env)) batch Hb
                    (Z.to_nat (maxRetries (config env))) 0 60000 acc w0)
          as (acc1 & w1 & Hretry & Hlocs & Hreq & Hsl)
    end.
    cbn [requests trace set_trace set_ticks] in Hlocs, Hreq, Hsl.
    rewrite sleeps_of_app, app_nil_r in Hsl.
    unfold bind at 1. rewrite Hretry. fold R in Hlocs, Hreq.
    unfold bind at 1.
    set (waited := (if batchNum <? totalBatches - 1
                    then logWithTimestamp
                           (WaitingBeforeNextBatch (requestDelayMs (config env) * 10)) "info" ;;
                         sleep (requestDelayMs (config env) * 10)
                    else ret tt) env w1).
    assert (Hw : exists w2,
               waited = (Ok tt, w2) /\ requests w2 = requests w1
               /\ sleeps_of (trace w2)
                  = sleeps_of (trace w1)
                    ++ match batches with
                       | [] => []
                       | _ :: _ => [requestDelayMs (config env) * 10]
                       end).
    { subst waited. destruct (Z.ltb_spec batchNum (totalBatches - 1)) as [Hlt|Hge].
      - destruct batches as [|b2 batches']; [cbn [length] in Htotal; lia|].
        eexists. split; [reflexivity|]. split; [reflexivity|].
        cbn [trace set_trace set_ticks]. rewrite !sleeps_of_app, app_nil_r. reflexivity.
      - destruct batches as [|b2 batches']; [|cbn [length] in Htotal; lia].
        exists w1. rewrite app_nil_r. repeat split; reflexivity. }
    destruct Hw as (w2 & -> & Hreq2 & Hsl2).
    destruct (IH (batchNum + 1) acc1 w2 Hbs ltac:(cbn [length] in Htotal; lia))
      as (acc' & w' & Hloop & Hlocs' & Hreq' & Hsl').
    fold R in Hlocs', Hreq'.
    exists acc', w'. split; [exact Hloop|].
    cbn [delivered requests_issued].
    destruct (first_served env batch R (requests w)) as [j|] eqn:Hfirst.
    + pose proof (@first_served_ge _ _ _ _ _ Hfirst) as Hj.
      rewrite Hreq2, Hreq in Hlocs', Hreq'.
      split; [rewrite Hlocs', Hlocs, <- app_assoc; reflexivity|].
      split; [rewrite Hreq'; lia|].
      rewrite Hsl', Hsl2, Hsl, <- app_assoc. f_equal.
      destruct batches as [|b2 batches']; [reflexivity|]. reflexivity.
    + rewrite Hreq2, Hreq in Hlocs', Hreq'.
      split; [rewrite Hlocs', Hlocs, app_nil_r; reflexivity|].
      split; [rewrite Hreq'; lia|].
      rewrite Hsl', Hsl2, Hsl, <- app_assoc. f_equal.
      destruct batches as [|b2 batches']; [reflexivity|]. reflexivity.
Qed.

Lemma first_served_bound (env : Env) (batch : list GridLocation) (R k : nat) :
  (match first_served env batch R k with
   | Some j => S j - k
   | None => R
   end <= R)%nat.
Proof.
  destruct (first_served env batch R k) as [j|] eqn:H; [|lia].
  apply first_served_ge in H. lia.
Qed.

Lemma requests_issued_bound (env : Env) (R : nat) :
  forall batches k, (requests_issued env R batches k <= R * length batches)%nat.
Proof.
  induction batches as [|batch batches IH]; intros k; cbn [requests_issued length]; [lia|].
  pose proof (first_served_bound env batch R k) as Hb.
  destruct (first_served env batch R k) as [j|].
  - specialize (IH (S j)). lia.
  - specialize (IH (k + R)%nat). lia.
Qed.

(** What a run delivers, batch by batch: the batches after [pre] are
    served from the request that follows those of [pre]. *)
Lemma delivered_app (env : Env) (R : nat) (post : list (list GridLocation)) :
  forall pre k,
    delivered env R (pre ++ post) k
    = delivered env R pre k
      ++ delivered env R post (k + requests_issued env R pre k).
Proof.
  induction pre as [|batch pre IH]; intros k.
  - cbn. f_equal. lia.
  - cbn [app delivered requests_issued].
    destruct (first_served env batch R k) as [j|] eqn:H.
    + apply first_served_ge in H. rewrite IH, <- app_assoc. do 3 f_equal. lia.
    + rewrite IH. do 2 f_equal. lia.
Qed.

(** C2, as stated, fails: a provider error that is not a rate-limit
    signal (here every request is rejected with "Network Error") is
    retried at once; no backoff sleep separates the attempts. *)
Lemma no_backoff_after_network_error : ~ backs_off_after_every_error.
Proof.
  intros H.
  apply (H (env_of 0 network_down) world0 one_location eq_refl).
  - discriminate.
  - vm_compute. discriminate.
  - reflexivity.
  - intros k. eexists. reflexivity.
  - vm_compute. reflexivity.
Qed.

(** C2, amended — Batched-fetcher retry policy.  For every non-empty list
    of locations and positive batch size, on a provider none of whose
    errors signals rate-limiting, the grid fetch loop returns; each batch is
    requested until a request serves it, at most R times, a failed attempt
    being followed by the next at once: the only sleeps of the run are the
    waits between two batches; a batch that R requests in a row do not
    serve is dropped — it contributes nothing to the output — and the
    run goes on with the next batch, R requests later; the output is
    what the served batches deliver, in order. *)
Theorem fetchWeatherDataBatched_retry_policy (env : Env) (w : World)
    (locations : list GridLocation) (size : Z) :
  locations <> [] ->
  0 < size ->
  (forall k e, axios_get env k = Rejected e -> is_rate_limit e = false) ->
  let R := Z.to_nat (maxRetries (config env)) in
  exists batches output w',
    batchArray locations size = Some batches
    /\ fetchWeatherDataBatched locations size env w = (Ok output, w')
    /\ map location_of output = delivered env R batches (requests w)
    /\ requests w' = (requests w + requests_issued env R batches (requests w))%nat
    /\ (requests_issued env R batches (requests w) <= R * length batches)%nat
    /\ sleeps_of (trace w')
       = sleeps_of (trace w)
         ++ repeat (requestDelayMs (config env) * 10) (pred (length batches))
    /\ (forall pre batch post,
          batches = pre ++ batch :: post ->
          let k := (requests w + requests_issued env R pre (requests w))%nat in
          first_served env batch R k = None ->
          map location_of output
          = delivered env R pre (requests w) ++ delivered env R post (k + R)).
Proof.
  intros Hne Hsize _ R.
  destruct (batchArray_returns locations Hsize) as (batches & Hbatches).
  pose proof (batchArray_nonempty locations Hsize Hbatches) as Hall.
  exists batches.
  unfold fetchWeatherDataBatched, fetchWeatherDataBatched_with.
  rewrite (length_nonzero Hne), Hbatches.
  unfold bind at 1. rewrite logWithTimestamp_run.
  unfold bind at 1. rewrite logWithTimestamp_run.
  unfold bind at 1. rewrite logWithTimestamp_run.
  unfold bind at 1. rewrite logWithTimestamp_run.
  unfold bind at 1. unfold Date_now at 1, new_Date at 1.
  assert (Htotal : Z.of_nat (length batches) = 0 + Z.of_nat (length batches)) by lia.
  match goal with
  | |- context [bind (batch_loop _ _ _ _ _) _ _ ?w0] =>
      destruct (@batch_loop_spec env (Z.of_nat (length batches)) batches 0 [] w0 Hall Htotal)
        as (output & w1 & Hloop & Hlocs & Hreq & Hsl)
  end.
  cbn [requests trace set_trace set_ticks] in Hlocs, Hreq, Hsl.
  fold R in Hlocs, Hreq. cbn [map app] in Hlocs.
  rewrite !sleeps_of_app, !app_nil_r in Hsl.
  unfold bind at 1. rewrite Hloop.
  cbv [bind Date_now new_Date logWithTimestamp emit ret].
  eexists. eexists. split; [reflexivity|]. split; [reflexivity|].
  cbn [requests trace set_trace set_ticks].
  split; [exact Hlocs|]. split; [exact Hreq|].
  split; [apply requests_issued_bound|].
  split; [rewrite !sleeps_of_app, !app_nil_r; exact Hsl|].
  intros pre batch post -> Hnone.
  rewrite Hlocs, delivered_app. f_equal. cbn [delivered]. rewrite Hnone. reflexivity.
Qed.

Lemma fetchWeatherDataBatched_retry_policy_witness :
  let env := env_of 0 second_batch_fails in
  (grid_locations <> []
   /\ 0 < 50
   /\ (forall k e, axios_get env k = Rejected e -> is_rate_limit e = false))
  /\ exists output w',
       fetchWeatherDataBatched grid_locations 50 env world0 = (Ok output, w')
       /\ map location_of output = firstn 50 grid_locations ++ skipn 100 grid_locations
       /\ requests w' = 5%nat
       /\ sleeps_of (trace w') = [5000; 5000].
Proof.
  cbv zeta.
  assert (H1 : grid_locations <> []) by (vm_compute; discriminate).
  assert (H2 : 0 < 50) by lia.
  assert (H3 : forall k e, axios_get (env_of 0 second_batch_fails) k = Rejected e ->
                           is_rate_limit e = false).
  { intros k e. destruct k as [|[|[|[|k]]]]; cbn; intros H; try discriminate H;
      injection H as <-; reflexivity. }
  split; [repeat split; assumption|].
  destruct (@fetchWeatherDataBatched_retry_policy (env_of 0 second_batch_fails) world0
              grid_locations 50 H1 H2 H3)
    as (batches & output & w' & Hb & Hrun & Hlocs & Hreq & _ & Hsl & _).
  exists output, w'.
  assert (Eb : batches = [firstn 50 grid_locations; firstn 50 (skipn 50 grid_locations);
                          skipn 100 grid_locations]).
  { vm_compute in Hb. injection Hb as <-. vm_compute. reflexivity. }
  subst batches.
  split; [exact Hrun|].
  split; [rewrite Hlocs; vm_compute; reflexivity|].
  split; [rewrite Hreq; vm_compute; reflexivity|].
  rewrite Hsl. vm_compute. reflexivity.
Defined.

(** The end-to-end scenario of the specification, evaluated: 120
    locations in batches of 50; the second batch exhausts its three
    attempts; the output has the 70 snapshots of the first and the third
    batch. *)
Example second_batch_dropped :
  match fetchWeatherDataBatched grid_locations 50 (env_of 0 second_batch_fails) world0 with
  | (Ok output, w') =>
      length output = 70%nat
      /\ map location_of output = firstn 50 grid_locations ++ skipn 100 grid_locations
      /\ requests w' = 5%nat
  | _ => False
  end.
Proof. vm_compute. repeat split; reflexivity. Qed.

(** The [catch] of the retry loop, when the function it calls does throw.
    On a rate-limit error at every attempt the loop sleeps before each next
    attempt, the delay doubling from the one it starts with; on any other
    error it does not sleep. *)
Lemma retry_loop_on_thrown_error (e : Error) (env : Env) (batchNum maxRetries_ : Z)
    (batch : list GridLocation) :
  forall (remaining : nat) (retry retryDelay : Z) (allProcessedData : list PointSnapshot)
         (w : World),
    exists w',
      retry_loop (throwing_fetch e) batchNum maxRetries_ batch remaining retry retryDelay
        allProcessedData env w
      = (Ok allProcessedData, w')
      /\ sleeps_of (trace w')
         = sleeps_of (trace w)
           ++ if is_rate_limit e
              then map (fun j => retryDelay * 2 ^ Z.of_nat j) (seq 0 remaining)
              else [].
Proof.
  induction remaining as [|remaining IH]; intros retry retryDelay acc w.
  - exists w. split; [reflexivity|]. cbn [seq map]. destruct (is_rate_limit e); rewrite app_nil_r; reflexivity.
  - cbn [retry_loop]. unfold bind at 1. unfold try_catch at 1.
    unfold bind at 1. unfold throwing_fetch at 1. unfold throw at 1.
    unfold bind at 1. unfold bind at 1.
    change (includes (toLowerCase (message e)) "rate limit"
            || includes (toLowerCase (message e)) "minutely") with (is_rate_limit e).
    destruct (is_rate_limit e) eqn:His.
    + unfold bind at 1. rewrite logWithTimestamp_run. cbv beta iota.
      unfold bind at 1. unfold sleep at 1, emit at 1. cbv beta iota.
      unfold ret at 1. cbv beta iota.
      destruct (retry =? maxRetries_ - 1).
      * rewrite logWithTimestamp_run. cbv beta iota. unfold ret at 1. cbv beta iota.
        match goal with
        | |- context [retry_loop _ _ _ _ _ _ _ _ _ ?w1] =>
            destruct (IH (retry + 1) (retryDelay * 2) acc w1) as (w' & Hrun & Hsl)
        end.
        try rewrite His in Hsl.
        exists w'. split; [exact Hrun|]. rewrite Hsl.
        cbn [trace set_trace set_ticks]. rewrite !sleeps_of_app. cbn [sleeps_of].
        rewrite !app_nil_r, <- !app_assoc. f_equal.
        cbn [seq map app]. rewrite Z.pow_0_r, Z.mul_1_r. f_equal.
        rewrite <- seq_shift, map_map. apply map_ext. intros j.
        rewrite Nat2Z.inj_succ, Z.pow_succ_r by lia. ring.
      * unfold ret at 1. cbv beta iota. unfold ret at 1. cbv beta iota.
        match goal with
        | |- context [retry_loop _ _ _ _ _ _ _ _ _ ?w1] =>
            destruct (IH (retry + 1) (retryDelay * 2) acc w1) as (w' & Hrun & Hsl)
        end.
        try rewrite His in Hsl.
        exists w'. split; [exact Hrun|]. rewrite Hsl.
        cbn [trace set_trace set_ticks]. rewrite !sleeps_of_app. cbn [sleeps_of].
        rewrite !app_nil_r, <- !app_assoc. f_equal.
        cbn [seq map app]. rewrite Z.pow_0_r, Z.mul_1_r. f_equal.
        rewrite <- seq_shift, map_map. apply map_ext. intros j.
        rewrite Nat2Z.inj_succ, Z.pow_succ_r by lia. ring.
    + unfold bind at 1. rewrite logWithTimestamp_run. cbv beta iota.
      unfold ret at 1. cbv beta iota. unfold bind at 1.
      destruct (retry =? maxRetries_ - 1).
      * rewrite logWithTimestamp_run. cbv beta iota. unfold ret at 1. cbv beta iota.
        match goal with
        | |- context [retry_loop _ _ _ _ _ _ _ _ _ ?w1] =>
            destruct (IH (retry + 1) retryDelay acc w1) as (w' & Hrun & Hsl)
        end.
        exists w'. split; [exact Hrun|]. rewrite Hsl.
        cbn [trace set_trace set_ticks]. rewrite !sleeps_of_app. cbn [sleeps_of].
        rewrite !app_nil_r. reflexivity.
      * unfold ret at 1. cbv beta iota. unfold ret at 1. cbv beta iota.
        match goal with
        | |- context [retry_loop _ _ _ _ _ _ _ _ _ ?w1] =>
            destruct (IH (retry + 1) retryDelay acc w1) as (w' & Hrun & Hsl)
        end.
        exists w'. split; [exact Hrun|]. rewrite Hsl.
        cbn [trace set_trace set_ticks]. rewrite !sleeps_of_app. cbn [sleeps_of].
        rewrite !app_nil_r. reflexivity.
Qed.

(** With a batch size that is not positive the loop of [batchArray] never
    ends, and the collection never returns. *)
Lemma fetchWeatherDataBatched_hangs (locations : list GridLocation) (size : Z)
    (env : Env) (w : World) :
  locations <> [] -> size <= 0 ->
  fst (fetchWeatherDataBatched locations size env w) = Hang.
Proof.
  intros Hne Hsize. unfold fetchWeatherDataBatched, fetchWeatherDataBatched_with.
  rewrite (length_nonzero Hne).
  unfold batchArray.
  rewrite (@batchArray_loop_never_ends _ locations size Hsize Hne (length locations) 0 []) by lia.
  reflexivity.
Qed.

(** The defect behind the first half of C2.  The retry loop has a [catch]
    that backs off on a rate-limit error: when the function it calls
    throws one at every attempt, it sleeps 60 s, 120 s, 240 s.  But
    [fetchWeatherDataBatch] catches every error itself and returns an empty
    list, so the loop never sees a rate-limit error of the provider: it
    retries at once and never backs off. *)
Example catch_backs_off_on_thrown_rate_limit :
  sleeps_of (trace (snd (fetchWeatherDataBatched_with
                           (throwing_fetch (mkError "Minutely API request limit exceeded"))
                           one_location 50 (env_of 0 network_down) world0)))
  = [60000; 120000; 240000].
Proof. vm_compute. reflexivity. Qed.

Example catch_does_not_sleep_on_other_error :
  sleeps_of (trace (snd (fetchWeatherDataBatched_with
                           (throwing_fetch (mkError "Network Error"))
                           one_location 50 (env_of 0 network_down) world0)))
  = [].
Proof. vm_compute. reflexivity. Qed.

Example provider_rate_limit_never_backed_off :
  let r := fetchWeatherDataBatched one_location 50 (env_of 0 rate_limited) world0 in
  fst r = Ok [] /\ requests (snd r) = 3%nat /\ sleeps_of (trace (snd r)) = [].
Proof. vm_compute. repeat split; reflexivity. Qed.

(* ================================================================== *)
(** * Facts about the orchestrator *)
(* ================================================================== *)

Import RunAllCollectors.

Lemma sleeps_of_backed_off (attempt : Z) (w : World) :
  sleeps_of (trace (backed_off attempt w))
  = sleeps_of (trace w) ++ [5000 * 2 ^ (attempt - 1)].
Proof. unfold backed_off. cbn [trace set_trace]. rewrite sleeps_of_app. reflexivity. Qed.

(** The function [runCollectorWithRetry] hands to [retryWithBackoff]:
    an exit code other than 0 becomes a thrown error. *)
Lemma attempt_run (collector : Collector) (env : Env) (w w1 : World) (r : Completion Z) :
  fn collector env w = (r, w1) ->
  (exitCode <- fn collector ;;
   if negb (exitCode =? 0)
   then throw (mkError ("Collector returned exit code " ++ string_of_Z exitCode)%string)
   else ret tt) env w
  = (match r with
     | Ok code =>
         if code =? 0 then Ok tt
         else Throw (mkError ("Collector returned exit code " ++ string_of_Z code)%string)
     | Throw e => Throw e
     | Hang => Hang
     end, w1).
Proof.
  intros H. unfold bind. rewrite H. destruct r as [code|e|]; try reflexivity.
  destruct (code =? 0); reflexivity.
Qed.

Lemma failed_attempt_throws (r : Completion Z) :
  failed_attempt r ->
  exists e,
    match r with
    | Ok code =>
        if code =? 0 then Ok tt
        else Throw (mkError ("Collector returned exit code " ++ string_of_Z code)%string)
    | Throw e => Throw e
    | Hang => Hang
    end = Throw e.
Proof.
  destruct r as [code|e|]; cbn [failed_attempt]; intros H; [|eexists; reflexivity|contradiction].
  destruct (Z.eqb_spec code 0); [contradiction|]. eexists. reflexivity.
Qed.

(** The steps of [retryWithBackoff] with three attempts and a base delay
    of 5 s. *)
Section RetrySteps.

Variable A : Type.
Variable f : M A.
Variables (env : Env) (w w1 : World).

Lemma retry_step_Ok (remaining : nat) (attempt : Z) (a : A) :
  f env w = (Ok a, w1) ->
  retryWithBackoff_loop f 3 5000 (S remaining) attempt env w = (Ok (Some a), w1).
Proof.
  intros H. cbn [retryWithBackoff_loop]. unfold try_catch, bind. rewrite H. reflexivity.
Qed.

Lemma retry_step_last (remaining : nat) (e : Error) :
  f env w = (Throw e, w1) ->
  retryWithBackoff_loop f 3 5000 (S remaining) 3 env w = (Throw e, w1).
Proof.
  intros H. cbn [retryWithBackoff_loop]. unfold try_catch, bind. rewrite H. reflexivity.
Qed.

Lemma retry_step_Throw (remaining : nat) (attempt : Z) (e : Error) :
  f env w = (Throw e, w1) ->
  attempt <> 3 ->
  retryWithBackoff_loop f 3 5000 (S remaining) attempt env w
  = retryWithBackoff_loop f 3 5000 remaining (attempt + 1) env (backed_off attempt w1).
Proof.
  intros H Hne. cbn [retryWithBackoff_loop]. unfold try_catch at 1. unfold bind at 1.
  rewrite H. apply Z.eqb_neq in Hne. rewrite Hne.
  unfold bind at 1. unfold console_log at 1, emit at 1. unfold bind at 1.
  unfold sleep at 1, emit at 1. unfold backed_off.
  cbn [trace set_trace]. rewrite <- app_assoc. reflexivity.
Qed.

End RetrySteps.

Lemma runCollectorWithRetry_of_loop (collector : Collector) (env : Env) (w w' : World)
    (r : Completion (option unit)) :
  retryWithBackoff_loop
    (exitCode <- fn collector ;;
     if negb (exitCode =? 0)
     then throw (mkError ("Collector returned exit code " ++ string_of_Z exitCode)%string)
     else ret tt) 3 5000 3 1 env
    (logged env (CollectorStarting (collector_name collector)) "info" w)
  = (r, w') ->
  runCollectorWithRetry collector 3 env w
  = match r with
    | Ok _ => (Ok true, logged env (CollectorSuccess (collector_name collector)) "info" w')
    | Throw e =>
        (Ok false,
         logged env (CollectorFailed (collector_name collector) (message e)) "error" w')
    | Hang => (Hang, w')
    end.
Proof.
  intros H. unfold runCollectorWithRetry, retryWithBackoff.
  change (Z.to_nat 3) with 3%nat.
  unfold bind at 1. rewrite logWithTimestamp_run.
  unfold logged in H. rewrite logWithTimestamp_run in H. cbn [snd] in H.
  unfold try_catch at 1. unfold bind at 1. rewrite H.
  destruct r; reflexivity.
Qed.

Lemma runCollectorWithRetry_retries (collector : Collector) :
  retried_up_to_three_times collector.
Proof.
  intros env w run succeeded w0 r1 w1 H1. subst run succeeded.
  pose (f := (exitCode <- fn collector ;;
              if negb (exitCode =? 0)
              then throw (mkError ("Collector returned exit code "
                                   ++ string_of_Z exitCode)%string)
              else ret tt)).
  assert (Hof : forall r w',
             retryWithBackoff_loop f 3 5000 3 1 env w0 = (r, w') ->
             runCollectorWithRetry collector 3 env w
             = match r with
               | Ok _ => (Ok true,
                          logged env (CollectorSuccess (collector_name collector)) "info" w')
               | Throw e =>
                   (Ok false,
                    logged env (CollectorFailed (collector_name collector) (message e))
                      "error" w')
               | Hang => (Hang, w')
               end)
    by (intros r w'; apply runCollectorWithRetry_of_loop).
  pose proof (@attempt_run _ _ _ _ _ H1) as A1. fold f in A1. split.
  - intros ->. rewrite (Hof (Ok (Some tt)) w1); [reflexivity|].
    apply retry_step_Ok. exact A1.
  - intros F1 r2 w2 H2. destruct (@failed_attempt_throws _ F1) as (e1 & E1).
    rewrite E1 in A1.
    pose proof (@attempt_run _ _ _ _ _ H2) as A2. fold f in A2. split.
    + intros ->. rewrite (Hof (Ok (Some tt)) w2); [reflexivity|].
      erewrite retry_step_Throw; [|exact A1|lia].
      apply retry_step_Ok. exact A2.
    + intros F2 r3 w3 H3. destruct (@failed_attempt_throws _ F2) as (e2 & E2).
      rewrite E2 in A2.
      pose proof (@attempt_run _ _ _ _ _ H3) as A3. fold f in A3. split.
      * intros ->. rewrite (Hof (Ok (Some tt)) w3); [reflexivity|].
        erewrite retry_step_Throw; [|exact A1|lia].
        erewrite retry_step_Throw; [|exact A2|lia].
        apply retry_step_Ok. exact A3.
      * intros F3. destruct (@failed_attempt_throws _ F3) as (e3 & E3).
        rewrite E3 in A3. exists (message e3).
        rewrite (Hof (Throw e3) w3); [reflexivity|].
        erewrite retry_step_Throw; [|exact A1|lia].
        erewrite retry_step_Throw; [|exact A2|lia].
        apply retry_step_last. exact A3.
Qed.

Lemma runCollectorWithRetry_returns (collector : Collector) :
  never_hangs (fn collector) ->
  forall env w, exists s w', runCollectorWithRetry collector 3 env w = (Ok s, w').
Proof.
  intros Hnh env w.
  pose proof (runCollectorWithRetry_retries collector env w) as R. cbv zeta in R.
  assert (Hcase : forall r : Completion Z, r <> Hang -> r = Ok 0 \/ failed_attempt r).
  { intros [code|e|] Hr; [|right; exact I|congruence].
    destruct (Z.eq_dec code 0) as [->|Hne]; [left; reflexivity|right; exact Hne]. }
  destruct (fn collector env
              (logged env (CollectorStarting (collector_name collector)) "info" w))
    as [r1 w1] eqn:H1.
  destruct (R r1 w1 eq_refl) as [R1 R1'].
  pose proof (Hnh env (logged env (CollectorStarting (collector_name collector)) "info" w))
    as N1. rewrite H1 in N1. cbn [fst] in N1.
  destruct (Hcase r1 N1) as [E1|F1]; [rewrite (R1 E1); eauto|].
  destruct (fn collector env (backed_off 1 w1)) as [r2 w2] eqn:H2.
  destruct (R1' F1 r2 w2 eq_refl) as [R2 R2'].
  pose proof (Hnh env (backed_off 1 w1)) as N2. rewrite H2 in N2. cbn [fst] in N2.
  destruct (Hcase r2 N2) as [E2|F2]; [rewrite (R2 E2); eauto|].
  destruct (fn collector env (backed_off 2 w2)) as [r3 w3] eqn:H3.
  destruct (R2' F2 r3 w3 eq_refl) as [R3 R3'].
  pose proof (Hnh env (backed_off 2 w2)) as N3. rewrite H3 in N3. cbn [fst] in N3.
  destruct (Hcase r3 N3) as [E3|F3]; [rewrite (R3 E3); eauto|].
  destruct (R3' F3) as (msg & ->). eauto.
Qed.

Lemma run_collectors_in_sequence (c1 c2 c3 : Collector) :
  never_hangs (fn c1) -> never_hangs (fn c2) -> never_hangs (fn c3) ->
  run_in_sequence c1 c2 c3.
Proof.
  intros N1 N2 N3 env w.
  destruct (@runCollectorWithRetry_returns c1 N1 env
              (logged env (Running (collector_name c1)) "info" w)) as (s1 & w1 & H1).
  destruct (@runCollectorWithRetry_returns c2 N2 env
              (logged env (Running (collector_name c2)) "info" (paused env w1)))
    as (s2 & w2 & H2).
  destruct (@runCollectorWithRetry_returns c3 N3 env
              (logged env (Running (collector_name c3)) "info" (paused env w2)))
    as (s3 & w3 & H3).
  exists s1, w1, s2, w2, s3, w3.
  split; [exact H1|]. split; [exact H2|]. split; [exact H3|].
  cbn [run_collectors].
  unfold bind at 1. rewrite logWithTimestamp_run.
  unfold logged in H1. rewrite logWithTimestamp_run in H1. cbn [snd] in H1.
  unfold bind at 1. rewrite H1.
  unfold bind at 1. unfold bind at 1. rewrite logWithTimestamp_run.
  unfold sleep at 1, emit at 1.
  unfold bind at 1. rewrite logWithTimestamp_run.
  unfold logged, paused in H2. unfold bind in H2.
  rewrite !logWithTimestamp_run in H2. unfold sleep, emit in H2. cbn [snd] in H2.
  unfold bind at 1. rewrite H2.
  unfold bind at 1. unfold bind at 1. rewrite logWithTimestamp_run.
  unfold sleep at 1, emit at 1.
  unfold bind at 1. rewrite logWithTimestamp_run.
  unfold logged, paused in H3. unfold bind in H3.
  rewrite !logWithTimestamp_run in H3. unfold sleep, emit in H3. cbn [snd] in H3.
  unfold bind at 1. rewrite H3.
  reflexivity.
Qed.

Lemma mongoose_cases (env : Env) (w : World) :
  store_fault env (store_ops w) = None \/ exists k, store_fault env k <> None.
Proof.
  destruct (store_fault env (store_ops w)) eqn:E; [right|left; reflexivity].
  exists (store_ops w). congruence.
Qed.

(** The [catch] block of [main] resolves to 1 and keeps the trace. *)
Lemma on_fatal_error_spec (error : Error) (env : Env) (w : World) :
  exists w' suffix, on_fatal_error error env w = (Ok 1, w') /\ trace w' = trace w ++ suffix.
Proof.
  unfold on_fatal_error.
  cbv [bind logWithTimestamp new_Date emit ret try_catch disconnectDatabase
       read_isConnected mongoose_call store_op write_isConnected console_log throw].
  cbn [isConnected ticks trace store_ops set_trace set_ticks set_store_ops set_isConnected].
  destruct (isConnected w);
    cbn [negb isConnected ticks trace store_ops set_trace set_ticks set_store_ops
         set_isConnected];
    [destruct (store_fault env (store_ops w))|];
    eexists; eexists; (split; [reflexivity|]);
    cbn [isConnected ticks trace store_ops set_trace set_ticks set_store_ops set_isConnected];
    rewrite <- ?app_assoc; reflexivity.
Qed.

Lemma mapM_summary (env : Env) :
  forall (results : list (string * bool)) (w : World),
    exists w' suffix,
      mapM (fun result => logWithTimestamp (Summary (fst result) (snd result)) "info")
        results env w
      = (Ok (map (fun _ => tt) results), w')
      /\ trace w' = trace w ++ suffix
      /\ isConnected w' = isConnected w
      /\ store_ops w' = store_ops w
      /\ forall name success, In (name, success) results ->
           exists t, In (EvLog t "info" (Summary name success)) suffix.
Proof.
  induction results as [|[name success] results IH]; intros w.
  - exists w, []. cbn [mapM map In]. rewrite app_nil_r.
    split; [reflexivity|]. split; [reflexivity|]. split; [reflexivity|].
    split; [reflexivity|]. intros ? ? [].
  - cbn [mapM]. unfold bind at 1. rewrite logWithTimestamp_run.
    destruct (IH (set_trace (trace w ++ [EvLog (clock env (ticks w)) "info"
                                           (Summary (fst (name, success))
                                              (snd (name, success)))])
                    (set_ticks (S (ticks w)) w)))
      as (w' & suffix & Hrun & Htr & Hconn & Hops & Hin).
    unfold bind at 1. rewrite Hrun. unfold ret.
    exists w', (EvLog (clock env (ticks w)) "info" (Summary name success) :: suffix).
    split; [reflexivity|].
    cbn [trace set_trace set_ticks isConnected store_ops fst snd] in Htr, Hconn, Hops.
    split; [rewrite Htr, <- app_assoc; reflexivity|].
    split; [exact Hconn|]. split; [exact Hops|].
    intros n s [[= <- <-]|H].
    + eexists. left. reflexivity.
    + destruct (Hin n s H) as (t & Ht). exists t. right. exact Ht.
Qed.

(** The summary: one line per result; the code is 0 exactly when every
    result is a success, unless disconnecting throws. *)
Lemma summarize_spec (results : list (string * bool)) (env : Env) (w : World) :
  exists r w' suffix,
    summarize results env w = (r, w')
    /\ trace w' = trace w ++ suffix
    /\ (forall name success, In (name, success) results ->
          exists t, In (EvLog t "info" (Summary name success)) suffix)
    /\ (r = Ok (if Z.of_nat (length (List.filter (fun r => snd r) results))
                   =? Z.of_nat (length results) then 0 else 1)
        \/ ((exists e, r = Throw e) /\ exists k, store_fault env k <> None)).
Proof.
  unfold summarize.
  unfold bind at 1. rewrite logWithTimestamp_run.
  unfold bind at 1. rewrite logWithTimestamp_run.
  unfold bind at 1. rewrite logWithTimestamp_run.
  match goal with
  | |- context [bind (mapM _ _) _ _ ?w0] =>
      destruct (mapM_summary env results w0) as (w1 & suffix & Hrun & Htr & Hconn & Hops & Hin)
  end.
  unfold bind at 1. rewrite Hrun.
  cbn [trace set_trace set_ticks isConnected store_ops] in Htr, Hconn, Hops.
  cbv [bind Date_now logWithTimestamp new_Date emit ret try_catch disconnectDatabase
       read_isConnected mongoose_call store_op write_isConnected console_log throw].
  cbn [isConnected ticks trace store_ops set_trace set_ticks set_store_ops set_isConnected].
  rewrite Hconn, ?Hops.
  destruct (isConnected w);
    cbn [negb isConnected ticks trace store_ops set_trace set_ticks set_store_ops
         set_isConnected];
    rewrite ?Hops;
    [destruct (store_fault env (store_ops w)) eqn:Hfault|];
    eexists; eexists; eexists; (split; [reflexivity|]);
    cbn [isConnected ticks trace store_ops set_trace set_ticks set_store_ops set_isConnected];
    rewrite Htr, <- ?app_assoc;
    (split; [reflexivity|]);
    (split; [intros name success H; destruct (Hin name success H) as (t & Ht);
             exists t; rewrite ?in_app_iff; cbn [In]; tauto|]).
  - right. split; [eexists; reflexivity|]. exists (store_ops w). congruence.
  - left. reflexivity.
  - left. reflexivity.
Qed.

Lemma connectDatabase_spec (env : Env) (w : World) :
  exists r w', connectDatabase env w = (r, w') /\ r <> Hang.
Proof.
  unfold connectDatabase.
  cbv [bind ret try_catch read_isConnected mongoose_call store_op write_isConnected
       console_log emit throw].
  destruct (isConnected w);
    cbn [isConnected ticks trace store_ops set_trace set_ticks set_store_ops set_isConnected];
    [|destruct (store_fault env (store_ops w))];
    eexists; eexists; (split; [reflexivity|discriminate]).
Qed.

Lemma announce_spec (env : Env) (w : World) : exists wl, announce env w = (Ok tt, wl).
Proof. eexists. reflexivity. Qed.

Lemma success_count (s1 s2 s3 : bool) (n1 n2 n3 : string) :
  (Z.of_nat (length (List.filter (fun r : string * bool => snd r)
                       [(n1, s1); (n2, s2); (n3, s3)]))
   =? Z.of_nat (length [(n1, s1); (n2, s2); (n3, s3)])) = s1 && s2 && s3.
Proof. destruct s1, s2, s3; reflexivity. Qed.

Lemma main_reports_and_exits (c1 c2 c3 : Collector) :
  never_hangs (fn c1) -> never_hangs (fn c2) -> never_hangs (fn c3) ->
  reports_and_exits c1 c2 c3.
Proof.
  intros N1 N2 N3 env w.
  destruct (announce_spec env w) as (wl & Ha).
  destruct (connectDatabase_spec env wl) as (r0 & w0 & Hconn & Hr0).
  assert (Hopened : opened env w = (r0, w0)).
  { unfold opened. unfold bind. rewrite Ha. exact Hconn. }
  unfold main. unfold bind at 1. rewrite Ha. unfold try_catch. unfold bind at 1.
  rewrite Hconn.
  destruct r0 as [[]|e0|]; [| |congruence].
  - destruct (@run_collectors_in_sequence c1 c2 c3 N1 N2 N3 env w0)
      as (s1 & w1 & s2 & w2 & s3 & w3 & _ & _ & _ & Hrun).
    unfold bind at 1. rewrite Hrun.
    destruct (summarize_spec [(collector_name c1, s1); (collector_name c2, s2);
                              (collector_name c3, s3)] env w3)
      as (r & w4 & suffix & Hsum & Htr & Hlines & Hcode).
    rewrite Hsum. rewrite success_count in Hcode.
    assert (Hin : forall w5 more, trace w5 = trace w4 ++ more ->
              exists summary t1 t2 t3,
                trace w5 = trace w3 ++ summary
                /\ In (EvLog t1 "info" (Summary (collector_name c1) s1)) summary
                /\ In (EvLog t2 "info" (Summary (collector_name c2) s2)) summary
                /\ In (EvLog t3 "info" (Summary (collector_name c3) s3)) summary).
    { intros w5 more ->. rewrite Htr.
      destruct (Hlines (collector_name c1) s1) as (t1 & H1); [left; reflexivity|].
      destruct (Hlines (collector_name c2) s2) as (t2 & H2); [right; left; reflexivity|].
      destruct (Hlines (collector_name c3) s3) as (t3 & H3);
        [right; right; left; reflexivity|].
      exists (suffix ++ more), t1, t2, t3. rewrite !in_app_iff, app_assoc. tauto. }
    destruct Hcode as [->|[[e ->] Hfault]].
    + exists (if s1 && s2 && s3 then 0 else 1), w4.
      split; [reflexivity|].
      split; [destruct (s1 && s2 && s3); [left|right]; reflexivity|].
      intros w0' H0. rewrite Hopened in H0. injection H0 as <-. exists s1, s2, s3, w3.
      split; [exact Hrun|].
      split; [apply (Hin w4 []); rewrite app_nil_r; reflexivity|].
      split.
      * destruct s1, s2, s3; cbn [andb]; intros H; try discriminate H; repeat split.
      * intros -> -> ->. left. reflexivity.
    + destruct (on_fatal_error_spec e env w4) as (w5 & more & Hfatal & Htr5).
      rewrite Hfatal. exists 1, w5.
      split; [reflexivity|]. split; [right; reflexivity|].
      intros w0' H0. rewrite Hopened in H0. injection H0 as <-. exists s1, s2, s3, w3.
      split; [exact Hrun|].
      split; [apply (Hin w5 more); exact Htr5|].
      split; [intros H; discriminate H|].
      intros _ _ _. right. exact Hfault.
  - destruct (on_fatal_error_spec e0 env w0) as (w5 & more & Hfatal & _).
    rewrite Hfatal. exists 1, w5.
    split; [reflexivity|]. split; [right; reflexivity|].
    intros w0' H. rewrite Hopened in H. discriminate H.
Qed.

(** C9, as stated, fails: the delay between the attempts of a collector
    is not fixed.  A collector whose flow ends with exit code 1 at each of
    its three attempts is retried after 5 s and then after 10 s. *)
Lemma retry_delay_doubles : ~ retries_with_fixed_delay.
Proof.
  intros H.
  destruct (H (env_of 0 network_down) world0 grid_failing eq_refl (fun _ _ => eq_refl))
    as (delay & Hd).
  assert (H5 : 5000 = delay) by (apply Hd; vm_compute; left; reflexivity).
  assert (H10 : 10000 = delay) by (apply Hd; vm_compute; right; left; reflexivity).
  lia.
Qed.

Example failing_collector_sleeps :
  sleeps_of (trace (snd (runCollectorWithRetry grid_failing 3 (env_of 0 network_down) world0)))
  = [5000; 10000].
Proof. vm_compute. reflexivity. Qed.

(** C9, amended — Orchestrator.  For any three collectors whose flows
    end: the class flows run one after the other, each starting in the
    world the one before left, after a pause of 5 s; a class's whole flow
    is attempted up to three times, a failed attempt (an exit code other
    than 0, or a thrown error) being followed by a wait of 5 s after the
    first and 10 s after the second, and the class fails after the third;
    [main] always resolves, to 0 or 1; once the database is connected it
    logs one summary line per class whatever the outcomes, and its status
    is 0 only if the three classes succeeded (it is 0 then, unless the
    store fails). *)
Theorem orchestrator_contract (c1 c2 c3 : Collector) :
  never_hangs (fn c1) -> never_hangs (fn c2) -> never_hangs (fn c3) ->
  run_in_sequence c1 c2 c3
  /\ (retried_up_to_three_times c1
      /\ retried_up_to_three_times c2
      /\ retried_up_to_three_times c3)
  /\ (forall attempt w,
        sleeps_of (trace (backed_off attempt w))
        = sleeps_of (trace w) ++ [5000 * 2 ^ (attempt - 1)])
  /\ (forall env w, sleeps_of (trace (paused env w)) = sleeps_of (trace w) ++ [5000])
  /\ reports_and_exits c1 c2 c3.
Proof.
  intros N1 N2 N3.
  split; [apply run_collectors_in_sequence; assumption|].
  split; [split; [|split]; apply runCollectorWithRetry_retries|].
  split; [exact sleeps_of_backed_off|].
  split; [|apply main_reports_and_exits; assumption].
  intros env w. unfold paused, bind, sleep, emit. rewrite logWithTimestamp_run.
  cbn [snd trace set_trace set_ticks]. rewrite !sleeps_of_app. cbn [sleeps_of].
  rewrite app_nil_r. reflexivity.
Qed.

Lemma orchestrator_contract_witness :
  (never_hangs (fn city_ok) /\ never_hangs (fn grid_failing) /\ never_hangs (fn port_ok))
  /\ run_in_sequence city_ok grid_failing port_ok
  /\ reports_and_exits city_ok grid_failing port_ok.
Proof.
  assert (N1 : never_hangs (fn city_ok)) by (intros env w; discriminate).
  assert (N2 : never_hangs (fn grid_failing)) by (intros env w; discriminate).
  assert (N3 : never_hangs (fn port_ok)) by (intros env w; discriminate).
  split; [repeat split; assumption|].
  destruct (@orchestrator_contract city_ok grid_failing port_ok N1 N2 N3)
    as (Hseq & _ & _ & _ & Hrep).
  split; [exact Hseq|exact Hrep].
Defined.

(** Partial success, evaluated: the city and the port class succeed, the
    grid class fails its three attempts; [main] resolves to 1 and the
    summary has the three lines. *)
Example partial_success_is_reported :
  let r := main [city_ok; grid_failing; port_ok] (env_of 0 network_down) world0 in
  fst r = Ok 1
  /\ List.filter (fun e => match e with EvLog _ _ (Summary _ _) => true | _ => false end)
       (trace (snd r))
     = [EvLog 0 "info" (Summary "City Weather" true);
        EvLog 0 "info" (Summary "Grid Weather" false);
        EvLog 0 "info" (Summary "Port Weather" true)]
  /\ sleeps_of (trace (snd r)) = [5000; 5000; 10000; 5000].
Proof. vm_compute. repeat split; reflexivity. Qed.

Example full_success_exits_zero :
  fst (main [city_ok; city_ok; port_ok] (env_of 0 network_down) world0) = Ok 0.
Proof. vm_compute. reflexivity. Qed.
(* ================================================================== *)
(** * More about [helpers.js] *)
(* ================================================================== *)

Lemma slice_length (A : Type) (array : list A) (i size : Z) :
  0 <= i -> 0 < size -> i < Z.of_nat (length array) ->
  Z.of_nat (length (slice array i (i + size)))
  = Z.min (i + size) (Z.of_nat (length array)) - i.
Proof.
  intros Hi Hs Hlt. rewrite slice_inside by assumption.
  rewrite length_firstn, length_skipn. lia.
Qed.

Lemma ceil_div_bounds (n b : Z) :
  0 < b -> 0 <= n -> (ceil_div n b - 1) * b < n \/ n = 0.
Proof.
  intros Hb Hn. unfold ceil_div.
  pose proof (Z.mul_div_le (n + b - 1) b Hb).
  destruct (Z.eq_dec n 0); [right; assumption|left; nia].
Qed.

(** X1 — The sizes of the batches of [batchArray].  For a positive batch
    size, every batch but the last has exactly [size] elements, and every
    batch — so the last one too — has at least one and at most [size]. *)
Theorem batchArray_batch_sizes (A : Type) (array : list A) (size : Z)
    (batches : list (list A)) :
  0 < size ->
  batchArray array size = Some batches ->
  (forall k, (S k < length batches)%nat -> Z.of_nat (length (nth k batches [])) = size)
  /\ (forall batch, In batch batches -> 1 <= Z.of_nat (length batch) <= size).
Proof.
  intros Hsize H.
  destruct (batchArray_loop_spec array Hsize (length array) (i := 0) [])
    as (rest & Heq & _ & Hlen & Hnth & _); [lia|lia|].
  unfold batchArray in H. rewrite Heq in H. injection H as <-. cbn [app].
  rewrite Z.sub_0_r in Hlen.
  assert (Hpos : forall k, (k < length rest)%nat ->
            Z.of_nat k * size < Z.of_nat (length array)).
  { intros k Hk.
    destruct (ceil_div_bounds (n := Z.of_nat (length array)) Hsize) as [Hb|Hz]; [lia| |].
    - nia.
    - rewrite Hz in Hlen. unfold ceil_div in Hlen.
      rewrite Z.div_small in Hlen by lia. lia. }
  assert (Hsz : forall k, (k < length rest)%nat ->
            Z.of_nat (length (nth k rest []))
            = Z.min (Z.of_nat k * size + size) (Z.of_nat (length array)) - Z.of_nat k * size).
  { intros k Hk. rewrite (Hnth k Hk).
    replace (0 + (Z.of_nat k + 1) * size) with (0 + Z.of_nat k * size + size) by lia.
    rewrite slice_length; [lia|lia|lia|]. specialize (Hpos k Hk). lia. }
  split.
  - intros k Hk. rewrite Hsz by lia.
    specialize (Hpos (S k) Hk). rewrite Nat2Z.inj_succ in Hpos. lia.
  - intros batch Hin. destruct (In_nth _ _ [] Hin) as (k & Hk & <-).
    rewrite Hsz by exact Hk. specialize (Hpos k Hk). lia.
Qed.

Lemma batchArray_batch_sizes_witness :
  (0 < 2 /\ batchArray [1; 2; 3; 4; 5] 2 = Some [[1; 2]; [3; 4]; [5]])
  /\ (forall k, (S k < length [[1; 2]; [3; 4]; [5]])%nat ->
        Z.of_nat (length (nth k [[1; 2]; [3; 4]; [5]] [])) = 2)
  /\ (forall batch, In batch [[1; 2]; [3; 4]; [5]] -> 1 <= Z.of_nat (length batch) <= 2).
Proof.
  assert (H1 : 0 < 2) by lia.
  assert (H2 : batchArray [1; 2; 3; 4; 5] 2 = Some [[1; 2]; [3; 4]; [5]]) by reflexivity.
  split; [split; assumption|].
  exact (@batchArray_batch_sizes Z [1; 2; 3; 4; 5] 2 [[1; 2]; [3; 4]; [5]] H1 H2).
Defined.

(** X2 — A batch size that is not positive.  On a non-empty array the
    loop of [batchArray] never ends: whatever the number of iterations
    allowed, its condition still holds; so [fetchWeatherDataBatched]
    never returns, and it has logged nothing and issued no request by
    then.  On the empty array [batchArray] returns no batch, whatever the
    size. *)
Theorem nonpositive_batch_size_never_returns (locations : list GridLocation) (size : Z)
    (env : Env) (w : World) :
  locations <> [] ->
  size <= 0 ->
  (forall fuel, batchArray_loop fuel locations size 0 [] = None)
  /\ fetchWeatherDataBatched locations size env w = (Hang, w)
  /\ batchArray (@nil GridLocation) size = Some [].
Proof.
  intros Hne Hsize.
  assert (Hloop : forall fuel, batchArray_loop fuel locations size 0 [] = None)
    by (intros fuel; apply batchArray_loop_never_ends; [assumption|assumption|lia]).
  split; [exact Hloop|]. split; [|reflexivity].
  unfold fetchWeatherDataBatched, fetchWeatherDataBatched_with.
  rewrite (length_nonzero Hne). unfold batchArray. rewrite Hloop. reflexivity.
Qed.

Lemma nonpositive_batch_size_never_returns_witness :
  (one_location <> [] /\ 0 <= 0)
  /\ fetchWeatherDataBatched one_location 0 (env_of 0 network_down) world0 = (Hang, world0).
Proof.
  assert (H1 : one_location <> []) by discriminate.
  assert (H2 : 0 <= 0) by lia.
  split; [split; assumption|].
  exact (proj1 (proj2 (@nonpositive_batch_size_never_returns one_location 0
                         (env_of 0 network_down) world0 H1 H2))).
Defined.
Lemma backoff_events_step (maxRetries baseDelay first : Z) (n : nat) :
  backoff_events maxRetries baseDelay first (S n)
  = [EvConsole (RetryAttempt first maxRetries (baseDelay * 2 ^ (first - 1)));
     EvSleep (baseDelay * 2 ^ (first - 1))]
    ++ backoff_events maxRetries baseDelay (first + 1) n.
Proof.
  unfold backoff_events. cbn [seq flat_map]. rewrite Z.add_0_r.
  cbn [app]. do 2 f_equal.
  rewrite <- seq_shift, flat_map_concat_map, map_map, <- flat_map_concat_map.
  apply flat_map_ext. intros j.
  replace (first + Z.of_nat (S j)) with (first + 1 + Z.of_nat j) by lia. reflexivity.
Qed.

(** The loop of [retryWithBackoff], from the attempt number [attempt]
    with [remaining] attempts left. *)
Lemma retryWithBackoff_loop_contract (A : Type) (fn : M A) (maxRetries baseDelay : Z)
    (env : Env) :
  silent fn env ->
  forall (remaining : nat) (attempt : Z) (w : World),
    attempt + Z.of_nat remaining = maxRetries + 1 ->
    (1 <= remaining)%nat ->
    forall r w',
      retryWithBackoff_loop fn maxRetries baseDelay remaining attempt env w = (r, w') ->
      exists n,
        (n < remaining)%nat
        /\ trace w' = trace w ++ backoff_events maxRetries baseDelay attempt n
        /\ match r with
           | Ok None => False
           | Ok (Some a) => exists w0, fst (fn env w0) = Ok a
           | Throw e => S n = remaining /\ exists w0, fst (fn env w0) = Throw e
           | Hang => exists w0, fst (fn env w0) = Hang
           end.
Proof.
  intros Hsilent. induction remaining as [|remaining IH]; intros attempt w Hsum Hpos r w' H;
    [lia|].
  cbn [retryWithBackoff_loop] in H. unfold try_catch, bind at 1 in H.
  pose proof (Hsilent w) as Htr.
  destruct (fn env w) as [[a|e|] w1] eqn:Hfn; cbn [snd] in Htr.
  - unfold ret in H. injection H as <- <-. exists 0%nat.
    split; [lia|]. split; [rewrite Htr, app_nil_r; reflexivity|].
    exists w. rewrite Hfn. reflexivity.
  - destruct (Z.eqb_spec attempt maxRetries) as [Heq|Hneq].
    + unfold throw in H. injection H as <- <-. exists 0%nat.
      split; [lia|]. split; [rewrite Htr, app_nil_r; reflexivity|].
      split; [lia|]. exists w. rewrite Hfn. reflexivity.
    + unfold bind at 1 in H. unfold console_log at 1, emit at 1 in H.
      unfold bind at 1 in H. unfold sleep at 1, emit at 1 in H.
      cbn [trace set_trace] in H.
      assert (Hsum' : attempt + 1 + Z.of_nat remaining = maxRetries + 1) by lia.
      assert (Hpos' : (1 <= remaining)%nat) by lia.
      destruct (IH _ _ Hsum' Hpos' _ _ H) as (n & Hn & Htrace & Hres).
      exists (S n). split; [lia|]. split.
      * rewrite Htrace. cbn [trace set_trace]. rewrite Htr, backoff_events_step.
        rewrite <- !app_assoc. reflexivity.
      * destruct r as [[a|]|e'|]; try exact Hres.
        destruct Hres as [Hn' Hw]. split; [lia|exact Hw].
  - injection H as <- <-. exists 0%nat.
    split; [lia|]. split; [rewrite Htr, app_nil_r; reflexivity|].
    exists w. rewrite Hfn. reflexivity.
Qed.

(** X3 — The contract of [retryWithBackoff].  With a positive number of
    attempts and a function that logs nothing itself: the waits are at
    most [maxRetries − 1], each announced by a line, the first of
    [baseDelay] and each the double of the one before; the call never
    resolves to [undefined]; a value it resolves to is one the function
    returned; and it throws only after the wait number [maxRetries − 1],
    an error that the function threw. *)
Theorem retryWithBackoff_contract (A : Type) (fn : M A) (maxRetries baseDelay : Z)
    (env : Env) (w : World) :
  0 < maxRetries ->
  silent fn env ->
  exists n,
    (n < Z.to_nat maxRetries)%nat
    /\ trace (snd (retryWithBackoff fn maxRetries baseDelay env w))
       = trace w ++ backoff_events maxRetries baseDelay 1 n
    /\ match fst (retryWithBackoff fn maxRetries baseDelay env w) with
       | Ok None => False
       | Ok (Some a) => exists w0, fst (fn env w0) = Ok a
       | Throw e => S n = Z.to_nat maxRetries /\ exists w0, fst (fn env w0) = Throw e
       | Hang => exists w0, fst (fn env w0) = Hang
       end.
Proof.
  intros Hpos Hsilent. unfold retryWithBackoff.
  eapply retryWithBackoff_loop_contract; [exact Hsilent|lia|lia|].
  apply surjective_pairing.
Qed.

Lemma retryWithBackoff_contract_witness :
  (0 < 3 /\ silent (throw (A := unit) (mkError "Network Error")) (env_of 0 network_down))
  /\ exists n,
       (n < 3)%nat
       /\ trace (snd (retryWithBackoff (throw (A := unit) (mkError "Network Error")) 3 1000
                        (env_of 0 network_down) world0))
          = backoff_events 3 1000 1 n.
Proof.
  assert (H1 : 0 < 3) by lia.
  assert (H2 : silent (throw (A := unit) (mkError "Network Error")) (env_of 0 network_down))
    by (intros w; reflexivity).
  split; [split; assumption|].
  destruct (@retryWithBackoff_contract unit (throw (mkError "Network Error")) 3 1000
              (env_of 0 network_down) world0 H1 H2) as (n & Hn & Htrace & _).
  exists n. split; [exact Hn|exact Htrace].
Defined.

(** Three attempts that all throw: waits of one and of two base delays. *)
Example retryWithBackoff_three_failures :
  let r := retryWithBackoff (throw (A := unit) (mkError "Network Error")) 3 1000
             (env_of 0 network_down) world0 in
  fst r = Throw (mkError "Network Error")
  /\ sleeps_of (trace (snd r)) = [1000; 2000].
Proof. vm_compute. split; reflexivity. Qed.

(** X4 — A retry budget that is not positive.  The loop of
    [retryWithBackoff] then makes no iteration: the call resolves to
    [undefined] without running the function, in the world it started in;
    so [runCollectorWithRetry] with such a budget reports the collector as
    successful without having run it — it logs its first and its last
    line, and resolves to [true]. *)
Theorem retry_budget_not_positive (A : Type) (fn : M A) (collector : Collector)
    (maxRetries baseDelay : Z) (env : Env) (w : World) :
  maxRetries <= 0 ->
  retryWithBackoff fn maxRetries baseDelay env w = (Ok None, w)
  /\ runCollectorWithRetry collector maxRetries env w
     = (Ok true,
        logged env (CollectorSuccess (collector_name collector)) "info"
          (logged env (CollectorStarting (collector_name collector)) "info" w)).
Proof.
  intros Hle.
  assert (Hz : Z.to_nat maxRetries = 0%nat) by lia.
  split.
  - unfold retryWithBackoff. rewrite Hz. reflexivity.
  - unfold runCollectorWithRetry, retryWithBackoff. rewrite Hz. reflexivity.
Qed.

Lemma retry_budget_not_positive_witness :
  0 <= 0
  /\ fst (runCollectorWithRetry grid_failing 0 (env_of 0 network_down) world0) = Ok true.
Proof.
  assert (H : 0 <= 0) by lia.
  split; [exact H|].
  rewrite (proj2 (@retry_budget_not_positive unit (ret tt) grid_failing 0 5000
                    (env_of 0 network_down) world0 H)).
  reflexivity.
Defined.

(** X5 — Freshness at the edges.  A timestamp that is not in the past of
    the clock is fresh under every threshold that is not negative; and
    what is fresh under a threshold is fresh under every greater one. *)
Theorem isDataFresh_edges (env : Env) (w : World) (fetchedAt : Z) (maxAgeHours : Q) :
  (clock env (ticks w) <= fetchedAt -> (0 <= maxAgeHours)%Q ->
   fst (isDataFresh (Some fetchedAt) maxAgeHours env w) = Ok true)
  /\ (forall greater : Q,
        (maxAgeHours <= greater)%Q ->
        fst (isDataFresh (Some fetchedAt) maxAgeHours env w) = Ok true ->
        fst (isDataFresh (Some fetchedAt) greater env w) = Ok true).
Proof.
  split.
  - intros Hfuture Hmax. rewrite isDataFresh_run. cbn [fst]. f_equal. apply Qle_bool_iff.
    apply Qle_trans with (y := 0%Q); [|exact Hmax].
    unfold age_hours. apply to_double_nonpos.
    apply Qle_shift_div_r; [reflexivity|].
    setoid_replace (0 * inject_Z 3600000)%Q with 0%Q by ring.
    apply to_double_nonpos. unfold Qle. cbn. lia.
  - intros greater Hle H. rewrite isDataFresh_run in *. cbn [fst] in *.
    injection H as H. f_equal.
    apply Qle_bool_iff. apply Qle_bool_iff in H.
    apply Qle_trans with (y := maxAgeHours); assumption.
Qed.

Lemma isDataFresh_edges_witness :
  (clock (env_of 1000 network_down) (ticks world0) <= 5000 /\ (0 <= 6)%Q)
  /\ fst (isDataFresh (Some 5000) 6 (env_of 1000 network_down) world0) = Ok true.
Proof.
  assert (H1 : clock (env_of 1000 network_down) (ticks world0) <= 5000) by (cbn; lia).
  assert (H2 : (0 <= 6)%Q) by (unfold Qle; cbn; lia).
  split; [split; assumption|].
  exact (proj1 (@isDataFresh_edges (env_of 1000 network_down) world0 5000 6) H1 H2).
Defined.
(* ================================================================== *)
(** * More about [database.js] *)
(* ================================================================== *)

(** X6 — The connection flag.  [connectDatabase] never touches the
    collections; when it returns the flag is set, and a further call then
    returns without any store operation; when it throws, the flag is
    still unset, so that a later call tries again.  [disconnectDatabase]
    does nothing at all when the flag is unset; otherwise it returns with
    the flag unset, or throws with the flag still set. *)
Theorem connection_flag (env : Env) (w : World) :
  (forall r w1,
      connectDatabase env w = (r, w1) ->
      db w1 = db w
      /\ match r with
         | Ok _ =>
             isConnected w1 = true
             /\ exists w2,
                  connectDatabase env w1 = (Ok tt, w2)
                  /\ store_ops w2 = store_ops w1
                  /\ isConnected w2 = true
         | Throw e => e = store_error /\ isConnected w = false /\ isConnected w1 = false
         | Hang => False
         end)
  /\ (forall r w1,
        disconnectDatabase env w = (r, w1) ->
        db w1 = db w
        /\ (isConnected w = false -> r = Ok tt /\ w1 = w)
        /\ match r with
           | Ok _ => isConnected w1 = false
           | Throw e => e = store_error /\ isConnected w1 = true
           | Hang => False
           end).
Proof.
  split.
  - intros r w1.
    cbv [connectDatabase bind ret try_catch read_isConnected mongoose_call store_op
         write_isConnected console_log emit throw].
    destruct (isConnected w) eqn:Hc;
      cbn [isConnected ticks trace store_ops set_trace set_ticks set_store_ops set_isConnected].
    + intros [= <- <-]. cbn [db isConnected set_trace]. rewrite Hc.
      split; [reflexivity|]. split; [reflexivity|].
      eexists. split; [reflexivity|]. cbn [store_ops isConnected set_trace].
      split; [reflexivity|exact Hc].
    + destruct (store_fault env (store_ops w)); intros [= <- <-];
        cbn [db isConnected store_ops set_trace set_store_ops set_isConnected].
      * rewrite Hc. repeat split; reflexivity.
      * split; [reflexivity|]. split; [reflexivity|].
        eexists. split; [reflexivity|]. split; reflexivity.
  - intros r w1.
    cbv [disconnectDatabase bind ret try_catch read_isConnected mongoose_call store_op
         write_isConnected console_log emit throw].
    destruct (isConnected w) eqn:Hc;
      cbn [negb isConnected ticks trace store_ops set_trace set_ticks set_store_ops
           set_isConnected].
    + destruct (store_fault env (store_ops w)); intros [= <- <-];
        cbn [db isConnected store_ops set_trace set_store_ops set_isConnected].
      * rewrite Hc. split; [reflexivity|]. split; [discriminate|]. split; reflexivity.
      * split; [reflexivity|]. split; [discriminate|reflexivity].
    + intros [= <- <-]. split; [reflexivity|]. split; [split; reflexivity|exact Hc].
Qed.
(* ================================================================== *)
(** * More about [weatherRepository.js] *)
(* ================================================================== *)

Lemma Forall2_of_maps (A B C : Type) (f : A -> C) (g : B -> C) :
  forall (l : list A) (l' : list B),
    map f l = map g l' -> Forall2 (fun a b => f a = g b) l l'.
Proof.
  induction l as [|a l IH]; intros [|b l'] H; try discriminate; constructor.
  - cbn [map] in H. congruence.
  - apply IH. cbn [map] in H. congruence.
Qed.

Section ArchiveCounts.

Variables Snap Key : Type.
Variable c : WeatherClass Snap Key.
Hypothesis L : Lawful c.

Lemma archive_counts :
  counts_what_it_copies (key c) (key_eqb c) (collection (Current c))
    (collection (History c)) (archive c).
Proof.
  intros env w keys count w' H.
  destruct (archive_spec L _ _ _ H) as (Hcur & added & Hhist & _ & Hcopies & Hcount).
  split; [exact Hcur|]. exists added. split; [exact Hhist|]. split; [exact Hcount|].
  apply Forall2_of_maps in Hcopies. exact Hcopies.
Qed.

End ArchiveCounts.

(** X7 — What the archival returns.  For each of the three classes, when
    [archive...Weather] returns a count, it has left the current
    collection as it was and appended to the history exactly that many
    documents: one record of every current document whose identity is
    among the given ones, in their order — none twice, none of another
    identity.  With no grid point given, [archiveGridWeather] returns 0
    without a store operation. *)
Theorem archive_returns_what_it_copied :
  counts_what_it_copies name String.eqb city_weather city_weather_history archiveCityWeather
  /\ counts_what_it_copies (fun point => (lat point, lon point)) same_point
       grid_weather grid_weather_history archiveGridWeather
  /\ counts_what_it_copies slug String.eqb port_weather port_weather_history
       archivePortWeather
  /\ (forall env w, archiveGridWeather [] env w = (Ok 0, w)).
Proof.
  split; [exact (archive_counts CityClass_lawful)|].
  split; [|split; [exact (archive_counts PortClass_lawful)|reflexivity]].
  intros env w keys count w' H.
  destruct keys as [|point keys].
  - injection H as <- <-. split; [reflexivity|]. exists [].
    rewrite app_nil_r. split; [reflexivity|]. split; [reflexivity|].
    rewrite (filter_ext _ (fun _ => false)) by reflexivity.
    induction (grid_weather (db w)); [constructor|assumption].
  - rewrite archiveGridWeather_generic in H by discriminate.
    exact (archive_counts GridClass_lawful _ _ _ H).
Qed.

(** Two stored documents of one city are both copied. *)
Example archive_copies_duplicates :
  let stored := [mkDocument (Some 1%nat) (city_snapshot "Jakarta" 30) 10;
                 mkDocument (Some 2%nat) (city_snapshot "Bandung" 24) 10;
                 mkDocument (Some 3%nat) (city_snapshot "Jakarta" 29) 11] in
  let r := archiveCityWeather ["Jakarta"] (env_of 1000 network_down)
             (world_of (mkDb stored [] [] [] [] [])) in
  fst r = Ok 2
  /\ map (@h_fields _) (city_weather_history (db (snd r)))
     = [city_snapshot "Jakarta" 30; city_snapshot "Jakarta" 29].
Proof. vm_compute. split; reflexivity. Qed.
Section OtherCollections.

Variables Snap Key X : Type.
Variable c : WeatherClass Snap Key.
Variable part : Db -> X.
Hypothesis part_current : forall l d, part (replace (Current c) l d) = part d.
Hypothesis part_history : forall l d, part (replace (History c) l d) = part d.

Lemma archive_leaves_alone (keys : list Key) (env : Env) (w : World) :
  part (db (snd (archive c keys env w))) = part (db w).
Proof.
  unfold archive. unfold bind at 1. rewrite find_run.
  destruct (store_fault env (store_ops w)); [reflexivity|].
  destruct (Z.of_nat (length (List.filter (selects c keys) (collection (Current c) (db w))))
            =? 0); [reflexivity|].
  unfold bind at 1. rewrite mapM_stamp. unfold bind at 1. rewrite insertMany_run.
  cbv zeta. unfold ret.
  destruct (store_fault env _); cbn [snd db set_next_id set_db set_ticks bump_ops set_store_ops];
    rewrite part_history; reflexivity.
Qed.

Lemma archived_log_db (count : Z) (label : string) (env : Env) (w : World) :
  (if count >? 0 then console_log (ArchivedRecords label count) else ret tt) env w
  = (Ok tt, snd ((if count >? 0 then console_log (ArchivedRecords label count)
                  else ret tt) env w))
  /\ db (snd ((if count >? 0 then console_log (ArchivedRecords label count)
               else ret tt) env w)) = db w.
Proof. destruct (count >? 0); split; reflexivity. Qed.

Lemma save_upsert_leaves_alone : leaves_alone part (save_upsert c).
Proof.
  intros data env w. unfold save_upsert.
  destruct (Z.of_nat (length data) =? 0); [reflexivity|].
  unfold bind at 1.
  pose proof (archive_leaves_alone (map (key c) data) env w) as Harch.
  destruct (archive c (map (key c) data) env w) as [[count|e|] w1]; cbn [snd] in Harch;
    try exact Harch.
  unfold bind at 1.
  destruct (archived_log_db count (class_label c) env w1) as [-> Hdb].
  set (w2 := snd _) in *. unfold bind at 1. rewrite mapM_stamp.
  unfold bind at 1. rewrite bulkWrite_run. cbv zeta.
  destruct (store_fault env _);
    cbn [snd db set_next_id set_db set_ticks bump_ops set_store_ops console_log emit set_trace];
    rewrite part_current, Hdb; exact Harch.
Qed.

Lemma save_replace_leaves_alone : leaves_alone part (save_replace c).
Proof.
  intros data env w. unfold save_replace.
  destruct (Z.of_nat (length data) =? 0); [reflexivity|].
  unfold bind at 1.
  pose proof (archive_leaves_alone (map (key c) data) env w) as Harch.
  destruct (archive c (map (key c) data) env w) as [[count|e|] w1]; cbn [snd] in Harch;
    try exact Harch.
  unfold bind at 1.
  destruct (archived_log_db count (class_label c) env w1) as [-> Hdb].
  set (w2 := snd _) in *. unfold bind at 1. rewrite deleteMany_run.
  destruct (store_fault env (store_ops w2));
    [cbn [snd db set_db bump_ops set_store_ops]; rewrite part_current, Hdb; exact Harch|].
  unfold bind at 1. rewrite mapM_stamp. unfold bind at 1. rewrite insertMany_run. cbv zeta.
  destruct (store_fault env _);
    cbn [snd db set_next_id set_db set_ticks bump_ops set_store_ops console_log emit set_trace];
    rewrite !part_current, Hdb; exact Harch.
Qed.

End OtherCollections.

(** X8 — A write stays within its class.  However it ends — returning,
    or thrown out of at any store operation — [saveCityWeatherData] leaves
    the current and the history collections of the grid and of the port
    class as they were, and likewise [saveGridWeatherData] and
    [savePortWeatherData] those of the two other classes. *)
Theorem save_stays_within_its_class :
  leaves_alone all_but_city saveCityWeatherData
  /\ leaves_alone all_but_grid saveGridWeatherData
  /\ leaves_alone all_but_port savePortWeatherData.
Proof.
  split; [|split].
  - apply (@save_upsert_leaves_alone _ _ _ CityClass all_but_city); reflexivity.
  - intros data env w. rewrite saveGridWeatherData_generic.
    apply (@save_replace_leaves_alone _ _ _ GridClass all_but_grid); reflexivity.
  - apply (@save_upsert_leaves_alone _ _ _ PortClass all_but_port); reflexivity.
Qed.

(** X9 — The three deletions of a cleanup are independent.
    [cleanupOldHistory] starts the three deletions together and none
    waits for another: each history collection ends as its own deletion
    leaves it, whatever becomes of the two others, and the current
    collections are untouched.  The call returns counts when the three
    succeed, and throws — having applied the deletions that did
    succeed — as soon as one fails: it is not all-or-nothing.  (Where
    the cutoff is not a date the three are rejected before they reach the
    store, and nothing is deleted.) *)
Theorem cleanupOldHistory_deletions_independent (env : Env) (w : World) (daysToKeep : Z) :
  let fault_city := store_fault env (store_ops w) in
  let fault_grid := store_fault env (S (store_ops w)) in
  let fault_port := store_fault env (S (S (store_ops w))) in
  let run := cleanupOldHistory daysToKeep env w in
  match setDate_back (LocalTZA env) (clock env (ticks w)) daysToKeep with
  | Some cutoff =>
      city_weather_history (db (snd run))
      = after_deletion cutoff fault_city (city_weather_history (db w))
      /\ grid_weather_history (db (snd run))
         = after_deletion cutoff fault_grid (grid_weather_history (db w))
      /\ port_weather_history (db (snd run))
         = after_deletion cutoff fault_port (port_weather_history (db w))
      /\ (city_weather (db (snd run)), grid_weather (db (snd run)),
          port_weather (db (snd run)))
         = (city_weather (db w), grid_weather (db w), port_weather (db w))
      /\ match fault_city, fault_grid, fault_port with
         | None, None, None => exists counts, fst run = Ok counts
         | _, _, _ => fst run = Throw store_error
         end
  | None =>
      fst run = Throw cast_error
      /\ db (snd run) = db w
      /\ store_ops (snd run) = store_ops w
  end.
Proof.
  cbv zeta. remember (cleanupOldHistory daysToKeep env w) as run eqn:Hrun.
  destruct (setDate_back (LocalTZA env) (clock env (ticks w)) daysToKeep) as [cutoff|] eqn:Hc.
  2:{ rewrite (cleanupOldHistory_invalid env w daysToKeep Hc) in Hrun. subst run.
      repeat split; reflexivity. }
  unfold cleanupOldHistory, bind at 1, new_Date in Hrun. unfold bind at 1, ask in Hrun.
  cbn [ticks set_ticks] in Hrun. rewrite Hc in Hrun.
  unfold deleteMany_archived_before, bind, Promise_all3 in Hrun.
  rewrite deleteMany_run in Hrun. cbn [store_ops ticks db set_ticks] in Hrun.
  destruct (store_fault env (store_ops w)) as [n0|];
    cbv beta iota in Hrun; rewrite deleteMany_run in Hrun;
    cbn [store_ops db set_db bump_ops set_store_ops set_ticks] in Hrun;
    destruct (store_fault env (S (store_ops w))) as [n1|];
    cbv beta iota in Hrun; rewrite deleteMany_run in Hrun;
    cbn [store_ops db set_db bump_ops set_store_ops set_ticks] in Hrun;
    destruct (store_fault env (S (S (store_ops w)))) as [n2|];
    cbv beta iota in Hrun; subst run;
    cbn [fst snd db set_db collection replace CityWeatherHistory GridWeatherHistory
         PortWeatherHistory city_weather city_weather_history grid_weather
         grid_weather_history port_weather port_weather_history after_deletion ret];
    repeat split; try reflexivity.
  eexists. reflexivity.
Qed.

(** The city deletion fails at once; the grid history is cleaned all the
    same, and the call throws. *)
Example cleanup_with_a_failing_deletion :
  let env := mkEnv (fun _ => retention_now)
               (fun k => match k with O => Some O | _ => None end)
               network_down config0 utc in
  let history := [archived_city 1 "Jakarta" (retention_now - 100 * day);
                  archived_city 2 "Jakarta" (retention_now - 10 * day)] in
  let r := cleanupOldHistory 90 env (world_of (mkDb [] history [] history [] [])) in
  fst r = Throw store_error
  /\ city_weather_history (db (snd r)) = history
  /\ grid_weather_history (db (snd r)) = [archived_city 2 "Jakarta" (retention_now - 10 * day)].
Proof. vm_compute. repeat split; reflexivity. Qed.
(* ================================================================== *)
(** * Computations that leave the database alone *)
(* ================================================================== *)

Lemma keeps_db_ret (A : Type) (a : A) : keeps_db (ret a).
Proof. intros env w. reflexivity. Qed.

Lemma keeps_db_throw (A : Type) (e : Error) : keeps_db (throw (A := A) e).
Proof. intros env w. reflexivity. Qed.

Lemma keeps_db_bind (A B : Type) (m : M A) (k : A -> M B) :
  keeps_db m -> (forall a, keeps_db (k a)) -> keeps_db (bind m k).
Proof.
  intros Hm Hk env w. unfold bind. specialize (Hm env w).
  destruct (m env w) as [[a|e|] w1]; cbn [snd] in *; [|exact Hm|exact Hm].
  rewrite (Hk a env w1). exact Hm.
Qed.

Lemma keeps_db_try_catch (A : Type) (m : M A) (handler : Error -> M A) :
  keeps_db m -> (forall e, keeps_db (handler e)) -> keeps_db (try_catch m handler).
Proof.
  intros Hm Hh env w. unfold try_catch. specialize (Hm env w).
  destruct (m env w) as [[a|e|] w1]; cbn [snd] in *; [exact Hm| |exact Hm].
  rewrite (Hh e env w1). exact Hm.
Qed.

Lemma keeps_db_ask : keeps_db ask.
Proof. intros env w. reflexivity. Qed.

Lemma keeps_db_emit (e : Event) : keeps_db (emit e).
Proof. intros env w. reflexivity. Qed.

Lemma keeps_db_new_Date : keeps_db new_Date.
Proof. intros env w. reflexivity. Qed.

Lemma keeps_db_logWithTimestamp (msg : LogMessage) (level : string) :
  keeps_db (logWithTimestamp msg level).
Proof. intros env w. reflexivity. Qed.

Lemma keeps_db_axios_get (url : string) (timeout : option Z) : keeps_db (axios_get_ url timeout).
Proof. intros env w. unfold axios_get_. destruct (axios_get env (requests w)); reflexivity. Qed.

Lemma keeps_db_prop (v : value) (k : string) : keeps_db (prop v k).
Proof. intros env w. unfold prop. destruct (get_property v k); reflexivity. Qed.

Ltac keeps_db :=
  repeat first
    [ apply keeps_db_ret | apply keeps_db_throw | apply keeps_db_ask
    | apply keeps_db_emit | apply keeps_db_new_Date | apply keeps_db_logWithTimestamp
    | apply keeps_db_axios_get | apply keeps_db_prop
    | apply keeps_db_bind; [|intros ?]
    | apply keeps_db_try_catch; [|intros ?]
    | match goal with
      | |- keeps_db (if ?b then _ else _) => destruct b
      | |- keeps_db (let (_, _) := ?p in _) => destruct p
      | |- keeps_db (match ?x with _ => _ end) => destruct x
      end
    | assumption ].

Lemma keeps_db_fetchPortWeather (port : Port) : keeps_db (fetchPortWeather port).
Proof. unfold fetchPortWeather. keeps_db. Qed.

Lemma keeps_db_main_loop (total : Z) :
  forall ports i results successful failed,
    keeps_db (main_loop ports total i results successful failed).
Proof.
  induction ports as [|port ports IH]; intros i results successful failed; cbn [main_loop].
  - keeps_db.
  - pose proof (keeps_db_fetchPortWeather port). unfold sleep. keeps_db. apply IH.
Qed.

Lemma keeps_db_process_response :
  forall data locations processedData,
    keeps_db (process_response data locations processedData).
Proof.
  induction data as [|locationData data IH]; intros [|location locations] processedData;
    cbn [process_response]; try (keeps_db; fail).
  apply keeps_db_bind; [unfold process_location; keeps_db|intros ?; apply IH].
Qed.

Lemma keeps_db_fetchWeatherDataBatch (locations : list GridLocation) :
  keeps_db (fetchWeatherDataBatch locations).
Proof.
  unfold fetchWeatherDataBatch.
  destruct (Z.of_nat (length locations) =? 0); [keeps_db|].
  apply keeps_db_try_catch; [|intros ?; keeps_db].
  apply keeps_db_bind; [keeps_db|intros env].
  apply keeps_db_bind; [keeps_db|intros response].
  destruct (snd response); try (keeps_db; fail). apply keeps_db_process_response.
Qed.

Lemma keeps_db_retry_loop (fetch : list GridLocation -> M (list PointSnapshot))
    (batchNum maxRetries_ : Z) (batchLocations : list GridLocation) :
  (forall batch, keeps_db (fetch batch)) ->
  forall remaining retry retryDelay allProcessedData,
    keeps_db (retry_loop fetch batchNum maxRetries_ batchLocations remaining retry retryDelay
                allProcessedData).
Proof.
  intros Hfetch. induction remaining as [|remaining IH]; intros retry retryDelay acc;
    cbn [retry_loop]; [keeps_db|].
  apply keeps_db_bind.
  - pose proof (Hfetch batchLocations). unfold Date_now, sleep. keeps_db.
  - intros [acc'|delay]; [keeps_db|apply IH].
Qed.

Lemma keeps_db_batch_loop (fetch : list GridLocation -> M (list PointSnapshot))
    (totalBatches : Z) :
  (forall batch, keeps_db (fetch batch)) ->
  forall batches batchNum allProcessedData,
    keeps_db (batch_loop fetch totalBatches batches batchNum allProcessedData).
Proof.
  intros Hfetch. induction batches as [|batch batches IH]; intros batchNum acc;
    cbn [batch_loop]; [keeps_db|].
  unfold Date_now, sleep.
  apply keeps_db_bind; [keeps_db|intros ?].
  apply keeps_db_bind; [keeps_db|intros ?].
  apply keeps_db_bind; [keeps_db|intros env].
  apply keeps_db_bind; [apply keeps_db_retry_loop; exact Hfetch|intros acc'].
  apply keeps_db_bind; [keeps_db|intros ?]. apply IH.
Qed.

Lemma keeps_db_fetchWeatherDataBatched (locations : list GridLocation) (size : Z) :
  keeps_db (fetchWeatherDataBatched locations size).
Proof.
  unfold fetchWeatherDataBatched, fetchWeatherDataBatched_with.
  destruct (Z.of_nat (length locations) =? 0); [keeps_db|].
  destruct (batchArray locations size) as [batches|]; [|intros env w; reflexivity].
  unfold Date_now.
  pose proof (@keeps_db_batch_loop fetchWeatherDataBatch (Z.of_nat (length batches))
                keeps_db_fetchWeatherDataBatch batches 0 []).
  keeps_db.
Qed.

(* ================================================================== *)
(** * Computations that issue no request *)
(* ================================================================== *)

Lemma gets_of_app (a b : list Event) : gets_of (a ++ b) = gets_of a ++ gets_of b.
Proof.
  induction a as [|e a IH]; [reflexivity|].
  destruct e; cbn [app gets_of]; rewrite IH; reflexivity.
Qed.

Lemma keeps_traffic_ret (A : Type) (a : A) : keeps_traffic (ret a).
Proof. intros env w. split; reflexivity. Qed.

Lemma keeps_traffic_throw (A : Type) (e : Error) : keeps_traffic (throw (A := A) e).
Proof. intros env w. split; reflexivity. Qed.

Lemma keeps_traffic_bind (A B : Type) (m : M A) (k : A -> M B) :
  keeps_traffic m -> (forall a, keeps_traffic (k a)) -> keeps_traffic (bind m k).
Proof.
  intros Hm Hk env w. unfold bind. specialize (Hm env w).
  destruct (m env w) as [[a|e|] w1]; cbn [snd] in *; [|exact Hm|exact Hm].
  destruct (Hk a env w1) as [H1 H2]. destruct Hm as [H3 H4]. split; congruence.
Qed.

Lemma keeps_traffic_try_catch (A : Type) (m : M A) (handler : Error -> M A) :
  keeps_traffic m -> (forall e, keeps_traffic (handler e)) -> keeps_traffic (try_catch m handler).
Proof.
  intros Hm Hh env w. unfold try_catch. specialize (Hm env w).
  destruct (m env w) as [[a|e|] w1]; cbn [snd] in *; [exact Hm| |exact Hm].
  destruct (Hh e env w1) as [H1 H2]. destruct Hm as [H3 H4]. split; congruence.
Qed.

Lemma keeps_traffic_logWithTimestamp (msg : LogMessage) (level : string) :
  keeps_traffic (logWithTimestamp msg level).
Proof.
  intros env w. rewrite logWithTimestamp_run. cbn [snd requests trace set_trace set_ticks].
  rewrite gets_of_app, app_nil_r. split; reflexivity.
Qed.

Lemma keeps_traffic_console_log (msg : LogMessage) : keeps_traffic (console_log msg).
Proof.
  intros env w. cbn. rewrite gets_of_app, app_nil_r. split; reflexivity.
Qed.

Lemma keeps_traffic_sleep (ms : Z) : keeps_traffic (sleep ms).
Proof.
  intros env w. cbn. rewrite gets_of_app, app_nil_r. split; reflexivity.
Qed.

Lemma keeps_traffic_new_Date : keeps_traffic new_Date.
Proof. intros env w. split; reflexivity. Qed.

Lemma keeps_traffic_mapM_stamp (A B : Type) (g : A -> Z -> B) (l : list A) :
  keeps_traffic (mapM (fun a => now <- new_Date ;; ret (g a now)) l).
Proof. intros env w. rewrite mapM_stamp. split; reflexivity. Qed.

Lemma keeps_traffic_find (D : Type) (m : Model D) (f : D -> bool) : keeps_traffic (find m f).
Proof. intros env w. rewrite find_run. split; reflexivity. Qed.

Lemma keeps_traffic_insertMany (D : Type) (m : Model D) (docs : list D) :
  keeps_traffic (insertMany m docs).
Proof. intros env w. rewrite insertMany_run. split; reflexivity. Qed.

Lemma keeps_traffic_bulkWrite (D : Type) (m : Model D) (operations : list (UpdateOne D)) :
  keeps_traffic (bulkWrite m operations).
Proof. intros env w. rewrite bulkWrite_run. split; reflexivity. Qed.

Lemma keeps_traffic_deleteMany (D : Type) (m : Model D) (f : D -> bool) :
  keeps_traffic (deleteMany m f).
Proof.
  intros env w. rewrite deleteMany_run. destruct (store_fault env (store_ops w)); split; reflexivity.
Qed.

Ltac keeps_traffic :=
  repeat first
    [ apply keeps_traffic_ret | apply keeps_traffic_throw
    | apply keeps_traffic_logWithTimestamp | apply keeps_traffic_console_log
    | apply keeps_traffic_sleep | apply keeps_traffic_new_Date
    | apply keeps_traffic_mapM_stamp | apply keeps_traffic_find
    | apply keeps_traffic_insertMany | apply keeps_traffic_bulkWrite
    | apply keeps_traffic_deleteMany
    | apply keeps_traffic_bind; [|intros ?]
    | apply keeps_traffic_try_catch; [|intros ?]
    | match goal with
      | |- keeps_traffic (if ?b then _ else _) => destruct b
      | |- keeps_traffic (let (_, _) := ?p in _) => destruct p
      | |- keeps_traffic (match ?x with _ => _ end) => destruct x
      end
    | assumption ].

Lemma keeps_traffic_archive (Snap Key : Type) (c : WeatherClass Snap Key) (keys : list Key) :
  keeps_traffic (archive c keys).
Proof. unfold archive. keeps_traffic. Qed.

Lemma keeps_traffic_save_upsert (Snap Key : Type) (c : WeatherClass Snap Key)
    (data : list Snap) :
  keeps_traffic (save_upsert c data).
Proof.
  unfold save_upsert. pose proof (keeps_traffic_archive c (map (key c) data)).
  destruct (Z.of_nat (length data) =? 0); [keeps_traffic|].
  apply keeps_traffic_bind; [assumption|intros count].
  apply keeps_traffic_bind; [keeps_traffic|intros _].
  apply keeps_traffic_bind; [apply keeps_traffic_mapM_stamp|intros operations].
  keeps_traffic.
Qed.

Lemma keeps_traffic_save_replace (Snap Key : Type) (c : WeatherClass Snap Key)
    (data : list Snap) :
  keeps_traffic (save_replace c data).
Proof.
  unfold save_replace. pose proof (keeps_traffic_archive c (map (key c) data)).
  destruct (Z.of_nat (length data) =? 0); [keeps_traffic|].
  apply keeps_traffic_bind; [assumption|intros count].
  apply keeps_traffic_bind; [keeps_traffic|intros _].
  apply keeps_traffic_bind; [keeps_traffic|intros _].
  apply keeps_traffic_bind; [apply keeps_traffic_mapM_stamp|intros documents].
  keeps_traffic.
Qed.

Lemma keeps_traffic_savePortWeatherData (data : list PortSnapshot) :
  keeps_traffic (savePortWeatherData data).
Proof. exact (keeps_traffic_save_upsert PortClass data). Qed.
(* ================================================================== *)
(** * More about the grid collector *)
(* ================================================================== *)

Lemma subsequence_nil_l (A : Type) (l : list A) : subsequence [] l.
Proof. induction l as [|a l IH]; [constructor|apply subsequence_skip; exact IH]. Qed.

Lemma subsequence_refl (A : Type) (l : list A) : subsequence l l.
Proof. induction l as [|a l IH]; [constructor|apply subsequence_take; exact IH]. Qed.

Lemma subsequence_app (A : Type) (l1 l1' : list A) :
  subsequence l1 l1' -> forall l2 l2', subsequence l2 l2' -> subsequence (l1 ++ l2) (l1' ++ l2').
Proof.
  induction 1 as [|a l l' _ IH|a l l' _ IH]; intros l2 l2' H2; cbn [app].
  - exact H2.
  - apply subsequence_skip. apply IH. exact H2.
  - apply subsequence_take. apply IH. exact H2.
Qed.

Lemma subsequence_length (A : Type) (l l' : list A) :
  subsequence l l' -> (length l <= length l')%nat.
Proof. induction 1; cbn [length]; lia. Qed.

Lemma subsequence_In (A : Type) (l l' : list A) :
  subsequence l l' -> forall a, In a l -> In a l'.
Proof.
  induction 1 as [|b l l' _ IH|b l l' _ IH]; intros a Ha.
  - contradiction.
  - right. apply IH. exact Ha.
  - destruct Ha as [<-|Ha]; [left; reflexivity|right; apply IH; exact Ha].
Qed.

Lemma usable_subsequence :
  forall data batch locations, usable data batch = Some locations -> subsequence locations batch.
Proof.
  induction data as [|locationData data IH]; intros [|location batch] locations H;
    cbn [usable] in H; try (injection H as <-; apply subsequence_nil_l).
  destruct (get_property locationData "current") as [e|current]; [discriminate|].
  destruct (usable data batch) as [rest|] eqn:Hrest; [|discriminate].
  injection H as <-. specialize (IH batch rest Hrest).
  destruct (truthy current); [apply subsequence_take|apply subsequence_skip]; exact IH.
Qed.

Lemma usable_null :
  forall data batch, In VNull (firstn (length batch) data) -> usable data batch = None.
Proof.
  induction data as [|locationData data IH]; intros [|location batch] H;
    cbn [length firstn] in H; try contradiction.
  cbn [usable]. destruct H as [->|H]; [reflexivity|].
  rewrite (IH batch H). destruct (get_property locationData "current"); reflexivity.
Qed.

Lemma served_subsequence (outcome : HttpOutcome) (batch : list GridLocation) :
  subsequence (served outcome batch) batch.
Proof.
  unfold served. destruct outcome as [st data|e]; [|apply subsequence_nil_l].
  destruct data; try apply subsequence_nil_l.
  destruct (usable items batch) as [locations|] eqn:H; [|apply subsequence_nil_l].
  exact (usable_subsequence _ _ H).
Qed.

(** X10 — One request for a batch never fails the caller.
    [fetchWeatherDataBatch] always returns: for an empty batch the empty
    list, with no request; otherwise after exactly one request.  It
    leaves the database alone.  The snapshots it returns are those of
    locations of the batch, in the order of the batch: their locations
    form a subsequence of the batch.  And a
    [null] entry in the response, at an index the batch has, costs the
    whole batch: the snapshots built from the entries before it are
    discarded with it. *)
Theorem fetchWeatherDataBatch_never_throws (batch : list GridLocation) (env : Env)
    (w : World) :
  exists data w',
    fetchWeatherDataBatch batch env w = (Ok data, w')
    /\ db w' = db w
    /\ requests w' = (requests w + match batch with [] => 0 | _ :: _ => 1 end)%nat
    /\ subsequence (map location_of data) batch
    /\ (forall st entries,
          axios_get env (requests w) = Resolved st (VArr entries) ->
          In VNull (firstn (length batch) entries) ->
          data = []).
Proof.
  destruct batch as [|location batch].
  - exists [], w. split; [reflexivity|]. split; [reflexivity|].
    split; [cbn; lia|]. split; [constructor|reflexivity].
  - destruct (@fetchWeatherDataBatch_spec (location :: batch) env w ltac:(discriminate))
      as (data & w' & Hrun & Hmap & Hreq & _).
    exists data, w'. split; [exact Hrun|].
    split; [pose proof (keeps_db_fetchWeatherDataBatch (location :: batch) env w) as Hdb;
            rewrite Hrun in Hdb; exact Hdb|].
    split; [lia|].
    split; [rewrite Hmap; apply served_subsequence|].
    intros st entries Hout Hnull. rewrite Hout in Hmap. unfold served in Hmap.
    rewrite (usable_null _ _ Hnull) in Hmap. destruct data; [reflexivity|discriminate].
Qed.

(** A response whose second entry is [null]: the snapshot of the first
    location is lost with the rest. *)
Example null_entry_discards_the_batch :
  let batch := [mkGridLocation "a" 0 100; mkGridLocation "b" 1 100; mkGridLocation "c" 2 100] in
  let env := env_of 0 (fun _ => Resolved 200 (VArr [entry; VNull; entry])) in
  fst (fetchWeatherDataBatch batch env world0) = Ok []
  /\ let env' := env_of 0 (fun _ => Resolved 200 (VArr [entry; VObj []; entry])) in
     option_map (map location_of)
       (match fst (fetchWeatherDataBatch batch env' world0) with
        | Ok data => Some data
        | _ => None
        end)
     = Some [mkGridLocation "a" 0 100; mkGridLocation "c" 2 100].
Proof. vm_compute. split; reflexivity. Qed.

Lemma delivered_subsequence (env : Env) (R : nat) :
  forall batches k, subsequence (delivered env R batches k) (concat batches).
Proof.
  induction batches as [|batch batches IH]; intros k; cbn [delivered concat]; [constructor|].
  destruct (first_served env batch R k) as [j|].
  - apply subsequence_app; [apply served_subsequence|apply IH].
  - apply (subsequence_app (subsequence_nil_l batch) (IH (k + R)%nat)).
Qed.

Lemma nothing_delivered_without_attempts (env : Env) :
  forall batches k, delivered env 0 batches k = [] /\ requests_issued env 0 batches k = 0%nat.
Proof.
  induction batches as [|batch batches IH]; intros k; cbn [delivered requests_issued first_served];
    [split; reflexivity|].
  destruct (IH (k + 0)%nat) as [-> ->]. split; reflexivity.
Qed.

(** A run of [fetchWeatherDataBatched] with a positive batch size. *)
Lemma fetchWeatherDataBatched_run (env : Env) (w : World) (locations : list GridLocation)
    (size : Z) :
  locations <> [] ->
  0 < size ->
  exists batches output w',
    concat batches = locations
    /\ fetchWeatherDataBatched locations size env w = (Ok output, w')
    /\ map location_of output
       = delivered env (Z.to_nat (maxRetries (config env))) batches (requests w)
    /\ requests w'
       = (requests w
          + requests_issued env (Z.to_nat (maxRetries (config env))) batches (requests w))%nat.
Proof.
  intros Hne Hsize.
  destruct (batchArray_loop_spec locations Hsize (length locations) (i := 0) [])
    as (batches & Hbatches & Hcat & _ & _ & Hall); [lia|lia|].
  cbn [app] in Hbatches. cbn [Z.to_nat skipn] in Hcat.
  exists batches.
  unfold fetchWeatherDataBatched, fetchWeatherDataBatched_with, batchArray.
  rewrite (length_nonzero Hne), Hbatches.
  unfold bind at 1. rewrite logWithTimestamp_run.
  unfold bind at 1. rewrite logWithTimestamp_run.
  unfold bind at 1. rewrite logWithTimestamp_run.
  unfold bind at 1. rewrite logWithTimestamp_run.
  unfold bind at 1. unfold Date_now at 1, new_Date at 1.
  assert (Htotal : Z.of_nat (length batches) = 0 + Z.of_nat (length batches)) by lia.
  match goal with
  | |- context [bind (batch_loop _ _ _ _ _) _ _ ?w0] =>
      destruct (@batch_loop_spec env (Z.of_nat (length batches)) batches 0 [] w0 Hall Htotal)
        as (output & w1 & Hloop & Hlocs & Hreq & _)
  end.
  cbn [requests trace set_trace set_ticks map app] in Hlocs, Hreq.
  unfold bind at 1. rewrite Hloop.
  cbv [bind Date_now new_Date logWithTimestamp emit ret].
  eexists. eexists. split; [exact Hcat|]. split; [reflexivity|].
  cbn [requests trace set_trace set_ticks]. split; [exact Hlocs|exact Hreq].
Qed.

(** X11 — What the batched fetch can return.  With a positive batch size
    [fetchWeatherDataBatched] always returns, and it leaves the database
    alone; the locations of the snapshots it returns form a subsequence
    of its input: none is invented or moved, and none occurs more often
    than in the input.
    With a retry budget that is not positive it issues no request and
    returns nothing. *)
Theorem fetchWeatherDataBatched_output (locations : list GridLocation) (size : Z)
    (env : Env) (w : World) :
  0 < size ->
  exists output w',
    fetchWeatherDataBatched locations size env w = (Ok output, w')
    /\ db w' = db w
    /\ subsequence (map location_of output) locations
    /\ (length output <= length locations)%nat
    /\ (maxRetries (config env) <= 0 -> output = [] /\ requests w' = requests w).
Proof.
  intros Hsize. destruct locations as [|location locations].
  - exists [], w. repeat split; try reflexivity; try constructor.
  - destruct (@fetchWeatherDataBatched_run env w (location :: locations) size
                ltac:(discriminate) Hsize)
      as (batches & output & w' & Hcat & Hrun & Hlocs & Hreq).
    exists output, w'. split; [exact Hrun|].
    split; [pose proof (keeps_db_fetchWeatherDataBatched (location :: locations) size env w)
              as Hdb; rewrite Hrun in Hdb; exact Hdb|].
    assert (Hsub : subsequence (map location_of output) (location :: locations))
      by (rewrite Hlocs, <- Hcat; apply delivered_subsequence).
    split; [exact Hsub|].
    split; [apply subsequence_length in Hsub; rewrite length_map in Hsub; exact Hsub|].
    intros Hbudget.
    replace (Z.to_nat (maxRetries (config env))) with 0%nat in Hlocs, Hreq by lia.
    destruct (nothing_delivered_without_attempts env batches (requests w)) as [Hd Hi].
    rewrite Hd in Hlocs. rewrite Hi in Hreq.
    split; [destruct output; [reflexivity|discriminate]|lia].
Qed.

Lemma fetchWeatherDataBatched_output_witness :
  0 < 50
  /\ exists output w',
       fetchWeatherDataBatched grid_locations 50 (env_of 0 second_batch_fails) world0
       = (Ok output, w')
       /\ subsequence (map location_of output) grid_locations.
Proof.
  assert (H : 0 < 50) by lia.
  split; [exact H|].
  destruct (@fetchWeatherDataBatched_output grid_locations 50 (env_of 0 second_batch_fails)
              world0 H) as (output & w' & Hrun & _ & Hsub & _).
  exists output, w'. split; assumption.
Defined.

(* ================================================================== *)
(** * More about the port collector *)
(* ================================================================== *)

(** What one fetch leaves in the trace: one request, no sleep. *)
Lemma fetchPortWeather_trace (port : Port) (env : Env) (w : World) :
  gets_of (trace (snd (fetchPortWeather port env w)))
  = gets_of (trace w) ++ [request_for env port]
  /\ sleeps_of (trace (snd (fetchPortWeather port env w))) = sleeps_of (trace w).
Proof.
  cbv [fetchPortWeather try_catch bind ask logWithTimestamp axios_get_ new_Date emit ret].
  cbn [requests set_trace set_ticks ticks trace].
  destruct (axios_get env (requests w)) as [st data|e];
    [destruct ((st =? 200) && truthy data)| ];
    cbn [snd trace set_trace set_ticks set_requests];
    rewrite !gets_of_app, !sleeps_of_app; cbn [gets_of sleeps_of];
    rewrite !app_nil_r; split; reflexivity.
Qed.

Lemma main_loop_trace (env : Env) (total : Z) :
  forall (ports : list Port) (w : World) (i : Z) (results : list PortSnapshot)
         (successful failed : Z) r w',
    main_loop ports total i results successful failed env w = (r, w') ->
    gets_of (trace w') = gets_of (trace w) ++ map (request_for env) ports
    /\ sleeps_of (trace w')
       = sleeps_of (trace w) ++ repeat (requestDelayMs (config env)) (length ports).
Proof.
  induction ports as [|port ports IH]; intros w i results successful failed r w' Hrun.
  - injection Hrun as <- <-. cbn. rewrite !app_nil_r. split; reflexivity.
  - cbn [main_loop] in Hrun. unfold bind at 1 in Hrun. rewrite logWithTimestamp_run in Hrun.
    unfold bind at 1 in Hrun.
    match type of Hrun with
    | context [fetchPortWeather port env ?w0] =>
        destruct (fetchPortWeather_spec port env w0) as (result & w1 & Hfetch & _);
        destruct (fetchPortWeather_trace port env w0) as [Hg Hs]
    end.
    rewrite Hfetch in Hg, Hs, Hrun. cbn [snd trace set_trace set_ticks] in Hg, Hs.
    rewrite gets_of_app in Hg. rewrite sleeps_of_app in Hs.
    cbn [gets_of sleeps_of] in Hg, Hs. rewrite app_nil_r in Hg, Hs.
    unfold bind at 1 in Hrun.
    set (counted := (if (status result =? "success")%string
                     then logWithTimestamp PortSuccess "info" ;; ret (successful + 1, failed)
                     else logWithTimestamp (PortFailed (error_or_unknown result)) "warn" ;;
                          ret (successful, failed + 1)) env w1) in Hrun.
    assert (Hc : exists counts w2, counted = (Ok counts, w2)
                   /\ gets_of (trace w2) = gets_of (trace w1)
                   /\ sleeps_of (trace w2) = sleeps_of (trace w1)).
    { subst counted. destruct (status result =? "success")%string;
        eexists; eexists; (split; [reflexivity|]);
        cbn [trace set_trace set_ticks]; rewrite gets_of_app, sleeps_of_app;
        cbn [gets_of sleeps_of]; rewrite !app_nil_r; split; reflexivity. }
    destruct Hc as ([successful1 failed1] & w2 & Hcounted & Hg2 & Hs2).
    rewrite Hcounted in Hrun. clear counted Hcounted.
    unfold bind at 1 in Hrun.
    set (progressed := (if (i + 1) mod 50 =? 0
                        then logWithTimestamp (Progress (i + 1) total) "info" ;;
                             logWithTimestamp (ProgressCounts successful1 failed1) "info"
                        else ret tt) env w2) in Hrun.
    assert (Hp : exists w3, progressed = (Ok tt, w3)
                            /\ gets_of (trace w3) = gets_of (trace w2)
                            /\ sleeps_of (trace w3) = sleeps_of (trace w2)).
    { subst progressed. destruct ((i + 1) mod 50 =? 0); eexists; (split; [reflexivity|]);
        cbn [trace set_trace set_ticks]; rewrite ?gets_of_app, ?sleeps_of_app;
        cbn [gets_of sleeps_of]; rewrite ?app_nil_r; split; reflexivity. }
    destruct Hp as (w3 & Hprogressed & Hg3 & Hs3).
    rewrite Hprogressed in Hrun. clear progressed Hprogressed.
    unfold bind at 1 in Hrun. unfold ask at 1 in Hrun. unfold bind at 1 in Hrun.
    unfold sleep at 1, emit at 1 in Hrun.
    destruct (IH _ _ _ _ _ _ _ Hrun) as [Hg' Hs'].
    cbn [trace set_trace] in Hg', Hs'.
    rewrite gets_of_app in Hg'. rewrite sleeps_of_app in Hs'.
    cbn [gets_of sleeps_of] in Hg', Hs'. rewrite app_nil_r in Hg'.
    split.
    + rewrite Hg', Hg3, Hg2, Hg. cbn [map]. rewrite <- app_assoc. reflexivity.
    + rewrite Hs', Hs3, Hs2, Hs. cbn [length repeat]. rewrite <- app_assoc. reflexivity.
Qed.

(** X12 — The traffic of the port loop.  For every list of ports the loop
    issues exactly one request per port, in the order of the list, each
    to the port URL with the port's slug and with a timeout of 30 s,
    whatever the outcomes of the requests before it; it sleeps the
    configured delay after every port, the last one too; and it leaves
    the database alone. *)
Theorem collect_traffic (ports : list Port) (env : Env) (w : World) :
  let w' := snd (collect ports env w) in
  gets_of (trace w') = gets_of (trace w) ++ map (request_for env) ports
  /\ requests w' = (requests w + length ports)%nat
  /\ sleeps_of (trace w')
     = sleeps_of (trace w) ++ repeat (requestDelayMs (config env)) (length ports)
  /\ db w' = db w.
Proof.
  cbv zeta. unfold collect.
  destruct (main_loop_spec env (Z.of_nat (length ports)) ports w 0 [] 0 0)
    as (results & successful & failed & w' & Hloop & _ & _ & _ & _ & Hreq & Hdb).
  destruct (main_loop_trace _ _ _ _ _ _ _ _ Hloop) as [Hg Hs].
  rewrite Hloop. cbn [snd]. repeat split; assumption.
Qed.
(* ================================================================== *)
(** * Upserts, at the level of identities *)
(* ================================================================== *)

Section UpsertIdentities.

Variables Snap Key : Type.
Variable c : WeatherClass Snap Key.
Hypothesis L : Lawful c.

Local Abbreviation keys l := (map (fun doc : Document Snap => key c (fields doc)) l).

Lemma existsb_stored (k : Key) (l : list (Document Snap)) :
  existsb (fun k' => key_eqb c k' k) (keys l)
  = match List.filter (has_key c k) l with [] => false | _ :: _ => true end.
Proof.
  induction l as [|doc l IH]; [reflexivity|].
  cbn [map existsb List.filter]. unfold has_key at 1.
  destruct (key_eqb c (key c (fields doc)) k); [reflexivity|exact IH].
Qed.

Lemma update_first_keys (s : Snap) (now : Z) :
  forall l l',
    update_first (op_filter (upsert_operation c s now))
      (op_update (upsert_operation c s now)) l = Some l' ->
    keys l' = keys l /\ List.filter (has_key c (key c s)) l <> [].
Proof.
  induction l as [|doc l IH]; intros l' H; [discriminate|].
  cbn [update_first] in H. cbn [List.filter].
  change (op_filter (upsert_operation c s now) doc) with (has_key c (key c s) doc) in H.
  destruct (has_key c (key c s) doc) eqn:Hdoc.
  - injection H as <-. split; [|discriminate].
    cbn [map op_update upsert_operation fields]. rewrite (set_fields_key L).
    apply (has_key_eq L) in Hdoc. rewrite Hdoc. reflexivity.
  - destruct (update_first _ _ l) as [rest|] eqn:Hrest; [|discriminate].
    injection H as <-. destruct (IH rest eq_refl) as [Hk Hne].
    split; [cbn [map]; rewrite Hk; reflexivity|exact Hne].
Qed.

Lemma apply_updateOne_keys (s : Snap) (now : Z) (st : list (Document Snap) * nat) :
  keys (fst (apply_updateOne (Current c) st (upsert_operation c s now)))
  = keys (fst st)
    ++ if existsb (fun k' => key_eqb c k' (key c s)) (keys (fst st)) then [] else [key c s].
Proof.
  destruct st as [l next]. unfold apply_updateOne. cbn [fst snd]. rewrite existsb_stored.
  destruct (update_first _ _ l) as [l'|] eqn:Hu.
  - destruct (update_first_keys _ _ _ Hu) as [Hk Hne]. cbn [fst]. rewrite Hk.
    destruct (List.filter (has_key c (key c s)) l); [congruence|].
    rewrite app_nil_r. reflexivity.
  - apply update_first_miss in Hu.
    change (op_filter (upsert_operation c s now)) with (has_key c (key c s)) in Hu.
    rewrite Hu. cbn [op_upsert upsert_operation]. unfold insert_doc.
    rewrite (current_doc_id L). cbn [_id fst]. rewrite (current_with_id L).
    rewrite map_app. reflexivity.
Qed.

Lemma upserts_keys (env : Env) :
  forall data tick st,
    keys (fst (fold_left (apply_updateOne (Current c))
                 (stamp (upsert_operation c) env tick data) st))
    = keys (fst st) ++ new_identities (key_eqb c) (keys (fst st)) (map (key c) data).
Proof.
  induction data as [|s data IH]; intros tick st.
  - cbn. rewrite app_nil_r. reflexivity.
  - cbn [stamp fold_left map new_identities]. rewrite IH, apply_updateOne_keys.
    destruct (existsb _ (keys (fst st))).
    + rewrite app_nil_r. reflexivity.
    + rewrite <- app_assoc. reflexivity.
Qed.

Lemma existsb_same (k : Key) (stored : list Key) :
  existsb (fun k' => key_eqb c k' k) stored = false -> ~ In k stored.
Proof.
  intros H Hin. assert (E : existsb (fun k' => key_eqb c k' k) stored = true).
  { apply existsb_exists. exists k. split; [exact Hin|]. apply (key_eqb_eq L). reflexivity. }
  congruence.
Qed.

Lemma new_identities_NoDup :
  forall given stored,
    NoDup stored -> NoDup (stored ++ new_identities (key_eqb c) stored given).
Proof.
  induction given as [|k given IH]; intros stored Hnd.
  - cbn. rewrite app_nil_r. exact Hnd.
  - cbn [new_identities]. destruct (existsb _ stored) eqn:E; [apply IH; exact Hnd|].
    change (k :: new_identities (key_eqb c) (stored ++ [k]) given)
      with ([k] ++ new_identities (key_eqb c) (stored ++ [k]) given).
    rewrite app_assoc. apply IH.
    apply NoDup_app; [exact Hnd|repeat constructor; intros []|].
    intros a Ha [<-|[]]. exact (existsb_same _ _ E Ha).
Qed.

Lemma save_upsert_identities :
  extends_identities (key c) (key_eqb c) (collection (Current c)) (save_upsert c).
Proof.
  intros env w data r w' H. cbv zeta.
  assert (Hex : exists n,
             (r = Ok tt -> firstn n data = data)
             /\ keys (collection (Current c) (db w'))
                = keys (collection (Current c) (db w))
                  ++ new_identities (key_eqb c) (keys (collection (Current c) (db w)))
                       (map (key c) (firstn n data))).
  { destruct data as [|s data].
    - injection H as <- <-. exists 0%nat. cbn. rewrite app_nil_r. split; reflexivity.
    - assert (Hne : s :: data <> []) by discriminate.
      destruct (@save_upsert_run _ _ c L (s :: data) env w Hne r w' H)
        as (r1 & w1 & Harch & Hcases).
      destruct (@archive_spec _ _ c L _ _ _ _ _ Harch) as (Hcur & _).
      destruct Hcases as [(e & _ & -> & ->)|(count & tick & next & applied & _ & _ & Hw & Hr)].
      + exists 0%nat. rewrite Hcur. cbn [firstn map new_identities]. rewrite app_nil_r.
        split; [discriminate|reflexivity].
      + rewrite Hw, upserts_keys. cbn [fst]. rewrite Hcur.
        destruct Hr as [[_ ->]|(n & -> & ->)].
        * exists (length (s :: data)). rewrite firstn_all. split; reflexivity.
        * exists n. split; [discriminate|reflexivity]. }
  destruct Hex as (n & Hn & Hkeys).
  split; [exists n; split; assumption|].
  intros Hnd. rewrite Hkeys. apply new_identities_NoDup. exact Hnd.
Qed.

End UpsertIdentities.

(** X13 — Upserts never lose or duplicate an identity.  For the city and
    the port class, however a write ends, the identities stored
    afterwards are those stored before, in their order, followed by the
    new identities among the snapshots written — each once, even when
    the new set names one several times; so no document is deleted, and a
    collection that held one document per identity still does. *)
Theorem upserts_extend_identities :
  extends_identities name String.eqb city_weather saveCityWeatherData
  /\ extends_identities slug String.eqb port_weather savePortWeatherData.
Proof.
  split.
  - exact (save_upsert_identities CityClass_lawful).
  - exact (save_upsert_identities PortClass_lawful).
Qed.

(** A new set that names Jakarta twice and Medan, over a collection that
    holds Jakarta and Bandung: Medan is added once, Jakarta is not. *)
Example upsert_with_repeated_identity :
  let stored := [mkDocument (Some 1%nat) (city_snapshot "Jakarta" 30) 10;
                 mkDocument (Some 2%nat) (city_snapshot "Bandung" 24) 10] in
  let data := [city_snapshot "Jakarta" 31; city_snapshot "Medan" 28;
               city_snapshot "Jakarta" 32] in
  map (fun doc => (name (fields doc), weather_data (fields doc)))
    (city_weather (db (snd (saveCityWeatherData data (env_of 1000 network_down)
                              (world_of (mkDb stored [] [] [] [] []))))))
  = [("Jakarta", VObj [("temperature_2m", VNum 32)]);
     ("Bandung", VObj [("temperature_2m", VNum 24)]);
     ("Medan", VObj [("temperature_2m", VNum 28)])].
Proof. vm_compute. reflexivity. Qed.
(* ================================================================== *)
(** * More about [helpers.js]: slugs *)
(* ================================================================== *)

Lemma blank_char_clean (c : ascii) :
  clean_char (if is_lower_alnum (lower_ascii c) || is_space (lower_ascii c)
              then lower_ascii c else " "%char) = true.
Proof. destruct c as [[] [] [] [] [] [] [] []]; reflexivity. Qed.

Lemma lower_alnum_facts (c : ascii) :
  is_lower_alnum c = true ->
  is_space c = false /\ (c =? "-")%char = false /\ lower_ascii c = c.
Proof. destruct c as [[] [] [] [] [] [] [] []]; intros H; try discriminate H; repeat split. Qed.

Lemma space_facts (c : ascii) :
  is_space c = true -> is_lower_alnum c = false /\ (c =? "-")%char = false.
Proof. destruct c as [[] [] [] [] [] [] [] []]; intros H; try discriminate H; repeat split. Qed.

Lemma blank_others_clean (text : string) :
  all_chars clean_char (blank_others (toLowerCase text)) = true.
Proof.
  induction text as [|c text IH]; [reflexivity|].
  cbn [toLowerCase blank_others map_chars all_chars].
  rewrite blank_char_clean. exact IH.
Qed.

(** What [dash_runs] makes of lower-case letters, digits and white
    space: letters, digits and hyphens, no white space, no two hyphens in
    a row, and no hyphen first when the run had begun before. *)
Lemma dash_runs_shape :
  forall (s : string) (in_run : bool),
    all_chars clean_char s = true ->
    all_chars is_slug_char (dash_runs in_run s) = true
    /\ all_chars (fun c => negb (is_space c)) (dash_runs in_run s) = true
    /\ no_double_hyphen (dash_runs in_run s) = true
    /\ (in_run = true ->
        match dash_runs in_run s with
        | String c _ => (c =? "-")%char = false
        | EmptyString => True
        end).
Proof.
  induction s as [|c s IH]; intros in_run Hclean; [repeat split|].
  cbn [all_chars] in Hclean. apply andb_prop in Hclean. destruct Hclean as [Hc Hs].
  cbn [dash_runs]. destruct (is_space c) eqn:Hsp.
  - destruct in_run.
    + exact (IH true Hs).
    + destruct (IH true Hs) as (H1 & H2 & H3 & H4). specialize (H4 eq_refl).
      cbn [all_chars]. rewrite H1, H2. repeat split; try discriminate.
      cbn [no_double_hyphen]. destruct (dash_runs true s) as [|d rest]; [reflexivity|].
      rewrite H4, andb_false_r. exact H3.
  - unfold clean_char in Hc. rewrite Hsp, orb_false_r in Hc.
    destruct (lower_alnum_facts c Hc) as (_ & Hhy & _).
    destruct (IH false Hs) as (H1 & H2 & H3 & _).
    cbn [all_chars]. unfold is_slug_char at 1. rewrite Hc, Hsp, H1, H2.
    repeat split; [|intros _; exact Hhy].
    cbn [no_double_hyphen]. destruct (dash_runs false s) as [|d rest]; [reflexivity|].
    rewrite Hhy. exact H3.
Qed.

Lemma trim_start_no_space (s : string) :
  all_chars (fun c => negb (is_space c)) s = true -> trim_start s = s.
Proof.
  destruct s as [|c s]; [reflexivity|]. cbn [all_chars trim_start].
  intros H. apply andb_prop in H. destruct H as [Hc _].
  destruct (is_space c); [discriminate|reflexivity].
Qed.

Lemma trim_end_no_space (s : string) :
  all_chars (fun c => negb (is_space c)) s = true -> trim_end s = s.
Proof.
  induction s as [|c s IH]; [reflexivity|]. cbn [all_chars trim_end].
  intros H. apply andb_prop in H. destruct H as [Hc Hs]. rewrite (IH Hs).
  destruct s; [|reflexivity]. destruct (is_space c); [discriminate|reflexivity].
Qed.

(** The [trim] at the end of [createSlug] finds no white space left. *)
Lemma createSlug_untrimmed (text : string) :
  createSlug text = dash_runs false (blank_others (toLowerCase text)).
Proof.
  unfold createSlug, trim.
  destruct (dash_runs_shape (blank_others (toLowerCase text)) false (blank_others_clean text))
    as (_ & Hns & _).
  rewrite (trim_start_no_space _ Hns). apply trim_end_no_space. exact Hns.
Qed.

(** Slugging what is already shaped like a slug changes nothing. *)
Lemma dash_runs_of_slug :
  forall (s : string) (in_run : bool),
    all_chars is_slug_char s = true ->
    no_double_hyphen s = true ->
    (in_run = true -> match s with String c _ => (c =? "-")%char = false | _ => True end) ->
    dash_runs in_run (blank_others (toLowerCase s)) = s.
Proof.
  induction s as [|c s IH]; intros in_run Hall Hnd Hfirst; [reflexivity|].
  cbn [all_chars] in Hall. apply andb_prop in Hall. destruct Hall as [Hc Hs].
  assert (Hnd' : no_double_hyphen s = true).
  { cbn [no_double_hyphen] in Hnd. destruct s; [reflexivity|].
    apply andb_prop in Hnd. tauto. }
  cbn [toLowerCase blank_others map_chars].
  change (map_chars _ (toLowerCase s)) with (blank_others (toLowerCase s)).
  unfold is_slug_char in Hc. destruct (is_lower_alnum c) eqn:Hal.
  - destruct (lower_alnum_facts c Hal) as (Hsp & Hhy & Hlow).
    rewrite Hlow, Hal. cbn [orb dash_runs]. rewrite Hsp. f_equal.
    apply IH; [exact Hs|exact Hnd'|discriminate].
  - cbn [orb] in Hc. apply Ascii.eqb_eq in Hc. subst c.
    destruct in_run; [specialize (Hfirst eq_refl); discriminate|].
    change (is_lower_alnum (lower_ascii "-")) with false.
    change (is_space (lower_ascii "-")) with false.
    cbn [orb dash_runs]. change (is_space " ") with true. cbv iota.
    f_equal. apply IH; [exact Hs|exact Hnd'|]. intros _.
    cbn [no_double_hyphen] in Hnd. destruct s as [|d s]; [exact I|].
    apply andb_prop in Hnd. destruct Hnd as [Hd _].
    destruct (d =? "-")%char; [discriminate|reflexivity].
Qed.

(** X14 — The shape of a slug.  Whatever the text, [createSlug] returns
    lower-case letters, digits and hyphens only, with no two hyphens in a
    row; and slugging a slug returns it unchanged. *)
Theorem createSlug_shape (text : string) :
  all_chars is_slug_char (createSlug text) = true
  /\ no_double_hyphen (createSlug text) = true
  /\ createSlug (createSlug text) = createSlug text.
Proof.
  destruct (dash_runs_shape (blank_others (toLowerCase text)) false (blank_others_clean text))
    as (Hslug & _ & Hnd & _).
  rewrite <- createSlug_untrimmed in Hslug, Hnd.
  split; [exact Hslug|]. split; [exact Hnd|].
  rewrite (createSlug_untrimmed (createSlug text)).
  apply dash_runs_of_slug; [exact Hslug|exact Hnd|discriminate].
Qed.

Lemma dash_runs_ends_with_hyphen (c : ascii) :
  is_lower_alnum (lower_ascii c) = false ->
  forall (text : string) (in_run : bool),
    let slug := dash_runs in_run
                  (blank_others (toLowerCase (text ++ String c EmptyString))) in
    (exists rest, slug = (rest ++ "-")%string) \/ (in_run = true /\ slug = EmptyString).
Proof.
  intros Hc. induction text as [|d text IH]; intros in_run; cbv zeta.
  - cbn [append toLowerCase blank_others map_chars dash_runs].
    rewrite Hc. cbn [orb].
    destruct (is_space (lower_ascii c)) eqn:Hsp; [rewrite Hsp|];
      (destruct in_run; [right; split; reflexivity|left; exists EmptyString; reflexivity]).
  - cbn [append toLowerCase blank_others map_chars].
    change (map_chars _ (toLowerCase (text ++ String c EmptyString)))
      with (blank_others (toLowerCase (text ++ String c EmptyString))).
    cbn [dash_runs].
    match goal with |- context [is_space ?x] => destruct (is_space x) end.
    + destruct in_run; [exact (IH true)|]. left.
      destruct (IH true) as [(rest & ->)|(_ & ->)].
      * exists (String "-" rest). reflexivity.
      * exists EmptyString. reflexivity.
    + left. destruct (IH false) as [(rest & ->)|(Hf & _)]; [|discriminate].
      eexists (String _ rest). reflexivity.
Qed.

(** X15 — The [trim] of [createSlug] comes too late.  It runs after the
    white space has become hyphens, so it removes nothing: a text that
    begins with a character other than a letter or a digit gets a slug
    that begins with a hyphen, and one that ends with such a character a
    slug that ends with a hyphen. *)
Theorem createSlug_keeps_outer_hyphens (c : ascii) (text : string) :
  is_lower_alnum (lower_ascii c) = false ->
  (exists rest, createSlug (String c text) = String "-" rest)
  /\ (exists rest, createSlug (text ++ String c EmptyString) = (rest ++ "-")%string).
Proof.
  intros Hc. split.
  - rewrite createSlug_untrimmed. cbn [toLowerCase blank_others map_chars dash_runs].
    rewrite Hc. cbn [orb]. destruct (is_space (lower_ascii c)) eqn:Hsp.
    + rewrite Hsp. eexists. reflexivity.
    + eexists. reflexivity.
  - rewrite createSlug_untrimmed.
    destruct (@dash_runs_ends_with_hyphen c Hc text false) as [H|[Hf _]]; [exact H|discriminate].
Qed.

Lemma createSlug_keeps_outer_hyphens_witness :
  is_lower_alnum (lower_ascii " ") = false
  /\ createSlug " Pelabuhan Sabang" = "-pelabuhan-sabang"
  /\ exists rest, createSlug (String " " "Pelabuhan Sabang") = String "-" rest.
Proof.
  assert (H : is_lower_alnum (lower_ascii " ") = false) by reflexivity.
  split; [exact H|]. split; [reflexivity|].
  exact (proj1 (@createSlug_keeps_outer_hyphens " " "Pelabuhan Sabang" H)).
Defined.

(** The slugs of two of the default ports. *)
Example createSlug_of_ports :
  createSlug "Pelabuhan Tanjung Priok" = "pelabuhan-tanjung-priok"
  /\ createSlug "Pelabuhan  Teluk-Bayur (Padang) " = "pelabuhan-teluk-bayur-padang-".
Proof. vm_compute. split; reflexivity. Qed.
(* ================================================================== *)
(** * The freshness of the port class *)
(* ================================================================== *)

Lemma age_hours_le (now f1 f2 : Z) : f1 <= f2 -> (age_hours now f2 <= age_hours now f1)%Q.
Proof.
  intros H. unfold age_hours. apply to_double_le.
  apply Qdiv_le_r; [reflexivity|]. apply to_double_le. rewrite <- Zle_Qle. lia.
Qed.

Lemma greatest_spec (D : Type) (sort_key : D -> Z) :
  forall l,
    match greatest sort_key l with
    | Some d => In d l /\ forall d', In d' l -> sort_key d' <= sort_key d
    | None => l = []
    end.
Proof.
  induction l as [|d l IH]; [reflexivity|]. cbn [greatest].
  destruct (greatest sort_key l) as [d0|].
  - destruct IH as [Hin Hmax]. destruct (Z.ltb_spec (sort_key d) (sort_key d0)).
    + split; [right; exact Hin|]. intros d' [<-|H']; [lia|apply Hmax; exact H'].
    + split; [left; reflexivity|]. intros d' [<-|H']; [lia|].
      specialize (Hmax d' H'). lia.
  - subst l. split; [left; reflexivity|]. intros d' [<-|[]]. lia.
Qed.

Lemma filter_all (A : Type) (l : list A) : List.filter (fun _ => true) l = l.
Proof. induction l as [|a l IH]; [reflexivity|]. cbn. rewrite IH. reflexivity. Qed.

(** A run of [isPortWeatherFresh]. *)
Lemma isPortWeatherFresh_run (maxAgeHours : Q) (env : Env) (w : World) :
  isPortWeatherFresh maxAgeHours env w
  = match store_fault env (store_ops w) with
    | Some _ => (Throw store_error, bump_ops w)
    | None =>
        match greatest (fun doc => fetched_at (fields doc)) (port_weather (db w)) with
        | Some doc =>
            (Ok (Qle_bool (age_hours (clock env (ticks w)) (fetched_at (fields doc)))
                   maxAgeHours),
             set_ticks (S (ticks w)) (bump_ops w))
        | None => (Ok false, bump_ops w)
        end
    end.
Proof.
  unfold isPortWeatherFresh, getLatestPortTime, findOne_sorted_desc.
  cbv [bind store_op throw ret]. cbn [store_ops].
  destruct (store_fault env (store_ops w)); [reflexivity|].
  cbn [collection PortWeather db set_store_ops]. rewrite filter_all.
  destruct (greatest _ (port_weather (db w))); reflexivity.
Qed.

(** X16 — When the port class counts as fresh.  When its query succeeds,
    [isPortWeatherFresh] returns true exactly when some stored port
    snapshot — whatever its status — has an age of at most [maxAgeHours]
    hours at the clock reading, the age being the one [hoursSince]
    computes, in doubles; for a threshold of a whole number of hours, up
    to 2^30, that is: when some snapshot was fetched at most that many
    hours before the clock reading.  So it returns false on an empty
    collection.  When the query fails it throws.  It never changes the
    database and issues no request. *)
Theorem isPortWeatherFresh_newest (maxAgeHours : Q) (env : Env) (w : World) :
  let run := isPortWeatherFresh maxAgeHours env w in
  db (snd run) = db w
  /\ requests (snd run) = requests w
  /\ match store_fault env (store_ops w) with
     | Some _ => fst run = Throw store_error
     | None =>
         exists fresh,
           fst run = Ok fresh
           /\ (fresh = true <-> some_port_within maxAgeHours (clock env (ticks w)) (db w))
           /\ (forall hours : Z,
                 - 2 ^ 30 <= hours <= 2 ^ 30 ->
                 (maxAgeHours == inject_Z hours)%Q ->
                 (fresh = true <->
                  exists doc, In doc (port_weather (db w))
                              /\ clock env (ticks w) - fetched_at (fields doc)
                                 <= hours * 3600000))
     end.
Proof.
  cbv zeta. rewrite isPortWeatherFresh_run.
  destruct (store_fault env (store_ops w)); [repeat split|].
  pose proof (greatest_spec (fun doc : Document PortSnapshot => fetched_at (fields doc))
                (port_weather (db w))) as Hg.
  assert (Hwhole : forall hours fetched,
             - 2 ^ 30 <= hours <= 2 ^ 30 ->
             (maxAgeHours == inject_Z hours)%Q ->
             ((age_hours (clock env (ticks w)) fetched <= maxAgeHours)%Q
              <-> clock env (ticks w) - fetched <= hours * 3600000)).
  { intros hours fetched Hh Hmax. rewrite <- Qle_bool_iff.
    rewrite (Qleb_comp _ _ (Qeq_refl _) _ _ Hmax), (age_hours_whole_hours _ _ Hh).
    apply Z.leb_le. }
  destruct (greatest _ (port_weather (db w))) as [doc|].
  - destruct Hg as [Hin Hmax]. split; [reflexivity|]. split; [reflexivity|].
    eexists. split; [reflexivity|]. split.
    + rewrite Qle_bool_iff. split.
      * intros H. exists doc. split; assumption.
      * intros (doc' & Hin' & Hage). eapply Qle_trans; [|exact Hage].
        apply age_hours_le. apply (Hmax doc' Hin').
    + intros hours Hh Hq. rewrite Qle_bool_iff, (Hwhole hours _ Hh Hq). split.
      * intros H. exists doc. split; assumption.
      * intros (doc' & Hin' & Hage). specialize (Hmax doc' Hin'). cbv beta in Hmax. lia.
  - split; [reflexivity|]. split; [reflexivity|].
    exists false. split; [reflexivity|]. split.
    + split; [discriminate|].
      intros (doc' & Hin' & _). rewrite Hg in Hin'. contradiction.
    + intros hours _ _. split; [discriminate|].
      intros (doc' & Hin' & _). rewrite Hg in Hin'. contradiction.
Qed.

(** A snapshot fetched 0.3 hours ago counts as fresh under the threshold
    [0.3], which is a little less. *)
Example isPortWeatherFresh_rounds :
  fst (isPortWeatherFresh three_tenths (env_of 1081000 network_down) (world_of port_db))
  = Ok true
  /\ (three_tenths < inject_Z (1081000 - 1000) / inject_Z 3600000)%Q.
Proof. split; [vm_compute; reflexivity|unfold Qlt; vm_compute; reflexivity]. Qed.

Section LastUpsert.

Variables Snap Key : Type.
Variable c : WeatherClass Snap Key.
Hypothesis L : Lawful c.

(** After a write that returned, the document of the identity of the
    last snapshot written holds what the [$set] of that snapshot
    wrote. *)
Lemma save_upsert_last (env : Env) (w w' : World) (pre : list Snap) (s : Snap) :
  save_upsert c (pre ++ [s]) env w = (Ok tt, w') ->
  exists doc,
    In doc (collection (Current c) (db w'))
    /\ (fields doc = s \/ exists stored, fields doc = set_fields c s stored).
Proof.
  intros H.
  assert (Hne : pre ++ [s] <> []) by (destruct pre; discriminate).
  destruct (@save_upsert_run _ _ c L (pre ++ [s]) env w Hne _ _ H)
    as (r1 & w1 & _ & [(e & _ & He & _)|(count & tick & next & applied & _ & _ & Hw & Hr)]);
    [discriminate|].
  destruct Hr as [[_ ->]|(n & Hthrow & _)]; [|discriminate].
  rewrite stamp_app, fold_left_app in Hw. cbn [stamp fold_left] in Hw.
  match type of Hw with
  | _ = fst (apply_updateOne _ ?st ?op) =>
      pose proof (@apply_updateOne_on_key _ _ c L (key c s) s
                    (clock env (length pre + tick)) st) as Hk
  end.
  rewrite <- Hw in Hk.
  assert (E : key_eqb c (key c s) (key c s) = true) by (apply (key_eqb_eq L); reflexivity).
  rewrite E in Hk.
  match type of Hk with
  | _ = match ?l with _ => _ end => destruct l as [|stored rest]
  end.
  - exists (mkDocument (Some (snd (fold_left (apply_updateOne (Current c))
                                    (stamp (upsert_operation c) env tick pre)
                                    (collection (Current c) (db w1), next))))
              s (clock env (length pre + tick))).
    split; [|left; reflexivity].
    eapply (proj1 (filter_In _ _ _)). rewrite Hk. left. reflexivity.
  - exists (mkDocument (_id stored) (set_fields c s (fields stored))
              (clock env (length pre + tick))).
    split; [|right; exists (fields stored); reflexivity].
    eapply (proj1 (filter_In _ _ _)). rewrite Hk. left. reflexivity.
Qed.

End LastUpsert.

(** After a save of port snapshots that returned, some stored document
    has the fetch time and the status of one of them. *)
Lemma saved_port_fetched_at (env : Env) (w w' : World) (data : list PortSnapshot) :
  data <> [] ->
  savePortWeatherData data env w = (Ok tt, w') ->
  exists doc s,
    In doc (port_weather (db w')) /\ In s data
    /\ fetched_at (fields doc) = fetched_at s
    /\ status (fields doc) = status s.
Proof.
  intros Hne H. destruct (exists_last Hne) as (pre & s & ->).
  destruct (@save_upsert_last _ _ PortClass PortClass_lawful env w w' pre s H)
    as (doc & Hin & Hfields).
  exists doc, s. split; [exact Hin|]. split; [apply in_or_app; right; left; reflexivity|].
  destruct Hfields as [->|(stored & ->)]; split; reflexivity.
Qed.

(** X17 — Whatever was saved makes the class fresh.  After
    [savePortWeatherData] has returned for snapshots that are all within
    the window at the next clock reading — successful or not:
    [fetchPortWeather] stamps [fetched_at] on a failed snapshot as on a
    successful one — [isPortWeatherFresh] returns true when its query
    succeeds. *)
Theorem saved_ports_are_fresh (env : Env) (w w' : World) (data : list PortSnapshot)
    (maxAgeHours : Q) :
  data <> [] ->
  savePortWeatherData data env w = (Ok tt, w') ->
  (forall s, In s data ->
             (age_hours (clock env (ticks w')) (fetched_at s) <= maxAgeHours)%Q) ->
  store_fault env (store_ops w') = None ->
  fst (isPortWeatherFresh maxAgeHours env w') = Ok true.
Proof.
  intros Hne Hsave Hage Hfault.
  destruct (@saved_port_fetched_at env w w' data Hne Hsave) as (doc & s & Hin & Hs & Hf & _).
  rewrite isPortWeatherFresh_run, Hfault.
  pose proof (greatest_spec (fun doc : Document PortSnapshot => fetched_at (fields doc))
                (port_weather (db w'))) as Hg.
  destruct (greatest _ (port_weather (db w'))) as [newest|].
  - destruct Hg as [_ Hmax]. cbn [fst]. f_equal. apply Qle_bool_iff.
    eapply Qle_trans; [|exact (Hage s Hs)]. rewrite <- Hf.
    apply age_hours_le. apply (Hmax doc Hin).
  - rewrite Hg in Hin. contradiction.
Qed.

Lemma saved_ports_are_fresh_witness :
  let env := env_of 6000 network_down in
  exists w',
    savePortWeatherData [fields sabang_timed_out] env world0 = (Ok tt, w')
    /\ fst (isPortWeatherFresh 6 env w') = Ok true.
Proof.
  cbv zeta.
  destruct (@save_upsert_returns _ _ PortClass (env_of 6000 network_down) world0
              [fields sabang_timed_out] (fun _ => eq_refl)) as (w' & Hsave).
  rewrite <- savePortWeatherData_generic in Hsave.
  exists w'. split; [exact Hsave|].
  apply (@saved_ports_are_fresh (env_of 6000 network_down) world0 w'
           [fields sabang_timed_out] 6).
  - discriminate.
  - exact Hsave.
  - intros s [<-|[]]. apply Qle_bool_iff; vm_compute; reflexivity.
  - reflexivity.
Defined.
(* ================================================================== *)
(** * The whole run of the port collector *)
(* ================================================================== *)

Lemma quiet_refl (w : World) : quiet w w.
Proof. repeat split. Qed.

Lemma quiet_trans (w1 w2 w3 : World) : quiet w1 w2 -> quiet w2 w3 -> quiet w1 w3.
Proof. unfold quiet. intros (A1 & A2 & A3) (B1 & B2 & B3). repeat split; congruence. Qed.

Lemma quiet_logged (env : Env) (msg : LogMessage) (level : string) (w : World) :
  quiet w (set_trace (trace w ++ [EvLog (clock env (ticks w)) level msg])
             (set_ticks (S (ticks w)) w)).
Proof.
  repeat split. cbn [trace set_trace]. rewrite gets_of_app, app_nil_r. reflexivity.
Qed.

(** Connecting, when the store answers. *)
Lemma connectDatabase_ok (env : Env) (w : World) :
  (forall k, store_fault env k = None) ->
  exists w1,
    connectDatabase env w = (Ok tt, w1)
    /\ quiet w w1 /\ ticks w1 = ticks w /\ isConnected w1 = true.
Proof.
  intros Hf.
  cbv [connectDatabase bind ret try_catch read_isConnected mongoose_call store_op
       write_isConnected console_log emit throw].
  destruct (isConnected w) eqn:Hc;
    cbn [isConnected ticks trace store_ops set_trace set_ticks set_store_ops set_isConnected].
  - eexists. split; [reflexivity|]. unfold quiet.
    cbn [db requests trace ticks isConnected set_trace].
    rewrite gets_of_app, app_nil_r. repeat split; try reflexivity. exact Hc.
  - rewrite Hf.
    cbn [isConnected ticks trace store_ops set_trace set_ticks set_store_ops set_isConnected].
    eexists. split; [reflexivity|]. unfold quiet.
    cbn [db requests trace ticks isConnected set_trace set_store_ops set_isConnected].
    rewrite !gets_of_app, !app_nil_r. repeat split; reflexivity.
Qed.

Lemma some_port_within_greatest (maxAgeHours : Q) (now : Z) (d : Db) :
  match greatest (fun doc => fetched_at (fields doc)) (port_weather d) with
  | Some doc =>
      Qle_bool (age_hours now (fetched_at (fields doc))) maxAgeHours = true
      <-> some_port_within maxAgeHours now d
  | None => ~ some_port_within maxAgeHours now d
  end.
Proof.
  pose proof (greatest_spec (fun doc : Document PortSnapshot => fetched_at (fields doc))
                (port_weather d)) as Hg.
  destruct (greatest _ (port_weather d)) as [doc|].
  - destruct Hg as [Hin Hmax]. rewrite Qle_bool_iff. split.
    + intros H. exists doc. split; assumption.
    + intros (doc' & Hin' & Hage). eapply Qle_trans; [|exact Hage].
      apply age_hours_le. apply (Hmax doc' Hin').
  - intros (doc' & Hin' & _). rewrite Hg in Hin'. contradiction.
Qed.

(** The freshness check of the collector, when the store answers: it
    returns whether some stored snapshot is within the window. *)
Lemma checkDataFreshness_run (freshness_port : Q) (env : Env) (w : World) :
  (forall k, store_fault env k = None) ->
  exists fresh w1,
    PortWeatherMain.checkDataFreshness freshness_port env w = (Ok fresh, w1)
    /\ quiet w w1 /\ isConnected w1 = isConnected w
    /\ (fresh = true <-> some_port_within freshness_port (clock env (ticks w)) (db w)).
Proof.
  intros Hf. unfold PortWeatherMain.checkDataFreshness, try_catch. unfold bind at 1.
  rewrite isPortWeatherFresh_run, Hf.
  pose proof (some_port_within_greatest freshness_port (clock env (ticks w)) (db w)) as Hg.
  destruct (greatest _ (port_weather (db w))) as [doc|].
  - destruct (Qle_bool _ freshness_port) eqn:Hfresh.
    + eexists. eexists. unfold bind, ret. rewrite logWithTimestamp_run.
      split; [reflexivity|]. split; [|split; [reflexivity|exact Hg]].
      unfold quiet. cbn [db requests trace set_trace set_ticks bump_ops set_store_ops].
      rewrite gets_of_app, app_nil_r. repeat split; reflexivity.
    + eexists. eexists. unfold bind, ret. rewrite logWithTimestamp_run.
      split; [reflexivity|]. split; [|split; [reflexivity|exact Hg]].
      unfold quiet. cbn [db requests trace set_trace set_ticks bump_ops set_store_ops].
      rewrite gets_of_app, app_nil_r. repeat split; reflexivity.
  - eexists. eexists. unfold bind, ret. rewrite logWithTimestamp_run.
    split; [reflexivity|]. split; [|split; [reflexivity|]].
    + unfold quiet. cbn [db requests trace set_trace set_ticks bump_ops set_store_ops].
      rewrite gets_of_app, app_nil_r. repeat split; reflexivity.
    + split; [discriminate|]. intros H. contradiction.
Qed.

(** The run as far as the freshness check. *)
Lemma port_main_gate (freshness_port : Q) (loadPortData : M (list Port)) (env : Env)
    (w : World) :
  (forall k, store_fault env k = None) ->
  exists fresh w1,
    quiet w w1 /\ isConnected w1 = true
    /\ (fresh = true <-> some_port_within freshness_port (clock env (S (S (ticks w)))) (db w))
    /\ PortWeatherMain.main freshness_port loadPortData env w
       = try_catch
           (if fresh then
              logWithTimestamp (Text "Port weather data is still fresh. No update needed.")
                "info" ;;
              ret 0
            else
              ports <- loadPortData ;;
              let ports_length := Z.of_nat (length ports) in
              if ports_length =? 0 then
                logWithTimestamp (Text "No ports found. Exiting.") "error" ;;
                ret 1
              else
                logWithTimestamp
                  (Text ("Found " ++ string_of_Z ports_length ++ " ports to process")) "info" ;;
                logWithTimestamp
                  (Text ("Estimated time: ~" ++ string_of_Z (ceil_div ports_length 120)
                         ++ " minutes (with 500ms delays)")) "info" ;;
                logWithTimestamp (Text "Starting data collection...") "info" ;;
                collected <- collect ports ;;
                let '(results, successful, failed) := collected in
                logWithTimestamp (Text (rule 50)) "info" ;;
                logWithTimestamp (Text "FINAL RESULTS") "info" ;;
                logWithTimestamp (Text (rule 50)) "info" ;;
                logWithTimestamp
                  (Text ("Total ports processed: " ++ string_of_Z ports_length)) "info" ;;
                logWithTimestamp (Text ("Successful: " ++ string_of_Z successful)) "info" ;;
                logWithTimestamp (Text ("Failed: " ++ string_of_Z failed)) "info" ;;
                logWithTimestamp (SuccessRate successful ports_length) "info" ;;
                saved <-
                  try_catch
                    (savePortWeatherData results ;;
                     logWithTimestamp
                       (Text ("Saved " ++ string_of_Z (Z.of_nat (length results))
                              ++ " port entries to MongoDB port_weather collection"))
                       "info" ;;
                     ret true)
                    (fun error =>
                       logWithTimestamp
                         (Text ("Failed to save port data to MongoDB: " ++ message error))
                         "error" ;;
                       ret false) ;;
                if negb saved then ret 1
                else if successful >? 0 then
                  logWithTimestamp
                    (Text ("Ready to integrate " ++ string_of_Z successful
                           ++ " ports into your weather map!")) "info" ;;
                  ret 0
                else
                  logWithTimestamp
                    (Text
                       "No successful data collected. Check your internet connection and API status.")
                    "warn" ;;
                  ret 1)
           (fun error =>
              logWithTimestamp
                (Text ("Error during port weather data update: " ++ message error)) "error" ;;
              console_log (FatalError (message error)) ;;
              ret 1)
           env w1.
Proof.
  intros Hf. unfold PortWeatherMain.main.
  unfold bind at 1. rewrite logWithTimestamp_run.
  unfold bind at 1. rewrite logWithTimestamp_run.
  set (w_a := set_trace _ (set_ticks _ (set_trace _ _))).
  assert (Qa : quiet w w_a).
  { subst w_a. eapply quiet_trans; [apply quiet_logged|]. apply quiet_logged. }
  assert (Ta : ticks w_a = S (S (ticks w))) by reflexivity.
  destruct (@connectDatabase_ok env w_a Hf) as (w_c & Hc & Qc & Tc & Hconn).
  destruct (@checkDataFreshness_run freshness_port env w_c Hf)
    as (fresh & w_f & Hfresh & Qf & Hconn' & Hiff).
  exists fresh, w_f.
  split; [eapply quiet_trans; [exact Qa|]; eapply quiet_trans; [exact Qc|exact Qf]|].
  split; [congruence|].
  split.
  { rewrite Hiff, Tc, Ta. destruct Qc as (Hdb & _). destruct Qa as (Hdb' & _).
    rewrite Hdb, Hdb'. reflexivity. }
  unfold try_catch at 1 3. unfold bind at 1. rewrite Hc.
  unfold bind at 1. rewrite Hfresh. reflexivity.
Qed.

(** The run when the class is fresh: it ends at the gate. *)
Lemma port_main_fresh (freshness_port : Q) (loadPortData : M (list Port)) (env : Env)
    (w : World) :
  (forall k, store_fault env k = None) ->
  some_port_within freshness_port (clock env (S (S (ticks w)))) (db w) ->
  exists w', PortWeatherMain.main freshness_port loadPortData env w = (Ok 0, w')
             /\ quiet w w'.
Proof.
  intros Hf Hfresh.
  destruct (@port_main_gate freshness_port loadPortData env w Hf)
    as (fresh & w1 & Q1 & _ & Hiff & ->).
  apply Hiff in Hfresh. subst fresh.
  unfold try_catch, bind. rewrite logWithTimestamp_run. unfold ret.
  eexists. split; [reflexivity|].
  eapply quiet_trans; [exact Q1|apply quiet_logged].
Qed.

(** X18 — The freshness gate of the port collector.  When the store
    answers and some stored port snapshot is within the window, the run
    resolves to 0 at the gate: the ports are not even loaded, no request
    is issued, and the database is left as it was. *)
Theorem port_main_skips_when_fresh (freshness_port : Q) (loadPortData : M (list Port))
    (env : Env) (w : World) :
  (forall k, store_fault env k = None) ->
  some_port_within freshness_port (clock env (S (S (ticks w)))) (db w) ->
  exists w',
    PortWeatherMain.main freshness_port loadPortData env w = (Ok 0, w')
    /\ db w' = db w
    /\ requests w' = requests w
    /\ gets_of (trace w') = gets_of (trace w).
Proof.
  intros Hf Hfresh.
  destruct (@port_main_fresh freshness_port loadPortData env w Hf Hfresh)
    as (w' & Hrun & Hdb & Hreq & Hgets).
  exists w'. repeat split; assumption.
Qed.

Lemma port_main_skips_when_fresh_witness :
  let env := env_of 6000 network_down in
  ((forall k, store_fault env k = None)
   /\ some_port_within 6 (clock env (S (S (ticks (world_of port_db))))) (db (world_of port_db)))
  /\ exists w',
       PortWeatherMain.main 6 hang env (world_of port_db) = (Ok 0, w')
       /\ requests w' = 0%nat.
Proof.
  cbv zeta.
  assert (H1 : forall k, store_fault (env_of 6000 network_down) k = None) by reflexivity.
  assert (H2 : some_port_within 6
                 (clock (env_of 6000 network_down) (S (S (ticks (world_of port_db)))))
                 (db (world_of port_db))).
  { exists sabang_timed_out. split; [left; reflexivity|]. apply Qle_bool_iff; vm_compute; reflexivity. }
  split; [split; assumption|].
  destruct (@port_main_skips_when_fresh 6 hang (env_of 6000 network_down)
              (world_of port_db) H1 H2) as (w' & Hrun & _ & Hreq & _).
  exists w'. split; [exact Hrun|exact Hreq].
Defined.

(** What every snapshot of the loop has when every one a fetch returns
    has it. *)
Lemma main_loop_all (P : PortSnapshot -> Prop) (env : Env) (total : Z) :
  (forall port w0 result w1, fetchPortWeather port env w0 = (Ok result, w1) -> P result) ->
  forall (ports : list Port) (w : World) (i : Z) (results : list PortSnapshot)
         (successful failed : Z) all successful' failed' w',
    main_loop ports total i results successful failed env w
    = (Ok (all, successful', failed'), w') ->
    Forall P results -> Forall P all.
Proof.
  intros HP. induction ports as [|port ports IH];
    intros w i results successful failed all successful' failed' w' Hrun Hall.
  - injection Hrun as <- _ _ _. exact Hall.
  - cbn [main_loop] in Hrun. unfold bind at 1 in Hrun. rewrite logWithTimestamp_run in Hrun.
    unfold bind at 1 in Hrun.
    match type of Hrun with
    | context [fetchPortWeather port env ?w0] =>
        destruct (fetchPortWeather_spec port env w0) as (result & w1 & Hfetch & _)
    end.
    rewrite Hfetch in Hrun. pose proof (HP _ _ _ _ Hfetch) as Hres.
    unfold bind at 1 in Hrun.
    set (counted := (if (status result =? "success")%string
                     then logWithTimestamp PortSuccess "info" ;; ret (successful + 1, failed)
                     else logWithTimestamp (PortFailed (error_or_unknown result)) "warn" ;;
                          ret (successful, failed + 1)) env w1) in Hrun.
    assert (Hc : exists counts w2, counted = (Ok counts, w2)).
    { subst counted. destruct (status result =? "success")%string;
        eexists; eexists; reflexivity. }
    destruct Hc as ([successful1 failed1] & w2 & Hcounted).
    rewrite Hcounted in Hrun. clear counted Hcounted.
    unfold bind at 1 in Hrun.
    set (progressed := (if (i + 1) mod 50 =? 0
                        then logWithTimestamp (Progress (i + 1) total) "info" ;;
                             logWithTimestamp (ProgressCounts successful1 failed1) "info"
                        else ret tt) env w2) in Hrun.
    assert (Hp : exists w3, progressed = (Ok tt, w3)).
    { subst progressed. destruct ((i + 1) mod 50 =? 0); eexists; reflexivity. }
    destruct Hp as (w3 & Hprogressed).
    rewrite Hprogressed in Hrun. clear progressed Hprogressed.
    unfold bind at 1 in Hrun. unfold ask at 1 in Hrun. unfold bind at 1 in Hrun.
    unfold sleep at 1, emit at 1 in Hrun.
    apply (IH _ _ _ _ _ _ _ _ _ Hrun).
    apply Forall_app. split; [exact Hall|]. constructor; [exact Hres|constructor].
Qed.

(** One fetch that the provider rejects. *)
Lemma fetchPortWeather_rejected (env : Env) :
  (forall k, exists e, axios_get env k = Rejected e) ->
  forall port w0 result w1,
    fetchPortWeather port env w0 = (Ok result, w1) ->
    status result = "error" /\ exists t, fetched_at result = clock env t.
Proof.
  intros Hnet port w0 result w1.
  cbv [fetchPortWeather try_catch bind ask logWithTimestamp axios_get_ new_Date emit ret].
  cbn [requests set_trace set_ticks ticks trace].
  destruct (Hnet (requests w0)) as (e & ->).
  intros [= <- _]. split; [reflexivity|]. eexists. reflexivity.
Qed.

(** The loop when the provider rejects every request. *)
Lemma collect_all_rejected (env : Env) (w : World) (ports : list Port) :
  (forall k, exists e, axios_get env k = Rejected e) ->
  exists results failed w',
    collect ports env w = (Ok (results, 0, failed), w')
    /\ length results = length ports
    /\ Forall (fun result => status result = "error"
                             /\ exists t, fetched_at result = clock env t) results
    /\ db w' = db w
    /\ requests w' = (requests w + length ports)%nat.
Proof.
  intros Hnet. unfold collect.
  destruct (main_loop_spec env (Z.of_nat (length ports)) ports w 0 [] 0 0)
    as (results & successful & failed & w' & Hloop & Hof & _ & Hs & _ & Hreq & Hdb).
  cbn [app] in Hloop.
  pose proof (@main_loop_all _ env _ (@fetchPortWeather_rejected env Hnet)
                _ _ _ _ _ _ _ _ _ _ Hloop (Forall_nil _)) as Hall.
  assert (Hnone : List.filter is_success results = []).
  { clear -Hall. induction Hall as [|r l [Hst _] _ IH]; [reflexivity|].
    cbn [List.filter]. unfold is_success at 1. rewrite Hst. exact IH. }
  rewrite Hnone in Hs. cbn in Hs. subst successful.
  exists results, failed, w'. split; [exact Hloop|].
  split; [symmetry; eapply Forall2_length; exact Hof|].
  split; [exact Hall|]. split; [exact Hdb|exact Hreq].
Qed.

(** The run when the class is stale and the provider rejects every
    request: every port is fetched, the snapshots, all tagged ['error'],
    are saved, and the run resolves to 1. *)
Lemma port_main_all_fail (freshness_port : Q) (loadPortData : M (list Port)) (env : Env)
    (w : World) :
  (forall k, store_fault env k = None) ->
  (forall k, exists e, axios_get env k = Rejected e) ->
  loads_ports loadPortData env ->
  ~ some_port_within freshness_port (clock env (S (S (ticks w)))) (db w) ->
  exists w',
    PortWeatherMain.main freshness_port loadPortData env w = (Ok 1, w')
    /\ (requests w < requests w')%nat
    /\ exists doc t,
         In doc (port_weather (db w'))
         /\ status (fields doc) = "error"
         /\ fetched_at (fields doc) = clock env t.
Proof.
  intros Hf Hnet Hload Hstale.
  destruct (@port_main_gate freshness_port loadPortData env w Hf)
    as (fresh & w1 & Q1 & _ & Hiff & ->).
  destruct fresh; [exfalso; apply Hstale, Hiff; reflexivity|].
  unfold try_catch at 1. unfold bind at 1.
  destruct (Hload w1) as (ports & w2 & -> & Hne & Hdb2 & _ & Hreq2 & _).
  cbv zeta. rewrite (length_nonzero Hne).
  unfold bind at 1. rewrite logWithTimestamp_run.
  unfold bind at 1. rewrite logWithTimestamp_run.
  unfold bind at 1. rewrite logWithTimestamp_run.
  unfold bind at 1.
  match goal with
  | |- context [collect ports env ?w0] =>
      destruct (@collect_all_rejected env w0 ports Hnet)
        as (results & failed & w3 & -> & Hlen & Hall & Hdb3 & Hreq3)
  end.
  cbn [requests db set_trace set_ticks] in Hdb3, Hreq3.
  unfold bind at 1. rewrite logWithTimestamp_run.
  unfold bind at 1. rewrite logWithTimestamp_run.
  unfold bind at 1. rewrite logWithTimestamp_run.
  unfold bind at 1. rewrite logWithTimestamp_run.
  unfold bind at 1. rewrite logWithTimestamp_run.
  unfold bind at 1. rewrite logWithTimestamp_run.
  unfold bind at 1. rewrite logWithTimestamp_run.
  unfold bind at 1. unfold try_catch at 1. unfold bind at 1.
  assert (Hres : results <> [])
    by (destruct results; [destruct ports; [congruence|discriminate]|discriminate]).
  match goal with
  | |- context [savePortWeatherData results env ?w0] =>
      destruct (@save_upsert_returns _ _ PortClass env w0 results Hf)
        as (w4 & Hsave)
  end.
  rewrite savePortWeatherData_generic, Hsave.
  unfold bind at 1. rewrite logWithTimestamp_run. unfold ret at 1.
  cbn [negb]. change (0 >? 0) with false. cbv iota.
  unfold bind at 1. rewrite logWithTimestamp_run. unfold ret.
  eexists. split; [reflexivity|].
  cbn [requests db set_trace set_ticks].
  rewrite <- savePortWeatherData_generic in Hsave.
  destruct (@saved_port_fetched_at _ _ _ _ Hres Hsave) as (doc & s & Hin & Hs & Hfetched & Hstatus).
  match type of Hsave with
  | savePortWeatherData _ _ ?w0 = _ =>
      pose proof (proj1 (keeps_traffic_savePortWeatherData results env w0)) as Hreq4
  end.
  rewrite Hsave in Hreq4. cbn [snd requests set_trace set_ticks] in Hreq4.
  split.
  - destruct Q1 as (_ & Hreq1 & _). destruct ports; [congruence|]. cbn [length] in Hreq3. lia.
  - rewrite Forall_forall in Hall. destruct (Hall s Hs) as (Herr & t & Ht).
    exists doc, t. split; [exact Hin|]. split; congruence.
Qed.

(** A stored snapshot stamped by the clock is within the window at every
    reading of a clock that stays within it. *)
Lemma stamped_within (window : Q) (env : Env) (d : Db) (now : nat) :
  clock_within window env ->
  (exists doc t, In doc (port_weather d) /\ fetched_at (fields doc) = clock env t) ->
  some_port_within window (clock env now) d.
Proof.
  intros Hclock (doc & t & Hin & Hf). exists doc. split; [exact Hin|].
  rewrite Hf. apply Hclock.
Qed.

(** X19 — A run that fetched nothing makes the next one skip.  When the
    stored port data is stale and the provider rejects every request, the
    run saves the snapshots it built — all tagged ['error'] — and resolves
    to 1; but those snapshots carry the time of their fetch, so a second
    run whose clock is still within the window finds the class fresh: it
    resolves to 0 without issuing a request or touching the database. *)
Theorem port_main_errors_count_as_fresh (freshness_port : Q)
    (loadPortData : M (list Port)) (env : Env) (w : World) :
  (forall k, store_fault env k = None) ->
  (forall k, exists e, axios_get env k = Rejected e) ->
  loads_ports loadPortData env ->
  ~ some_port_within freshness_port (clock env (S (S (ticks w)))) (db w) ->
  clock_within freshness_port env ->
  exists w1 w2,
    PortWeatherMain.main freshness_port loadPortData env w = (Ok 1, w1)
    /\ (requests w < requests w1)%nat
    /\ (exists doc, In doc (port_weather (db w1)) /\ status (fields doc) = "error")
    /\ PortWeatherMain.main freshness_port loadPortData env w1 = (Ok 0, w2)
    /\ requests w2 = requests w1
    /\ db w2 = db w1.
Proof.
  intros Hf Hnet Hload Hstale Hclock.
  destruct (@port_main_all_fail freshness_port loadPortData env w Hf Hnet Hload Hstale)
    as (w1 & Hrun1 & Hreq1 & doc & t & Hin & Hst & Hfetched).
  assert (Hfresh : some_port_within freshness_port (clock env (S (S (ticks w1)))) (db w1)).
  { apply stamped_within; [exact Hclock|]. exists doc, t. split; assumption. }
  destruct (@port_main_fresh freshness_port loadPortData env w1 Hf Hfresh)
    as (w2 & Hrun2 & Hdb2 & Hreq2 & _).
  exists w1, w2. split; [exact Hrun1|]. split; [exact Hreq1|].
  split; [exists doc; split; assumption|].
  split; [exact Hrun2|]. split; assumption.
Qed.

Lemma load_sabang_loads (env : Env) : loads_ports load_sabang env.
Proof.
  intros w. exists [sabang], w. split; [reflexivity|].
  split; [discriminate|]. repeat split; reflexivity.
Qed.

Lemma stale_when_empty (window : Q) (now : Z) (d : Db) :
  port_weather d = [] -> ~ some_port_within window now d.
Proof. intros He (doc & Hin & _). rewrite He in Hin. exact Hin. Qed.

Lemma standing_clock_within (now : Z) (http : nat -> HttpOutcome) :
  clock_within 6 (env_of now http).
Proof.
  intros i j. unfold age_hours, env_of. cbn [clock]. rewrite Z.sub_diag.
  apply Qle_bool_iff; vm_compute; reflexivity.
Qed.

Lemma port_main_errors_count_as_fresh_witness :
  let env := env_of 6000 network_down in
  exists w1 w2,
    PortWeatherMain.main 6 load_sabang env world0 = (Ok 1, w1)
    /\ PortWeatherMain.main 6 load_sabang env w1 = (Ok 0, w2)
    /\ requests w2 = requests w1.
Proof.
  cbv zeta.
  assert (H1 : forall k, store_fault (env_of 6000 network_down) k = None) by reflexivity.
  assert (H2 : forall k, exists e, axios_get (env_of 6000 network_down) k = Rejected e)
    by (intros k; eexists; reflexivity).
  assert (H3 : ~ some_port_within 6
                   (clock (env_of 6000 network_down) (S (S (ticks world0)))) (db world0))
    by (apply stale_when_empty; reflexivity).
  destruct (@port_main_errors_count_as_fresh 6 load_sabang (env_of 6000 network_down) world0
              H1 H2 (load_sabang_loads _) H3 (standing_clock_within 6000 network_down))
    as (w1 & w2 & Hrun1 & _ & _ & Hrun2 & Hreq & _).
  exists w1, w2. split; [exact Hrun1|]. split; [exact Hrun2|exact Hreq].
Defined.

(** X20 — The orchestrator counts such a collector as successful.  Under
    the same conditions, with the stored data stale at every reading of
    the clock, [runCollectorWithRetry] with three attempts resolves to
    [true] for the port collector, although every request it issued was
    rejected and the snapshots it stored are tagged ['error']: the first
    run resolves to 1, which is thrown and retried, and the second stops
    at the freshness gate and resolves to 0. *)
Theorem runCollectorWithRetry_port_all_rejected (freshness_port : Q)
    (loadPortData : M (list Port)) (env : Env) (w : World) :
  (forall k, store_fault env k = None) ->
  (forall k, exists e, axios_get env k = Rejected e) ->
  loads_ports loadPortData env ->
  (forall t, ~ some_port_within freshness_port (clock env t) (db w)) ->
  clock_within freshness_port env ->
  exists w',
    runCollectorWithRetry (port_collector freshness_port loadPortData) 3 env w = (Ok true, w')
    /\ (requests w < requests w')%nat
    /\ exists doc, In doc (port_weather (db w')) /\ status (fields doc) = "error".
Proof.
  intros Hf Hnet Hload Hstale Hclock.
  unfold runCollectorWithRetry, retryWithBackoff.
  change (Z.to_nat 3) with 3%nat. cbn [retryWithBackoff_loop fn port_collector collector_name].
  unfold bind at 1. rewrite logWithTimestamp_run.
  unfold try_catch at 1. unfold bind at 1. unfold try_catch at 1. unfold bind at 1.
  unfold bind at 1.
  match goal with
  | |- context [PortWeatherMain.main freshness_port loadPortData env ?w0] =>
      destruct (@port_main_all_fail freshness_port loadPortData env w0 Hf Hnet Hload
                  (Hstale _))
        as (w1 & -> & Hreq1 & doc & t & Hin & Hst & Hfetched)
  end.
  cbn [requests db set_trace set_ticks] in Hreq1.
  change (negb (1 =? 0)) with true. cbv iota. unfold throw at 1.
  change (1 =? 3) with false. cbv iota. cbv zeta.
  unfold bind at 1. unfold console_log at 1, emit at 1.
  unfold bind at 1. unfold sleep at 1, emit at 1.
  unfold try_catch at 1. unfold bind at 1. unfold bind at 1.
  match goal with
  | |- context [PortWeatherMain.main freshness_port loadPortData env ?w0] =>
      assert (Hfresh : some_port_within freshness_port (clock env (S (S (ticks w0)))) (db w0))
        by (apply stamped_within; [exact Hclock|]; exists doc, t; split; assumption);
      destruct (@port_main_fresh freshness_port loadPortData env w0 Hf Hfresh)
        as (w2 & -> & Hdb2 & Hreq2 & Hgets2)
  end.
  cbn [requests db trace set_trace set_ticks] in Hdb2, Hreq2.
  change (negb (0 =? 0)) with false. cbv iota. unfold ret at 1. unfold ret at 1.
  unfold bind at 1. rewrite logWithTimestamp_run. unfold ret at 1.
  eexists. split; [reflexivity|].
  cbn [requests db trace set_trace set_ticks].
  split; [lia|]. exists doc. rewrite Hdb2. split; assumption.
Qed.

Lemma runCollectorWithRetry_port_all_rejected_witness :
  let env := env_of 6000 network_down in
  exists w',
    runCollectorWithRetry (port_collector 6 load_sabang) 3 env world0 = (Ok true, w')
    /\ (0 < requests w')%nat.
Proof.
  cbv zeta.
  assert (H1 : forall k, store_fault (env_of 6000 network_down) k = None) by reflexivity.
  assert (H2 : forall k, exists e, axios_get (env_of 6000 network_down) k = Rejected e)
    by (intros k; eexists; reflexivity).
  assert (H3 : forall t, ~ some_port_within 6 (clock (env_of 6000 network_down) t) (db world0))
    by (intros t; apply stale_when_empty; reflexivity).
  destruct (@runCollectorWithRetry_port_all_rejected 6 load_sabang
              (env_of 6000 network_down) world0
              H1 H2 (load_sabang_loads _) H3 (standing_clock_within 6000 network_down))
    as (w' & Hrun & Hreq & _).
  exists w'. split; [exact Hrun|exact Hreq].
Defined.

(* ================================================================== *)
(** * The cleanup utility ([utils/cleanupHistory.js]) *)
(* ================================================================== *)

Lemma connectDatabase_cases (env : Env) (w : World) :
  exists w1,
    db w1 = db w
    /\ ((connectDatabase env w = (Ok tt, w1) /\ isConnected w1 = true)
        \/ (connectDatabase env w = (Throw store_error, w1) /\ store_fails env)).
Proof.
  cbv [connectDatabase bind ret try_catch read_isConnected mongoose_call store_op
       write_isConnected console_log emit throw].
  destruct (isConnected w) eqn:Hc;
    cbn [isConnected ticks trace store_ops set_trace set_ticks set_store_ops set_isConnected].
  - eexists. split; [|left; split; [reflexivity|]]; [reflexivity|exact Hc].
  - destruct (store_fault env (store_ops w)) eqn:Hfault;
      eexists; (split; [|first [left; split; reflexivity
                               |right; split; [reflexivity|]]]); try reflexivity.
    exists (store_ops w). rewrite Hfault. discriminate.
Qed.

Lemma disconnectDatabase_cases (env : Env) (w : World) :
  exists w1,
    db w1 = db w
    /\ ((disconnectDatabase env w = (Ok tt, w1) /\ isConnected w1 = false)
        \/ (disconnectDatabase env w = (Throw store_error, w1) /\ store_fails env)).
Proof.
  cbv [disconnectDatabase bind ret try_catch read_isConnected mongoose_call store_op
       write_isConnected console_log emit throw].
  destruct (isConnected w) eqn:Hc;
    cbn [negb isConnected ticks trace store_ops set_trace set_ticks set_store_ops
         set_isConnected].
  - destruct (store_fault env (store_ops w)) eqn:Hfault;
      eexists; (split; [|first [left; split; reflexivity
                               |right; split; [reflexivity|]]]); try reflexivity.
    exists (store_ops w). rewrite Hfault. discriminate.
  - eexists. split; [|left; split; [reflexivity|]]; [reflexivity|exact Hc].
Qed.

Lemma cleanupOldHistory_cases (env : Env) (w : World) (daysToKeep : Z) :
  exists w1,
    current_collections (db w1) = current_collections (db w)
    /\ isConnected w1 = isConnected w
    /\ ((exists counts cutoff,
           cleanupOldHistory daysToKeep env w = (Ok counts, w1)
           /\ setDate_back (LocalTZA env) (clock env (ticks w)) daysToKeep = Some cutoff
           /\ cleaned cutoff (db w) (db w1))
        \/ (exists e,
              cleanupOldHistory daysToKeep env w = (Throw e, w1)
              /\ (store_fails env \/ cutoff_invalid env daysToKeep))).
Proof.
  destruct (setDate_back (LocalTZA env) (clock env (ticks w)) daysToKeep) as [cutoff|] eqn:Hc.
  2:{ rewrite (cleanupOldHistory_invalid env w daysToKeep Hc).
      exists (set_ticks (S (ticks w)) w).
      split; [reflexivity|]. split; [reflexivity|]. right. exists cast_error.
      split; [reflexivity|]. right. exists (ticks w). exact Hc. }
  destruct (store_fault env (store_ops w)) as [n0|] eqn:F0;
    destruct (store_fault env (S (store_ops w))) as [n1|] eqn:F1;
    destruct (store_fault env (S (S (store_ops w)))) as [n2|] eqn:F2.
  8:{ rewrite (cleanupOldHistory_run env w daysToKeep F0 F1 F2 Hc). eexists.
      split; [|split; [|left; eexists; exists cutoff;
                        split; [reflexivity|split; [reflexivity|]]]];
        try reflexivity.
      repeat split; reflexivity. }
  all: remember (cleanupOldHistory daysToKeep env w) as run eqn:Hrun;
    unfold cleanupOldHistory, bind at 1, new_Date in Hrun; unfold bind at 1, ask in Hrun;
    cbn [ticks set_ticks] in Hrun; rewrite Hc in Hrun;
    unfold deleteMany_archived_before, bind, Promise_all3 in Hrun;
    rewrite deleteMany_run in Hrun; cbn [store_ops ticks db set_ticks] in Hrun;
    rewrite F0 in Hrun;
    cbv beta iota in Hrun; rewrite deleteMany_run in Hrun;
    cbn [store_ops db set_db bump_ops set_store_ops set_ticks] in Hrun; rewrite F1 in Hrun;
    cbv beta iota in Hrun; rewrite deleteMany_run in Hrun;
    cbn [store_ops db set_db bump_ops set_store_ops set_ticks] in Hrun; rewrite F2 in Hrun;
    cbv beta iota in Hrun; subst run; eexists;
    (split; [|split; [|right; exists store_error; split; [reflexivity|left]]]);
    try reflexivity;
    first [ exists (store_ops w); rewrite F0; discriminate
          | exists (S (store_ops w)); rewrite F1; discriminate
          | exists (S (S (store_ops w))); rewrite F2; discriminate ].
Qed.

(** The [catch] block of the utility. *)
Lemma cleanup_catch_run (env : Env) (w : World) (error : Error) :
  exists w1,
    (logWithTimestamp (Text ("Error during cleanup: " ++ message error)) "error" ;;
     console_log (FatalError (message error)) ;;
     try_catch disconnectDatabase (fun _ => ret tt) ;;
     ret 1) env w = (Ok 1, w1)
    /\ db w1 = db w.
Proof.
  unfold bind at 1. rewrite logWithTimestamp_run.
  unfold bind at 1. unfold console_log at 1, emit at 1.
  unfold bind at 1. unfold try_catch at 1.
  match goal with
  | |- context [disconnectDatabase env ?w0] =>
      destruct (disconnectDatabase_cases env w0) as (w1 & Hdb & [[-> _]|[-> _]])
  end; unfold ret; eexists; (split; [reflexivity|]); exact Hdb.
Qed.

(** A logged line changes neither the database nor the connection. *)
Lemma log_then (A : Type) (msg : LogMessage) (level : string) (k : unit -> M A)
    (env : Env) (w : World) :
  exists w1,
    bind (logWithTimestamp msg level) k env w = k tt env w1
    /\ db w1 = db w /\ isConnected w1 = isConnected w.
Proof.
  unfold bind. rewrite logWithTimestamp_run. eexists. split; [reflexivity|].
  split; reflexivity.
Qed.

Ltac log_step Hdb Hc :=
  match goal with
  | |- context [bind (logWithTimestamp ?msg ?level) ?k ?env ?w] =>
      let w1 := fresh "w" in
      destruct (@log_then _ msg level k env w) as (w1 & -> & Hdb & Hc);
      cbv beta
  end.

(** The [try] block of the utility, once the database is connected. *)
Lemma cleanup_try_run (daysToKeep : Z) (env : Env) (w : World) :
  exists r w',
    (logWithTimestamp (Text "Connected to MongoDB") "info" ;;
     now <- new_Date ;;
     env <- ask ;;
     cutoffText <- CleanupHistory.toISOString (setDate_back (LocalTZA env) now daysToKeep) ;;
     logWithTimestamp (Text ("Deleting records older than: " ++ cutoffText)) "info" ;;
     logWithTimestamp (Text "") "info" ;;
     logWithTimestamp (Text "Starting cleanup...") "info" ;;
     result <- cleanupOldHistory daysToKeep ;;
     logWithTimestamp (Text (rule 50)) "info" ;;
     logWithTimestamp (Text "Cleanup Results:") "info" ;;
     logWithTimestamp (Text (rule 50)) "info" ;;
     logWithTimestamp
       (Text ("City weather history deleted: " ++ string_of_Z (city result))) "info" ;;
     logWithTimestamp
       (Text ("Grid weather history deleted: " ++ string_of_Z (grid result))) "info" ;;
     logWithTimestamp
       (Text ("Port weather history deleted: " ++ string_of_Z (port result))) "info" ;;
     logWithTimestamp
       (Text ("Total records deleted: " ++ string_of_Z (total result))) "info" ;;
     logWithTimestamp (Text (rule 50)) "info" ;;
     (if total result >? 0
      then logWithTimestamp
             (Text ("Successfully cleaned up " ++ string_of_Z (total result) ++ " old records"))
             "info"
      else logWithTimestamp (Text "No old records found to delete") "info") ;;
     disconnectDatabase ;;
     ret 0) env w = (r, w')
    /\ current_collections (db w') = current_collections (db w)
    /\ ((r = Ok 0 /\ isConnected w' = false
         /\ exists t cutoff,
              setDate_back (LocalTZA env) (clock env t) daysToKeep = Some cutoff
              /\ cleaned cutoff (db w) (db w'))
        \/ (exists e, r = Throw e
                      /\ (store_fails env \/ cutoff_invalid env daysToKeep))).
Proof.
  log_step Hdb1 Hc1.
  unfold bind at 1. unfold new_Date at 1. unfold bind at 1. unfold ask at 1.
  match goal with
  | |- context [set_ticks ?n w0] =>
      assert (Hw : exists w1, set_ticks n w0 = w1 /\ db w1 = db w0)
        by (eexists; split; reflexivity);
      destruct Hw as (w1 & -> & Hdb1')
  end.
  unfold bind at 1.
  destruct (setDate_back (LocalTZA env) (clock env (ticks w0)) daysToKeep) as [first|] eqn:Hfirst.
  2:{ cbn [CleanupHistory.toISOString]. unfold throw. eexists. eexists.
      split; [reflexivity|]. split; [unfold current_collections; congruence|].
      right. eexists. split; [reflexivity|]. right. exists (ticks w0). exact Hfirst. }
  cbn [CleanupHistory.toISOString]. unfold ret at 1.
  log_step Hdb2 Hc2. log_step Hdb3 Hc3. log_step Hdb4 Hc4.
  unfold bind at 1.
  match goal with
  | |- context [cleanupOldHistory ?days env ?w0] =>
      destruct (cleanupOldHistory_cases env w0 days)
        as (w5 & Hcur5 & Hc5
            & [(counts & cutoff & -> & Hcut & Hcleaned)|(e & -> & Hfail)])
  end.
  2:{ eexists. eexists. split; [reflexivity|].
      split; [rewrite Hcur5; unfold current_collections; congruence|].
      right. exists e. split; [reflexivity|exact Hfail]. }
  assert (Hdb04 : db w4 = db w) by congruence.
  rewrite Hdb04 in Hcleaned.
  assert (Hcur : current_collections (db w5) = current_collections (db w))
    by (rewrite Hcur5, Hdb04; reflexivity).
  clear Hdb1 Hc1 Hdb1' Hdb2 Hc2 Hdb3 Hc3 Hdb4 Hc4 Hc5 Hcur5 Hdb04.
  log_step Hdb6 Hc6. log_step Hdb7 Hc7. log_step Hdb8 Hc8. log_step Hdb9 Hc9.
  log_step Hdb10 Hc10. log_step Hdb11 Hc11. log_step Hdb12 Hc12. log_step Hdb13 Hc13.
  unfold bind at 1.
  match goal with
  | |- context [(if ?b then ?l1 else ?l2) env ?w0] =>
      assert (Hlog : exists w3, (if b then l1 else l2) env w0 = (Ok tt, w3) /\ db w3 = db w0)
        by (destruct b; rewrite logWithTimestamp_run; eexists; split; reflexivity);
      destruct Hlog as (w14 & -> & Hdb14)
  end.
  assert (Hdb : db w14 = db w5) by congruence.
  clear Hdb6 Hc6 Hdb7 Hc7 Hdb8 Hc8 Hdb9 Hc9 Hdb10 Hc10 Hdb11 Hc11 Hdb12 Hc12 Hdb13 Hc13 Hdb14.
  unfold bind at 1.
  destruct (disconnectDatabase_cases env w14) as (w15 & Hdb15 & [[-> Hc15]|[-> Hfail]]).
  - unfold ret. eexists. eexists. split; [reflexivity|].
    rewrite Hdb15, Hdb. split; [exact Hcur|].
    left. split; [reflexivity|]. split; [exact Hc15|]. eexists. exists cutoff.
    split; [exact Hcut|exact Hcleaned].
  - eexists. eexists. split; [reflexivity|].
    rewrite Hdb15, Hdb. split; [exact Hcur|].
    right. exists store_error. split; [reflexivity|left; exact Hfail].
Qed.

(** X21 — The contract of the cleanup utility.  Whatever the store does,
    [main] resolves — it neither throws nor hangs — and to 0 or 1; it
    never touches a current collection.  When it resolves to 0 the
    connection is closed and the three history collections are what a
    cleanup keeps for the cutoff, a date, that [setDate] gives at a
    reading of the clock for [daysToKeep] days, where [daysToKeep] is the
    argument, or 90 when the argument is absent, not a number, or 0.  It
    resolves to 1 only if some store operation failed or the cutoff was
    not a date — an argument so large that it is not makes
    [toISOString] throw. *)
Theorem cleanup_main_contract (argument : option Z) (env : Env) (w : World) :
  exists code w',
    CleanupHistory.main argument env w = (Ok code, w')
    /\ (code = 0 \/ code = 1)
    /\ current_collections (db w') = current_collections (db w)
    /\ (code = 0 ->
        isConnected w' = false
        /\ exists t cutoff,
             setDate_back (LocalTZA env) (clock env t) (CleanupHistory.days_to_keep argument)
             = Some cutoff
             /\ cleaned cutoff (db w) (db w'))
    /\ (code = 1 ->
        store_fails env \/ cutoff_invalid env (CleanupHistory.days_to_keep argument)).
Proof.
  unfold CleanupHistory.main. cbv zeta.
  log_step Hdb1 Hc1. log_step Hdb2 Hc2. log_step Hdb3 Hc3. log_step Hdb4 Hc4.
  assert (Hdb0 : db w3 = db w) by congruence.
  clear Hdb1 Hc1 Hdb2 Hc2 Hdb3 Hc3 Hdb4 Hc4.
  unfold try_catch at 1. unfold bind at 1.
  destruct (connectDatabase_cases env w3) as (w4 & Hdb4 & [[-> Hc4]|[-> Hfail]]).
  2:{ destruct (cleanup_catch_run env w4 store_error) as (w5 & Hrun & Hdb5).
      exists 1, w5. split; [exact Hrun|]. split; [right; reflexivity|].
      split; [rewrite Hdb5, Hdb4, Hdb0; reflexivity|].
      split; [discriminate|intros _; left; exact Hfail]. }
  cbv beta.
  destruct (cleanup_try_run (CleanupHistory.days_to_keep argument) env w4)
    as (r & w5 & -> & Hcur & [(-> & Hc5 & t & cutoff & Hcut & Hcleaned)|(e & -> & Hfail)]).
  - exists 0, w5. split; [reflexivity|]. split; [left; reflexivity|].
    rewrite Hdb4, Hdb0 in Hcur, Hcleaned. split; [exact Hcur|].
    split; [|discriminate]. intros _. split; [exact Hc5|]. exists t, cutoff.
    split; [exact Hcut|exact Hcleaned].
  - destruct (cleanup_catch_run env w5 e) as (w6 & Hrun & Hdb6).
    exists 1, w6. split; [exact Hrun|]. split; [right; reflexivity|].
    split; [rewrite Hdb6, Hcur, Hdb4, Hdb0; reflexivity|].
    split; [discriminate|intros _; exact Hfail].
Qed.

(** A run with the argument [0]: 90 days are kept. *)
Example cleanup_main_with_zero :
  let r := CleanupHistory.main (Some 0) (env_of retention_now network_down)
             (world_of retention_db) in
  fst r = Ok 0
  /\ db (snd r)
     = db (snd (cleanupOldHistory 90 (env_of retention_now network_down)
                  (world_of retention_db))).
Proof. vm_compute. split; reflexivity. Qed.

(** A run keeping 200 000 000 days: the cutoff is not a date, the run
    resolves to 1 though the store never fails, and nothing is deleted. *)
Example cleanup_main_with_an_invalid_cutoff :
  let r := CleanupHistory.main (Some 200000000) (env_of retention_now network_down)
             (world_of retention_db) in
  fst r = Ok 1
  /\ db (snd r) = retention_db
  /\ store_ops (snd r) = 2%nat.
Proof. vm_compute. repeat split; reflexivity. Qed.

(* ================================================================== *)
(** * The orchestrator when the database cannot be reached *)
(* ================================================================== *)

(** X22 — No connection, no collector.  When the orchestrator starts
    unconnected and the connection fails, [main] resolves to 1 without
    running any collector: whatever the list of collectors, the run is
    the run of the empty list; the database is untouched, no request is
    issued, and the connection flag stays unset. *)
Theorem orchestrator_without_connection (COLLECTORS : list Collector) (env : Env) (w : World) :
  isConnected w = false ->
  store_fault env (store_ops w) <> None ->
  main COLLECTORS env w = main [] env w
  /\ fst (main COLLECTORS env w) = Ok 1
  /\ db (snd (main COLLECTORS env w)) = db w
  /\ requests (snd (main COLLECTORS env w)) = requests w
  /\ isConnected (snd (main COLLECTORS env w)) = false.
Proof.
  intros Hc Hfault.
  assert (Hrun : forall collectors, exists w',
             main collectors env w = (Ok 1, w')
             /\ w' = snd (main [] env w)
             /\ db w' = db w /\ requests w' = requests w /\ isConnected w' = false).
  { intros collectors.
    cbv [main announce on_fatal_error connectDatabase disconnectDatabase bind ret try_catch
         read_isConnected mongoose_call store_op write_isConnected console_log emit throw
         logWithTimestamp Date_now new_Date ask].
    cbn [isConnected ticks trace store_ops db requests set_trace set_ticks set_store_ops
         set_isConnected].
    rewrite Hc. cbv beta iota.
    cbn [isConnected ticks trace store_ops db requests set_trace set_ticks set_store_ops
         set_isConnected].
    destruct (store_fault env (store_ops w)) as [n|]; [|contradiction].
    cbv beta iota.
    cbn [isConnected ticks trace store_ops db requests set_trace set_ticks set_store_ops
         set_isConnected negb fst snd].
    rewrite ?Hc. cbv beta iota. cbn [negb]. cbv beta iota.
    eexists. split; [reflexivity|].
    cbn [snd db requests isConnected set_trace set_ticks set_store_ops].
    repeat split; try reflexivity. exact Hc. }
  destruct (Hrun COLLECTORS) as (w1 & H1 & Hsame & Hdb & Hreq & Hflag).
  destruct (Hrun []) as (w0 & H0 & Hsame0 & _).
  rewrite H1. cbn [fst snd]. split; [|repeat split; assumption].
  rewrite H0. f_equal. rewrite Hsame, H0. reflexivity.
Qed.

Lemma orchestrator_without_connection_witness :
  let env := mkEnv (fun _ => 0) (fun _ => Some 0%nat) network_down config0 utc in
  fst (main [city_ok; grid_failing; port_ok] env world0) = Ok 1
  /\ requests (snd (main [city_ok; grid_failing; port_ok] env world0)) = 0%nat.
Proof.
  cbv zeta.
  assert (H1 : isConnected world0 = false) by reflexivity.
  assert (H2 : store_fault (mkEnv (fun _ => 0) (fun _ => Some 0%nat) network_down config0 utc)
                 (store_ops world0) <> None) by discriminate.
  destruct (@orchestrator_without_connection [city_ok; grid_failing; port_ok]
              (mkEnv (fun _ => 0) (fun _ => Some 0%nat) network_down config0 utc) world0 H1 H2)
    as (_ & Hcode & _ & Hreq & _).
  split; [exact Hcode|exact Hreq].
Defined.

(* ================================================================== *)
(** * The run of the grid collector *)
(* ================================================================== *)

Lemma saves_when_keeps (A : Type) (env : Env) (m : M A) :
  keeps_db m -> saves_only_what_it_fetched env m.
Proof. intros Hm w. left. apply Hm. Qed.

Lemma saves_after (A B : Type) (env : Env) (m : M A) (k : A -> M B) :
  keeps_db m ->
  (forall a, saves_only_what_it_fetched env (k a)) ->
  saves_only_what_it_fetched env (bind m k).
Proof.
  intros Hm Hk w. unfold bind. specialize (Hm env w).
  destruct (m env w) as [[a|e|] w1]; cbn [snd] in *; [|left; exact Hm|left; exact Hm].
  destruct (Hk a w1) as [Hsame|(locations & w0 & data & w2 & Hfetch & Hne & Hdb & Hsaved)].
  - left. congruence.
  - right. exists locations, w0, data, w2. repeat split; try assumption. congruence.
Qed.

Lemma saves_try_catch (A : Type) (env : Env) (m : M A) (handler : Error -> M A) :
  saves_only_what_it_fetched env m ->
  (forall e, keeps_db (handler e)) ->
  saves_only_what_it_fetched env (try_catch m handler).
Proof.
  intros Hm Hh w. unfold try_catch. specialize (Hm w).
  destruct (m env w) as [[a|e|] w1]; cbn [snd] in *; try exact Hm.
  rewrite (Hh e env w1). exact Hm.
Qed.

(** The fetch of [main] and what follows it. *)
Lemma saves_fetch_then_save (env : Env) (gridPoints : list GridLocation) :
  saves_only_what_it_fetched env
    (gridWeatherData <- fetchWeatherDataBatched gridPoints (batchSize (config env)) ;;
     if Z.of_nat (length gridWeatherData) >? 0 then
       saveGridWeatherData gridWeatherData ;;
       logWithTimestamp
         (Text ("Saved " ++ string_of_Z (Z.of_nat (length gridWeatherData))
                ++ " grid points to MongoDB grid_weather collection")) "info" ;;
       logWithTimestamp (Text "Grid weather data collection complete!") "info" ;;
       ret 0
     else
       logWithTimestamp (Text "Failed to fetch grid weather data") "error" ;;
       ret 1).
Proof.
  intros w. unfold bind at 1.
  pose proof (@keeps_db_fetchWeatherDataBatched gridPoints (batchSize (config env)) env w)
    as Hdb.
  destruct (fetchWeatherDataBatched gridPoints (batchSize (config env)) env w)
    as [[data|e|] w1] eqn:Hfetch; cbn [snd] in *; [|left; exact Hdb|left; exact Hdb].
  destruct data as [|s data].
  - left. cbn [length Z.of_nat]. change (0 >? 0) with false. cbv iota.
    unfold bind. rewrite logWithTimestamp_run. exact Hdb.
  - right. exists gridPoints, w, (s :: data), w1.
    split; [exact Hfetch|]. split; [discriminate|]. split; [reflexivity|].
    unfold bind at 1. rewrite Hfetch. cbv beta iota.
    replace (Z.of_nat (length (s :: data)) >? 0) with true
      by (symmetry; apply Z.gtb_lt; cbn [length]; lia).
    cbv iota. unfold bind at 1.
    destruct (saveGridWeatherData (s :: data) env w1) as [[[]|e|] w2]; cbn [snd];
      reflexivity.
Qed.

(** With every request rejected the batched fetch returns nothing. *)
Lemma delivered_all_rejected (env : Env) (R : nat) :
  all_rejected env -> forall batches k, delivered env R batches k = [].
Proof.
  intros Hnet.
  assert (Hnone : forall batch attempts k, first_served env batch attempts k = None).
  { intros batch. induction attempts as [|attempts IH]; intros k; [reflexivity|].
    cbn [first_served]. destruct (Hnet k) as (e & ->). cbn [serves_none served].
    apply IH. }
  induction batches as [|batch batches IH]; intros k; [reflexivity|].
  cbn [delivered]. rewrite Hnone. apply IH.
Qed.

Lemma fetched_nothing_when_rejected (env : Env) (locations : list GridLocation)
    (w0 w1 : World) (data : list PointSnapshot) :
  all_rejected env ->
  fetchWeatherDataBatched locations (batchSize (config env)) env w0 = (Ok data, w1) ->
  data = [].
Proof.
  intros Hnet Hfetch.
  destruct locations as [|l locations].
  - unfold fetchWeatherDataBatched, fetchWeatherDataBatched_with in Hfetch.
    cbn [length Z.of_nat] in Hfetch. change (0 =? 0) with true in Hfetch. cbv iota in Hfetch.
    unfold ret in Hfetch. congruence.
  - assert (Hne : l :: locations <> []) by discriminate.
    destruct (Z_lt_le_dec 0 (batchSize (config env))) as [Hpos|Hle].
    + destruct (@fetchWeatherDataBatched_run env w0 (l :: locations) _ Hne Hpos)
        as (batches & output & w' & _ & Hrun & Hout & _).
      rewrite Hrun in Hfetch. injection Hfetch as <- _.
      rewrite delivered_all_rejected in Hout by exact Hnet.
      destruct output; [reflexivity|discriminate].
    + pose proof (@fetchWeatherDataBatched_hangs (l :: locations) _ env w0 Hne Hle) as Hhang.
      rewrite Hfetch in Hhang. discriminate.
Qed.

(** X23 — The grid run writes only what it fetched.  Whatever the
    freshness check and the loader of the grid do short of writing to the
    database, and however the run ends, [main] changes the database in one
    way only: by the one call of [saveGridWeatherData], on a list that is
    not empty and that [fetchWeatherDataBatched] returned.  So a run whose
    requests are all rejected leaves the stored grid as it was: the
    replacement of the collection never runs on an empty fetch. *)
Theorem grid_main_writes_only_what_it_fetched (checkDataFreshness : M bool)
    (loadGridCoordinates : M (list GridLocation)) (env : Env) :
  keeps_db checkDataFreshness ->
  keeps_db loadGridCoordinates ->
  saves_only_what_it_fetched env (GridWeatherMain.main checkDataFreshness loadGridCoordinates)
  /\ (all_rejected env ->
      forall w,
        db (snd (GridWeatherMain.main checkDataFreshness loadGridCoordinates env w)) = db w).
Proof.
  intros Hcheck Hload.
  assert (Hconnect : keeps_db connectDatabase).
  { intros env0 w0. destruct (connectDatabase_cases env0 w0) as (w1 & Hdb & [[-> _]|[-> _]]);
      exact Hdb. }
  assert (Hmain : saves_only_what_it_fetched env
                    (GridWeatherMain.main checkDataFreshness loadGridCoordinates)).
  { unfold GridWeatherMain.main.
    apply saves_after; [apply keeps_db_emit|intros _].
    do 4 (apply saves_after; [apply keeps_db_logWithTimestamp|intros _]).
    apply saves_try_catch; [|intros e; unfold console_log; keeps_db].
    apply saves_after; [apply keeps_db_logWithTimestamp|intros _].
    apply saves_after; [exact Hconnect|intros _].
    do 2 (apply saves_after; [apply keeps_db_logWithTimestamp|intros _]).
    apply saves_after; [exact Hcheck|intros fresh].
    destruct fresh; [apply saves_when_keeps; unfold console_log; keeps_db|].
    apply saves_after; [apply keeps_db_logWithTimestamp|intros _].
    apply saves_after; [exact Hload|intros gridPoints].
    destruct (Z.of_nat (length gridPoints) =? 0); [apply saves_when_keeps; keeps_db|].
    intros w. unfold bind at 1. unfold ask at 1.
    apply saves_fetch_then_save. }
  split; [exact Hmain|].
  intros Hnet w.
  destruct (Hmain w) as [Hsame|(locations & w0 & data & w1 & Hfetch & Hne & _)];
    [exact Hsame|].
  exfalso. apply Hne. exact (@fetched_nothing_when_rejected env locations w0 w1 data Hnet Hfetch).
Qed.

Lemma grid_main_writes_only_what_it_fetched_witness :
  let env := env_of 0 network_down in
  db (snd (GridWeatherMain.main (ret false) (ret one_location) env (world_of grid_db)))
  = grid_db.
Proof.
  cbv zeta.
  assert (H1 : keeps_db (ret false)) by apply keeps_db_ret.
  assert (H2 : keeps_db (ret one_location)) by apply keeps_db_ret.
  assert (H3 : all_rejected (env_of 0 network_down)) by (intros k; eexists; reflexivity).
  exact (proj2 (@grid_main_writes_only_what_it_fetched (ret false) (ret one_location)
                  (env_of 0 network_down) H1 H2) H3 (world_of grid_db)).
Defined.

(** A run that fetches one point of a stored grid of two: the run
    resolves to 0 and the other point is gone from the collection. *)
Example grid_main_partial_fetch :
  let r := GridWeatherMain.main (ret false) (ret one_location)
             (env_of 0 (fun _ => Resolved 200 (VArr [entry]))) (world_of grid_db) in
  fst r = Ok 0
  /\ length (grid_weather (db (snd r))) = 1%nat
  /\ length (grid_weather grid_db) = 2%nat.
Proof. vm_compute. repeat split; reflexivity. Qed.
